(** * A shallow embedding of the CTP market-data gateway

    The development follows the C++ sources of the gateway:

    - [Double]: IEEE 754 binary64 values as the C++ [double] has them
      (comparison, multiplication, division, libm's [round]);
    - [Quote]: [MarketDataStruct], [build_market_data_struct],
      [struct_to_json], [has_struct_changes], [compute_struct_diff]
      (market_data_server.cpp);
    - [Dispatch]: [CTPConnection], [CTPConnectionManager] and
      [SubscriptionDispatcher] (subscription_dispatcher.cpp);
    - [Gateway]: the seqlock quote cache and the peek protocol of
      [MarketDataServer], and [WebSocketSession::handle_message];
    - [Client]: what applying a frame means on the receiving side;
    - [Spec]: the statements of the specification the code is compared
      with, and [Scenario]: concrete runs.

    The definitions come first; the lemmas and the properties of the
    specification follow them.

    Threads are not modelled: every member function runs to completion on
    the state it is given (the mutexes of the sources serialise them). *)

From Stdlib Require Import ZArith Bool List String Ascii Lia.
From Stdlib Require Import Floats.SpecFloat.
From stdpp Require Import base gmap strings list fin_maps sorting.

Local Open Scope string_scope.
Local Open Scope list_scope.
Local Open Scope Z_scope.

(* ===================================================================== *)
(** ** IEEE 754 binary64                                                  *)
(* ===================================================================== *)

Module Double.

(** A C++ [double] is a binary64 value: 53 bits of precision, infinities
    at exponent 1024.  [spec_float] is the Standard Library's inductive
    specification of such values (one NaN, no payload). *)
Definition prec : Z := 53.
Definition emax : Z := 1024.
Definition double : Type := spec_float.

Definition zero : double := S754_zero false.

(** Conversion of an integer to the nearest double. *)
Definition of_Z (z : Z) : double := binary_normalize prec emax z 0 false.

Definition mul (a b : double) : double := SFmul prec emax a b.
Definition div (a b : double) : double := SFdiv prec emax a b.
Definition abs (a : double) : double := SFabs a.

(** The comparison operators of C++ on doubles: every comparison with a
    NaN is false except [!=], and the two zeros are equal. *)
Definition lt (a b : double) : bool :=
  match SFcompare a b with Some Lt => true | _ => false end.
Definition gt (a b : double) : bool :=
  match SFcompare a b with Some Gt => true | _ => false end.
Definition le (a b : double) : bool :=
  match SFcompare a b with Some (Lt | Eq) => true | _ => false end.
Definition ge (a b : double) : bool :=
  match SFcompare a b with Some (Gt | Eq) => true | _ => false end.
Definition eq (a b : double) : bool :=
  match SFcompare a b with Some Eq => true | _ => false end.
Definition ne (a b : double) : bool := negb (eq a b).

Definition is_nan (a : double) : bool :=
  match a with S754_nan => true | _ => false end.

(** [std::isfinite]: neither a NaN nor an infinity. *)
Definition is_finite (a : double) : bool :=
  match a with S754_zero _ | S754_finite _ _ _ => true | _ => false end.

(** [memcmp] of two doubles: equality of representations. *)
Definition bits_eqb (a b : double) : bool :=
  match a, b with
  | S754_zero s, S754_zero s' => Bool.eqb s s'
  | S754_infinity s, S754_infinity s' => Bool.eqb s s'
  | S754_nan, S754_nan => true
  | S754_finite s m e, S754_finite s' m' e' =>
      Bool.eqb s s' && Pos.eqb m m' && Z.eqb e e'
  | _, _ => false
  end.

(** libm's [round]: the nearest integral value, halfway cases away from
    zero.  A finite double with a non-negative exponent is integral; for
    [m * 2^-k] the integer part is [m >> k] and the fraction is at least
    one half exactly when bit [k-1] of [m] is set. *)
Definition round (x : double) : double :=
  match x with
  | S754_finite s m (Zneg k) =>
      let q := Z.shiftr (Zpos m) (Zpos k) in
      let n := if Z.testbit (Zpos m) (Zpos k - 1) then q + 1 else q in
      match n with
      | Z0 => S754_zero s
      | _ => binary_normalize prec emax (cond_Zopp s n) 0 s
      end
  | _ => x
  end.

(** [static_cast<int64_t>] of a double truncates toward zero.  C++ leaves
    the result undefined for NaN, infinities and values out of range; the
    model returns the x86-64 result (the smallest int64) there. *)
Definition int64_min : Z := - 2 ^ 63.
Definition to_int64 (x : double) : Z :=
  match x with
  | S754_zero _ => 0
  | S754_finite s m e =>
      let mag := if 0 <=? e then Z.shiftl (Zpos m) e
                 else Z.shiftr (Zpos m) (- e) in
      if mag <? 2 ^ 63 then cond_Zopp s mag else int64_min
  | _ => int64_min
  end.

(** The sign bit of a double; a NaN has none. *)
Definition sign_is (b : bool) (x : double) : Prop :=
  match x with
  | S754_zero s | S754_infinity s | S754_finite s _ _ => s = b
  | S754_nan => False
  end.

(** The literals of the sources. *)
Definition lit_1e_6 : double :=
  Eval vm_compute in div (of_Z 1) (of_Z 1000000).
Definition lit_1e300 : double :=
  Eval vm_compute in of_Z (10 ^ 300).
Definition lit_100 : double :=
  Eval vm_compute in of_Z 100.

End Double.

Abbreviation double := Double.double.

(* ===================================================================== *)
(** ** JSON values                                                        *)
(* ===================================================================== *)

(** What rapidjson's [Value] and [Writer] are given.  An object keeps its
    members in the order they were added; the writer's [Int], [Int64] and
    [Uint64] are all [JInt]; [JDouble d] stands for the call
    [Double(d)].  The library writes a number for a finite [d] only:
    for a NaN or an infinity the call fails and the text is not JSON, so
    what is stated of the frames a client reads is stated for finite
    doubles ([Spec.finite_doubles], [Spec.sane_event]). *)
#[warnings="-register-all"]
Inductive json : Type :=
| JNull
| JBool (b : bool)
| JInt (z : Z)
| JDouble (d : double)
| JString (s : string)
| JArray (l : list json)
| JObject (members : list (string * json)).

Definition members_of (j : json) : list (string * json) :=
  match j with JObject ms => ms | _ => [] end.

(** The first member with the given name ([Value::FindMember]). *)
Fixpoint find_member (key : string) (ms : list (string * json)) : option json :=
  match ms with
  | [] => None
  | (k, v) :: rest => if String.eqb k key then Some v else find_member key rest
  end.

Definition keys_of (j : json) : list string := map fst (members_of j).

(* ===================================================================== *)
(** ** Quote records                                                      *)
(* ===================================================================== *)

Module Quote.
Import Double.

(** *** C strings and character buffers *)

Definition NUL : ascii := Ascii.zero.

(** A [char] array is the list of its bytes; reading past the list reads
    a NUL. *)
Definition byte_at (buf : list ascii) (i : nat) : ascii := nth i buf NUL.

(** The C string a buffer holds: the bytes before the first NUL. *)
Fixpoint cstring (buf : list ascii) : string :=
  match buf with
  | [] => EmptyString
  | c :: rest => if Ascii.eqb c NUL then EmptyString else String c (cstring rest)
  end.

(** [s.c_str()] read as a C string: the characters before the first
    NUL of a [std::string]. *)
Definition c_str (s : string) : string := cstring (list_ascii_of_string s).

Fixpoint write_bytes (buf : list ascii) (off : nat) (bytes : list ascii) : list ascii :=
  match bytes with
  | [] => buf
  | c :: rest => write_bytes (<[off := c]> buf) (S off) rest
  end.

Definition is_digit (c : ascii) : bool :=
  (48 <=? N_of_ascii c)%N && (N_of_ascii c <=? 57)%N.

(** ['0' + d] stored into a [char]. *)
Definition digit_char (d : Z) : ascii := ascii_of_N (Z.to_N ((48 + d) mod 256)).

(** *** The upstream tick *)

(** The vendor header that declares [CThostFtdcDepthMarketDataField] is
    not part of the sources; the record lists the fields that
    [build_market_data_struct] and the tick callbacks read, with the
    vendor's names.  [TradingDay] and [UpdateTime] are [char[9]]. *)
Record CThostFtdcDepthMarketDataField : Type := {
  TradingDay : list ascii;
  InstrumentID : string;
  UpdateTime : list ascii;
  UpdateMillisec : Z;
  LastPrice : double;
  PreSettlementPrice : double;
  PreClosePrice : double;
  PreOpenInterest : double;
  OpenPrice : double;
  HighestPrice : double;
  LowestPrice : double;
  Volume : Z;
  Turnover : double;
  OpenInterest : double;
  ClosePrice : double;
  SettlementPrice : double;
  UpperLimitPrice : double;
  LowerLimitPrice : double;
  BidPrice1 : double; BidVolume1 : Z; AskPrice1 : double; AskVolume1 : Z;
  BidPrice2 : double; BidVolume2 : Z; AskPrice2 : double; AskVolume2 : Z;
  BidPrice3 : double; BidVolume3 : Z; AskPrice3 : double; AskVolume3 : Z;
  BidPrice4 : double; BidVolume4 : Z; AskPrice4 : double; AskVolume4 : Z;
  BidPrice5 : double; BidVolume5 : Z; AskPrice5 : double; AskVolume5 : Z
}.

(** *** MarketDataStruct (market_data_server.h) *)

(** The two [char[32]] fields are the C strings they hold: every reader
    ([strcmp], the JSON writers) treats them as such.  The four depth
    arrays are lists of ten elements. *)
Record MarketDataStruct : Type := {
  instrument_id : string;
  datetime : string;
  timestamp : Z;
  ask_price : list double;
  ask_volume : list Z;
  bid_price : list double;
  bid_volume : list Z;
  last_price : double;
  highest : double;
  lowest : double;
  open : double;
  close : double;
  average : double;
  volume : Z;
  amount : double;
  open_interest : Z;
  settlement : double;
  upper_limit : double;
  lower_limit : double;
  pre_open_interest : Z;
  pre_settlement : double;
  pre_close : double
}.

(** [memset(&data, 0, sizeof(data))]. *)
Definition zeroed : MarketDataStruct := {|
  instrument_id := EmptyString; datetime := EmptyString; timestamp := 0;
  ask_price := replicate 10 zero; ask_volume := replicate 10 0;
  bid_price := replicate 10 zero; bid_volume := replicate 10 0;
  last_price := zero; highest := zero; lowest := zero; open := zero;
  close := zero; average := zero; volume := 0; amount := zero;
  open_interest := 0; settlement := zero; upper_limit := zero;
  lower_limit := zero; pre_open_interest := 0; pre_settlement := zero;
  pre_close := zero |}.

Definition price_at (l : list double) (i : nat) : double := nth i l zero.
Definition volume_at (l : list Z) (i : nat) : Z := nth i l 0.

(** *** build_market_data_struct *)

(** [p > 1e-6 && p < 1e300] *)
Definition valid_price (p : double) : bool := gt p lit_1e_6 && lt p lit_1e300.

(** [round(p * 100.0) / 100.0] *)
Definition round2 (p : double) : double := div (round (mul p lit_100)) lit_100.

(** A scalar price field: assigned when the upstream value is valid, left
    at the zero of [memset] otherwise. *)
Definition stored_price (p : double) : double :=
  if valid_price p then round2 p else zero.

(** One depth level: price and volume are assigned together, and only
    when the price is valid. *)
Definition store_level (lv : list double * list Z) (i : nat) (p : double) (v : Z)
  : list double * list Z :=
  if valid_price p then (<[i := round2 p]> (fst lv), <[i := v]> (snd lv)) else lv.

(** [strncpy(dst, src.c_str(), n)] into a zeroed buffer of more than [n]
    bytes, read back as a C string. *)
Definition strncpy_c_str (src : string) (n : nat) : string :=
  c_str (substring 0 n src).

(** The hand-written [YYYY-MM-DD HH:MM:SS.mmm] string. *)
Definition build_datetime (td ut : list ascii) (ms : Z) : string :=
  let dt := replicate 32 NUL in
  let '(dt, off) :=
    if is_digit (byte_at td 0) then
      (write_bytes dt 0
         [byte_at td 0; byte_at td 1; byte_at td 2; byte_at td 3; "-"%char;
          byte_at td 4; byte_at td 5; "-"%char;
          byte_at td 6; byte_at td 7; " "%char], 11%nat)
    else (dt, 0%nat) in
  let dt :=
    if negb (Ascii.eqb (byte_at ut 0) NUL) then
      write_bytes dt off
        (map (byte_at ut) (seq 0 8) ++
         ["."%char;
          digit_char (Z.rem (Z.quot ms 100) 10);
          digit_char (Z.rem (Z.quot ms 10) 10);
          digit_char (Z.rem ms 10);
          NUL])
    else <[off := NUL]> dt in
  cstring dt.

Definition build_market_data_struct
    (pDepthMarketData : option CThostFtdcDepthMarketDataField)
    (display_instrument : string) (cur_time : Z) : MarketDataStruct :=
  match pDepthMarketData with
  | None => zeroed
  | Some d =>
      let asks := (replicate 10 zero, replicate 10 0) in
      let asks := store_level asks 4 (AskPrice5 d) (AskVolume5 d) in
      let asks := store_level asks 3 (AskPrice4 d) (AskVolume4 d) in
      let asks := store_level asks 2 (AskPrice3 d) (AskVolume3 d) in
      let asks := store_level asks 1 (AskPrice2 d) (AskVolume2 d) in
      let asks := store_level asks 0 (AskPrice1 d) (AskVolume1 d) in
      let bids := (replicate 10 zero, replicate 10 0) in
      let bids := store_level bids 0 (BidPrice1 d) (BidVolume1 d) in
      let bids := store_level bids 1 (BidPrice2 d) (BidVolume2 d) in
      let bids := store_level bids 2 (BidPrice3 d) (BidVolume3 d) in
      let bids := store_level bids 3 (BidPrice4 d) (BidVolume4 d) in
      let bids := store_level bids 4 (BidPrice5 d) (BidVolume5 d) in
      {| instrument_id := strncpy_c_str display_instrument 31;
         datetime := build_datetime (TradingDay d) (UpdateTime d) (UpdateMillisec d);
         timestamp := cur_time;
         ask_price := fst asks; ask_volume := snd asks;
         bid_price := fst bids; bid_volume := snd bids;
         last_price := stored_price (LastPrice d);
         highest := stored_price (HighestPrice d);
         lowest := stored_price (LowestPrice d);
         open := stored_price (OpenPrice d);
         close := stored_price (ClosePrice d);
         average := zero;
         volume := Volume d;
         amount := Turnover d;
         open_interest := to_int64 (OpenInterest d);
         settlement := stored_price (SettlementPrice d);
         upper_limit := stored_price (UpperLimitPrice d);
         lower_limit := stored_price (LowerLimitPrice d);
         pre_open_interest := to_int64 (PreOpenInterest d);
         pre_settlement := stored_price (PreSettlementPrice d);
         pre_close := stored_price (PreClosePrice d) |}
  end.

(** *** JSON keys of the depth levels *)

Definition ASK_PRICE_KEYS : list string :=
  ["ask_price1"; "ask_price2"; "ask_price3"; "ask_price4"; "ask_price5";
   "ask_price6"; "ask_price7"; "ask_price8"; "ask_price9"; "ask_price10"].
Definition ASK_VOLUME_KEYS : list string :=
  ["ask_volume1"; "ask_volume2"; "ask_volume3"; "ask_volume4"; "ask_volume5";
   "ask_volume6"; "ask_volume7"; "ask_volume8"; "ask_volume9"; "ask_volume10"].
Definition BID_PRICE_KEYS : list string :=
  ["bid_price1"; "bid_price2"; "bid_price3"; "bid_price4"; "bid_price5";
   "bid_price6"; "bid_price7"; "bid_price8"; "bid_price9"; "bid_price10"].
Definition BID_VOLUME_KEYS : list string :=
  ["bid_volume1"; "bid_volume2"; "bid_volume3"; "bid_volume4"; "bid_volume5";
   "bid_volume6"; "bid_volume7"; "bid_volume8"; "bid_volume9"; "bid_volume10"].

Definition key_at (keys : list string) (i : nat) : string := nth i keys EmptyString.

(** *** struct_to_json: the FULL form of a quote *)

Definition struct_to_json (data : MarketDataStruct) : json :=
  JObject (
    [("instrument_id", JString (instrument_id data));
     ("datetime", JString (datetime data));
     ("timestamp", JInt (timestamp data));
     ("ask_price10", JNull); ("ask_volume10", JNull);
     ("ask_price9", JNull); ("ask_volume9", JNull);
     ("ask_price8", JNull); ("ask_volume8", JNull);
     ("ask_price7", JNull); ("ask_volume7", JNull);
     ("ask_price6", JNull); ("ask_volume6", JNull)]
    ++ flat_map (fun i =>
         [(key_at ASK_PRICE_KEYS i, JDouble (price_at (ask_price data) i));
          (key_at ASK_VOLUME_KEYS i, JInt (volume_at (ask_volume data) i))])
         [4; 3; 2; 1; 0]%nat
    ++ flat_map (fun i =>
         [(key_at BID_PRICE_KEYS i, JDouble (price_at (bid_price data) i));
          (key_at BID_VOLUME_KEYS i, JInt (volume_at (bid_volume data) i))])
         [0; 1; 2; 3; 4]%nat
    ++
    [("bid_price6", JNull); ("bid_volume6", JNull);
     ("bid_price7", JNull); ("bid_volume7", JNull);
     ("bid_price8", JNull); ("bid_volume8", JNull);
     ("bid_price9", JNull); ("bid_volume9", JNull);
     ("bid_price10", JNull); ("bid_volume10", JNull);
     ("last_price", JDouble (last_price data));
     ("highest", JDouble (highest data));
     ("lowest", JDouble (lowest data));
     ("open", JDouble (open data));
     ("close", JDouble (close data));
     ("average", JNull);
     ("volume", JInt (volume data));
     ("amount", JDouble (amount data));
     ("open_interest", JInt (open_interest data));
     ("settlement", JDouble (settlement data));
     ("upper_limit", JDouble (upper_limit data));
     ("lower_limit", JDouble (lower_limit data));
     ("pre_open_interest", JInt (pre_open_interest data));
     ("pre_settlement", JDouble (pre_settlement data));
     ("pre_close", JDouble (pre_close data))]).

(** *** has_struct_changes and compute_struct_diff *)

(** [strcmp(a, b) != 0] *)
Definition str_ne (a b : string) : bool := negb (String.eqb a b).

(** [memcmp(a, b, sizeof a) != 0] on the ten-element arrays. *)
Definition prices_differ (a b : list double) : bool :=
  negb (forallb (fun i => bits_eqb (price_at a i) (price_at b i)) (seq 0 10)).
Definition volumes_differ (a b : list Z) : bool :=
  negb (forallb (fun i => Z.eqb (volume_at a i) (volume_at b i)) (seq 0 10)).

Definition has_struct_changes (old_data new_data : MarketDataStruct) : bool :=
  if str_ne (instrument_id old_data) (instrument_id new_data)
     || str_ne (datetime old_data) (datetime new_data)
     || negb (timestamp old_data =? timestamp new_data)
  then true
  else if prices_differ (ask_price old_data) (ask_price new_data)
     || volumes_differ (ask_volume old_data) (ask_volume new_data)
     || prices_differ (bid_price old_data) (bid_price new_data)
     || volumes_differ (bid_volume old_data) (bid_volume new_data)
  then true
  else if ne (last_price old_data) (last_price new_data)
     || ne (highest old_data) (highest new_data)
     || ne (lowest old_data) (lowest new_data)
     || ne (open old_data) (open new_data)
     || ne (close old_data) (close new_data)
     || ne (settlement old_data) (settlement new_data)
     || ne (upper_limit old_data) (upper_limit new_data)
     || ne (lower_limit old_data) (lower_limit new_data)
     || ne (pre_settlement old_data) (pre_settlement new_data)
     || ne (pre_close old_data) (pre_close new_data)
  then true
  else if negb (volume old_data =? volume new_data)
     || ne (amount old_data) (amount new_data)
     || negb (open_interest old_data =? open_interest new_data)
     || negb (pre_open_interest old_data =? pre_open_interest new_data)
  then true
  else false.

(** One guarded write of [compute_struct_diff]:
    [if (changed) { writer.Key(key); writer.Xxx(value); }] *)
Definition guarded : Type := bool * string * json.

Definition emit_if (changed : bool) (key : string) (value : json)
  : list (string * json) :=
  if changed then [(key, value)] else [].

(** The members the writer receives from a sequence of guarded writes. *)
Definition write_guarded (gs : list guarded) : list (string * json) :=
  flat_map (fun g : guarded => emit_if g.1.1 g.1.2 g.2) gs.

(** The lambda [add_price_diff] of [compute_struct_diff]. *)
Definition add_price_diff (key : string) (old_val new_val : double) : guarded :=
  (ne old_val new_val, key, JDouble new_val).

(** The body of the two loops over the depth levels. *)
Definition level_diff (pkeys vkeys : list string)
    (op np : list double) (ov nv : list Z) (i : nat) : list guarded :=
  [(ne (price_at op i) (price_at np i), key_at pkeys i, JDouble (price_at np i));
   (negb (volume_at ov i =? volume_at nv i), key_at vkeys i, JInt (volume_at nv i))].

(** The guarded writes of [compute_struct_diff], in program order. *)
Definition diff_fields (old_data new_data : MarketDataStruct) : list guarded :=
  [(str_ne (instrument_id old_data) (instrument_id new_data),
    "instrument_id", JString (instrument_id new_data));
   (str_ne (datetime old_data) (datetime new_data),
    "datetime", JString (datetime new_data));
   (negb (timestamp old_data =? timestamp new_data),
    "timestamp", JInt (timestamp new_data))]
  ++ flat_map (level_diff ASK_PRICE_KEYS ASK_VOLUME_KEYS
                 (ask_price old_data) (ask_price new_data)
                 (ask_volume old_data) (ask_volume new_data)) (seq 0 10)
  ++ flat_map (level_diff BID_PRICE_KEYS BID_VOLUME_KEYS
                 (bid_price old_data) (bid_price new_data)
                 (bid_volume old_data) (bid_volume new_data)) (seq 0 10)
  ++ [add_price_diff "last_price" (last_price old_data) (last_price new_data);
      add_price_diff "highest" (highest old_data) (highest new_data);
      add_price_diff "lowest" (lowest old_data) (lowest new_data);
      add_price_diff "open" (open old_data) (open new_data);
      add_price_diff "close" (close old_data) (close new_data);
      add_price_diff "upper_limit" (upper_limit old_data) (upper_limit new_data);
      add_price_diff "lower_limit" (lower_limit old_data) (lower_limit new_data);
      add_price_diff "pre_settlement" (pre_settlement old_data) (pre_settlement new_data);
      add_price_diff "pre_close" (pre_close old_data) (pre_close new_data);
      add_price_diff "settlement" (settlement old_data) (settlement new_data);
      (negb (volume old_data =? volume new_data), "volume", JInt (volume new_data));
      (ne (amount old_data) (amount new_data), "amount", JDouble (amount new_data));
      (negb (open_interest old_data =? open_interest new_data),
       "open_interest", JInt (open_interest new_data));
      (negb (pre_open_interest old_data =? pre_open_interest new_data),
       "pre_open_interest", JInt (pre_open_interest new_data))].

Definition compute_struct_diff (old_data new_data : MarketDataStruct) : json :=
  JObject (write_guarded (diff_fields old_data new_data)).

End Quote.

(* ===================================================================== *)
(** ** Iteration order of the ordered containers                          *)
(* ===================================================================== *)

(** [std::map<std::string, _>] and [std::set<std::string>] are traversed
    in increasing key order ([operator<] on strings: bytewise
    lexicographic). *)
Definition str_le (a b : string) : Prop := String.leb a b = true.
Definition key_le {V : Type} (a b : string * V) : Prop := str_le a.1 b.1.

#[global] Instance str_le_dec (a b : string) : Decision (str_le a b).
Proof. unfold str_le. apply _. Defined.
#[global] Instance key_le_dec {V : Type} (a b : string * V) : Decision (key_le a b).
Proof. unfold key_le. apply _. Defined.

Definition in_key_order {V : Type} (m : gmap string V) : list (string * V) :=
  merge_sort key_le (map_to_list m).
Definition in_order (s : gset string) : list string :=
  merge_sort str_le (elements s).

(** [m[k].insert(x)] on a map of sets: the entry is created when absent. *)
Definition insert_into (k x : string) (m : gmap string (gset string))
  : gmap string (gset string) :=
  <[k := {[x]} ∪ default ∅ (m !! k)]> m.

(** [it = m.find(k); if (it != end) { it->second.erase(x); if (empty) m.erase(it); }] *)
Definition erase_from (k x : string) (m : gmap string (gset string))
  : gmap string (gset string) :=
  match m !! k with
  | None => m
  | Some s =>
      let s' := s ∖ {[x]} in
      if decide (s' = ∅) then delete k m else <[k := s']> m
  end.

(* ===================================================================== *)
(** ** Upstream connections and the subscription dispatcher               *)
(* ===================================================================== *)

Module Dispatch.

Inductive CTPConnectionStatus : Type :=
| DISCONNECTED | CONNECTING | CONNECTED | LOGGED_IN | ERROR.

Inductive SubscriptionStatus : Type :=
| PENDING | SUBSCRIBING | ACTIVE | FAILED | CANCELLED.

#[global] Instance CTPConnectionStatus_eq_dec : EqDecision CTPConnectionStatus.
Proof. solve_decision. Defined.
#[global] Instance SubscriptionStatus_eq_dec : EqDecision SubscriptionStatus.
Proof. solve_decision. Defined.

(** multi_ctp_config.h *)
Record CTPConnectionConfig : Type := {
  front_addr : string;
  broker_id : string;
  connection_id : string;
  max_subscriptions : Z;
  priority : Z;
  enabled : bool
}.

(** The state of one [CTPConnection].  [subscribed_instruments_] is the
    [std::set] of the class. *)
Record CTPConnection : Type := {
  config_ : CTPConnectionConfig;
  status_ : CTPConnectionStatus;
  subscribed_instruments_ : gset string;
  error_count_ : Z
}.

(** subscription_dispatcher.h; times are ticks of the system clock. *)
Record SubscriptionInfo : Type := {
  instrument_id : string;
  assigned_connection_id : string;
  status : SubscriptionStatus;
  requesting_sessions : gset string;
  created_time : Z;
  last_update_time : Z;
  retry_count : Z
}.

(** The requests handed to the vendor API ([CThostFtdcMdApi]), each
    tagged with the connection that issued it. *)
Inductive UpstreamCall : Type :=
| ReqUserLogin (connection : string)
| SubscribeMarketData (connection instrument : string)
| UnSubscribeMarketData (connection instrument : string).

(** The connection manager and the dispatcher point at each other and at
    the shared connections; the model keeps their fields in one record.
    [upstream_calls] is the history of vendor requests, oldest first. *)
Record World : Type := {
  connections_ : gmap string CTPConnection;
  global_subscriptions_ : gmap string SubscriptionInfo;
  session_subscriptions_ : gmap string (gset string);
  connection_subscriptions_ : gmap string (gset string);
  round_robin_counter_ : Z;
  retry_set_ : gset string;
  max_retry_count_ : Z;
  upstream_calls : list UpstreamCall
}.

Definition get_connection_id (c : CTPConnection) : string := connection_id (config_ c).

(** *** Field updates *)

Definition with_status (s : CTPConnectionStatus) (c : CTPConnection) : CTPConnection :=
  {| config_ := config_ c; status_ := s;
     subscribed_instruments_ := subscribed_instruments_ c;
     error_count_ := error_count_ c |}.
Definition with_subscribed (s : gset string) (c : CTPConnection) : CTPConnection :=
  {| config_ := config_ c; status_ := status_ c;
     subscribed_instruments_ := s; error_count_ := error_count_ c |}.
Definition count_error (c : CTPConnection) : CTPConnection :=
  {| config_ := config_ c; status_ := status_ c;
     subscribed_instruments_ := subscribed_instruments_ c;
     error_count_ := error_count_ c + 1 |}.

Definition with_sub_status (s : SubscriptionStatus) (i : SubscriptionInfo) : SubscriptionInfo :=
  {| instrument_id := instrument_id i;
     assigned_connection_id := assigned_connection_id i; status := s;
     requesting_sessions := requesting_sessions i;
     created_time := created_time i; last_update_time := last_update_time i;
     retry_count := retry_count i |}.
Definition with_assigned (c : string) (i : SubscriptionInfo) : SubscriptionInfo :=
  {| instrument_id := instrument_id i;
     assigned_connection_id := c; status := status i;
     requesting_sessions := requesting_sessions i;
     created_time := created_time i; last_update_time := last_update_time i;
     retry_count := retry_count i |}.
Definition with_sessions (s : gset string) (i : SubscriptionInfo) : SubscriptionInfo :=
  {| instrument_id := instrument_id i;
     assigned_connection_id := assigned_connection_id i; status := status i;
     requesting_sessions := s;
     created_time := created_time i; last_update_time := last_update_time i;
     retry_count := retry_count i |}.
Definition with_update_time (t : Z) (i : SubscriptionInfo) : SubscriptionInfo :=
  {| instrument_id := instrument_id i;
     assigned_connection_id := assigned_connection_id i; status := status i;
     requesting_sessions := requesting_sessions i;
     created_time := created_time i; last_update_time := t;
     retry_count := retry_count i |}.
Definition with_retry_count (n : Z) (i : SubscriptionInfo) : SubscriptionInfo :=
  {| instrument_id := instrument_id i;
     assigned_connection_id := assigned_connection_id i; status := status i;
     requesting_sessions := requesting_sessions i;
     created_time := created_time i; last_update_time := last_update_time i;
     retry_count := n |}.

Definition with_connections (m : gmap string CTPConnection) (w : World) : World :=
  {| connections_ := m; global_subscriptions_ := global_subscriptions_ w;
     session_subscriptions_ := session_subscriptions_ w;
     connection_subscriptions_ := connection_subscriptions_ w;
     round_robin_counter_ := round_robin_counter_ w; retry_set_ := retry_set_ w;
     max_retry_count_ := max_retry_count_ w; upstream_calls := upstream_calls w |}.
Definition with_global (m : gmap string SubscriptionInfo) (w : World) : World :=
  {| connections_ := connections_ w; global_subscriptions_ := m;
     session_subscriptions_ := session_subscriptions_ w;
     connection_subscriptions_ := connection_subscriptions_ w;
     round_robin_counter_ := round_robin_counter_ w; retry_set_ := retry_set_ w;
     max_retry_count_ := max_retry_count_ w; upstream_calls := upstream_calls w |}.
Definition with_session_subs (m : gmap string (gset string)) (w : World) : World :=
  {| connections_ := connections_ w; global_subscriptions_ := global_subscriptions_ w;
     session_subscriptions_ := m;
     connection_subscriptions_ := connection_subscriptions_ w;
     round_robin_counter_ := round_robin_counter_ w; retry_set_ := retry_set_ w;
     max_retry_count_ := max_retry_count_ w; upstream_calls := upstream_calls w |}.
Definition with_connection_subs (m : gmap string (gset string)) (w : World) : World :=
  {| connections_ := connections_ w; global_subscriptions_ := global_subscriptions_ w;
     session_subscriptions_ := session_subscriptions_ w;
     connection_subscriptions_ := m;
     round_robin_counter_ := round_robin_counter_ w; retry_set_ := retry_set_ w;
     max_retry_count_ := max_retry_count_ w; upstream_calls := upstream_calls w |}.
Definition with_counter (n : Z) (w : World) : World :=
  {| connections_ := connections_ w; global_subscriptions_ := global_subscriptions_ w;
     session_subscriptions_ := session_subscriptions_ w;
     connection_subscriptions_ := connection_subscriptions_ w;
     round_robin_counter_ := n; retry_set_ := retry_set_ w;
     max_retry_count_ := max_retry_count_ w; upstream_calls := upstream_calls w |}.
Definition with_retry_set (s : gset string) (w : World) : World :=
  {| connections_ := connections_ w; global_subscriptions_ := global_subscriptions_ w;
     session_subscriptions_ := session_subscriptions_ w;
     connection_subscriptions_ := connection_subscriptions_ w;
     round_robin_counter_ := round_robin_counter_ w; retry_set_ := s;
     max_retry_count_ := max_retry_count_ w; upstream_calls := upstream_calls w |}.
Definition with_calls (l : list UpstreamCall) (w : World) : World :=
  {| connections_ := connections_ w; global_subscriptions_ := global_subscriptions_ w;
     session_subscriptions_ := session_subscriptions_ w;
     connection_subscriptions_ := connection_subscriptions_ w;
     round_robin_counter_ := round_robin_counter_ w; retry_set_ := retry_set_ w;
     max_retry_count_ := max_retry_count_ w; upstream_calls := l |}.

(** [it->second->field = ...] on the record of [instrument]. *)
Definition update_info (instrument : string)
    (f : SubscriptionInfo → SubscriptionInfo) (w : World) : World :=
  with_global (alter f instrument (global_subscriptions_ w)) w.

(** [retry_set_.insert(instrument)] guarded by the retry budget. *)
Definition enqueue_retry (instrument : string) (w : World) : World :=
  with_retry_set ({[instrument]} ∪ retry_set_ w) w.

(** [static_cast<size_t>] of an [int]. *)
Definition to_size_t (z : Z) : Z := z mod 2 ^ 64.

Section Vendor.

(** The vendor library decides the return code of a request; it may
    depend on everything requested before. *)
Variable vendor_result : list UpstreamCall → UpstreamCall → Z.

(** *** CTPConnection *)

(** [CTPConnection::subscribe_instrument], on the connection and the
    request history. *)
Definition subscribe_instrument (c : CTPConnection) (calls : list UpstreamCall)
    (instrument : string) : bool * CTPConnection * list UpstreamCall :=
  if negb (bool_decide (status_ c = LOGGED_IN)) then (false, c, calls)
  else if bool_decide (instrument ∈ subscribed_instruments_ c) then (true, c, calls)
  else if Z.of_nat (size (subscribed_instruments_ c))
          >=? to_size_t (max_subscriptions (config_ c)) then (false, c, calls)
  else
    let call := SubscribeMarketData (get_connection_id c) instrument in
    let ret := vendor_result calls call in
    if ret =? 0 then
      (true, with_subscribed ({[instrument]} ∪ subscribed_instruments_ c) c,
       calls ++ [call])
    else (false, count_error c, calls ++ [call]).

Definition unsubscribe_instrument (c : CTPConnection) (calls : list UpstreamCall)
    (instrument : string) : bool * CTPConnection * list UpstreamCall :=
  if negb (bool_decide (status_ c = LOGGED_IN)) then (false, c, calls)
  else if negb (bool_decide (instrument ∈ subscribed_instruments_ c)) then (true, c, calls)
  else
    let call := UnSubscribeMarketData (get_connection_id c) instrument in
    let ret := vendor_result calls call in
    if ret =? 0 then
      (true, with_subscribed (subscribed_instruments_ c ∖ {[instrument]}) c,
       calls ++ [call])
    else (false, count_error c, calls ++ [call]).

Definition get_subscription_count (c : CTPConnection) : Z :=
  Z.of_nat (size (subscribed_instruments_ c)).

Definition can_accept_more_subscriptions (c : CTPConnection) : bool :=
  if negb (bool_decide (status_ c = LOGGED_IN)) then false
  else Z.of_nat (size (subscribed_instruments_ c))
       <? to_size_t (max_subscriptions (config_ c)).

(** [CTPConnection::start]; [api_created] says whether the vendor
    library handed out an API object. *)
Definition start (api_created : bool) (c : CTPConnection) : bool * CTPConnection :=
  if negb (bool_decide (status_ c = DISCONNECTED)) then (false, c)
  else if api_created then (true, with_status CONNECTING c)
  else (false, with_status ERROR c).

Definition stop (c : CTPConnection) : CTPConnection :=
  with_subscribed ∅ (with_status DISCONNECTED c).

(** [CTPConnection::login] *)
Definition login (c : CTPConnection) (calls : list UpstreamCall)
  : CTPConnection * list UpstreamCall :=
  let call := ReqUserLogin (get_connection_id c) in
  if vendor_result calls call =? 0 then (c, calls ++ [call])
  else (count_error (with_status ERROR c), calls ++ [call]).

Definition handle_connection_error (c : CTPConnection) : CTPConnection :=
  if 10 <? error_count_ c then with_status ERROR c else c.

(** *** CTPConnectionManager *)

Definition get_connection (w : World) (id : string) : option CTPConnection :=
  connections_ w !! id.

Definition get_all_connections (w : World) : list CTPConnection :=
  map snd (in_key_order (connections_ w)).

Definition is_available (c : CTPConnection) : bool :=
  bool_decide (status_ c = LOGGED_IN) && can_accept_more_subscriptions c.

Definition get_available_connections (w : World) : list CTPConnection :=
  List.filter is_available (get_all_connections w).

Definition get_active_connections (w : World) : Z :=
  Z.of_nat (length (List.filter (fun c => bool_decide (status_ c = LOGGED_IN))
                                (get_all_connections w))).

(** [add_connection]: a new, disconnected connection. *)
Definition new_connection (config : CTPConnectionConfig) : CTPConnection :=
  {| config_ := config; status_ := DISCONNECTED;
     subscribed_instruments_ := ∅; error_count_ := 0 |}.

Definition add_connection (w : World) (config : CTPConnectionConfig) : bool * World :=
  match connections_ w !! connection_id config with
  | Some _ => (false, w)
  | None =>
      (true, with_connections
               (<[connection_id config := new_connection config]> (connections_ w)) w)
  end.

(** Run a connection's member function on the connection registered
    under [id]. *)
Definition on_connection (id : string)
    (f : CTPConnection → list UpstreamCall → bool * CTPConnection * list UpstreamCall)
    (w : World) : option (bool * World) :=
  match connections_ w !! id with
  | None => None
  | Some c =>
      let '(r, c', calls') := f c (upstream_calls w) in
      Some (r, with_calls calls' (with_connections (<[id := c']> (connections_ w)) w))
  end.

(** *** SubscriptionDispatcher *)

Definition new_subscription (instrument : string) (now : Z) : SubscriptionInfo :=
  {| instrument_id := instrument; assigned_connection_id := EmptyString;
     status := PENDING; requesting_sessions := ∅;
     created_time := now; last_update_time := now; retry_count := 0 |}.

Definition select_connection_round_robin (w : World) : option CTPConnection * World :=
  let available := get_available_connections w in
  match available with
  | [] => (None, w)
  | _ =>
      let index := round_robin_counter_ w mod Z.of_nat (length available) in
      (available !! Z.to_nat index,
       with_counter ((round_robin_counter_ w + 1) mod 2 ^ 64) w)
  end.

Definition execute_subscription (w : World) (instrument connection : string)
  : bool * World :=
  match on_connection connection (fun c calls => subscribe_instrument c calls instrument) w with
  | None => (false, w)
  | Some rw => rw
  end.

Definition execute_unsubscription (w : World) (instrument connection : string)
  : bool * World :=
  match on_connection connection (fun c calls => unsubscribe_instrument c calls instrument) w with
  | None => (true, w)
  | Some rw => rw
  end.

(** The guard in front of every [retry_set_.insert]. *)
Definition retry_if_allowed (instrument : string) (w : World) : World :=
  match global_subscriptions_ w !! instrument with
  | Some info =>
      if retry_count info <? max_retry_count_ w then enqueue_retry instrument w else w
  | None => w
  end.

Definition add_subscription (now : Z) (w : World) (session instrument : string)
  : bool * World :=
  match global_subscriptions_ w !! instrument with
  | Some info =>
      let w := update_info instrument
                 (with_sessions ({[session]} ∪ requesting_sessions info)) w in
      let w := with_session_subs (insert_into session instrument (session_subscriptions_ w)) w in
      (true, w)
  | None =>
      let info := with_sessions {[session]} (new_subscription instrument now) in
      let w := with_global (<[instrument := info]> (global_subscriptions_ w)) w in
      let w := with_session_subs (insert_into session instrument (session_subscriptions_ w)) w in
      let '(best_connection, w) := select_connection_round_robin w in
      match best_connection with
      | None =>
          let w := update_info instrument (with_sub_status FAILED) w in
          (false, retry_if_allowed instrument w)
      | Some c =>
          let w := update_info instrument (with_assigned (get_connection_id c)) w in
          let w := update_info instrument (with_sub_status SUBSCRIBING) w in
          let '(result, w) := execute_subscription w instrument (get_connection_id c) in
          if result then (true, w)
          else (false, update_info instrument (with_sub_status FAILED) w)
      end
  end.

Definition remove_subscription (w : World) (session instrument : string)
  : bool * World :=
  let w := with_session_subs (erase_from session instrument (session_subscriptions_ w)) w in
  match global_subscriptions_ w !! instrument with
  | None => (true, w)
  | Some info =>
      let remaining := requesting_sessions info ∖ {[session]} in
      let w := update_info instrument (with_sessions remaining) w in
      if decide (remaining = ∅) then
        let '(_, w) := execute_unsubscription w instrument (assigned_connection_id info) in
        (true, with_global (delete instrument (global_subscriptions_ w)) w)
      else (true, w)
  end.

Definition remove_all_subscriptions_for_session (w : World) (session : string) : World :=
  let instruments_to_remove :=
    match session_subscriptions_ w !! session with
    | Some s => in_order s
    | None => []
    end in
  fold_left (fun w instrument => snd (remove_subscription w session instrument))
            instruments_to_remove w.

Definition migrate_subscription (w : World) (instrument from_connection to_connection : string)
  : World :=
  match global_subscriptions_ w !! instrument with
  | None => w
  | Some _ =>
      let w := update_info instrument (with_assigned to_connection) w in
      let w := update_info instrument (with_sub_status SUBSCRIBING) w in
      let w := update_info instrument (with_retry_count 0) w in
      let '(ok, w) := execute_subscription w instrument to_connection in
      if ok then w
      else
        let w := update_info instrument (with_sub_status FAILED) w in
        retry_if_allowed instrument w
  end.

(** The first loop of [handle_connection_failure]: the ACTIVE records of
    the failed connection, in map order, each marked FAILED. *)
Definition affected_by (w : World) (connection : string) : list string :=
  map fst (List.filter
             (fun kv => bool_decide (assigned_connection_id kv.2 = connection)
                        && bool_decide (status kv.2 = ACTIVE))
             (in_key_order (global_subscriptions_ w))).

(** The body of its second loop. *)
Definition failover_one (connection : string) (w : World) (instrument : string) : World :=
  let '(new_connection, w) := select_connection_round_robin w in
  match new_connection with
  | Some c =>
      if negb (String.eqb (get_connection_id c) connection)
      then migrate_subscription w instrument connection (get_connection_id c)
      else retry_if_allowed instrument w
  | None => retry_if_allowed instrument w
  end.

Definition handle_connection_failure (w : World) (connection : string) : World :=
  let affected_instruments := affected_by w connection in
  let w := fold_left (fun w instrument => update_info instrument (with_sub_status FAILED) w)
                     affected_instruments w in
  let w := fold_left (failover_one connection) affected_instruments w in
  with_connection_subs (delete connection (connection_subscriptions_ w)) w.

Definition on_subscription_success (now : Z) (w : World) (connection instrument : string)
  : World :=
  match global_subscriptions_ w !! instrument with
  | None => w
  | Some _ =>
      let w := update_info instrument (with_sub_status ACTIVE) w in
      let w := update_info instrument (with_update_time now) w in
      with_connection_subs
        (insert_into connection instrument (connection_subscriptions_ w)) w
  end.

Definition on_subscription_failed (now : Z) (w : World) (connection instrument : string)
  : World :=
  match global_subscriptions_ w !! instrument with
  | None => w
  | Some info =>
      let w := update_info instrument (with_sub_status FAILED) w in
      let w := update_info instrument (with_retry_count (retry_count info + 1)) w in
      let w := update_info instrument (with_update_time now) w in
      retry_if_allowed instrument w
  end.

Definition on_unsubscription_success (w : World) (connection instrument : string) : World :=
  with_connection_subs (erase_from connection instrument (connection_subscriptions_ w)) w.

(** The body of the loop of [process_pending_subscriptions]; [acc] is
    the local set [failed_again] with the dispatcher. *)
Definition retry_one (acc : gset string * World) (instrument : string)
  : gset string * World :=
  let '(failed_again, w) := acc in
  match global_subscriptions_ w !! instrument with
  | Some info =>
      if bool_decide (status info = FAILED) then
        let '(new_connection, w) := select_connection_round_robin w in
        match new_connection with
        | Some c =>
            let w := update_info instrument (with_assigned (get_connection_id c)) w in
            let w := update_info instrument (with_sub_status SUBSCRIBING) w in
            let '(ok, w) := execute_subscription w instrument (get_connection_id c) in
            if ok then (failed_again, update_info instrument (with_retry_count 0) w)
            else
              let w := update_info instrument (with_sub_status FAILED) w in
              if retry_count info <? max_retry_count_ w
              then ({[instrument]} ∪ failed_again, w) else (failed_again, w)
        | None =>
            if retry_count info <? max_retry_count_ w
            then ({[instrument]} ∪ failed_again, w) else (failed_again, w)
        end
      else acc
  | None => acc
  end.

(** The instruments one drain puts back ([failed_again]) and the
    dispatcher before they are put back. *)
Definition drain_retry_set (w : World) : gset string * World :=
  let current_retry_set := retry_set_ w in
  let w := with_retry_set ∅ w in
  fold_left retry_one (in_order current_retry_set) (∅, w).

Definition process_pending_subscriptions (w : World) : World :=
  let '(failed_again, w) := drain_retry_set w in
  with_retry_set (failed_again ∪ retry_set_ w) w.

Definition handle_connection_recovery (w : World) (connection : string) : World :=
  process_pending_subscriptions w.

(** Ten minutes in ticks of the system clock (nanoseconds). *)
Definition ten_minutes : Z := 600 * 10 ^ 9.

Definition cleanup_expired_subscriptions (now : Z) (w : World) : World :=
  let to_remove :=
    map fst (List.filter
               (fun kv => bool_decide (status kv.2 = FAILED)
                          && (ten_minutes <? now - last_update_time kv.2))
               (in_key_order (global_subscriptions_ w))) in
  fold_left (fun w instrument =>
               with_global (delete instrument (global_subscriptions_ w)) w)
            to_remove w.

(** One round of [maintenance_task]. *)
Definition maintenance_round (now : Z) (w : World) : World :=
  cleanup_expired_subscriptions now (process_pending_subscriptions w).

(** The rounds of [maintenance_task] at the clock readings [times], and
    the number of them whose drain puts [instrument] back into the
    retry set. *)
Fixpoint requeue_count (instrument : string) (w : World) (times : list Z) : nat :=
  match times with
  | [] => 0
  | t :: rest =>
      ((if bool_decide (instrument ∈ (drain_retry_set w).1) then 1 else 0)
       + requeue_count instrument (maintenance_round t w) rest)%nat
  end.

Definition maintenance_rounds (w : World) (times : list Z) : World :=
  fold_left (fun w t => maintenance_round t w) times w.

(** *** The vendor callbacks of CTPConnection *)

Definition update_connection (id : string) (f : CTPConnection → CTPConnection)
    (w : World) : World :=
  with_connections (alter f id (connections_ w)) w.

Definition OnFrontConnected (w : World) (id : string) : World :=
  match connections_ w !! id with
  | None => w
  | Some c =>
      let '(c, calls) := login (with_status CONNECTED c) (upstream_calls w) in
      with_calls calls (with_connections (<[id := c]> (connections_ w)) w)
  end.

Definition OnFrontDisconnected (w : World) (id : string) : World :=
  match connections_ w !! id with
  | None => w
  | Some _ =>
      let w := update_connection id (fun c => count_error (with_status DISCONNECTED c)) w in
      handle_connection_failure w id
  end.

Definition OnRspUserLogin (w : World) (id : string) (error_id : Z) : World :=
  match connections_ w !! id with
  | None => w
  | Some _ =>
      if negb (error_id =? 0) then
        update_connection id (fun c => count_error (with_status ERROR c)) w
      else
        handle_connection_recovery (update_connection id (with_status LOGGED_IN) w) id
  end.

Definition OnRspSubMarketData (now : Z) (w : World) (id : string)
    (pSpecificInstrument : option string) (error_id : Z) : World :=
  match connections_ w !! id with
  | None => w
  | Some _ =>
      if negb (error_id =? 0) then
        let w := match pSpecificInstrument with
                 | Some instrument => on_subscription_failed now w id instrument
                 | None => w
                 end in
        update_connection id count_error w
      else
        match pSpecificInstrument with
        | Some instrument => on_subscription_success now w id instrument
        | None => w
        end
  end.

Definition OnRspUnSubMarketData (w : World) (id : string)
    (pSpecificInstrument : option string) (error_id : Z) : World :=
  match connections_ w !! id with
  | None => w
  | Some _ =>
      if negb (error_id =? 0) then update_connection id count_error w
      else
        match pSpecificInstrument with
        | Some instrument => on_unsubscription_success w id instrument
        | None => w
        end
  end.

Definition OnRspError (w : World) (id : string) (error_id : Z) : World :=
  if negb (error_id =? 0)
  then update_connection id (fun c => handle_connection_error (count_error c)) w
  else w.

(** *** Everything that can happen to the dispatcher and its connections *)

Inductive Event : Type :=
| AddSubscription (session instrument : string)
| RemoveSubscription (session instrument : string)
| RemoveAllForSession (session : string)
| Maintenance
| Start (connection : string) (api_created : bool)
| Stop (connection : string)
| FrontConnected (connection : string)
| FrontDisconnected (connection : string)
| RspUserLogin (connection : string) (error_id : Z)
| RspSubMarketData (connection : string) (instrument : option string) (error_id : Z)
| RspUnSubMarketData (connection : string) (instrument : option string) (error_id : Z)
| RspError (connection : string) (error_id : Z).

Definition step (now : Z) (w : World) (e : Event) : World :=
  match e with
  | AddSubscription s i => snd (add_subscription now w s i)
  | RemoveSubscription s i => snd (remove_subscription w s i)
  | RemoveAllForSession s => remove_all_subscriptions_for_session w s
  | Maintenance => maintenance_round now w
  | Start id api_created => update_connection id (fun c => snd (start api_created c)) w
  | Stop id => update_connection id stop w
  | FrontConnected id => OnFrontConnected w id
  | FrontDisconnected id => OnFrontDisconnected w id
  | RspUserLogin id err => OnRspUserLogin w id err
  | RspSubMarketData id i err => OnRspSubMarketData now w id i err
  | RspUnSubMarketData id i err => OnRspUnSubMarketData w id i err
  | RspError id err => OnRspError w id err
  end.



(** A run: the events in order, each stamped with the clock reading. *)
Definition run (w : World) (events : list (Z * Event)) : World :=
  fold_left (fun w te => step te.1 w te.2) events w.

End Vendor.

(** *** Queries of the dispatcher *)

(** A [std::vector] filled from a [std::set] lists it in order. *)
Definition get_subscriptions_for_session (w : World) (session : string) : list string :=
  match session_subscriptions_ w !! session with
  | Some s => in_order s
  | None => []
  end.

Definition get_sessions_for_instrument (w : World) (instrument : string) : list string :=
  match global_subscriptions_ w !! instrument with
  | Some info => in_order (requesting_sessions info)
  | None => []
  end.

Definition get_subscription_status (w : World) (instrument : string) : SubscriptionStatus :=
  match global_subscriptions_ w !! instrument with
  | Some info => status info
  | None => CANCELLED
  end.

(** [n] consecutive calls of [select_connection_round_robin]. *)
Fixpoint select_repeatedly (n : nat) (w : World) : list (option CTPConnection) * World :=
  match n with
  | O => ([], w)
  | S n' =>
      let '(c, w) := select_connection_round_robin w in
      let '(cs, w) := select_repeatedly n' w in
      (c :: cs, w)
  end.

(** *** The rest of CTPConnectionManager *)

Definition stop_all_connections (w : World) : World :=
  with_connections (stop <$> connections_ w) w.

(** [CTPConnection::restart]; [running] is [server_->is_running()] after
    the sleep. *)
Definition restart (running api_created : bool) (c : CTPConnection) : bool * CTPConnection :=
  let c := stop c in
  if negb running then (false, c) else start api_created c.

(** The health monitor: [next_restart_allowed_] of the manager, and the
    history of the restarts it made (clock reading and id of the
    connection), oldest first. *)
Record HealthMonitor : Type := {
  next_restart_allowed_ : gmap string Z;
  restarts : list (Z * string)
}.

(** Ten seconds in ticks of the steady clock (nanoseconds). *)
Definition ten_seconds : Z := 10 * 10 ^ 9.

(** The test of [health_check_loop] on one connection. *)
Definition unhealthy (c : CTPConnection) : bool :=
  bool_decide (status_ c = ERROR)
  || (bool_decide (status_ c = DISCONNECTED) && (5 <? error_count_ c)).

(** The body of the loop over [connections_to_check] for the connection
    registered under [k], with the clock reading [now]. *)
Definition health_check_one (running : bool) (api_created : string → bool)
    (acc : HealthMonitor * World) (check : Z * string) : HealthMonitor * World :=
  let '(h, w) := acc in
  let '(now, k) := check in
  match connections_ w !! k with
  | None => acc
  | Some c =>
      if unhealthy c then
        let conn_id := get_connection_id c in
        let should_restart :=
          match next_restart_allowed_ h !! conn_id with
          | None => true
          | Some t => t <=? now
          end in
        if should_restart then
          ({| next_restart_allowed_ :=
                <[conn_id := now + ten_seconds]> (next_restart_allowed_ h);
              restarts := restarts h ++ [(now, conn_id)] |},
           with_connections
             (<[k := (restart running (api_created k) c).2]> (connections_ w)) w)
        else acc
      else acc
  end.

(** Checks in sequence: the rounds of [health_check_loop], one after
    another, each connection with the clock reading of its check. *)
Definition health_checks (running : bool) (api_created : string → bool)
    (acc : HealthMonitor * World) (checks : list (Z * string)) : HealthMonitor * World :=
  fold_left (health_check_one running api_created) checks acc.

(** *** Invariants *)

(** The range of the C++ [int]. *)
Definition int_range (z : Z) : Prop := - 2 ^ 31 ≤ z < 2 ^ 31.

(** INV-3 on one connection: the subscribed set is within the
    configured bound (an [int]). *)
Definition within_capacity (c : CTPConnection) : Prop :=
  Z.of_nat (size (subscribed_instruments_ c)) ≤ max_subscriptions (config_ c)
  ∧ int_range (max_subscriptions (config_ c)).

Definition all_within_capacity (w : World) : Prop :=
  map_Forall (fun _ c => within_capacity c) (connections_ w).


(** Where a subscription stands after a failover: handed to another
    connection, or FAILED and, while its retry budget lasts, queued. *)
Definition resettled (connection : string) (w : World) (instrument : string) : Prop :=
  ∃ info, global_subscriptions_ w !! instrument = Some info
          ∧ ((status info = SUBSCRIBING ∧ assigned_connection_id info ≠ connection)
             ∨ (status info = FAILED
                ∧ (retry_count info < max_retry_count_ w → instrument ∈ retry_set_ w))).

(** The dispatcher's own books: records, retry set, retry budget. *)
Definition same_books (w w' : World) : Prop :=
  global_subscriptions_ w' = global_subscriptions_ w
  ∧ retry_set_ w' = retry_set_ w
  ∧ max_retry_count_ w' = max_retry_count_ w.

(** What one round of the failover loop does to the books. *)
Definition books_step (i : string) (w w' : World) : Prop :=
  max_retry_count_ w' = max_retry_count_ w
  ∧ retry_set_ w ⊆ retry_set_ w'
  ∧ (∀ k, k ≠ i → global_subscriptions_ w' !! k = global_subscriptions_ w !! k).




(** What a drain puts back when no connection is available. *)
Definition put_back (w : World) (j : string) : bool :=
  match global_subscriptions_ w !! j with
  | Some info => bool_decide (status info = FAILED)
                 && (retry_count info <? max_retry_count_ w)
  | None => false
  end.

(** A record waiting for a connection since [t0]: FAILED, assigned to
    none, never counted, queued. *)
Definition waiting (t0 : Z) (i : string) (w : World) : Prop :=
  get_available_connections w = []
  ∧ (∃ info, global_subscriptions_ w !! i = Some info
             ∧ status info = FAILED ∧ retry_count info = 0
             ∧ assigned_connection_id info = EmptyString
             ∧ last_update_time info = t0)
  ∧ 0 < max_retry_count_ w
  ∧ i ∈ retry_set_ w.

(** The status, connection and retry count of the record of an
    instrument. *)
Definition record_summary (w : World) (i : string)
  : option (SubscriptionStatus * string * Z) :=
  match global_subscriptions_ w !! i with
  | Some info => Some (status info, assigned_connection_id info, retry_count info)
  | None => None
  end.

(** The dispatcher after [initialize], with the connections of the
    configuration added and nothing subscribed. *)
Definition initial_world (max_retry_count : Z) (configs : list CTPConnectionConfig) : World :=
  {| connections_ :=
       fold_left (fun m c =>
                    if enabled c then
                      match m !! connection_id c with
                      | Some _ => m
                      | None => <[connection_id c := new_connection c]> m
                      end
                    else m) configs ∅;
     global_subscriptions_ := ∅; session_subscriptions_ := ∅;
     connection_subscriptions_ := ∅; round_robin_counter_ := 0;
     retry_set_ := ∅; max_retry_count_ := max_retry_count;
     upstream_calls := [] |}.

End Dispatch.

(* ===================================================================== *)
(** ** The server: quote cache, sessions and the peek protocol            *)
(* ===================================================================== *)

(** [MarketDataServer] in multi-connection mode (the constructor that
    takes a [MultiCTPConfig]).  The dispatcher and the connections are a
    [Dispatch.World] passed alongside, as the server only holds pointers
    to them. *)
Module Gateway.
Import Quote.

(** One slot of the cache.  [sequence] is the [uint64_t] seqlock
    counter: even when the slot is stable, odd while it is written. *)
Record AtomicMarketDataEntry : Type := {
  sequence : Z;
  data : MarketDataStruct;
  has_data : bool
}.

Definition empty_entry : AtomicMarketDataEntry :=
  {| sequence := 0; data := zeroed; has_data := false |}.

(** [MarketDataServer::SnapshotData]; a null [display_instrument]
    pointer is [None]. *)
Module Snapshot.
Record SnapshotData : Type := {
  data : MarketDataStruct;
  display_instrument : option string;
  version : Z;
  has_data : bool;
  index : Z
}.
End Snapshot.
Abbreviation SnapshotData := Snapshot.SnapshotData.

Record WebSocketSession : Type := {
  session_id_ : string;
  subscriptions_ : gset string
}.

(** The fields of the server the cache and the peek protocol use.
    [sent_frames] is the history of [WebSocketSession::send_message]:
    the session and the frame, oldest first (each session's writer
    sends its frames in this order). *)
Record MarketDataServer : Type := {
  sessions_ : gmap string WebSocketSession;
  instrument_subscribers_ : gmap string (gset string);
  market_data_cache_ : list AtomicMarketDataEntry;
  display_instruments_cache_ : list string;
  instrument_index_map_ : gmap string Z;
  session_last_sent_structs_ : gmap string (gmap string MarketDataStruct);
  session_last_versions_ : gmap string (gmap string Z);
  pending_peek_sessions_ : gset string;
  noheadtohead_instruments_map_ : gmap string string;
  sent_frames : list (string * json)
}.

(** The constructor: both caches are resized to [capacity] (50000 in the
    sources). *)
Definition new_server (capacity : nat) : MarketDataServer :=
  {| sessions_ := ∅; instrument_subscribers_ := ∅;
     market_data_cache_ := replicate capacity empty_entry;
     display_instruments_cache_ := replicate capacity EmptyString;
     instrument_index_map_ := ∅;
     session_last_sent_structs_ := ∅; session_last_versions_ := ∅;
     pending_peek_sessions_ := ∅; noheadtohead_instruments_map_ := ∅;
     sent_frames := [] |}.

Definition cache_capacity : nat := Z.to_nat 50000.

(** *** Field updates *)

Definition with_sessions (m : gmap string WebSocketSession) (st : MarketDataServer) :=
  {| sessions_ := m; instrument_subscribers_ := instrument_subscribers_ st;
     market_data_cache_ := market_data_cache_ st;
     display_instruments_cache_ := display_instruments_cache_ st;
     instrument_index_map_ := instrument_index_map_ st;
     session_last_sent_structs_ := session_last_sent_structs_ st;
     session_last_versions_ := session_last_versions_ st;
     pending_peek_sessions_ := pending_peek_sessions_ st;
     noheadtohead_instruments_map_ := noheadtohead_instruments_map_ st;
     sent_frames := sent_frames st |}.
Definition with_subscribers (m : gmap string (gset string)) (st : MarketDataServer) :=
  {| sessions_ := sessions_ st; instrument_subscribers_ := m;
     market_data_cache_ := market_data_cache_ st;
     display_instruments_cache_ := display_instruments_cache_ st;
     instrument_index_map_ := instrument_index_map_ st;
     session_last_sent_structs_ := session_last_sent_structs_ st;
     session_last_versions_ := session_last_versions_ st;
     pending_peek_sessions_ := pending_peek_sessions_ st;
     noheadtohead_instruments_map_ := noheadtohead_instruments_map_ st;
     sent_frames := sent_frames st |}.
Definition with_cache (l : list AtomicMarketDataEntry) (st : MarketDataServer) :=
  {| sessions_ := sessions_ st; instrument_subscribers_ := instrument_subscribers_ st;
     market_data_cache_ := l;
     display_instruments_cache_ := display_instruments_cache_ st;
     instrument_index_map_ := instrument_index_map_ st;
     session_last_sent_structs_ := session_last_sent_structs_ st;
     session_last_versions_ := session_last_versions_ st;
     pending_peek_sessions_ := pending_peek_sessions_ st;
     noheadtohead_instruments_map_ := noheadtohead_instruments_map_ st;
     sent_frames := sent_frames st |}.
Definition with_index (m : gmap string Z) (d : list string) (st : MarketDataServer) :=
  {| sessions_ := sessions_ st; instrument_subscribers_ := instrument_subscribers_ st;
     market_data_cache_ := market_data_cache_ st;
     display_instruments_cache_ := d;
     instrument_index_map_ := m;
     session_last_sent_structs_ := session_last_sent_structs_ st;
     session_last_versions_ := session_last_versions_ st;
     pending_peek_sessions_ := pending_peek_sessions_ st;
     noheadtohead_instruments_map_ := noheadtohead_instruments_map_ st;
     sent_frames := sent_frames st |}.
Definition with_cursors (s : gmap string (gmap string MarketDataStruct))
    (v : gmap string (gmap string Z)) (st : MarketDataServer) :=
  {| sessions_ := sessions_ st; instrument_subscribers_ := instrument_subscribers_ st;
     market_data_cache_ := market_data_cache_ st;
     display_instruments_cache_ := display_instruments_cache_ st;
     instrument_index_map_ := instrument_index_map_ st;
     session_last_sent_structs_ := s;
     session_last_versions_ := v;
     pending_peek_sessions_ := pending_peek_sessions_ st;
     noheadtohead_instruments_map_ := noheadtohead_instruments_map_ st;
     sent_frames := sent_frames st |}.
Definition with_pending (s : gset string) (st : MarketDataServer) :=
  {| sessions_ := sessions_ st; instrument_subscribers_ := instrument_subscribers_ st;
     market_data_cache_ := market_data_cache_ st;
     display_instruments_cache_ := display_instruments_cache_ st;
     instrument_index_map_ := instrument_index_map_ st;
     session_last_sent_structs_ := session_last_sent_structs_ st;
     session_last_versions_ := session_last_versions_ st;
     pending_peek_sessions_ := s;
     noheadtohead_instruments_map_ := noheadtohead_instruments_map_ st;
     sent_frames := sent_frames st |}.
Definition with_display_map (m : gmap string string) (st : MarketDataServer) :=
  {| sessions_ := sessions_ st; instrument_subscribers_ := instrument_subscribers_ st;
     market_data_cache_ := market_data_cache_ st;
     display_instruments_cache_ := display_instruments_cache_ st;
     instrument_index_map_ := instrument_index_map_ st;
     session_last_sent_structs_ := session_last_sent_structs_ st;
     session_last_versions_ := session_last_versions_ st;
     pending_peek_sessions_ := pending_peek_sessions_ st;
     noheadtohead_instruments_map_ := m;
     sent_frames := sent_frames st |}.

(** [WebSocketSession::send_message] *)
Definition send_message (session : string) (frame : json) (st : MarketDataServer) :=
  {| sessions_ := sessions_ st; instrument_subscribers_ := instrument_subscribers_ st;
     market_data_cache_ := market_data_cache_ st;
     display_instruments_cache_ := display_instruments_cache_ st;
     instrument_index_map_ := instrument_index_map_ st;
     session_last_sent_structs_ := session_last_sent_structs_ st;
     session_last_versions_ := session_last_versions_ st;
     pending_peek_sessions_ := pending_peek_sessions_ st;
     noheadtohead_instruments_map_ := noheadtohead_instruments_map_ st;
     sent_frames := sent_frames st ++ [(session, frame)] |}.

(** *** The cache *)

Definition get_or_create_index (st : MarketDataServer)
    (instrument_id display_instrument : string) : Z * MarketDataServer :=
  match instrument_index_map_ st !! instrument_id with
  | Some i => (i, st)
  | None =>
      let index := Z.of_nat (size (instrument_index_map_ st)) in
      if index >=? Z.of_nat (length (market_data_cache_ st)) then (-1, st)
      else
        let display :=
          if negb (String.eqb display_instrument EmptyString) then display_instrument
          else default instrument_id (noheadtohead_instruments_map_ st !! instrument_id) in
        (index,
         with_index (<[instrument_id := index]> (instrument_index_map_ st))
                    (<[Z.to_nat index := display]> (display_instruments_cache_ st)) st)
  end.

Definition get_index (st : MarketDataServer) (instrument_id : string) : Z :=
  default (-1) (instrument_index_map_ st !! instrument_id).

(** [entry.sequence.store(v)] on the 64-bit counter. *)
Definition store_sequence (v : Z) (e : AtomicMarketDataEntry) : AtomicMarketDataEntry :=
  {| sequence := v mod 2 ^ 64; data := data e; has_data := has_data e |}.

(** The slot after the first store of a publish ([seq + 1]) and the copy
    of the quote, before the second store. *)
Definition entry_being_written (d : MarketDataStruct) (e : AtomicMarketDataEntry)
  : AtomicMarketDataEntry :=
  let e1 := store_sequence (sequence e + 1) e in
  {| sequence := sequence e1; data := d; has_data := true |}.

(** The whole seqlock write: load, store [seq + 1], copy, store [seq + 2]. *)
Definition publish_entry (d : MarketDataStruct) (e : AtomicMarketDataEntry)
  : AtomicMarketDataEntry :=
  let seq := sequence e in
  store_sequence (seq + 2) (entry_being_written d e).

(** [cache_market_data]; the second component is the instrument whose
    [notify_pending_sessions] it posts to the I/O context (none when the
    update is dropped). *)
Definition cache_market_data (st : MarketDataServer) (instrument_id : string)
    (d : MarketDataStruct) (display_instrument : string)
  : MarketDataServer * option string :=
  let '(index, st) := get_or_create_index st instrument_id display_instrument in
  if index <? 0 then (st, None)
  else
    (with_cache (alter (publish_entry d) (Z.to_nat index) (market_data_cache_ st)) st,
     Some instrument_id).

(** A run of publishes: instrument, quote and display name of each. *)
Definition publish_all (st : MarketDataServer)
    (ticks : list (string * MarketDataStruct * string)) : MarketDataServer :=
  fold_left (fun st t => fst (cache_market_data st t.1.1 t.1.2 t.2)) ticks st.

(** Every index handed out designates a slot of the cache. *)
Definition indices_in_range (st : MarketDataServer) : Prop :=
  ∀ id i, instrument_index_map_ st !! id = Some i →
          0 ≤ i < Z.of_nat (length (market_data_cache_ st)).

(** No slot is being written, and none is within [n] publishes of the
    end of the 64-bit counter. *)
Definition counters_stable (n : Z) (st : MarketDataServer) : Prop :=
  Forall (fun e => 0 ≤ sequence e ∧ sequence e mod 2 = 0
                   ∧ sequence e + 2 * n < 2 ^ 64) (market_data_cache_ st).

(** The version a reader derives from the counter it read. *)
Definition version_of (e : AtomicMarketDataEntry) : Z := sequence e / 2.

(** The reader's seqlock loop on a slot nobody writes meanwhile; the
    result is [(seq_start, seq_end, data_snapshot)] at loop exit. *)
Fixpoint seqlock_read_loop (fuel : nat) (e : AtomicMarketDataEntry)
    (retries seq_end : Z) (snapshot : MarketDataStruct) : Z * Z * MarketDataStruct :=
  match fuel with
  | O => (sequence e, seq_end, snapshot)
  | S fuel' =>
      let seq_start := sequence e in
      if negb (seq_start mod 2 =? 0) then
        let retries := retries + 1 in
        if 100 <? retries then (seq_start, seq_end, snapshot)
        else if negb (seq_start =? seq_end)
             then seqlock_read_loop fuel' e retries seq_end snapshot
             else (seq_start, seq_end, snapshot)
      else
        let snapshot := data e in
        let seq_end := sequence e in
        let retries := retries + 1 in
        if 100 <? retries then (seq_start, seq_end, snapshot)
        else if negb (seq_start =? seq_end)
             then seqlock_read_loop fuel' e retries seq_end snapshot
             else (seq_start, seq_end, snapshot)
  end.

(** The body of the loop of [collect_market_data_updates] for one
    subscribed instrument. *)
Definition collect_one (st : MarketDataServer) (last_versions : gmap string Z)
    (instrument_id : string) : list (string * SnapshotData) :=
  let index := get_index st instrument_id in
  if index =? -1 then []
  else
    match market_data_cache_ st !! Z.to_nat index with
    | None => []
    | Some entry =>
        if negb (has_data entry) then []
        else
          let '(seq_start, seq_end, data_snapshot) :=
            seqlock_read_loop 102 entry 0 0 zeroed in
          if negb (seq_start =? seq_end) || negb (seq_start mod 2 =? 0) then []
          else
            let current_version := seq_end / 2 in
            match last_versions !! instrument_id with
            | Some last =>
                if last <? current_version then
                  [(instrument_id,
                    {| Snapshot.data := data_snapshot;
                       Snapshot.display_instrument :=
                         display_instruments_cache_ st !! Z.to_nat index;
                       Snapshot.version := current_version;
                       Snapshot.has_data := true; Snapshot.index := -1 |})]
                else []
            | None =>
                [(instrument_id,
                  {| Snapshot.data := data_snapshot;
                     Snapshot.display_instrument :=
                       display_instruments_cache_ st !! Z.to_nat index;
                     Snapshot.version := current_version;
                     Snapshot.has_data := true; Snapshot.index := -1 |})]
            end
    end.

Definition collect_market_data_updates (st : MarketDataServer)
    (subscriptions : gset string) (last_versions : gmap string Z)
  : list (string * SnapshotData) :=
  flat_map (collect_one st last_versions) (in_order subscriptions).

(** *** Frames *)

(** The key under which an instrument appears in a frame: its display
    name when the snapshot points at a non-empty one, handed to
    rapidjson as [display_instrument.c_str()]. *)
Definition display_key (instrument_id : string) (display : option string) : string :=
  c_str match display with
        | None => instrument_id
        | Some display =>
            if String.eqb display EmptyString then instrument_id else display
        end.

Definition frame_key (instrument_id : string) (cached_data : SnapshotData) : string :=
  display_key instrument_id (Snapshot.display_instrument cached_data).

Definition meta_obj : json :=
  JObject [("account_id", JString EmptyString); ("ins_list", JString EmptyString);
           ("mdhis_more_data", JBool false)].

Definition rtn_data (quotes : list (string * json)) : json :=
  JObject [("aid", JString "rtn_data");
           ("data", JArray [JObject [("quotes", JObject quotes)]; meta_obj])].

(** The body of the loop of [send_full_snapshot]: the key of an
    instrument and its quote in full. *)
Definition full_quote (entry : string * SnapshotData) : string * json :=
  (frame_key entry.1 entry.2, struct_to_json (Snapshot.data entry.2)).

Definition send_full_snapshot (st : MarketDataServer) (session : string)
    (updates : list (string * SnapshotData)) : MarketDataServer :=
  send_message session (rtn_data (map full_quote updates)) st.

(** The test of the first loop of [send_diff_snapshot]: an instrument
    goes into the frame when it has no previous quote or its quote has
    changed. *)
Definition needs_sending (last_snapshots : gmap string MarketDataStruct)
    (entry : string * SnapshotData) : bool :=
  match last_snapshots !! entry.1 with
  | Some old => has_struct_changes old (Snapshot.data entry.2)
  | None => true
  end.

(** The body of its second loop: the diff against the previous quote,
    or the quote in full when there is none. *)
Definition diff_quote (last_snapshots : gmap string MarketDataStruct)
    (entry : string * SnapshotData) : string * json :=
  (frame_key entry.1 entry.2,
   match last_snapshots !! entry.1 with
   | Some old => compute_struct_diff old (Snapshot.data entry.2)
   | None => struct_to_json (Snapshot.data entry.2)
   end).

Definition send_diff_snapshot (st : MarketDataServer) (session : string)
    (updates : list (string * SnapshotData))
    (last_snapshots : gmap string MarketDataStruct) : Z * MarketDataServer :=
  let diff_instruments := List.filter (needs_sending last_snapshots) updates in
  match diff_instruments with
  | [] => (0, st)
  | _ =>
      (Z.of_nat (length diff_instruments),
       send_message session (rtn_data (map (diff_quote last_snapshots) diff_instruments)) st)
  end.

Definition update_session_state (st : MarketDataServer) (session : string)
    (updates : list (string * SnapshotData)) : MarketDataServer :=
  let snapshot_structs := default ∅ (session_last_sent_structs_ st !! session) in
  let version_map := default ∅ (session_last_versions_ st !! session) in
  let snapshot_structs :=
    fold_left (fun m entry => <[entry.1 := Snapshot.data entry.2]> m)
              updates snapshot_structs in
  let version_map :=
    fold_left (fun m entry => <[entry.1 := Snapshot.version entry.2]> m)
              updates version_map in
  with_cursors (<[session := snapshot_structs]> (session_last_sent_structs_ st))
               (<[session := version_map]> (session_last_versions_ st)) st.

(** *** handle_peek_message *)

Definition handle_peek_message (st : MarketDataServer) (session : string)
  : MarketDataServer :=
  match sessions_ st !! session with
  | None => st
  | Some s =>
      let subscriptions := subscriptions_ s in
      if decide (subscriptions = ∅) then st
      else
        let last_versions_copy := default ∅ (session_last_versions_ st !! session) in
        let last_sent_structs_copy :=
          default ∅ (session_last_sent_structs_ st !! session) in
        let has_last_snapshot := negb (bool_decide (last_sent_structs_copy = ∅)) in
        let updated_instruments :=
          collect_market_data_updates st subscriptions last_versions_copy in
        match updated_instruments with
        | [] =>
            if has_last_snapshot
            then with_pending ({[session]} ∪ pending_peek_sessions_ st) st
            else st
        | _ =>
            let st :=
              if negb has_last_snapshot
              then send_full_snapshot st session updated_instruments
              else snd (send_diff_snapshot st session updated_instruments
                                           last_sent_structs_copy) in
            update_session_state st session updated_instruments
        end
  end.

Definition notify_pending_sessions (st : MarketDataServer) (instrument_id : string)
  : MarketDataServer :=
  match instrument_subscribers_ st !! instrument_id with
  | None => st
  | Some subscribers =>
      let sessions_to_notify := subscribers ∩ pending_peek_sessions_ st in
      let st := with_pending (pending_peek_sessions_ st ∖ sessions_to_notify) st in
      fold_left handle_peek_message (in_order sessions_to_notify) st
  end.

(** *** Sessions *)

Definition add_session (st : MarketDataServer) (session : string) : MarketDataServer :=
  with_sessions (<[session := {| session_id_ := session; subscriptions_ := ∅ |}]>
                   (sessions_ st)) st.

(** [MarketDataServer::is_ctp_connected] in multi-connection mode. *)
Definition is_ctp_connected (w : Dispatch.World) : bool :=
  0 <? Dispatch.get_active_connections w.

(** [WebSocketSession::on_accept] after a successful handshake: the
    welcome frame. *)
Definition welcome_frame (session : string) (ctp_connected : bool) (now_ms : Z) : json :=
  JObject [("type", JString "welcome");
           ("message", JString "Connected to QuantAxis MarketData Server");
           ("session_id", JString (c_str session));
           ("ctp_connected", JBool ctp_connected);
           ("timestamp", JInt now_ms)].

Definition on_accept (st : MarketDataServer) (w : Dispatch.World) (session : string)
    (now_ms : Z) : MarketDataServer :=
  send_message session (welcome_frame session (is_ctp_connected w) now_ms) st.

Section Vendor.
Variable vendor_result : list Dispatch.UpstreamCall → Dispatch.UpstreamCall → Z.

Definition remove_session (st : MarketDataServer) (w : Dispatch.World) (session : string)
  : MarketDataServer * Dispatch.World :=
  let w := Dispatch.remove_all_subscriptions_for_session vendor_result w session in
  let st := with_sessions (delete session (sessions_ st)) st in
  let st := with_cursors (delete session (session_last_sent_structs_ st))
                         (delete session (session_last_versions_ st)) st in
  (with_pending (pending_peek_sessions_ st ∖ {[session]}) st, w).

Definition subscribe_instrument (now : Z) (st : MarketDataServer) (w : Dispatch.World)
    (session instrument_id : string) : MarketDataServer * Dispatch.World :=
  let '(_, w) := Dispatch.add_subscription vendor_result now w session instrument_id in
  (with_subscribers (insert_into instrument_id session (instrument_subscribers_ st)) st, w).

Definition unsubscribe_instrument (st : MarketDataServer) (w : Dispatch.World)
    (session instrument_id : string) : MarketDataServer * Dispatch.World :=
  let '(_, w) := Dispatch.remove_subscription vendor_result w session instrument_id in
  (with_subscribers (erase_from instrument_id session (instrument_subscribers_ st)) st, w).

(** [CTPConnection::OnRtnDepthMarketData]: the tick path.  The result
    carries the posted notification. *)
Definition OnRtnDepthMarketData (st : MarketDataServer)
    (pDepthMarketData : option CThostFtdcDepthMarketDataField) (cur_time : Z)
  : MarketDataServer * option string :=
  match pDepthMarketData with
  | None => (st, None)
  | Some d =>
      let instrument_id := InstrumentID d in
      let display_instrument :=
        default instrument_id (noheadtohead_instruments_map_ st !! instrument_id) in
      let market_data := build_market_data_struct (Some d) display_instrument cur_time in
      cache_market_data st instrument_id market_data display_instrument
  end.

(** *** WebSocketSession::handle_message *)

(** [std::getline(iss, token, sep)] until the stream is exhausted. *)
Fixpoint getline_all (sep : ascii) (s : string) (token : string) : list string :=
  match s with
  | EmptyString => if String.eqb token EmptyString then [] else [token]
  | String c rest =>
      if Ascii.eqb c sep then token :: getline_all sep rest EmptyString
      else getline_all sep rest (token ++ String c EmptyString)%string
  end.

(** [instrument.find('.')] and [substr(dot_pos + 1)]. *)
Fixpoint after_first_dot (s : string) : option string :=
  match s with
  | EmptyString => None
  | String c rest => if Ascii.eqb c "."%char then Some rest else after_first_dot rest
  end.

Definition nohead_of (instrument : string) : string :=
  default instrument (after_first_dot instrument).

(** [send_error] *)
Definition error_frame (error_msg : string) (now_ms : Z) : json :=
  JObject [("type", JString "error"); ("message", JString error_msg);
           ("timestamp", JInt now_ms)].

Definition subscribe_ack : json :=
  JObject [("aid", JString "subscribe_quote"); ("status", JString "ok")].

(** The body of the loop over [ins_list]. *)
Definition subscribe_one (now : Z) (session : string)
    (acc : MarketDataServer * Dispatch.World) (instrument : string)
  : MarketDataServer * Dispatch.World :=
  let '(st, w) := acc in
  if String.eqb instrument EmptyString then (st, w)
  else
    let nohead_instrument := nohead_of instrument in
    let st := with_sessions
                (alter (fun s => {| session_id_ := session_id_ s;
                                    subscriptions_ := {[nohead_instrument]} ∪ subscriptions_ s |})
                       session (sessions_ st)) st in
    let st := with_display_map
                (<[nohead_instrument := instrument]> (noheadtohead_instruments_map_ st)) st in
    subscribe_instrument now st w session nohead_instrument.

(** What [handle_message] leads to.  Reading a member of a document
    that is not an object trips [RAPIDJSON_ASSERT]; the header that
    configures it is not part of the sources, so the model stops there. *)
Inductive Outcome : Type :=
| Handled (st : MarketDataServer) (w : Dispatch.World)
| AssertionFailed.

(** rapidjson's parser: [None] for a parse error. *)
Variable Parse : string → option json.

Definition handle_message (now now_ms : Z) (st : MarketDataServer) (w : Dispatch.World)
    (session message : string) : Outcome :=
  match Parse (c_str message) with
  | None => Handled (send_message session (error_frame "Invalid JSON format" now_ms) st) w
  | Some (JObject doc) =>
      match find_member "aid" doc with
      | Some (JString aid_value) =>
          let aid := c_str aid_value in
          if String.eqb aid "subscribe_quote" then
            match find_member "ins_list" doc with
            | Some (JString ins_list_value) =>
                let ins_list := c_str ins_list_value in
                let '(st, w) :=
                  fold_left (subscribe_one now session)
                            (getline_all ","%char ins_list EmptyString) (st, w) in
                Handled (send_message session subscribe_ack st) w
            | _ =>
                Handled (send_message session
                           (error_frame "Missing or invalid 'ins_list' field" now_ms) st) w
            end
          else if String.eqb aid "peek_message" then
            Handled (handle_peek_message st session) w
          else Handled st w
      | _ => Handled st w
      end
  | Some _ => AssertionFailed
  end.

(** [on_read] for a frame that arrived without a transport error: the
    message is handled and, when [handle_message] returns, [do_read]
    starts the next read ([true]).  When the assertion is tripped the
    call does not return and no read is started. *)
Definition on_read (now now_ms : Z) (st : MarketDataServer) (w : Dispatch.World)
    (session message : string) : Outcome * bool :=
  match handle_message now now_ms st w session message with
  | Handled st w => (Handled st w, true)
  | AssertionFailed => (AssertionFailed, false)
  end.

(** *** Everything that can happen to the server *)

(** A client connects ([handle_accept], then [on_accept]) or closes; a
    frame arrives; a tick arrives; a notification posted by
    [cache_market_data] runs. *)
Inductive Event : Type :=
| Opened (session : string) (now_ms : Z)
| Closed (session : string)
| Received (session message : string) (now now_ms : Z)
| Tick (pDepthMarketData : option CThostFtdcDepthMarketDataField) (cur_time : Z)
| Notified (instrument_id : string).

(** [None] when the event trips the assertion. *)
Definition step (acc : MarketDataServer * Dispatch.World) (e : Event)
  : option (MarketDataServer * Dispatch.World) :=
  let '(st, w) := acc in
  match e with
  | Opened session now_ms => Some (on_accept (add_session st session) w session now_ms, w)
  | Closed session => Some (remove_session st w session)
  | Received session message now now_ms =>
      match handle_message now now_ms st w session message with
      | Handled st w => Some (st, w)
      | AssertionFailed => None
      end
  | Tick d cur_time => Some ((OnRtnDepthMarketData st d cur_time).1, w)
  | Notified instrument_id => Some (notify_pending_sessions st instrument_id, w)
  end.

Fixpoint run (acc : MarketDataServer * Dispatch.World) (events : list Event)
  : option (MarketDataServer * Dispatch.World) :=
  match events with
  | [] => Some acc
  | e :: rest =>
      match step acc e with
      | Some acc => run acc rest
      | None => None
      end
  end.

End Vendor.

End Gateway.

(* ===================================================================== *)
(** ** The write queue of a session                                       *)
(* ===================================================================== *)

(** [WebSocketSession::send_message], [start_write] and [on_write]: the
    queue in front of the socket.  [async_writes] is the history of the
    buffers handed to [ws_.async_write], oldest first, and [in_flight]
    the number of those writes whose completion handler has not run. *)
Module Writer.

Record WebSocketSession : Type := {
  message_queue_ : list string;
  current_write_message_ : string;
  is_writing_ : bool;
  async_writes : list string;
  in_flight : nat
}.

Definition new_session : WebSocketSession :=
  {| message_queue_ := []; current_write_message_ := EmptyString;
     is_writing_ := false; async_writes := []; in_flight := 0 |}.

Definition with_is_writing (b : bool) (s : WebSocketSession) : WebSocketSession :=
  {| message_queue_ := message_queue_ s;
     current_write_message_ := current_write_message_ s;
     is_writing_ := b; async_writes := async_writes s; in_flight := in_flight s |}.

Definition start_write (s : WebSocketSession) : WebSocketSession :=
  match message_queue_ s with
  | [] => with_is_writing false s
  | front :: rest =>
      {| message_queue_ := rest; current_write_message_ := front;
         is_writing_ := is_writing_ s;
         async_writes := async_writes s ++ [front];
         in_flight := S (in_flight s) |}
  end.

Definition send_message (message : string) (s : WebSocketSession) : WebSocketSession :=
  let s := {| message_queue_ := message_queue_ s ++ [message];
              current_write_message_ := current_write_message_ s;
              is_writing_ := is_writing_ s; async_writes := async_writes s;
              in_flight := in_flight s |} in
  if negb (is_writing_ s) then start_write (with_is_writing true s) else s.

(** [ec] is true when the write failed. *)
Definition on_write (ec : bool) (s : WebSocketSession) : WebSocketSession :=
  if ec then with_is_writing false s else start_write s.

(** The server sends a message, or the socket completes a write. *)
Inductive Event : Type :=
| Send (message : string)
| Completed (ec : bool).

(** A completion handler runs for a write that is in flight; there is
    no step for one when none is. *)
Definition step (s : WebSocketSession) (e : Event) : option WebSocketSession :=
  match e with
  | Send message => Some (send_message message s)
  | Completed ec =>
      match in_flight s with
      | O => None
      | S n =>
          Some (on_write ec
                  {| message_queue_ := message_queue_ s;
                     current_write_message_ := current_write_message_ s;
                     is_writing_ := is_writing_ s; async_writes := async_writes s;
                     in_flight := n |})
      end
  end.

Fixpoint run (s : WebSocketSession) (events : list Event) : option WebSocketSession :=
  match events with
  | [] => Some s
  | e :: rest =>
      match step s e with
      | Some s => run s rest
      | None => None
      end
  end.

(** The messages the events hand to [send_message], in order. *)
Definition sent (events : list Event) : list string :=
  flat_map (fun e => match e with Send m => [m] | Completed _ => [] end) events.

End Writer.

(* ===================================================================== *)
(** ** The server in single-connection mode                               *)
(* ===================================================================== *)

(** [MarketDataServer] built by the constructor that takes one front
    address: the server talks to one vendor API object itself. *)
Module Single.
Import Gateway.

Inductive ApiCall : Type :=
| ReqUserLogin (request_id : Z)
| SubscribeMarketData (instrument : string)
| UnSubscribeMarketData (instrument : string).

(** [ctp_api_] (null or not), the two flags, the request counter and the
    history of the requests. *)
Record Upstream : Type := {
  ctp_api_ : bool;
  ctp_connected_ : bool;
  ctp_logged_in_ : bool;
  request_id_ : Z;
  api_calls : list ApiCall
}.

Definition with_api_calls (l : list ApiCall) (u : Upstream) : Upstream :=
  {| ctp_api_ := ctp_api_ u; ctp_connected_ := ctp_connected_ u;
     ctp_logged_in_ := ctp_logged_in_ u; request_id_ := request_id_ u;
     api_calls := l |}.

(** [++request_id_] on the [std::atomic<int>]. *)
Definition next_request_id (z : Z) : Z := (z + 1 + 2 ^ 31) mod 2 ^ 32 - 2 ^ 31.

(** The request [call] names [instrument]. *)
Definition names (instrument : string) (call : ApiCall) : bool :=
  match call with
  | ReqUserLogin _ => false
  | SubscribeMarketData i | UnSubscribeMarketData i => bool_decide (i = instrument)
  end.

(** What reaches the server in this mode: the three requests of the
    sessions, and the vendor's [OnFrontConnected], which logs in. *)
Inductive Event : Type :=
| Subscribe (session instrument : string)
| Unsubscribe (session instrument : string)
| RemoveSession (session : string)
| FrontConnected.

Section Vendor.
Variable vendor_result : list ApiCall → ApiCall → Z.

(** [ctp_login]; it dereferences [ctp_api_], so there is no result when
    that is null. *)
Definition ctp_login (u : Upstream) : option Upstream :=
  if negb (ctp_api_ u) then None
  else
    let id := next_request_id (request_id_ u) in
    let call := ReqUserLogin id in
    let ret := vendor_result (api_calls u) call in
    Some {| ctp_api_ := true;
            ctp_connected_ := if ret =? 0 then true else ctp_connected_ u;
            ctp_logged_in_ := if ret =? 0 then true else ctp_logged_in_ u;
            request_id_ := id;
            api_calls := api_calls u ++ [call] |}.

Definition subscribe_instrument (st : MarketDataServer) (u : Upstream)
    (session instrument_id : string) : MarketDataServer * Upstream :=
  let st := with_subscribers
              (insert_into instrument_id session (instrument_subscribers_ st)) st in
  if (size (default ∅ (instrument_subscribers_ st !! instrument_id)) =? 1)%nat
     && ctp_api_ u && ctp_logged_in_ u
  then (st, with_api_calls (api_calls u ++ [SubscribeMarketData instrument_id]) u)
  else (st, u).

(** The lines shared by [unsubscribe_instrument] and the loop of
    [remove_session]: the session leaves the subscribers of the
    instrument, and the last one to leave takes the upstream subscription
    with it. *)
Definition leave (session : string) (acc : MarketDataServer * Upstream)
    (instrument_id : string) : MarketDataServer * Upstream :=
  let '(st, u) := acc in
  match instrument_subscribers_ st !! instrument_id with
  | None => (st, u)
  | Some subscribers =>
      let remaining := subscribers ∖ {[session]} in
      if decide (remaining = ∅) then
        (with_subscribers (delete instrument_id (instrument_subscribers_ st)) st,
         if ctp_api_ u && ctp_logged_in_ u
         then with_api_calls (api_calls u ++ [UnSubscribeMarketData instrument_id]) u
         else u)
      else
        (with_subscribers (<[instrument_id := remaining]> (instrument_subscribers_ st)) st, u)
  end.

Definition unsubscribe_instrument (st : MarketDataServer) (u : Upstream)
    (session instrument_id : string) : MarketDataServer * Upstream :=
  leave session (st, u) instrument_id.

Definition remove_session (st : MarketDataServer) (u : Upstream) (session : string)
  : MarketDataServer * Upstream :=
  let '(st, u) :=
    match sessions_ st !! session with
    | Some s => fold_left (leave session) (in_order (subscriptions_ s)) (st, u)
    | None => (st, u)
    end in
  let st := with_sessions (delete session (sessions_ st)) st in
  let st := with_cursors (delete session (session_last_sent_structs_ st))
                         (delete session (session_last_versions_ st)) st in
  (with_pending (pending_peek_sessions_ st ∖ {[session]}) st, u).

Definition step (acc : MarketDataServer * Upstream) (e : Event)
  : option (MarketDataServer * Upstream) :=
  let '(st, u) := acc in
  match e with
  | Subscribe session instrument => Some (subscribe_instrument st u session instrument)
  | Unsubscribe session instrument => Some (unsubscribe_instrument st u session instrument)
  | RemoveSession session => Some (remove_session st u session)
  | FrontConnected =>
      match ctp_login u with
      | Some u => Some (st, u)
      | None => None
      end
  end.

Fixpoint run (acc : MarketDataServer * Upstream) (events : list Event)
  : option (MarketDataServer * Upstream) :=
  match events with
  | [] => Some acc
  | e :: rest =>
      match step acc e with
      | Some acc => run acc rest
      | None => None
      end
  end.

End Vendor.

End Single.

(* ===================================================================== *)
(** ** The receiving side                                                 *)
(* ===================================================================== *)

(** The client is not part of the sources.  These definitions say what
    "applying a frame" means for the round-trip property: a member of a
    quote object overwrites the field it names when it carries a value
    of the field's type, and every other member (a [null], an unknown
    key) leaves the record alone. *)
Module Client.
Import Quote.

Definition patched_string (key : string) (old : string) (patch : list (string * json)) : string :=
  match find_member key patch with Some (JString s) => s | _ => old end.
Definition patched_int (key : string) (old : Z) (patch : list (string * json)) : Z :=
  match find_member key patch with Some (JInt z) => z | _ => old end.
Definition patched_double (key : string) (old : double) (patch : list (string * json)) : double :=
  match find_member key patch with Some (JDouble d) => d | _ => old end.

Definition apply_patch (q : MarketDataStruct) (patch : json) : MarketDataStruct :=
  let p := members_of patch in
  {| instrument_id := patched_string "instrument_id" (instrument_id q) p;
     datetime := patched_string "datetime" (datetime q) p;
     timestamp := patched_int "timestamp" (timestamp q) p;
     ask_price := imap (fun i x => patched_double (key_at ASK_PRICE_KEYS i) x p) (ask_price q);
     ask_volume := imap (fun i x => patched_int (key_at ASK_VOLUME_KEYS i) x p) (ask_volume q);
     bid_price := imap (fun i x => patched_double (key_at BID_PRICE_KEYS i) x p) (bid_price q);
     bid_volume := imap (fun i x => patched_int (key_at BID_VOLUME_KEYS i) x p) (bid_volume q);
     last_price := patched_double "last_price" (last_price q) p;
     highest := patched_double "highest" (highest q) p;
     lowest := patched_double "lowest" (lowest q) p;
     open := patched_double "open" (open q) p;
     close := patched_double "close" (close q) p;
     average := patched_double "average" (average q) p;
     volume := patched_int "volume" (volume q) p;
     amount := patched_double "amount" (amount q) p;
     open_interest := patched_int "open_interest" (open_interest q) p;
     settlement := patched_double "settlement" (settlement q) p;
     upper_limit := patched_double "upper_limit" (upper_limit q) p;
     lower_limit := patched_double "lower_limit" (lower_limit q) p;
     pre_open_interest := patched_int "pre_open_interest" (pre_open_interest q) p;
     pre_settlement := patched_double "pre_settlement" (pre_settlement q) p;
     pre_close := patched_double "pre_close" (pre_close q) p |}.

(** [data[0].quotes] of an [rtn_data] frame. *)
Definition quotes_of (frame : json) : list (string * json) :=
  match find_member "data" (members_of frame) with
  | Some (JArray (first :: _)) =>
      match find_member "quotes" (members_of first) with
      | Some quotes => members_of quotes
      | None => []
      end
  | _ => []
  end.

(** The client's picture of the market: one record per key seen, an
    unseen key starting from the zero record. *)
Definition apply_quote (view : gmap string MarketDataStruct) (kq : string * json)
  : gmap string MarketDataStruct :=
  <[kq.1 := apply_patch (default zeroed (view !! kq.1)) kq.2]> view.

Definition apply_frame (view : gmap string MarketDataStruct) (frame : json)
  : gmap string MarketDataStruct :=
  fold_left apply_quote (quotes_of frame) view.

Definition client_view (frames : list json) : gmap string MarketDataStruct :=
  fold_left apply_frame frames ∅.

(** The frames a session was sent, oldest first. *)
Definition frames_of (session : string) (sent : list (string * json)) : list json :=
  map snd (List.filter (fun sf => String.eqb sf.1 session) sent).

End Client.

(* ===================================================================== *)
(** ** The rules of the specification, in its own words                   *)
(* ===================================================================== *)

Module Spec.
Import Double Quote.

(** "Upstream values with absolute magnitude <= 1e-6 or >= 1e300 are
    treated as missing (stored as 0.0)"; every other value is stored
    rounded to two decimals. *)
Definition price_rule (v : double) : double :=
  if le (abs v) lit_1e_6 || ge (abs v) lit_1e300 then zero else round2 v.

(** The upstream price fields the rule is about, each with the place
    where [build_market_data_struct] stores it. *)
Inductive PriceField : Type :=
| Ask1 | Ask2 | Ask3 | Ask4 | Ask5
| Bid1 | Bid2 | Bid3 | Bid4 | Bid5
| Last | Highest | Lowest | Open | Close
| Settlement | UpperLimit | LowerLimit | PreSettlement | PreClose.

Definition upstream_price (f : PriceField) (d : CThostFtdcDepthMarketDataField) : double :=
  match f with
  | Ask1 => AskPrice1 d | Ask2 => AskPrice2 d | Ask3 => AskPrice3 d
  | Ask4 => AskPrice4 d | Ask5 => AskPrice5 d
  | Bid1 => BidPrice1 d | Bid2 => BidPrice2 d | Bid3 => BidPrice3 d
  | Bid4 => BidPrice4 d | Bid5 => BidPrice5 d
  | Last => LastPrice d | Highest => HighestPrice d | Lowest => LowestPrice d
  | Open => OpenPrice d | Close => ClosePrice d
  | Settlement => SettlementPrice d | UpperLimit => UpperLimitPrice d
  | LowerLimit => LowerLimitPrice d | PreSettlement => PreSettlementPrice d
  | PreClose => PreClosePrice d
  end.

Definition cached_price (f : PriceField) (q : MarketDataStruct) : double :=
  match f with
  | Ask1 => price_at (ask_price q) 0 | Ask2 => price_at (ask_price q) 1
  | Ask3 => price_at (ask_price q) 2 | Ask4 => price_at (ask_price q) 3
  | Ask5 => price_at (ask_price q) 4
  | Bid1 => price_at (bid_price q) 0 | Bid2 => price_at (bid_price q) 1
  | Bid3 => price_at (bid_price q) 2 | Bid4 => price_at (bid_price q) 3
  | Bid5 => price_at (bid_price q) 4
  | Last => last_price q | Highest => highest q | Lowest => lowest q
  | Open => open q | Close => close q
  | Settlement => settlement q | UpperLimit => upper_limit q
  | LowerLimit => lower_limit q | PreSettlement => pre_settlement q
  | PreClose => pre_close q
  end.

(** The doubles of a quote that the diff engine compares. *)
Definition compared_doubles (q : MarketDataStruct) : list double :=
  ask_price q ++ bid_price q ++
  [last_price q; highest q; lowest q; open q; close q; settlement q;
   upper_limit q; lower_limit q; pre_settlement q; pre_close q; amount q].

Definition is_neg_zero (x : double) : bool :=
  match x with S754_zero true => true | _ => false end.

Definition nan_free (q : MarketDataStruct) : bool :=
  forallb (fun x => negb (is_nan x)) (compared_doubles q).

(** Every double that goes into a frame of the record is finite, so the
    writer writes it. *)
Definition finite_doubles (q : MarketDataStruct) : bool :=
  forallb is_finite (compared_doubles q).

(** A record as the C++ type has it (four arrays of ten) in which no
    compared double is the negative zero. *)
Definition well_formed (q : MarketDataStruct) : bool :=
  (length (ask_price q) =? 10)%nat && (length (ask_volume q) =? 10)%nat
  && (length (bid_price q) =? 10)%nat && (length (bid_volume q) =? 10)%nat
  && forallb (fun x => negb (is_neg_zero x)) (compared_doubles q).

(** A quote shaped like those the tick path caches: well formed, the
    unused [average] zero and depth levels 6 to 10 empty. *)
Definition cache_shaped (q : MarketDataStruct) : bool :=
  well_formed q
  && bits_eqb (average q) zero
  && forallb (fun i => bits_eqb (price_at (ask_price q) i) zero
                       && (volume_at (ask_volume q) i =? 0)
                       && bits_eqb (price_at (bid_price q) i) zero
                       && (volume_at (bid_volume q) i =? 0))
             [5; 6; 7; 8; 9]%nat.

(** *** The session and its client *)

(** The quotes a session was last sent ([session_last_sent_structs_]). *)
Definition cursor (st : Gateway.MarketDataServer) (s : string)
  : gmap string MarketDataStruct :=
  default ∅ (Gateway.session_last_sent_structs_ st !! s).

(** What the client of a session holds after the frames it was sent. *)
Definition view_of (st : Gateway.MarketDataServer) (s : string)
  : gmap string MarketDataStruct :=
  Client.client_view (Client.frames_of s (Gateway.sent_frames st)).

Definition indexed (st : Gateway.MarketDataServer) (i : string) : Prop :=
  is_Some (Gateway.instrument_index_map_ st !! i).

(** The key of an instrument in the frames of a server. *)
Definition key_of (st : Gateway.MarketDataServer) (i : string) : string :=
  Gateway.display_key i
    (Gateway.display_instruments_cache_ st !! Z.to_nat (Gateway.get_index st i)).

(** No two instruments of the cache appear under one key. *)
Definition keys_distinct (st : Gateway.MarketDataServer) : Prop :=
  ∀ i j, indexed st i → indexed st j → key_of st i = key_of st j → i = j.

(** The indices handed out are 0, 1, ... in the order of first arrival. *)
Definition dense_indices (st : Gateway.MarketDataServer) : Prop :=
  ∀ id i, Gateway.instrument_index_map_ st !! id = Some i →
          0 ≤ i < Z.of_nat (size (Gateway.instrument_index_map_ st)).

Definition even_counters (st : Gateway.MarketDataServer) : Prop :=
  Forall (fun e => Gateway.sequence e mod 2 = 0) (Gateway.market_data_cache_ st).

Definition shaped_cache (st : Gateway.MarketDataServer) : Prop :=
  Forall (fun e => Gateway.has_data e = true → cache_shaped (Gateway.data e) = true)
         (Gateway.market_data_cache_ st).

Definition shaped_views (st : Gateway.MarketDataServer) : Prop :=
  ∀ s k x, view_of st s !! k = Some x → cache_shaped x = true.

(** Every quote of a cursor is what the client holds under its key. *)
Definition agrees (st : Gateway.MarketDataServer) : Prop :=
  ∀ s i q, cursor st s !! i = Some q →
           indexed st i ∧ view_of st s !! key_of st i = Some q.

Definition consistent (st : Gateway.MarketDataServer) : Prop :=
  dense_indices st ∧ even_counters st ∧ shaped_cache st
  ∧ shaped_views st ∧ agrees st.

(** [st'] knows the instruments of [st] under the same index and name. *)
Definition extends (st st' : Gateway.MarketDataServer) : Prop :=
  ∀ id i, Gateway.instrument_index_map_ st !! id = Some i →
          Gateway.instrument_index_map_ st' !! id = Some i
          ∧ Gateway.display_instruments_cache_ st' !! Z.to_nat i
            = Gateway.display_instruments_cache_ st !! Z.to_nat i.

(** Two servers with the same cache, index, cursors and frames. *)
Definition same_core (st st' : Gateway.MarketDataServer) : Prop :=
  Gateway.instrument_index_map_ st' = Gateway.instrument_index_map_ st
  ∧ Gateway.display_instruments_cache_ st' = Gateway.display_instruments_cache_ st
  ∧ Gateway.market_data_cache_ st' = Gateway.market_data_cache_ st
  ∧ Gateway.session_last_sent_structs_ st' = Gateway.session_last_sent_structs_ st
  ∧ Gateway.sent_frames st' = Gateway.sent_frames st.

(** An entry of what a peek collects: the instrument has a slot, and the
    snapshot is the quote of the slot under the name of the slot. *)
Definition collected (st : Gateway.MarketDataServer)
    (entry : string * Gateway.SnapshotData) : Prop :=
  ∃ idx e,
    Gateway.instrument_index_map_ st !! entry.1 = Some idx
    ∧ Gateway.market_data_cache_ st !! Z.to_nat idx = Some e
    ∧ Gateway.has_data e = true
    ∧ Gateway.Snapshot.data entry.2 = Gateway.data e
    ∧ Gateway.Snapshot.display_instrument entry.2
      = Gateway.display_instruments_cache_ st !! Z.to_nat idx.

(** A tick whose turnover, which is cached as it comes, is a finite
    number and not the negative zero. *)
Definition sane_event (e : Gateway.Event) : Prop :=
  match e with
  | Gateway.Tick (Some d) _ =>
      is_neg_zero (Turnover d) = false ∧ is_finite (Turnover d) = true
  | _ => True
  end.

(** The two halves of the [datetime] of a quote, as lists of characters:
    [YYYY-MM-DD ] from the trading day and [HH:MM:SS.mmm] from the update
    time and the milliseconds. *)
Definition date_text (td : list ascii) : list ascii :=
  take 4 td ++ ["-"%char] ++ take 2 (drop 4 td) ++ ["-"%char]
  ++ take 2 (drop 6 td) ++ [" "%char].
Definition time_text (ut : list ascii) (ms : Z) : list ascii :=
  take 8 ut ++ ["."%char; digit_char (ms / 100); digit_char (ms / 10 mod 10);
                digit_char (ms mod 10)].

(** A [char[9]] field that holds eight characters. *)
Definition eight_chars (l : list ascii) : bool :=
  (8 <=? length l)%nat && forallb (fun c => negb (Ascii.eqb c NUL)) (take 8 l).

(** An event in which session [s] connects or sends a frame. *)
Definition from_session (s : string) (e : Gateway.Event) : bool :=
  match e with
  | Gateway.Opened s' _ | Gateway.Received s' _ _ _ => String.eqb s' s
  | _ => false
  end.

(** The sessions listed for an instrument in [instrument_subscribers_]. *)
Definition subscribers_of (st : Gateway.MarketDataServer) (i : string) : gset string :=
  default ∅ (Gateway.instrument_subscribers_ st !! i).

(** The depth prices of a record hold no NaN and no negative zero. *)
Definition clean_depth (q : MarketDataStruct) : bool :=
  forallb (fun x => negb (is_nan x) && negb (is_neg_zero x))
          (map (price_at (ask_price q)) (seq 0 10)
           ++ map (price_at (bid_price q)) (seq 0 10)).

(** The tokens of an [ins_list], joined by commas. *)
Fixpoint comma_joined (tokens : list string) : string :=
  match tokens with
  | [] => EmptyString
  | [t] => t
  | t :: rest => (t ++ "," ++ comma_joined rest)%string
  end.

Fixpoint has_char (c : ascii) (s : string) : bool :=
  match s with
  | EmptyString => false
  | String c' rest => Ascii.eqb c' c || has_char c rest
  end.

(** Every record has a session that asks for it, and every session that
    asks for an instrument has it in its own set. *)
Definition requesters_known (w : Dispatch.World) : Prop :=
  ∀ i info, Dispatch.global_subscriptions_ w !! i = Some info →
            Dispatch.requesting_sessions info ≠ ∅
            ∧ ∀ s, s ∈ Dispatch.requesting_sessions info →
                   i ∈ default ∅ (Dispatch.session_subscriptions_ w !! s).

(** [st'] is [st] after serving the sessions of [to]: frames were sent
    to sessions of [to] that are connected, sessions of [to] may have
    been parked, and the cursors may have moved; the sessions, the
    subscribers and the cache are as they were. *)
Definition serves (to : list string) (st st' : Gateway.MarketDataServer) : Prop :=
  Gateway.sessions_ st' = Gateway.sessions_ st
  ∧ Gateway.instrument_subscribers_ st' = Gateway.instrument_subscribers_ st
  ∧ Gateway.market_data_cache_ st' = Gateway.market_data_cache_ st
  ∧ Gateway.display_instruments_cache_ st' = Gateway.display_instruments_cache_ st
  ∧ Gateway.instrument_index_map_ st' = Gateway.instrument_index_map_ st
  ∧ Gateway.noheadtohead_instruments_map_ st' = Gateway.noheadtohead_instruments_map_ st
  ∧ (∃ l, Gateway.sent_frames st' = Gateway.sent_frames st ++ l
          ∧ Forall (fun sf : string * json =>
                      sf.1 ∈ to ∧ is_Some (Gateway.sessions_ st !! sf.1)) l)
  ∧ (∀ s, s ∈ Gateway.pending_peek_sessions_ st' →
          s ∈ Gateway.pending_peek_sessions_ st ∨ s ∈ to).

(** [w'] has the records of [w] or fewer, each asked for by the same
    sessions, and the same sets of the sessions. *)
Definition requesters_kept (w w' : Dispatch.World) : Prop :=
  Dispatch.session_subscriptions_ w' = Dispatch.session_subscriptions_ w
  ∧ ∀ i info', Dispatch.global_subscriptions_ w' !! i = Some info' →
               ∃ info, Dispatch.global_subscriptions_ w !! i = Some info
                       ∧ Dispatch.requesting_sessions info'
                         = Dispatch.requesting_sessions info.

(** [w'] has the records of [w], each asked for by the same sessions,
    and the same sets of the sessions. *)
Definition same_requests (w w' : Dispatch.World) : Prop :=
  Dispatch.session_subscriptions_ w' = Dispatch.session_subscriptions_ w
  ∧ ∀ i, Dispatch.requesting_sessions <$> Dispatch.global_subscriptions_ w' !! i
         = Dispatch.requesting_sessions <$> Dispatch.global_subscriptions_ w !! i.

(** The three states a record is left in by the dispatcher. *)
Definition settled_status (s : Dispatch.SubscriptionStatus) : Prop :=
  s = Dispatch.SUBSCRIBING ∨ s = Dispatch.ACTIVE ∨ s = Dispatch.FAILED.

Definition settled (w : Dispatch.World) : Prop :=
  ∀ i info, Dispatch.global_subscriptions_ w !! i = Some info →
            settled_status (Dispatch.status info).

(** Every record of [w'] is in one of the three states or has the
    status it had in [w]. *)
Definition status_kept (w w' : Dispatch.World) : Prop :=
  ∀ i info', Dispatch.global_subscriptions_ w' !! i = Some info' →
             settled_status (Dispatch.status info')
             ∨ ∃ info, Dispatch.global_subscriptions_ w !! i = Some info
                       ∧ Dispatch.status info' = Dispatch.status info.

(** The restarts of a monitor respect the back-off: each is recorded
    with a next-allowed time at least ten seconds later, and two
    restarts of one connection are at least ten seconds apart. *)
Definition backed_off (h : Dispatch.HealthMonitor) : Prop :=
  (∀ t id, (t, id) ∈ Dispatch.restarts h →
           ∃ ta, Dispatch.next_restart_allowed_ h !! id = Some ta
                 ∧ t + Dispatch.ten_seconds ≤ ta)
  ∧ ∀ p q t1 t2 id, (p < q)%nat →
       Dispatch.restarts h !! p = Some (t1, id) →
       Dispatch.restarts h !! q = Some (t2, id) →
       t1 + Dispatch.ten_seconds ≤ t2.

(** The writer of a session after the messages [l] were handed to
    [send_message]: what went to the socket and what waits is [l], in
    order; and a write is in flight exactly when [is_writing_] is set,
    then one, of [current_write_message_]. *)
Definition orderly (l : list string) (s : Writer.WebSocketSession) : Prop :=
  Writer.async_writes s ++ Writer.message_queue_ s = l
  ∧ if Writer.is_writing_ s
    then Writer.in_flight s = 1%nat
         ∧ last (Writer.async_writes s) = Some (Writer.current_write_message_ s)
    else Writer.in_flight s = 0%nat.

(** [q] with another [average]. *)
Definition with_average (a : double) (q : MarketDataStruct) : MarketDataStruct :=
  {| instrument_id := instrument_id q; datetime := datetime q;
     timestamp := timestamp q;
     ask_price := ask_price q; ask_volume := ask_volume q;
     bid_price := bid_price q; bid_volume := bid_volume q;
     last_price := last_price q; highest := highest q; lowest := lowest q;
     open := open q; close := close q; average := a; volume := volume q;
     amount := amount q; open_interest := open_interest q;
     settlement := settlement q; upper_limit := upper_limit q;
     lower_limit := lower_limit q; pre_open_interest := pre_open_interest q;
     pre_settlement := pre_settlement q; pre_close := pre_close q |}.

(** A tick with another last price and volume, all else the same. *)
Definition with_last_and_volume (p : double) (v : Z) (d : CThostFtdcDepthMarketDataField)
  : CThostFtdcDepthMarketDataField :=
  {| TradingDay := TradingDay d; InstrumentID := InstrumentID d;
     UpdateTime := UpdateTime d; UpdateMillisec := UpdateMillisec d;
     LastPrice := p;
     PreSettlementPrice := PreSettlementPrice d; PreClosePrice := PreClosePrice d;
     PreOpenInterest := PreOpenInterest d; OpenPrice := OpenPrice d;
     HighestPrice := HighestPrice d; LowestPrice := LowestPrice d;
     Volume := v; Turnover := Turnover d; OpenInterest := OpenInterest d;
     ClosePrice := ClosePrice d; SettlementPrice := SettlementPrice d;
     UpperLimitPrice := UpperLimitPrice d; LowerLimitPrice := LowerLimitPrice d;
     BidPrice1 := BidPrice1 d; BidVolume1 := BidVolume1 d;
     AskPrice1 := AskPrice1 d; AskVolume1 := AskVolume1 d;
     BidPrice2 := BidPrice2 d; BidVolume2 := BidVolume2 d;
     AskPrice2 := AskPrice2 d; AskVolume2 := AskVolume2 d;
     BidPrice3 := BidPrice3 d; BidVolume3 := BidVolume3 d;
     AskPrice3 := AskPrice3 d; AskVolume3 := AskVolume3 d;
     BidPrice4 := BidPrice4 d; BidVolume4 := BidVolume4 d;
     AskPrice4 := AskPrice4 d; AskVolume4 := AskVolume4 d;
     BidPrice5 := BidPrice5 d; BidVolume5 := BidVolume5 d;
     AskPrice5 := AskPrice5 d; AskVolume5 := AskVolume5 d |}.

(** A tick that carries nothing, and quotes to try the diff engine on. *)
Definition quiet_tick : CThostFtdcDepthMarketDataField :=
  {| TradingDay := []; InstrumentID := EmptyString;
     UpdateTime := []; UpdateMillisec := 0;
     LastPrice := zero;
     PreSettlementPrice := zero; PreClosePrice := zero;
     PreOpenInterest := zero; OpenPrice := zero;
     HighestPrice := zero; LowestPrice := zero;
     Volume := 0; Turnover := zero; OpenInterest := zero;
     ClosePrice := zero; SettlementPrice := zero;
     UpperLimitPrice := zero; LowerLimitPrice := zero;
     BidPrice1 := zero; BidVolume1 := 0; AskPrice1 := zero; AskVolume1 := 0;
     BidPrice2 := zero; BidVolume2 := 0; AskPrice2 := zero; AskVolume2 := 0;
     BidPrice3 := zero; BidVolume3 := 0; AskPrice3 := zero; AskVolume3 := 0;
     BidPrice4 := zero; BidVolume4 := 0; AskPrice4 := zero; AskVolume4 := 0;
     BidPrice5 := zero; BidVolume5 := 0; AskPrice5 := zero; AskVolume5 := 0 |}.

Definition minus_five : double := Eval vm_compute in of_Z (-5).
Definition one : double := Eval vm_compute in of_Z 1.

(** [q] with another [amount]. *)
Definition with_amount (a : double) (q : MarketDataStruct) : MarketDataStruct :=
  {| instrument_id := instrument_id q; datetime := datetime q;
     timestamp := timestamp q;
     ask_price := ask_price q; ask_volume := ask_volume q;
     bid_price := bid_price q; bid_volume := bid_volume q;
     last_price := last_price q; highest := highest q; lowest := lowest q;
     open := open q; close := close q; average := average q; volume := volume q;
     amount := a; open_interest := open_interest q;
     settlement := settlement q; upper_limit := upper_limit q;
     lower_limit := lower_limit q; pre_open_interest := pre_open_interest q;
     pre_settlement := pre_settlement q; pre_close := pre_close q |}.

(** The lookup the proofs use on a sequence of guarded writes. *)
Fixpoint find_guarded (key : string) (gs : list guarded) : option json :=
  match gs with
  | [] => None
  | g :: rest =>
      if String.eqb g.1.2 key
      then (if g.1.1 then Some g.2 else find_guarded key rest)
      else find_guarded key rest
  end.

(** The prices of scenario S2: 3850.0 and 3850.5. *)
Definition price_3850 : double := Eval vm_compute in of_Z 3850.
Definition price_3850_5 : double := Eval vm_compute in div (of_Z 38505) (of_Z 10).

(** 0.004: above 1e-6, and below half a cent. *)
Definition price_0_004 : double := Eval vm_compute in div (of_Z 4) (of_Z 1000).



(** "Every record that was ACTIVE on c is either reassigned to another
    available connection or present in the retry set." *)
Definition reassigned_or_queued (connection : string) (w : Dispatch.World)
    (instrument : string) : Prop :=
  ∃ info, Dispatch.global_subscriptions_ w !! instrument = Some info
          ∧ ((Dispatch.status info = Dispatch.SUBSCRIBING
              ∧ Dispatch.assigned_connection_id info ≠ connection)
             ∨ instrument ∈ Dispatch.retry_set_ w).

(** The request a frame names: its [aid] member when that is a string. *)
Definition aid_of (doc : list (string * json)) : option string :=
  match find_member "aid" doc with
  | Some (JString a) => Some (Quote.c_str a)
  | _ => None
  end.

Definition ins_list_is_string (doc : list (string * json)) : bool :=
  match find_member "ins_list" doc with
  | Some (JString _) => true
  | _ => false
  end.

(** A parser that knows the listed texts and rejects every other. *)
Definition parse_table (table : list (string * json)) (text : string) : option json :=
  find_member text table.

(** The frame [{"aid":"hello"}]. *)
Definition dquote : string := String (Ascii.ascii_of_nat 34) EmptyString.
Definition hello_frame : string :=
  "{" ++ dquote ++ "aid" ++ dquote ++ ":" ++ dquote ++ "hello" ++ dquote ++ "}".
Definition hello_doc : json := JObject [("aid", JString "hello")].

End Spec.

(* ===================================================================== *)
(** ** Concrete runs                                                      *)
(* ===================================================================== *)

(** Small configurations and event sequences on which the definitions
    above are evaluated. *)
Module Scenario.
Import Double Quote.

Definition chars (s : string) : list ascii := list_ascii_of_string s.

(** A vendor library that accepts every request. *)
Definition accepts : list Dispatch.UpstreamCall → Dispatch.UpstreamCall → Z :=
  fun _ _ => 0.

(** *** Quotes *)

Definition price_3849 : double := Eval vm_compute in of_Z 3849.
Definition price_3851 : double := Eval vm_compute in of_Z 3851.

(** A tick for [instrument] with one level of depth. *)
Definition tick_for (instrument : string) : CThostFtdcDepthMarketDataField :=
  {| TradingDay := chars "20250102"; InstrumentID := instrument;
     UpdateTime := chars "09:30:01"; UpdateMillisec := 500;
     LastPrice := Spec.price_3850;
     PreSettlementPrice := zero; PreClosePrice := zero;
     PreOpenInterest := zero; OpenPrice := zero;
     HighestPrice := zero; LowestPrice := zero;
     Volume := 10000; Turnover := zero; OpenInterest := zero;
     ClosePrice := zero; SettlementPrice := zero;
     UpperLimitPrice := zero; LowerLimitPrice := zero;
     BidPrice1 := price_3849; BidVolume1 := 100;
     AskPrice1 := price_3851; AskVolume1 := 50;
     BidPrice2 := zero; BidVolume2 := 0; AskPrice2 := zero; AskVolume2 := 0;
     BidPrice3 := zero; BidVolume3 := 0; AskPrice3 := zero; AskVolume3 := 0;
     BidPrice4 := zero; BidVolume4 := 0; AskPrice4 := zero; AskVolume4 := 0;
     BidPrice5 := zero; BidVolume5 := 0; AskPrice5 := zero; AskVolume5 := 0 |}.

Definition rb2501_tick : CThostFtdcDepthMarketDataField := tick_for "rb2501".

(** The two ticks of scenarios S1 and S2. *)
Definition first_tick : CThostFtdcDepthMarketDataField :=
  Spec.with_last_and_volume Spec.price_3850 10000 rb2501_tick.
Definition second_tick : CThostFtdcDepthMarketDataField :=
  Spec.with_last_and_volume Spec.price_3850_5 10001 rb2501_tick.

(** A tick whose last price is -5.0. *)
Definition negative_tick : CThostFtdcDepthMarketDataField :=
  Spec.with_last_and_volume Spec.minus_five 10000 rb2501_tick.

(** Session s1 has connected to a fresh server and subscribed nothing. *)
Definition idle_session : Gateway.MarketDataServer :=
  Gateway.on_accept (Gateway.add_session (Gateway.new_server 8) "s1")
    (Dispatch.initial_world 3 []) "s1" 0.

(** Session s1 subscribes SHFE.rb2501 on a fresh server, the first tick
    arrives at [t1], the session peeks (and is sent the full
    snapshot), and the second tick arrives at [t2]. *)
Definition after_subscribe : Gateway.MarketDataServer * Dispatch.World :=
  Gateway.subscribe_one accepts 0 "s1"
    (idle_session, Dispatch.initial_world 3 []) "SHFE.rb2501".

Definition before_second_peek (t1 t2 : Z) : Gateway.MarketDataServer :=
  let st := after_subscribe.1 in
  let st := (Gateway.OnRtnDepthMarketData st (Some first_tick) t1).1 in
  let st := Gateway.handle_peek_message st "s1" in
  (Gateway.OnRtnDepthMarketData st (Some second_tick) t2).1.

(** The same with the first tick delivered again in the millisecond of
    its first delivery (the vendor repeats a quote). *)
Definition before_repeated_peek : Gateway.MarketDataServer :=
  let st := after_subscribe.1 in
  let st := (Gateway.OnRtnDepthMarketData st (Some first_tick) 1000).1 in
  let st := Gateway.handle_peek_message st "s1" in
  (Gateway.OnRtnDepthMarketData st (Some first_tick) 1000).1.

(** The quotes the two ticks are cached as, and the slot of the second. *)
Definition first_quote (t1 : Z) : MarketDataStruct :=
  build_market_data_struct (Some first_tick) "SHFE.rb2501" t1.
Definition second_quote (t2 : Z) : MarketDataStruct :=
  build_market_data_struct (Some second_tick) "SHFE.rb2501" t2.
Definition second_entry (t2 : Z) : Gateway.AtomicMarketDataEntry :=
  {| Gateway.sequence := 4; Gateway.data := second_quote t2; Gateway.has_data := true |}.

(** Session s1 holds SHFE.rb2501 and SHFE.hc2501; rb2501 ticks, the
    session peeks (full snapshot), hc2501 ticks. *)
Definition before_new_instrument : Gateway.MarketDataServer :=
  let acc := (idle_session, Dispatch.initial_world 3 []) in
  let acc := Gateway.subscribe_one accepts 0 "s1" acc "SHFE.rb2501" in
  let st := (Gateway.subscribe_one accepts 0 "s1" acc "SHFE.hc2501").1 in
  let st := (Gateway.OnRtnDepthMarketData st (Some first_tick) 1000).1 in
  let st := Gateway.handle_peek_message st "s1" in
  (Gateway.OnRtnDepthMarketData st (Some (tick_for "hc2501")) 1001).1.

(** The same as a run of events: the frames of the client are the texts
    [{"aid":"subscribe_quote","ins_list":"SHFE.rb2501"}] and
    [{"aid":"peek_message"}], which the parser reads as the documents
    they denote. *)
Definition member_text (key value : string) : string :=
  Spec.dquote ++ key ++ Spec.dquote ++ ":" ++ Spec.dquote ++ value ++ Spec.dquote.
Definition subscribe_text : string :=
  "{" ++ member_text "aid" "subscribe_quote" ++ ","
      ++ member_text "ins_list" "SHFE.rb2501" ++ "}".
Definition subscribe_doc : json :=
  JObject [("aid", JString "subscribe_quote"); ("ins_list", JString "SHFE.rb2501")].
Definition peek_text : string := "{" ++ member_text "aid" "peek_message" ++ "}".
Definition peek_doc : json := JObject [("aid", JString "peek_message")].

Definition parser : string → option json :=
  Spec.parse_table [(subscribe_text, subscribe_doc); (peek_text, peek_doc)].

Definition s2_events : list Gateway.Event :=
  [Gateway.Opened "s1" 0;
   Gateway.Received "s1" subscribe_text 1 1;
   Gateway.Tick (Some first_tick) 1000;
   Gateway.Received "s1" peek_text 2 1001;
   Gateway.Tick (Some second_tick) 1001;
   Gateway.Received "s1" peek_text 3 1002].

Definition fresh : Gateway.MarketDataServer * Dispatch.World :=
  (Gateway.new_server 8, Dispatch.initial_world 3 []).

Definition s2_final : Gateway.MarketDataServer * Dispatch.World :=
  default fresh (Gateway.run accepts parser fresh s2_events).

(** The quotes object of the last frame sent. *)
Definition last_quotes (st : Gateway.MarketDataServer) : option json :=
  match last (Gateway.sent_frames st) with
  | Some (_, frame) =>
      match find_member "data" (members_of frame) with
      | Some (JArray (first :: _)) => find_member "quotes" (members_of first)
      | _ => None
      end
  | None => None
  end.

(** *** Connections *)

Definition front (id : string) (max : Z) : Dispatch.CTPConnectionConfig :=
  {| Dispatch.front_addr := "tcp://127.0.0.1:41213"; Dispatch.broker_id := "9999";
     Dispatch.connection_id := id; Dispatch.max_subscriptions := max;
     Dispatch.priority := 1; Dispatch.enabled := true |}.

(** A logged-in connection that holds [held]. *)
Definition logged_in (id : string) (max : Z) (held : gset string) : Dispatch.CTPConnection :=
  {| Dispatch.config_ := front id max; Dispatch.status_ := Dispatch.LOGGED_IN;
     Dispatch.subscribed_instruments_ := held; Dispatch.error_count_ := 0 |}.

(** The dispatcher with one connection c1, brought up to LOGGED_IN. *)
Definition bring_up : list (Z * Dispatch.Event) :=
  [(0, Dispatch.Start "c1" true); (1, Dispatch.FrontConnected "c1");
   (2, Dispatch.RspUserLogin "c1" 0)].

Definition one_front : Dispatch.World :=
  Dispatch.run accepts (Dispatch.initial_world 3 [front "c1" 500]) bring_up.



(** rb2501 is subscribed for s1; the vendor answers the request with
    an error three times and then with success; a maintenance round
    passes; the front drops. *)
Definition exhausted_then_active : list (Z * Dispatch.Event) :=
  [(3, Dispatch.AddSubscription "s1" "rb2501");
   (4, Dispatch.RspSubMarketData "c1" (Some "rb2501") 1);
   (5, Dispatch.RspSubMarketData "c1" (Some "rb2501") 1);
   (6, Dispatch.RspSubMarketData "c1" (Some "rb2501") 1);
   (7, Dispatch.RspSubMarketData "c1" (Some "rb2501") 0);
   (8, Dispatch.Maintenance)].

Definition before_drop : Dispatch.World :=
  Dispatch.run accepts one_front exhausted_then_active.

(** Two connections, both logged in; rb2501 is ACTIVE on c1 for s1. *)
Definition two_fronts : Dispatch.World :=
  Dispatch.run accepts
    (Dispatch.initial_world 3 [front "c1" 500; front "c2" 500])
    [(0, Dispatch.Start "c1" true); (0, Dispatch.Start "c2" true);
     (1, Dispatch.FrontConnected "c1"); (1, Dispatch.FrontConnected "c2");
     (2, Dispatch.RspUserLogin "c1" 0); (2, Dispatch.RspUserLogin "c2" 0);
     (3, Dispatch.AddSubscription "s1" "rb2501");
     (4, Dispatch.RspSubMarketData "c1" (Some "rb2501") 0)].

(** The dispatcher as [OnFrontDisconnected] of c1 hands it to
    [handle_connection_failure]. *)
Definition c1_down (w : Dispatch.World) : Dispatch.World :=
  Dispatch.update_connection "c1"
    (fun c => Dispatch.count_error (Dispatch.with_status Dispatch.DISCONNECTED c)) w.

Definition after_drop : Dispatch.World :=
  Dispatch.handle_connection_failure accepts (c1_down before_drop) "c1".

(** The dispatcher with no connection at all. *)
Definition no_front : Dispatch.World := Dispatch.initial_world 3 [].

(** Ten maintenance rounds, one a minute (the default interval), in
    ticks of the system clock. *)
Definition minute : Z := 60 * 10 ^ 9.
Definition ten_rounds : list Z :=
  map (fun k => k * minute) [1; 2; 3; 4; 5; 6; 7; 8; 9; 10].

End Scenario.

(* ===================================================================== *)
(** * Facts about doubles                                                 *)
(* ===================================================================== *)

Section DoubleFacts.
Import Double.

Lemma iter_pos_preserves {A : Type} (P : A → Prop) (f : A → A) :
  (∀ x, P x → P (f x)) → ∀ p x, P x → P (SpecFloat.iter_pos f p x).
Proof.
  intros Hf p. induction p as [p IH | p IH |]; intros x Hx; simpl.
  - apply IH, IH, Hf, Hx.
  - apply IH, IH, Hx.
  - apply Hf, Hx.
Qed.

Lemma shr_1_nonneg mrs : 0 ≤ shr_m mrs → 0 ≤ shr_m (shr_1 mrs).
Proof.
  destruct mrs as [m r s]; simpl. intros Hm.
  destruct m as [| [p | p |] | p]; simpl; lia.
Qed.

Lemma shr_nonneg mrs e n : 0 ≤ shr_m mrs → 0 ≤ shr_m (fst (shr mrs e n)).
Proof.
  intros Hm. unfold shr. destruct n as [| p | p]; simpl; try assumption.
  apply (iter_pos_preserves (fun x => 0 ≤ shr_m x)); auto using shr_1_nonneg.
Qed.

Lemma shr_record_of_loc_m m l : shr_m (shr_record_of_loc m l) = m.
Proof. destruct l as [| []]; reflexivity. Qed.

Lemma shr_fexp_nonneg pr em m e l :
  0 ≤ m → 0 ≤ shr_m (fst (shr_fexp pr em m e l)).
Proof.
  intros Hm. unfold shr_fexp. apply shr_nonneg.
  rewrite shr_record_of_loc_m. exact Hm.
Qed.

Lemma round_nearest_even_nonneg m l : 0 ≤ m → 0 ≤ round_nearest_even m l.
Proof.
  intros Hm. unfold round_nearest_even.
  destruct l as [| []]; try destruct (Z.even m); lia.
Qed.

(** Rounding a non-negative mantissa never produces a NaN, and the
    result carries the sign it was given. *)
Lemma binary_round_aux_shape pr em sx mx ex lx :
  0 ≤ mx →
  match binary_round_aux pr em sx mx ex lx with
  | S754_zero s | S754_infinity s | S754_finite s _ _ => s = sx
  | S754_nan => False
  end.
Proof.
  intros Hm. unfold binary_round_aux.
  pose proof (shr_fexp_nonneg pr em mx ex lx Hm) as H1.
  destruct (shr_fexp pr em mx ex lx) as [mrs' e'] eqn:E1. simpl in H1.
  pose proof (shr_fexp_nonneg pr em
                (round_nearest_even (shr_m mrs') (loc_of_shr_record mrs')) e' loc_Exact
                (round_nearest_even_nonneg _ _ H1)) as H2.
  destruct (shr_fexp pr em _ e' loc_Exact) as [mrs'' e''] eqn:E2. simpl in H2.
  destruct (shr_m mrs'') as [| m | m]; [reflexivity | | lia].
  destruct (e'' <=? em - pr); reflexivity.
Qed.

Lemma binary_round_shape pr em sx mx ex :
  match binary_round pr em sx mx ex with
  | S754_zero s | S754_infinity s | S754_finite s _ _ => s = sx
  | S754_nan => False
  end.
Proof.
  unfold binary_round.
  destruct (shl_align mx ex _) as [mz ez].
  apply binary_round_aux_shape. lia.
Qed.

Lemma mul_sign b m e y :
  sign_is false y → y ≠ S754_infinity false →
  sign_is b (mul (S754_finite b m e) y).
Proof.
  destruct y as [s | s | | s m' e']; simpl; intros Hs Hinf; try contradiction; subst.
  - destruct b; reflexivity.
  - congruence.
  - unfold mul, SFmul.
    pose proof (binary_round_aux_shape prec emax (xorb b false)
                  (Z.pos (m * m')) (e + e') loc_Exact ltac:(lia)) as H.
    destruct (binary_round_aux _ _ _ _ _ _); simpl in *;
      try contradiction; subst; destruct b; reflexivity.
Qed.

Lemma round_sign b x : sign_is b x → sign_is b (round x).
Proof.
  destruct x as [s | s | | s m e]; simpl; auto.
  intros ->. destruct e as [| p | k]; simpl; auto.
  set (q := Z.shiftr (Z.pos m) (Z.pos k)).
  assert (Hq : 0 ≤ q) by (apply Z.shiftr_nonneg; lia).
  set (n := if Z.testbit (Z.pos m) (Z.pos k - 1) then q + 1 else q).
  assert (Hn : 0 ≤ n) by (unfold n; destruct (Z.testbit _ _); lia).
  destruct n as [| n' | n'] eqn:En; simpl; [reflexivity | | lia].
  unfold binary_normalize.
  destruct b; simpl; apply binary_round_shape.
Qed.

Lemma div_eucl_nonneg a b : 0 ≤ a → 0 < b → 0 ≤ fst (Z.div_eucl a b).
Proof.
  intros Ha Hb. change (fst (Z.div_eucl a b)) with (a / b).
  apply Z.div_pos; lia.
Qed.

Lemma div_sign b x m e :
  sign_is b x → sign_is b (div x (S754_finite false m e)).
Proof.
  destruct x as [s | s | | s mx ex]; simpl; try contradiction; intros ->.
  - destruct b; reflexivity.
  - destruct b; reflexivity.
  - unfold div, SFdiv.
    destruct (SFdiv_core_binary prec emax (Z.pos mx) ex (Z.pos m) e) as [[mz ez] lz] eqn:E.
    assert (Hmz : 0 ≤ mz).
    { unfold SFdiv_core_binary in E.
      set (s := _ - _ - _) in E.
      set (m' := match s with Z0 => _ | Z.pos _ => _ | Z.neg _ => _ end) in E.
      assert (Hm' : 0 ≤ m').
      { unfold m'. destruct s; try lia. apply Z.shiftl_nonneg. lia. }
      pose proof (div_eucl_nonneg m' (Z.pos m) Hm' ltac:(lia)) as Hq.
      destruct (Z.div_eucl m' (Z.pos m)) as [q r]. simpl in Hq.
      injection E as E1 E2 E3. rewrite <- E1. exact Hq. }
    pose proof (binary_round_aux_shape prec emax (xorb b false) mz ez lz Hmz) as H.
    destruct (binary_round_aux _ _ _ _ _ _); simpl in *;
      try contradiction; subst; destruct b; reflexivity.
Qed.

Lemma eq_refl_not_nan x : is_nan x = false → ne x x = false.
Proof.
  unfold ne, eq. destruct x as [s | s | | s m e]; simpl; try discriminate; intros _.
  - reflexivity.
  - destruct s; reflexivity.
  - destruct s; rewrite Z.compare_refl, Pos.compare_cont_refl; reflexivity.
Qed.

Lemma ne_nan : ne S754_nan S754_nan = true.
Proof. reflexivity. Qed.

Lemma compare_cont_eq p q : Pos.compare_cont Eq p q = Eq → p = q.
Proof. apply Pos.compare_eq. Qed.

(** [a == b] identifies two doubles unless they are zeros of opposite
    sign. *)
Lemma eq_true_same a b :
  eq a b = true → Spec.is_neg_zero a = false → Spec.is_neg_zero b = false → a = b.
Proof.
  unfold eq.
  destruct a as [s | s | | s m e], b as [s' | s' | | s' m' e'];
    try destruct s; try destruct s'; simpl; intros H Ha Hb;
    try discriminate; try reflexivity.
  - destruct (e ?= e') eqn:Ee; try discriminate.
    apply Z.compare_eq in Ee; subst.
    destruct (Pos.compare_cont Eq m m') eqn:Em; try discriminate.
    apply compare_cont_eq in Em; subst; reflexivity.
  - destruct (e ?= e') eqn:Ee; try discriminate.
    apply Z.compare_eq in Ee; subst.
    destruct (Pos.compare_cont Eq m m') eqn:Em; try discriminate.
    apply compare_cont_eq in Em; subst; reflexivity.
Qed.

Lemma bits_eqb_eq a b : bits_eqb a b = true ↔ a = b.
Proof.
  split.
  - destruct a as [s | s | | s m e], b as [s' | s' | | s' m' e']; simpl;
      try discriminate; try reflexivity.
    + intros H. apply Bool.eqb_prop in H. congruence.
    + intros H. apply Bool.eqb_prop in H. congruence.
    + intros H. apply andb_prop in H as [H He]. apply andb_prop in H as [Hs Hm].
      apply Bool.eqb_prop in Hs. apply Pos.eqb_eq in Hm. apply Z.eqb_eq in He.
      congruence.
  - intros <-. destruct a as [s | s | | s m e]; simpl; auto using Bool.eqb_reflx.
    rewrite Bool.eqb_reflx, Pos.eqb_refl, Z.eqb_refl. reflexivity.
Qed.

End DoubleFacts.

(* ===================================================================== *)
(** * The price filter                                                    *)
(* ===================================================================== *)

Section PriceFilter.
Import Double Quote.

(** A valid price is a positive finite double. *)
Lemma valid_price_finite p :
  valid_price p = true → ∃ m e, p = S754_finite false m e.
Proof.
  destruct p as [s | s | | s m e].
  - destruct s; vm_compute; discriminate.
  - destruct s; vm_compute; discriminate.
  - vm_compute; discriminate.
  - destruct s.
    + cbv [valid_price gt lt lit_1e_6 lit_1e300 SFcompare andb]. discriminate.
    + eauto.
Qed.

Lemma round2_sign m e : sign_is false (round2 (S754_finite false m e)).
Proof.
  unfold round2, lit_100.
  apply div_sign, round_sign, mul_sign; [reflexivity | discriminate].
Qed.

Lemma stored_price_sign p : sign_is false (stored_price p).
Proof.
  unfold stored_price. destruct (valid_price p) eqn:Hv; [| reflexivity].
  destruct (valid_price_finite p Hv) as (m & e & ->). apply round2_sign.
Qed.

Lemma sign_not_nan b x : sign_is b x → is_nan x = false.
Proof. destruct x; simpl; auto; contradiction. Qed.

Lemma sign_false_not_neg_zero x : sign_is false x → Spec.is_neg_zero x = false.
Proof. destruct x as [[] | | |]; simpl; auto; discriminate. Qed.

Lemma stored_price_not_nan p : is_nan (stored_price p) = false.
Proof. eapply sign_not_nan, stored_price_sign. Qed.

(** What the code stores, against the rule of the specification: they
    agree except on NaN and on negative values. *)
Lemma stored_price_rule v :
  stored_price v = if is_nan v || lt v zero then zero else Spec.price_rule v.
Proof.
  destruct v as [s | s | | s m e].
  - destruct s; vm_compute; reflexivity.
  - destruct s; vm_compute; reflexivity.
  - vm_compute; reflexivity.
  - destruct s.
    + cbv [stored_price valid_price gt lt lit_1e_6 lit_1e300 SFcompare andb orb
             is_nan zero].
      reflexivity.
    + cbv [stored_price Spec.price_rule valid_price gt lt le ge abs SFabs
             lit_1e_6 lit_1e300 SFcompare andb orb is_nan zero].
      destruct (e ?= -72); destruct (Pos.compare_cont Eq m 4722366482869645);
        destruct (e ?= 944); destruct (Pos.compare_cont Eq m 6724873095247260);
        reflexivity.
Qed.

Lemma store_level_asks d :
  let asks := (replicate 10 zero, replicate 10 0) in
  let asks := store_level asks 4 (AskPrice5 d) (AskVolume5 d) in
  let asks := store_level asks 3 (AskPrice4 d) (AskVolume4 d) in
  let asks := store_level asks 2 (AskPrice3 d) (AskVolume3 d) in
  let asks := store_level asks 1 (AskPrice2 d) (AskVolume2 d) in
  let asks := store_level asks 0 (AskPrice1 d) (AskVolume1 d) in
  fst asks = [stored_price (AskPrice1 d); stored_price (AskPrice2 d);
              stored_price (AskPrice3 d); stored_price (AskPrice4 d);
              stored_price (AskPrice5 d); zero; zero; zero; zero; zero].
Proof.
  unfold store_level, stored_price.
  destruct (valid_price (AskPrice5 d)), (valid_price (AskPrice4 d)),
    (valid_price (AskPrice3 d)), (valid_price (AskPrice2 d)),
    (valid_price (AskPrice1 d)); reflexivity.
Qed.

Lemma store_level_bids d :
  let bids := (replicate 10 zero, replicate 10 0) in
  let bids := store_level bids 0 (BidPrice1 d) (BidVolume1 d) in
  let bids := store_level bids 1 (BidPrice2 d) (BidVolume2 d) in
  let bids := store_level bids 2 (BidPrice3 d) (BidVolume3 d) in
  let bids := store_level bids 3 (BidPrice4 d) (BidVolume4 d) in
  let bids := store_level bids 4 (BidPrice5 d) (BidVolume5 d) in
  fst bids = [stored_price (BidPrice1 d); stored_price (BidPrice2 d);
              stored_price (BidPrice3 d); stored_price (BidPrice4 d);
              stored_price (BidPrice5 d); zero; zero; zero; zero; zero].
Proof.
  unfold store_level, stored_price.
  destruct (valid_price (BidPrice1 d)), (valid_price (BidPrice2 d)),
    (valid_price (BidPrice3 d)), (valid_price (BidPrice4 d)),
    (valid_price (BidPrice5 d)); reflexivity.
Qed.

Lemma build_ask_price d disp t :
  ask_price (build_market_data_struct (Some d) disp t)
  = [stored_price (AskPrice1 d); stored_price (AskPrice2 d);
     stored_price (AskPrice3 d); stored_price (AskPrice4 d);
     stored_price (AskPrice5 d); zero; zero; zero; zero; zero].
Proof. exact (store_level_asks d). Qed.

Lemma build_bid_price d disp t :
  bid_price (build_market_data_struct (Some d) disp t)
  = [stored_price (BidPrice1 d); stored_price (BidPrice2 d);
     stored_price (BidPrice3 d); stored_price (BidPrice4 d);
     stored_price (BidPrice5 d); zero; zero; zero; zero; zero].
Proof. exact (store_level_bids d). Qed.

Lemma cached_price_stored f d disp t :
  Spec.cached_price f (build_market_data_struct (Some d) disp t)
  = stored_price (Spec.upstream_price f d).
Proof.
  destruct f; unfold Spec.cached_price, Spec.upstream_price;
    rewrite ?build_ask_price, ?build_bid_price; reflexivity.
Qed.

End PriceFilter.

(* ===================================================================== *)
(** * The diff engine                                                     *)
(* ===================================================================== *)

(** Splitting a conjunction of boolean tests into its parts. *)
Ltac split_andb H :=
  repeat match type of H with
         | (_ && _) = true =>
             let H1 := fresh "W" in
             apply andb_prop in H as [H1 H]; try split_andb H1
         end.

Section DiffFacts.
Import Double Quote Client.

Lemma find_member_write_guarded key gs :
  find_member key (write_guarded gs) = Spec.find_guarded key gs.
Proof.
  induction gs as [| [[b k] v] gs IH]; [reflexivity |].
  unfold write_guarded in *. cbn [flat_map fst snd Spec.find_guarded].
  destruct b; cbn [emit_if app find_member].
  - destruct (String.eqb k key); [reflexivity | exact IH].
  - rewrite IH. destruct (String.eqb k key); reflexivity.
Qed.

(** Looking a key up in the diff of two records whose fields are
    spelled out. *)
Ltac diff_lookup :=
  unfold compute_struct_diff; cbn [members_of];
  rewrite find_member_write_guarded;
  cbv [Spec.find_guarded diff_fields level_diff add_price_diff flat_map seq app
       key_at nth ASK_PRICE_KEYS ASK_VOLUME_KEYS BID_PRICE_KEYS BID_VOLUME_KEYS
       String.eqb Ascii.eqb Bool.eqb fst snd
       instrument_id datetime timestamp ask_price ask_volume bid_price bid_volume
       last_price highest lowest open close average volume amount open_interest
       settlement upper_limit lower_limit pre_open_interest pre_settlement
       pre_close price_at volume_at].

Lemma patched_double_roundtrip key o n ms :
  find_member key ms = (if ne o n then Some (JDouble n) else None) →
  Spec.is_neg_zero o = false → Spec.is_neg_zero n = false →
  patched_double key o ms = n.
Proof.
  intros Hf Ho Hn. unfold patched_double. rewrite Hf.
  destruct (ne o n) eqn:E; [reflexivity |].
  apply eq_true_same; auto. unfold ne in E. apply negb_false_iff in E. exact E.
Qed.

Lemma patched_int_roundtrip key o n ms :
  find_member key ms = (if negb (o =? n) then Some (JInt n) else None) →
  patched_int key o ms = n.
Proof.
  intros Hf. unfold patched_int. rewrite Hf.
  destruct (o =? n) eqn:E; simpl; [| reflexivity]. apply Z.eqb_eq, E.
Qed.

Lemma patched_string_roundtrip key o n ms :
  find_member key ms = (if str_ne o n then Some (JString n) else None) →
  patched_string key o ms = n.
Proof.
  intros Hf. unfold patched_string. rewrite Hf. unfold str_ne.
  destruct (String.eqb o n) eqn:E; simpl; [| reflexivity]. apply String.eqb_eq, E.
Qed.

Lemma length_ten {A : Type} (l : list A) :
  (length l =? 10)%nat = true →
  ∃ a0 a1 a2 a3 a4 a5 a6 a7 a8 a9, l = [a0; a1; a2; a3; a4; a5; a6; a7; a8; a9].
Proof.
  intros H. apply Nat.eqb_eq in H.
  do 10 (destruct l as [| ? l]; [discriminate |]).
  destruct l; [| discriminate]. eauto 12.
Qed.

(** The record-level round trip. *)
Lemma diff_roundtrip old new :
  Spec.well_formed old = true → Spec.well_formed new = true →
  average old = average new →
  apply_patch old (compute_struct_diff old new) = new.
Proof.
  intros Ho Hn Havg.
  destruct old as [oi od ot oap oav obp obv o1 o2 o3 o4 o5 oavg ovol oam ooi o6 o7 o8 opoi o9 o10].
  destruct new as [ni nd nt nap nav nbp nbv n1 n2 n3 n4 n5 navg nvol nam noi n6 n7 n8 npoi n9 n10].
  unfold Spec.well_formed, Spec.compared_doubles in Ho, Hn.
  cbn [ask_price ask_volume bid_price bid_volume last_price highest lowest open
       close settlement upper_limit lower_limit pre_settlement pre_close amount
       average] in *.
  subst navg.
  apply andb_prop in Ho as [Ho Hoz]. apply andb_prop in Ho as [Ho Lo4].
  apply andb_prop in Ho as [Ho Lo3]. apply andb_prop in Ho as [Lo1 Lo2].
  apply andb_prop in Hn as [Hn Hnz]. apply andb_prop in Hn as [Hn Ln4].
  apply andb_prop in Hn as [Hn Ln3]. apply andb_prop in Hn as [Ln1 Ln2].
  destruct (length_ten _ Lo1) as (a0&a1&a2&a3&a4&a5&a6&a7&a8&a9&->).
  destruct (length_ten _ Lo2) as (b0&b1&b2&b3&b4&b5&b6&b7&b8&b9&->).
  destruct (length_ten _ Lo3) as (c0&c1&c2&c3&c4&c5&c6&c7&c8&c9&->).
  destruct (length_ten _ Lo4) as (d0&d1&d2&d3&d4&d5&d6&d7&d8&d9&->).
  destruct (length_ten _ Ln1) as (a0'&a1'&a2'&a3'&a4'&a5'&a6'&a7'&a8'&a9'&->).
  destruct (length_ten _ Ln2) as (b0'&b1'&b2'&b3'&b4'&b5'&b6'&b7'&b8'&b9'&->).
  destruct (length_ten _ Ln3) as (c0'&c1'&c2'&c3'&c4'&c5'&c6'&c7'&c8'&c9'&->).
  destruct (length_ten _ Ln4) as (d0'&d1'&d2'&d3'&d4'&d5'&d6'&d7'&d8'&d9'&->).
  cbn [app forallb] in Hoz, Hnz.
  split_andb Hoz. split_andb Hnz.
  repeat match goal with
         | H : negb _ = true |- _ => apply negb_true_iff in H
         end.
  unfold apply_patch.
  cbn [instrument_id datetime timestamp ask_price ask_volume bid_price bid_volume
       last_price highest lowest open close average volume amount open_interest
       settlement upper_limit lower_limit pre_open_interest pre_settlement
       pre_close imap].
  cbv [compose key_at nth ASK_PRICE_KEYS ASK_VOLUME_KEYS BID_PRICE_KEYS BID_VOLUME_KEYS].
  f_equal;
    try (apply patched_string_roundtrip; diff_lookup; reflexivity);
    try (apply patched_int_roundtrip; diff_lookup; reflexivity);
    try (apply patched_double_roundtrip;
         [diff_lookup; reflexivity | assumption | assumption]);
    try (unfold patched_double; diff_lookup; reflexivity);
    repeat (apply (f_equal2 cons); [| try reflexivity]);
    try (apply patched_int_roundtrip; diff_lookup; reflexivity);
    try (apply patched_double_roundtrip;
         [diff_lookup; reflexivity | assumption | assumption]).
Qed.

Lemma bits_eqb_refl x : bits_eqb x x = true.
Proof. apply bits_eqb_eq. reflexivity. Qed.

Lemma prices_differ_same l : prices_differ l l = false.
Proof.
  unfold prices_differ. apply negb_false_iff, forallb_forall.
  intros i _. apply bits_eqb_refl.
Qed.

Lemma volumes_differ_same l : volumes_differ l l = false.
Proof.
  unfold volumes_differ. apply negb_false_iff, forallb_forall.
  intros i _. apply Z.eqb_refl.
Qed.

Lemma str_ne_same s : str_ne s s = false.
Proof. unfold str_ne. rewrite String.eqb_refl. reflexivity. Qed.

Lemma price_at_not_nan l i :
  forallb (fun x => negb (is_nan x)) l = true → is_nan (price_at l i) = false.
Proof.
  intros H. unfold price_at.
  destruct (nth_in_or_default i l zero) as [Hin | ->]; [| reflexivity].
  rewrite forallb_forall in H. apply negb_true_iff, H, Hin.
Qed.

Lemma write_guarded_app a b :
  write_guarded (a ++ b) = write_guarded a ++ write_guarded b.
Proof. unfold write_guarded. apply flat_map_app. Qed.

Lemma write_guarded_quiet gs :
  Forall (fun g : guarded => g.1.1 = false) gs → write_guarded gs = [].
Proof.
  induction 1 as [| [[b k] v] gs Hb _ IH]; [reflexivity |].
  simpl in Hb. subst b. exact IH.
Qed.

Lemma Forall_flat_map_intro {A B : Type} (P : B → Prop) (f : A → list B) l :
  (∀ x, Forall P (f x)) → Forall P (flat_map f l).
Proof.
  intros Hf. induction l as [| x l IH]; simpl; [constructor |].
  apply Forall_app. split; [apply Hf | exact IH].
Qed.

Lemma level_diff_quiet pk vk ps vs i :
  forallb (fun x => negb (is_nan x)) ps = true →
  Forall (fun g : guarded => g.1.1 = false) (level_diff pk vk ps ps vs vs i).
Proof.
  intros H. unfold level_diff. repeat constructor; simpl.
  - apply eq_refl_not_nan, price_at_not_nan, H.
  - rewrite Z.eqb_refl. reflexivity.
Qed.

(** Nothing but [average] differs: the fast check sees no change and the
    writer receives no member. *)
Lemma average_invisible q a :
  Spec.nan_free q = true →
  has_struct_changes q (Spec.with_average a q) = false
  ∧ compute_struct_diff q (Spec.with_average a q) = JObject [].
Proof.
  intros Hn.
  destruct q as [qi qd qt ap av bp bv q1 q2 q3 q4 q5 qavg qvol qam qoi q6 q7 q8 qpoi q9 q10].
  unfold Spec.nan_free, Spec.compared_doubles in Hn.
  cbn [ask_price ask_volume bid_price bid_volume last_price highest lowest open
       close settlement upper_limit lower_limit pre_settlement pre_close amount] in Hn.
  rewrite !forallb_app in Hn.
  apply andb_prop in Hn as [Hap Hn]. apply andb_prop in Hn as [Hbp Hn].
  cbn [forallb] in Hn. split_andb Hn.
  repeat match goal with
         | H : negb (is_nan _) = true |- _ =>
             apply negb_true_iff, eq_refl_not_nan in H
         end.
  split.
  - unfold has_struct_changes, Spec.with_average.
    cbn [instrument_id datetime timestamp ask_price ask_volume bid_price bid_volume
         last_price highest lowest open close average volume amount open_interest
         settlement upper_limit lower_limit pre_open_interest pre_settlement
         pre_close].
    rewrite !str_ne_same, !Z.eqb_refl, !prices_differ_same, !volumes_differ_same.
    repeat match goal with H : ne ?x ?x = false |- _ => rewrite H; clear H end.
    reflexivity.
  - unfold compute_struct_diff. f_equal. apply write_guarded_quiet.
    unfold diff_fields, Spec.with_average, add_price_diff.
    cbn [instrument_id datetime timestamp ask_price ask_volume bid_price bid_volume
         last_price highest lowest open close average volume amount open_interest
         settlement upper_limit lower_limit pre_open_interest pre_settlement
         pre_close].
    apply Forall_app_2; [| apply Forall_app_2; [| apply Forall_app_2]].
    + repeat constructor; simpl;
        rewrite ?str_ne_same, ?Z.eqb_refl; reflexivity.
    + apply Forall_flat_map_intro. intros i. apply level_diff_quiet, Hap.
    + apply Forall_flat_map_intro. intros i. apply level_diff_quiet, Hbp.
    + repeat constructor; simpl; rewrite ?Z.eqb_refl; auto.
Qed.

(** The diff never names [average]; the full form always does, as null. *)
Lemma diff_never_names_average old new :
  find_member "average" (members_of (compute_struct_diff old new)) = None.
Proof.
  destruct old as [oi od ot oap oav obp obv o1 o2 o3 o4 o5 oavg ovol oam ooi o6 o7 o8 opoi o9 o10].
  destruct new as [ni nd nt nap nav nbp nbv n1 n2 n3 n4 n5 navg nvol nam noi n6 n7 n8 npoi n9 n10].
  diff_lookup. reflexivity.
Qed.

Lemma full_form_average_null q :
  find_member "average" (members_of (struct_to_json q)) = Some JNull.
Proof. reflexivity. Qed.

(** What [build_market_data_struct] makes of a tick whose last price and
    volume were replaced. *)
Lemma build_with_last_and_volume d p v disp t :
  build_market_data_struct (Some (Spec.with_last_and_volume p v d)) disp t
  = {| instrument_id := strncpy_c_str disp 31;
       datetime := build_datetime (TradingDay d) (UpdateTime d) (UpdateMillisec d);
       timestamp := t;
       ask_price := [stored_price (AskPrice1 d); stored_price (AskPrice2 d);
                     stored_price (AskPrice3 d); stored_price (AskPrice4 d);
                     stored_price (AskPrice5 d); zero; zero; zero; zero; zero];
       ask_volume := ask_volume (build_market_data_struct (Some d) disp 0);
       bid_price := [stored_price (BidPrice1 d); stored_price (BidPrice2 d);
                     stored_price (BidPrice3 d); stored_price (BidPrice4 d);
                     stored_price (BidPrice5 d); zero; zero; zero; zero; zero];
       bid_volume := bid_volume (build_market_data_struct (Some d) disp 0);
       last_price := stored_price p;
       highest := stored_price (HighestPrice d);
       lowest := stored_price (LowestPrice d);
       open := stored_price (OpenPrice d);
       close := stored_price (ClosePrice d);
       average := zero;
       volume := v;
       amount := Turnover d;
       open_interest := to_int64 (OpenInterest d);
       settlement := stored_price (SettlementPrice d);
       upper_limit := stored_price (UpperLimitPrice d);
       lower_limit := stored_price (LowerLimitPrice d);
       pre_open_interest := to_int64 (PreOpenInterest d);
       pre_settlement := stored_price (PreSettlementPrice d);
       pre_close := stored_price (PreClosePrice d) |}.
Proof.
  rewrite <- (build_ask_price d disp 0), <- (build_bid_price d disp 0).
  reflexivity.
Qed.

Lemma stored_price_3850 : stored_price Spec.price_3850 = Spec.price_3850.
Proof. vm_compute. reflexivity. Qed.

Lemma stored_price_3850_5 : stored_price Spec.price_3850_5 = Spec.price_3850_5.
Proof. vm_compute. reflexivity. Qed.

(** Scenario S2 at the level of the diff engine. *)
Lemma s2_diff d disp t1 t2 :
  is_nan (Turnover d) = false →
  compute_struct_diff
    (build_market_data_struct
       (Some (Spec.with_last_and_volume Spec.price_3850 10000 d)) disp t1)
    (build_market_data_struct
       (Some (Spec.with_last_and_volume Spec.price_3850_5 10001 d)) disp t2)
  = JObject (emit_if (negb (t1 =? t2)) "timestamp" (JInt t2)
             ++ [("last_price", JDouble Spec.price_3850_5); ("volume", JInt 10001)]).
Proof.
  intros Hn. rewrite !build_with_last_and_volume.
  rewrite stored_price_3850, stored_price_3850_5.
  generalize (ask_volume (build_market_data_struct (Some d) disp 0)) as avs.
  generalize (bid_volume (build_market_data_struct (Some d) disp 0)) as bvs.
  intros bvs avs.
  unfold compute_struct_diff. f_equal.
  unfold diff_fields, add_price_diff.
  cbn [instrument_id datetime timestamp ask_price ask_volume bid_price bid_volume
       last_price highest lowest open close average volume amount open_interest
       settlement upper_limit lower_limit pre_open_interest pre_settlement
       pre_close flat_map seq level_diff app price_at nth].
  unfold write_guarded. cbn [flat_map fst snd].
  rewrite !str_ne_same, !Z.eqb_refl.
  rewrite !(eq_refl_not_nan (stored_price _)) by apply stored_price_not_nan.
  rewrite (eq_refl_not_nan zero) by reflexivity.
  rewrite (eq_refl_not_nan (Turnover d)) by exact Hn.
  replace (ne Spec.price_3850 Spec.price_3850_5) with true by (vm_compute; reflexivity).
  replace (10000 =? 10001) with false by reflexivity.
  cbn [negb emit_if app]. reflexivity.
Qed.

End DiffFacts.

(* ===================================================================== *)
(** * The quote cache                                                     *)
(* ===================================================================== *)

Section CacheFacts.
Import Quote Gateway.

Lemma get_or_create_index_cache st id disp :
  market_data_cache_ (get_or_create_index st id disp).2 = market_data_cache_ st.
Proof.
  unfold get_or_create_index.
  destruct (instrument_index_map_ st !! id); [reflexivity |].
  destruct (_ >=? _); reflexivity.
Qed.

Lemma get_or_create_index_range st id disp :
  indices_in_range st →
  indices_in_range (get_or_create_index st id disp).2
  ∧ (0 ≤ (get_or_create_index st id disp).1 →
     (get_or_create_index st id disp).1 < Z.of_nat (length (market_data_cache_ st))).
Proof.
  intros Hr. unfold get_or_create_index.
  destruct (instrument_index_map_ st !! id) as [i |] eqn:Hi; simpl.
  - split; [exact Hr |]. intros _. apply (Hr id i Hi).
  - destruct (Z.of_nat (size (instrument_index_map_ st))
              >=? Z.of_nat (length (market_data_cache_ st))) eqn:Hc; simpl.
    + split; [exact Hr | lia].
    + assert (Z.of_nat (size (instrument_index_map_ st))
              < Z.of_nat (length (market_data_cache_ st))) by lia.
      split; [| lia].
      intros id' i'. unfold indices_in_range in Hr. simpl.
      destruct (decide (id = id')) as [<- | Hne].
      * rewrite lookup_insert_eq. intros [= <-]. lia.
      * rewrite lookup_insert_ne by exact Hne. apply Hr.
Qed.

Lemma cache_market_data_cache st id d disp :
  market_data_cache_ (cache_market_data st id d disp).1
  = let index := (get_or_create_index st id disp).1 in
    if index <? 0 then market_data_cache_ st
    else alter (publish_entry d) (Z.to_nat index) (market_data_cache_ st).
Proof.
  unfold cache_market_data.
  pose proof (get_or_create_index_cache st id disp) as Hc.
  destruct (get_or_create_index st id disp) as [index st1]. simpl in *.
  destruct (index <? 0); simpl; congruence.
Qed.

Lemma cache_market_data_range st id d disp :
  indices_in_range st → indices_in_range (cache_market_data st id d disp).1.
Proof.
  intros Hr. unfold cache_market_data.
  pose proof (get_or_create_index_range st id disp Hr) as [Hr1 _].
  destruct (get_or_create_index st id disp) as [index st1]. simpl in *.
  destruct (index <? 0); simpl; [exact Hr1 |].
  intros id' i' Hi. simpl in *. rewrite length_alter. apply (Hr1 id' i' Hi).
Qed.

(** One seqlock write on a stable slot that is not at the end of its
    counter. *)
Lemma publish_entry_counter d e :
  0 ≤ sequence e → sequence e mod 2 = 0 → sequence e + 2 < 2 ^ 64 →
  sequence (entry_being_written d e) = sequence e + 1
  ∧ sequence (publish_entry d e) = sequence e + 2
  ∧ sequence (publish_entry d e) mod 2 = 0
  ∧ version_of (publish_entry d e) = version_of e + 1
  ∧ data (publish_entry d e) = d ∧ has_data (publish_entry d e) = true.
Proof.
  intros H0 Heven Hb.
  unfold publish_entry, entry_being_written, store_sequence, version_of. simpl.
  rewrite !Z.mod_small by lia.
  repeat split; try reflexivity.
  - rewrite <- Z.add_mod_idemp_l, Heven by lia. reflexivity.
  - replace (sequence e + 2) with (sequence e + 1 * 2) by lia.
    rewrite Z.div_add by lia. reflexivity.
Qed.

Lemma counters_stable_weaken n m st :
  m ≤ n → counters_stable n st → counters_stable m st.
Proof.
  intros Hle Hs. unfold counters_stable in *.
  eapply Forall_impl; [exact Hs |].
  intros e (? & ? & ?). repeat split; auto; lia.
Qed.

Lemma cache_market_data_stable n st id d disp :
  0 ≤ n → counters_stable (n + 1) st →
  counters_stable n (cache_market_data st id d disp).1.
Proof.
  intros Hn Hs. unfold counters_stable in *.
  rewrite cache_market_data_cache. cbv zeta.
  destruct (_ <? 0).
  - eapply Forall_impl; [exact Hs |]. intros e (? & ? & ?). repeat split; auto; lia.
  - apply Forall_alter.
    + eapply Forall_impl; [exact Hs |]. intros e (? & ? & ?). repeat split; auto; lia.
    + intros e He _.
      rewrite Forall_lookup in Hs. destruct (Hs _ _ He) as (H0 & Hev & Hb).
      destruct (publish_entry_counter d e H0 Hev ltac:(lia)) as (_ & Hs2 & Hev2 & _).
      split; [rewrite Hs2; lia | split; [exact Hev2 | rewrite Hs2; lia]].
Qed.

Lemma cache_market_data_versions st id d disp j e :
  counters_stable 1 st →
  market_data_cache_ st !! j = Some e →
  ∃ e', market_data_cache_ (cache_market_data st id d disp).1 !! j = Some e'
        ∧ version_of e ≤ version_of e'.
Proof.
  intros Hs He. rewrite cache_market_data_cache. cbv zeta.
  destruct (_ <? 0); [exists e; split; [exact He | lia] |].
  rewrite list_lookup_alter. destruct (decide (_ = j)) as [-> | Hne].
  - rewrite He. simpl. eexists; split; [reflexivity |].
    unfold counters_stable in Hs. rewrite Forall_lookup in Hs.
    destruct (Hs _ _ He) as (H0 & Hev & Hb).
    destruct (publish_entry_counter d e H0 Hev ltac:(lia)) as (_ & _ & _ & Hv & _).
    lia.
  - exists e. split; [exact He | lia].
Qed.

Lemma publish_all_versions ticks : ∀ st j e,
  counters_stable (Z.of_nat (length ticks)) st →
  market_data_cache_ st !! j = Some e →
  ∃ e', market_data_cache_ (publish_all st ticks) !! j = Some e'
        ∧ version_of e ≤ version_of e'.
Proof.
  induction ticks as [| [[id d] disp] ticks IH]; intros st j e Hs He; simpl.
  - exists e. split; [exact He | lia].
  - assert (Hs' : counters_stable (Z.of_nat (length ticks) + 1) st).
    { eapply counters_stable_weaken; [| exact Hs]. simpl length. lia. }
    destruct (cache_market_data_versions st id d disp j e) as (e1 & He1 & Hv1); auto.
    { eapply counters_stable_weaken; [| exact Hs']. lia. }
    destruct (IH (cache_market_data st id d disp).1 j e1) as (e2 & He2 & Hv2); auto.
    { apply cache_market_data_stable; [lia | exact Hs']. }
    exists e2. split; [exact He2 | lia].
Qed.

(** A publish that obtains a slot: the slot it writes and what a
    reader then finds there. *)
Lemma cache_market_data_slot st id d disp :
  indices_in_range st → counters_stable 1 st →
  let index := (get_or_create_index st id disp).1 in
  0 ≤ index →
  ∃ e, market_data_cache_ st !! Z.to_nat index = Some e
       ∧ market_data_cache_ (cache_market_data st id d disp).1 !! Z.to_nat index
         = Some (publish_entry d e)
       ∧ (cache_market_data st id d disp).2 = Some id.
Proof.
  intros Hr Hs index Hpos.
  destruct (get_or_create_index_range st id disp Hr) as [_ Hlt].
  specialize (Hlt Hpos). fold index in Hlt.
  destruct (lookup_lt_is_Some_2 (market_data_cache_ st) (Z.to_nat index)) as [e He];
    [lia |].
  exists e. split; [exact He |]. split.
  - rewrite cache_market_data_cache. cbv zeta. fold index.
    replace (index <? 0) with false by lia.
    rewrite list_lookup_alter_eq, He. reflexivity.
  - unfold cache_market_data. subst index.
    destruct (get_or_create_index st id disp) as [ix st1]. cbn [fst] in Hpos.
    replace (ix <? 0) with false by lia. reflexivity.
Qed.

(** A reader of a stable slot leaves the seqlock loop at once, with the
    counter read twice and the quote of the slot. *)
Lemma seqlock_read_first_pass fuel e seq_end snapshot :
  sequence e mod 2 = 0 →
  seqlock_read_loop (S fuel) e 0 seq_end snapshot = (sequence e, sequence e, data e).
Proof.
  intros Hev. simpl. rewrite Hev. simpl. rewrite Z.eqb_refl. reflexivity.
Qed.

Lemma seqlock_read_stable e :
  sequence e mod 2 = 0 →
  seqlock_read_loop 102 e 0 0 zeroed = (sequence e, sequence e, data e).
Proof. apply (seqlock_read_first_pass 101). Qed.

End CacheFacts.

(* ===================================================================== *)
(** * Ordered traversal                                                   *)
(* ===================================================================== *)

Section OrderFacts.

Lemma elem_of_in_key_order {V : Type} (m : gmap string V) k v :
  (k, v) ∈ in_key_order m ↔ m !! k = Some v.
Proof.
  unfold in_key_order. rewrite merge_sort_Permutation.
  apply elem_of_map_to_list.
Qed.

Lemma NoDup_in_key_order {V : Type} (m : gmap string V) :
  NoDup (map fst (in_key_order m)).
Proof.
  unfold in_key_order.
  rewrite (fmap_Permutation fst _ _ (merge_sort_Permutation key_le (map_to_list m))).
  apply NoDup_fst_map_to_list.
Qed.

Lemma elem_of_in_order (s : gset string) x : x ∈ in_order s ↔ x ∈ s.
Proof.
  unfold in_order. rewrite merge_sort_Permutation. apply elem_of_elements.
Qed.

Lemma in_order_singleton (x : string) : in_order {[x]} = [x].
Proof. unfold in_order. rewrite elements_singleton. reflexivity. Qed.

Lemma in_order_empty : in_order ∅ = [].
Proof. unfold in_order. rewrite elements_empty. reflexivity. Qed.

Lemma fold_left_preserves {A B : Type} (P : A → Prop) (f : A → B → A) l :
  (∀ a b, P a → P (f a b)) → ∀ a, P a → P (fold_left f l a).
Proof.
  intros Hf. induction l as [| b l IH]; intros a Ha; simpl; auto.
Qed.

End OrderFacts.

(* ===================================================================== *)
(** * Connections: the capacity bound                                     *)
(* ===================================================================== *)

Section CapacityFacts.
Import Dispatch.
Variable vendor_result : list UpstreamCall → UpstreamCall → Z.

Lemma to_size_t_small z : 0 ≤ z → int_range z → to_size_t z = z.
Proof.
  unfold to_size_t, int_range. intros H0 Hr.
  apply Z.mod_small. split; [lia |].
  assert (2 ^ 31 < 2 ^ 64) by (apply Z.pow_lt_mono_r; lia). lia.
Qed.

Lemma subscribe_not_logged_in c calls i :
  status_ c ≠ LOGGED_IN →
  subscribe_instrument vendor_result c calls i = (false, c, calls).
Proof.
  intros H. unfold subscribe_instrument.
  rewrite bool_decide_eq_false_2 by exact H. reflexivity.
Qed.

Lemma subscribe_again c calls i :
  status_ c = LOGGED_IN → i ∈ subscribed_instruments_ c →
  subscribe_instrument vendor_result c calls i = (true, c, calls).
Proof.
  intros Hs Hi. unfold subscribe_instrument.
  rewrite bool_decide_eq_true_2 by exact Hs.
  rewrite bool_decide_eq_true_2 by exact Hi. reflexivity.
Qed.

Lemma subscribe_full c calls i :
  status_ c = LOGGED_IN → i ∉ subscribed_instruments_ c →
  to_size_t (max_subscriptions (config_ c))
    ≤ Z.of_nat (size (subscribed_instruments_ c)) →
  subscribe_instrument vendor_result c calls i = (false, c, calls).
Proof.
  intros Hs Hi Hfull. unfold subscribe_instrument.
  rewrite bool_decide_eq_true_2 by exact Hs.
  rewrite bool_decide_eq_false_2 by exact Hi. simpl.
  destruct (_ >=? _) eqn:E; [reflexivity | lia].
Qed.

Lemma subscribe_capacity c calls i :
  within_capacity c →
  within_capacity (subscribe_instrument vendor_result c calls i).1.2.
Proof.
  intros [Hc Hr]. unfold subscribe_instrument.
  destruct (bool_decide (status_ c = LOGGED_IN)); simpl; [| split; assumption].
  destruct (bool_decide (i ∈ subscribed_instruments_ c)) eqn:Hi; simpl;
    [split; assumption |].
  destruct (_ >=? _) eqn:Hfull; simpl; [split; assumption |].
  destruct (_ =? 0); simpl; [| split; assumption].
  apply bool_decide_eq_false in Hi.
  split; [| exact Hr].
  unfold with_subscribed. cbn [subscribed_instruments_ config_].
  rewrite size_union by (apply disjoint_singleton_l, Hi). rewrite size_singleton.
  rewrite to_size_t_small in Hfull by (auto; lia). lia.
Qed.

Lemma unsubscribe_capacity c calls i :
  within_capacity c →
  within_capacity (unsubscribe_instrument vendor_result c calls i).1.2.
Proof.
  intros [Hc Hr]. unfold unsubscribe_instrument.
  destruct (bool_decide (status_ c = LOGGED_IN)); simpl; [| split; assumption].
  destruct (bool_decide (i ∈ subscribed_instruments_ c)); simpl;
    [| split; assumption].
  destruct (_ =? 0); simpl; [| split; assumption].
  split; [| exact Hr].
  unfold with_subscribed. cbn [subscribed_instruments_ config_].
  assert (Hsub : subscribed_instruments_ c ∖ {[i]} ⊆ subscribed_instruments_ c)
    by (apply subseteq_difference_l; reflexivity).
  apply subseteq_size in Hsub. lia.
Qed.

Lemma stop_capacity c : within_capacity c → within_capacity (stop c).
Proof.
  intros [Hc Hr]. split; [| exact Hr].
  unfold stop, with_subscribed, with_status. cbn [subscribed_instruments_ config_].
  rewrite size_empty. lia.
Qed.

Lemma with_status_capacity s c : within_capacity c → within_capacity (with_status s c).
Proof. intros H. exact H. Qed.

Lemma count_error_capacity c : within_capacity c → within_capacity (count_error c).
Proof. intros H. exact H. Qed.

Lemma start_capacity b c : within_capacity c → within_capacity (start b c).2.
Proof.
  intros H. unfold start. destruct (negb _); [exact H |]. destruct b; exact H.
Qed.

Lemma login_capacity c calls :
  within_capacity c → within_capacity (login vendor_result c calls).1.
Proof. intros H. unfold login. destruct (_ =? 0); exact H. Qed.

Lemma handle_connection_error_capacity c :
  within_capacity c → within_capacity (handle_connection_error c).
Proof. intros H. unfold handle_connection_error. destruct (_ <? _); exact H. Qed.

(** The world-level invariant is a property of [connections_] alone. *)
Lemma all_within_capacity_insert w id c :
  all_within_capacity w → within_capacity c →
  map_Forall (fun _ c => within_capacity c) (<[id := c]> (connections_ w)).
Proof. intros Hw Hc. apply map_Forall_insert_2; assumption. Qed.

Lemma all_within_capacity_alter w id f :
  all_within_capacity w → (∀ c, within_capacity c → within_capacity (f c)) →
  all_within_capacity (update_connection id f w).
Proof.
  intros Hw Hf k c. unfold update_connection. simpl.
  rewrite lookup_alter. destruct (decide (id = k)) as [<- | Hne]; simpl.
  - destruct (connections_ w !! id) as [c0 |] eqn:E; simpl; [| discriminate].
    intros [= <-]. apply Hf, (Hw id c0 E).
  - apply Hw.
Qed.

Lemma on_connection_capacity id f w r w' :
  (∀ c calls, within_capacity c → within_capacity (f c calls).1.2) →
  all_within_capacity w →
  on_connection id f w = Some (r, w') → all_within_capacity w'.
Proof.
  intros Hf Hw. unfold on_connection.
  destruct (connections_ w !! id) as [c |] eqn:E; [| discriminate].
  pose proof (Hf c (upstream_calls w) (Hw id c E)) as Hc.
  destruct (f c (upstream_calls w)) as [[r0 c'] calls']. simpl in Hc.
  intros [= <- <-]. apply all_within_capacity_insert; assumption.
Qed.

Lemma execute_subscription_capacity w i id :
  all_within_capacity w →
  all_within_capacity (execute_subscription vendor_result w i id).2.
Proof.
  intros Hw. unfold execute_subscription.
  destruct (on_connection id _ w) as [[r w'] |] eqn:E; [| exact Hw].
  eapply on_connection_capacity; [| exact Hw | exact E].
  intros c calls. apply subscribe_capacity.
Qed.

Lemma execute_unsubscription_capacity w i id :
  all_within_capacity w →
  all_within_capacity (execute_unsubscription vendor_result w i id).2.
Proof.
  intros Hw. unfold execute_unsubscription.
  destruct (on_connection id _ w) as [[r w'] |] eqn:E; [| exact Hw].
  eapply on_connection_capacity; [| exact Hw | exact E].
  intros c calls. apply unsubscribe_capacity.
Qed.

(** Operations that leave the connections alone. *)
Lemma retry_if_allowed_connections i w :
  connections_ (retry_if_allowed i w) = connections_ w.
Proof.
  unfold retry_if_allowed. destruct (_ !! i); [| reflexivity].
  destruct (_ <? _); reflexivity.
Qed.

Lemma select_connections w :
  connections_ (select_connection_round_robin w).2 = connections_ w.
Proof.
  unfold select_connection_round_robin.
  destruct (get_available_connections w); reflexivity.
Qed.

Lemma same_connections_capacity w w' :
  connections_ w' = connections_ w → all_within_capacity w → all_within_capacity w'.
Proof. unfold all_within_capacity. intros ->. auto. Qed.

Lemma add_subscription_capacity now w s i :
  all_within_capacity w →
  all_within_capacity (add_subscription vendor_result now w s i).2.
Proof.
  intros Hw. unfold add_subscription.
  destruct (global_subscriptions_ w !! i); [exact Hw |].
  set (w0 := with_session_subs _ _).
  assert (Hw0 : all_within_capacity w0) by exact Hw. clearbody w0.
  pose proof (select_connections w0) as Hsel.
  destruct (select_connection_round_robin w0) as [[c |] w1]; simpl in Hsel.
  - set (w2 := update_info i (with_sub_status SUBSCRIBING) _).
    assert (Hw2 : all_within_capacity w2)
      by (eapply same_connections_capacity; [| exact Hw0]; exact Hsel).
    clearbody w2.
    pose proof (execute_subscription_capacity w2 i (get_connection_id c) Hw2) as He.
    destruct (execute_subscription vendor_result w2 i (get_connection_id c)) as [[] w3];
      exact He.
  - eapply same_connections_capacity; [| exact Hw0].
    cbn [snd]. rewrite retry_if_allowed_connections. exact Hsel.
Qed.

Lemma remove_subscription_capacity w s i :
  all_within_capacity w →
  all_within_capacity (remove_subscription vendor_result w s i).2.
Proof.
  intros Hw. unfold remove_subscription.
  set (w0 := with_session_subs _ w).
  assert (Hw0 : all_within_capacity w0) by exact Hw. clearbody w0.
  destruct (global_subscriptions_ w0 !! i) as [info |]; [| exact Hw0].
  destruct (decide (_ = ∅)); [| exact Hw0].
  set (w1 := update_info i _ w0).
  assert (Hw1 : all_within_capacity w1) by exact Hw0. clearbody w1.
  pose proof (execute_unsubscription_capacity w1 i (assigned_connection_id info) Hw1) as He.
  destruct (execute_unsubscription vendor_result w1 i (assigned_connection_id info))
    as [r w2].
  exact He.
Qed.

Lemma remove_all_capacity w s :
  all_within_capacity w →
  all_within_capacity (remove_all_subscriptions_for_session vendor_result w s).
Proof.
  intros Hw. unfold remove_all_subscriptions_for_session.
  apply fold_left_preserves; [| exact Hw].
  intros a b. apply remove_subscription_capacity.
Qed.

Lemma migrate_capacity w i from to :
  all_within_capacity w →
  all_within_capacity (migrate_subscription vendor_result w i from to).
Proof.
  intros Hw. unfold migrate_subscription.
  destruct (global_subscriptions_ w !! i); [| exact Hw].
  set (w1 := update_info i (with_retry_count 0) _).
  assert (Hw1 : all_within_capacity w1) by exact Hw. clearbody w1.
  pose proof (execute_subscription_capacity w1 i to Hw1) as He.
  destruct (execute_subscription vendor_result w1 i to) as [[] w2]; [exact He |].
  eapply same_connections_capacity; [| exact He].
  rewrite retry_if_allowed_connections. reflexivity.
Qed.

Lemma failover_one_capacity conn w i :
  all_within_capacity w →
  all_within_capacity (failover_one vendor_result conn w i).
Proof.
  intros Hw. unfold failover_one.
  pose proof (select_connections w) as Hsel.
  destruct (select_connection_round_robin w) as [[c |] w1]; simpl in Hsel.
  - destruct (negb _).
    + apply migrate_capacity. eapply same_connections_capacity; eauto.
    + eapply same_connections_capacity; [| exact Hw].
      rewrite retry_if_allowed_connections. exact Hsel.
  - eapply same_connections_capacity; [| exact Hw].
    rewrite retry_if_allowed_connections. exact Hsel.
Qed.

Lemma handle_connection_failure_capacity w conn :
  all_within_capacity w →
  all_within_capacity (handle_connection_failure vendor_result w conn).
Proof.
  intros Hw. unfold handle_connection_failure.
  set (w1 := fold_left (fun w i => update_info i (with_sub_status FAILED) w) _ w).
  assert (Hw1 : all_within_capacity w1).
  { apply fold_left_preserves; [| exact Hw]. intros a b Ha. exact Ha. }
  clearbody w1.
  set (w2 := fold_left (failover_one vendor_result conn) _ w1).
  assert (Hw2 : all_within_capacity w2).
  { apply fold_left_preserves; [| exact Hw1]. intros a b. apply failover_one_capacity. }
  exact Hw2.
Qed.

Lemma retry_one_capacity acc i :
  all_within_capacity acc.2 →
  all_within_capacity (retry_one vendor_result acc i).2.
Proof.
  destruct acc as [fa w]. cbn [snd]. intros Hw. unfold retry_one.
  destruct (global_subscriptions_ w !! i) as [info |]; [| exact Hw].
  destruct (bool_decide _); [| exact Hw].
  pose proof (select_connections w) as Hsel.
  destruct (select_connection_round_robin w) as [[c |] w1]; simpl in Hsel.
  - set (w2 := update_info i (with_sub_status SUBSCRIBING) _).
    assert (Hw2 : all_within_capacity w2)
      by (eapply same_connections_capacity; [| exact Hw]; exact Hsel).
    clearbody w2.
    pose proof (execute_subscription_capacity w2 i (get_connection_id c) Hw2) as He.
    destruct (execute_subscription vendor_result w2 i (get_connection_id c)) as [[] w3];
      [exact He |].
    destruct (_ <? _); exact He.
  - destruct (_ <? _); cbn [snd];
      (eapply same_connections_capacity; [| exact Hw]; exact Hsel).
Qed.

Lemma process_pending_capacity w :
  all_within_capacity w →
  all_within_capacity (process_pending_subscriptions vendor_result w).
Proof.
  intros Hw. unfold process_pending_subscriptions, drain_retry_set.
  match goal with |- context [fold_left ?f ?l ?a] =>
    pose proof (fold_left_preserves (fun acc => all_within_capacity acc.2) f l
                  (fun acc i => retry_one_capacity acc i) a Hw) as H;
    destruct (fold_left f l a) as [fa w']
  end.
  exact H.
Qed.

Lemma cleanup_capacity now w :
  all_within_capacity w →
  all_within_capacity (cleanup_expired_subscriptions now w).
Proof.
  intros Hw. unfold cleanup_expired_subscriptions.
  apply fold_left_preserves; [| exact Hw]. intros a b Ha. exact Ha.
Qed.

(** INV-3 survives everything that can happen to the dispatcher and its
    connections. *)
Lemma step_capacity now w e :
  all_within_capacity w → all_within_capacity (step vendor_result now w e).
Proof.
  intros Hw. destruct e; simpl.
  - apply add_subscription_capacity, Hw.
  - apply remove_subscription_capacity, Hw.
  - apply remove_all_capacity, Hw.
  - apply cleanup_capacity, process_pending_capacity, Hw.
  - apply all_within_capacity_alter; [exact Hw |]. intros c. apply start_capacity.
  - apply all_within_capacity_alter; [exact Hw |]. intros c. apply stop_capacity.
  - unfold OnFrontConnected.
    destruct (connections_ w !! connection) as [c |] eqn:E; [| exact Hw].
    pose proof (login_capacity (with_status CONNECTED c) (upstream_calls w) (Hw _ _ E)) as Hl.
    destruct (login _ _ _) as [c' calls]. simpl in Hl.
    apply all_within_capacity_insert; assumption.
  - unfold OnFrontDisconnected.
    destruct (connections_ w !! connection); [| exact Hw].
    apply handle_connection_failure_capacity, all_within_capacity_alter; auto.
  - unfold OnRspUserLogin.
    destruct (connections_ w !! connection); [| exact Hw].
    destruct (negb _).
    + apply all_within_capacity_alter; auto.
    + apply process_pending_capacity, all_within_capacity_alter; auto.
  - unfold OnRspSubMarketData.
    destruct (connections_ w !! connection); [| exact Hw].
    destruct (negb _).
    + apply all_within_capacity_alter; auto.
      destruct instrument; [| exact Hw].
      unfold on_subscription_failed. destruct (_ !! _); [| exact Hw].
      eapply same_connections_capacity; [| exact Hw].
      rewrite retry_if_allowed_connections. reflexivity.
    + destruct instrument; [| exact Hw].
      unfold on_subscription_success. destruct (_ !! _); exact Hw.
  - unfold OnRspUnSubMarketData.
    destruct (connections_ w !! connection); [| exact Hw].
    destruct (negb _).
    + apply all_within_capacity_alter; auto.
    + destruct instrument; exact Hw.
  - unfold OnRspError. destruct (negb _); [| exact Hw].
    apply all_within_capacity_alter; [exact Hw |].
    intros c Hc. apply handle_connection_error_capacity, Hc.
Qed.

End CapacityFacts.

(* ===================================================================== *)
(** * The dispatcher: failover                                            *)
(* ===================================================================== *)

Section FailoverFacts.
Import Dispatch.
Variable vendor_result : list UpstreamCall → UpstreamCall → Z.

Lemma same_books_refl w : same_books w w.
Proof. repeat split. Qed.

Lemma same_books_trans w1 w2 w3 :
  same_books w1 w2 → same_books w2 w3 → same_books w1 w3.
Proof. intros (? & ? & ?) (? & ? & ?). repeat split; congruence. Qed.

Lemma select_books w : same_books w (select_connection_round_robin w).2.
Proof.
  unfold select_connection_round_robin.
  destruct (get_available_connections w); repeat split.
Qed.

Lemma on_connection_books id f w r w' :
  on_connection id f w = Some (r, w') → same_books w w'.
Proof.
  unfold on_connection. destruct (connections_ w !! id) as [c |]; [| discriminate].
  destruct (f c (upstream_calls w)) as [[r0 c'] calls'].
  intros [= <- <-]. repeat split.
Qed.

Lemma execute_subscription_books w i id :
  same_books w (execute_subscription vendor_result w i id).2.
Proof.
  unfold execute_subscription.
  destruct (on_connection id _ w) as [[r w'] |] eqn:E; [| apply same_books_refl].
  eapply on_connection_books, E.
Qed.

Lemma execute_unsubscription_books w i id :
  same_books w (execute_unsubscription vendor_result w i id).2.
Proof.
  unfold execute_unsubscription.
  destruct (on_connection id _ w) as [[r w'] |] eqn:E; [| apply same_books_refl].
  eapply on_connection_books, E.
Qed.

Lemma update_info_lookup i f w k :
  global_subscriptions_ (update_info i f w) !! k
  = if decide (i = k) then f <$> global_subscriptions_ w !! i
    else global_subscriptions_ w !! k.
Proof. unfold update_info. cbn [global_subscriptions_ with_global]. apply lookup_alter. Qed.

Lemma update_info_lookup_eq i f w :
  global_subscriptions_ (update_info i f w) !! i = f <$> global_subscriptions_ w !! i.
Proof. rewrite update_info_lookup. rewrite decide_True by reflexivity. reflexivity. Qed.

Lemma update_info_lookup_ne i f w k :
  k ≠ i → global_subscriptions_ (update_info i f w) !! k = global_subscriptions_ w !! k.
Proof.
  intros H. rewrite update_info_lookup. rewrite decide_False by congruence.
  reflexivity.
Qed.

Lemma retry_if_allowed_spec i w :
  global_subscriptions_ (retry_if_allowed i w) = global_subscriptions_ w
  ∧ max_retry_count_ (retry_if_allowed i w) = max_retry_count_ w
  ∧ retry_set_ w ⊆ retry_set_ (retry_if_allowed i w)
  ∧ (∀ info, global_subscriptions_ w !! i = Some info →
             retry_count info < max_retry_count_ w →
             i ∈ retry_set_ (retry_if_allowed i w)).
Proof.
  unfold retry_if_allowed.
  destruct (global_subscriptions_ w !! i) as [info |] eqn:E.
  - destruct (retry_count info <? max_retry_count_ w) eqn:L.
    + unfold enqueue_retry. cbn [global_subscriptions_ max_retry_count_ retry_set_ with_retry_set].
      repeat split; [set_solver |]. intros; set_solver.
    + repeat split; [set_solver |]. intros info' [= <-] Hlt. lia.
  - repeat split; [set_solver |]. intros info' [=].
Qed.

Lemma migrate_books w i from to :
  books_step i w (migrate_subscription vendor_result w i from to).
Proof.
  unfold migrate_subscription.
  destruct (global_subscriptions_ w !! i); [| repeat split; set_solver].
  set (w1 := update_info i (with_retry_count 0) _).
  assert (H1 : books_step i w w1).
  { repeat split; [set_solver |]. intros k Hk. unfold w1.
    rewrite !update_info_lookup_ne by exact Hk. reflexivity. }
  clearbody w1.
  pose proof (execute_subscription_books w1 i to) as Hb.
  destruct (execute_subscription vendor_result w1 i to) as [[] w2];
    cbn [snd] in *; destruct Hb as (Hg & Hrs & Hm).
  - destruct H1 as (? & Hsub & Hk). repeat split; [congruence | rewrite Hrs; exact Hsub |].
    intros k Hne. rewrite Hg. apply Hk, Hne.
  - destruct (retry_if_allowed_spec i (update_info i (with_sub_status FAILED) w2))
      as (Hg' & Hm' & Hrs' & _).
    destruct H1 as (? & Hsub & Hk). repeat split.
    + rewrite Hm'. cbn. congruence.
    + etransitivity; [| exact Hrs']. cbn. rewrite Hrs. exact Hsub.
    + intros k Hne. rewrite Hg', update_info_lookup_ne by exact Hne.
      rewrite Hg. apply Hk, Hne.
Qed.

Lemma failover_one_books conn w i :
  books_step i w (failover_one vendor_result conn w i).
Proof.
  unfold failover_one.
  pose proof (select_books w) as Hb.
  destruct (select_connection_round_robin w) as [oc w1]; cbn [snd] in *.
  destruct Hb as (Hg & Hrs & Hm).
  assert (Hretry : books_step i w (retry_if_allowed i w1)).
  { destruct (retry_if_allowed_spec i w1) as (Hg' & Hm' & Hrs' & _).
    repeat split; [congruence | rewrite <- Hrs; exact Hrs' |]. intros k _. congruence. }
  destruct oc as [c |]; [| exact Hretry].
  destruct (negb _); [| exact Hretry].
  destruct (migrate_books w1 i conn (get_connection_id c)) as (Hm2 & Hrs2 & Hk2).
  repeat split; [congruence | rewrite <- Hrs; exact Hrs2 |].
  intros k Hne. rewrite Hk2 by exact Hne. congruence.
Qed.

Lemma failover_one_resettles conn w i info :
  global_subscriptions_ w !! i = Some info → status info = FAILED →
  resettled conn (failover_one vendor_result conn w i) i.
Proof.
  intros Hi Hst. unfold failover_one.
  pose proof (select_books w) as Hb.
  destruct (select_connection_round_robin w) as [oc w1]; cbn [snd] in *.
  destruct Hb as (Hg & Hr & Hm).
  assert (Hretry : resettled conn (retry_if_allowed i w1) i).
  { destruct (retry_if_allowed_spec i w1) as (Hg' & Hm' & _ & Hin).
    exists info. split; [rewrite Hg', Hg; exact Hi |].
    right. split; [exact Hst |]. rewrite Hm'. intros Hlt.
    apply (Hin info); [rewrite Hg; exact Hi | exact Hlt]. }
  destruct oc as [c |]; [| exact Hretry].
  destruct (negb (String.eqb (get_connection_id c) conn)) eqn:Hne; [| exact Hretry].
  apply negb_true_iff, String.eqb_neq in Hne.
  unfold migrate_subscription. rewrite Hg, Hi.
  set (w2 := update_info i (with_retry_count 0) _).
  assert (H2 : global_subscriptions_ w2 !! i
               = Some (with_retry_count 0
                         (with_sub_status SUBSCRIBING
                            (with_assigned (get_connection_id c) info)))).
  { unfold w2. rewrite !update_info_lookup_eq, Hg, Hi. reflexivity. }
  clearbody w2.
  pose proof (execute_subscription_books w2 i (get_connection_id c)) as (Hg3 & Hr3 & Hm3).
  destruct (execute_subscription vendor_result w2 i (get_connection_id c)) as [[] w3];
    cbn [snd] in *.
  - eexists. split; [rewrite Hg3; exact H2 |]. left. split; [reflexivity | exact Hne].
  - set (w4 := update_info i (with_sub_status FAILED) w3).
    assert (H4 : global_subscriptions_ w4 !! i
                 = Some (with_sub_status FAILED
                           (with_retry_count 0
                              (with_sub_status SUBSCRIBING
                                 (with_assigned (get_connection_id c) info))))).
    { unfold w4. rewrite update_info_lookup_eq, Hg3, H2. reflexivity. }
    clearbody w4.
    destruct (retry_if_allowed_spec i w4) as (Hg' & Hm' & _ & Hin).
    eexists. split; [rewrite Hg'; exact H4 |].
    right. split; [reflexivity |]. rewrite Hm'. intros Hlt.
    eapply Hin; [exact H4 | exact Hlt].
Qed.

Lemma resettled_stable conn i j w w' :
  i ≠ j → books_step j w w' → resettled conn w i → resettled conn w' i.
Proof.
  intros Hne (Hm & Hr & Hk) (info & Hi & Hcases).
  exists info. split; [rewrite Hk by auto; exact Hi |].
  destruct Hcases as [? | [Hst Hq]]; [left; assumption |].
  right. split; [exact Hst |]. rewrite Hm. intros Hlt. apply Hr, Hq, Hlt.
Qed.

(** The second loop of [handle_connection_failure]. *)
Lemma failover_loop conn todo : ∀ w,
  NoDup todo →
  (∀ i, i ∈ todo → ∃ info, global_subscriptions_ w !! i = Some info
                           ∧ status info = FAILED) →
  (∀ k info, global_subscriptions_ w !! k = Some info →
             status info = ACTIVE → assigned_connection_id info ≠ conn) →
  let w' := fold_left (failover_one vendor_result conn) todo w in
  (∀ i, i ∈ todo → resettled conn w' i)
  ∧ (∀ k info, global_subscriptions_ w' !! k = Some info →
               status info = ACTIVE → assigned_connection_id info ≠ conn)
  ∧ (∀ i, resettled conn w i → i ∉ todo → resettled conn w' i).
Proof.
  induction todo as [| j todo IH]; intros w Hnd Hfailed Hact; cbn [fold_left].
  - repeat split; [intros i Hi; inversion Hi | exact Hact | auto].
  - apply NoDup_cons in Hnd as [Hj Hnd].
    destruct (Hfailed j ltac:(left)) as (info & Hi & Hst).
    pose proof (failover_one_books conn w j) as Hb.
    pose proof (failover_one_resettles conn w j info Hi Hst) as Hres.
    set (w1 := failover_one vendor_result conn w j) in *.
    destruct (IH w1 Hnd) as (IH1 & IH2 & IH3).
    + intros i Hin. destruct Hb as (_ & _ & Hk).
      rewrite Hk by (intros ->; contradiction).
      apply Hfailed. right. exact Hin.
    + intros k info' Hk' Hact'.
      destruct (decide (k = j)) as [-> | Hne].
      * destruct Hres as (info'' & Hi'' & [[Hs Ha] | [Hs _]]);
          rewrite Hi'' in Hk'; injection Hk' as <-; [exact Ha | congruence].
      * destruct Hb as (_ & _ & Hk). rewrite Hk in Hk' by exact Hne.
        eapply Hact; eassumption.
    + repeat split.
      * intros i Hin. apply elem_of_cons in Hin as [-> | Hin]; [| apply IH1, Hin].
        apply IH3; [exact Hres | exact Hj].
      * exact IH2.
      * intros i Hri Hnin. apply not_elem_of_cons in Hnin as [Hne Hnin].
        apply IH3; [| exact Hnin].
        eapply resettled_stable; [exact Hne | exact Hb | exact Hri].
Qed.

Lemma elem_of_affected_by w conn i :
  i ∈ affected_by w conn ↔
  ∃ info, global_subscriptions_ w !! i = Some info
          ∧ assigned_connection_id info = conn ∧ status info = ACTIVE.
Proof.
  unfold affected_by. rewrite list_elem_of_In, in_map_iff. split.
  - intros ([k info] & <- & Hin). apply filter_In in Hin as [Hin Hc].
    apply list_elem_of_In, elem_of_in_key_order in Hin.
    apply andb_prop in Hc as [Ha Hs].
    apply bool_decide_eq_true in Ha. apply bool_decide_eq_true in Hs.
    exists info. auto.
  - intros (info & Hi & Ha & Hs). exists (i, info). split; [reflexivity |].
    apply filter_In. split.
    + apply list_elem_of_In, elem_of_in_key_order, Hi.
    + cbn. rewrite !bool_decide_eq_true_2 by assumption. reflexivity.
Qed.

Lemma NoDup_affected_by w conn : NoDup (affected_by w conn).
Proof.
  unfold affected_by.
  pose proof (NoDup_in_key_order (global_subscriptions_ w)) as H.
  induction (in_key_order (global_subscriptions_ w)) as [| [k v] l IH]; cbn.
  - constructor.
  - cbn in H. apply NoDup_cons in H as [Hk Hl].
    destruct (_ && _); cbn; [| apply IH, Hl].
    apply NoDup_cons. split; [| apply IH, Hl].
    intros Hin. apply Hk.
    apply list_elem_of_In, in_map_iff in Hin as ([k' v'] & Heq & Hin).
    apply filter_In in Hin as [Hin _]. cbn in Heq. subst k'.
    apply list_elem_of_In, in_map_iff. exists (k, v'). auto.
Qed.

(** The first loop: the affected records become FAILED, nothing else
    changes. *)
Lemma mark_failed_lookup l : ∀ w k,
  global_subscriptions_
    (fold_left (fun w i => update_info i (with_sub_status FAILED) w) l w) !! k
  = if decide (k ∈ l) then with_sub_status FAILED <$> global_subscriptions_ w !! k
    else global_subscriptions_ w !! k.
Proof.
  induction l as [| j l IH]; intros w k; cbn [fold_left].
  - rewrite decide_False by (intros H; inversion H). reflexivity.
  - rewrite IH. destruct (decide (k ∈ l)) as [Hin | Hnin].
    + rewrite decide_True by (right; exact Hin).
      rewrite update_info_lookup. destruct (decide (j = k)) as [-> | Hne];
        [| reflexivity].
      destruct (global_subscriptions_ w !! k); reflexivity.
    + rewrite update_info_lookup. destruct (decide (j = k)) as [-> | Hne].
      * rewrite decide_True by left. reflexivity.
      * rewrite decide_False; [reflexivity |].
        intros Hin. apply elem_of_cons in Hin as [-> | Hin]; contradiction.
Qed.

Lemma mark_failed_books l : ∀ w,
  let w' := fold_left (fun w i => update_info i (with_sub_status FAILED) w) l w in
  retry_set_ w' = retry_set_ w ∧ max_retry_count_ w' = max_retry_count_ w.
Proof.
  induction l as [| j l IH]; intros w; cbn [fold_left]; [split; reflexivity |].
  destruct (IH (update_info j (with_sub_status FAILED) w)) as [H1 H2].
  split; [rewrite H1 | rewrite H2]; reflexivity.
Qed.

(** Failover, as the code does it. *)
Lemma failover_complete w conn :
  let w' := handle_connection_failure vendor_result w conn in
  (∀ i info, global_subscriptions_ w' !! i = Some info →
             status info = ACTIVE → assigned_connection_id info ≠ conn)
  ∧ (∀ i info, global_subscriptions_ w !! i = Some info →
               status info = ACTIVE → assigned_connection_id info = conn →
               resettled conn w' i).
Proof.
  unfold handle_connection_failure.
  set (todo := affected_by w conn).
  set (w1 := fold_left (fun w i => update_info i (with_sub_status FAILED) w) todo w).
  destruct (failover_loop conn todo w1 (NoDup_affected_by w conn)) as (H1 & H2 & _).
  - intros i Hin. unfold w1. rewrite mark_failed_lookup, decide_True by exact Hin.
    apply elem_of_affected_by in Hin as (info & Hi & _). rewrite Hi.
    eexists. split; reflexivity.
  - intros k info. unfold w1. rewrite mark_failed_lookup.
    destruct (decide (k ∈ todo)) as [Hin | Hnin].
    + destruct (global_subscriptions_ w !! k); [| discriminate].
      intros [= <-]. discriminate.
    + intros Hk Hact Hconn. apply Hnin, elem_of_affected_by. eauto.
  - cbv zeta. split.
    + exact H2.
    + intros i info Hi Hact Hconn.
      assert (Hin : i ∈ todo) by (apply elem_of_affected_by; eauto).
      destruct (H1 i Hin) as (info' & Hi' & Hcases).
      exists info'. split; [exact Hi' | exact Hcases].
Qed.

End FailoverFacts.

(* ===================================================================== *)
(** * The dispatcher: one upstream subscription per instrument            *)
(* ===================================================================== *)

Section DedupFacts.
Import Dispatch.
Variable vendor_result : list UpstreamCall → UpstreamCall → Z.





(** Scenario S4.  [calls0] is the request history before the first
    session asks for [i]. *)
Section Scenario.
Variable i : string.
Variable calls0 : list UpstreamCall.










End Scenario.

End DedupFacts.

(* ===================================================================== *)
(** * The dispatcher: the retry set                                       *)
(* ===================================================================== *)

Section RetryFacts.
Import Dispatch.
Variable vendor_result : list UpstreamCall → UpstreamCall → Z.

Lemma retry_one_unavailable w acc j :
  get_available_connections w = [] →
  retry_one vendor_result (acc, w) j
  = (if put_back w j then {[j]} ∪ acc else acc, w).
Proof.
  intros Hav. unfold retry_one, put_back, select_connection_round_robin.
  rewrite Hav.
  destruct (global_subscriptions_ w !! j) as [info |]; [| reflexivity].
  destruct (bool_decide (status info = FAILED)); [| reflexivity].
  cbn [andb]. destruct (retry_count info <? max_retry_count_ w); reflexivity.
Qed.

Lemma retry_all_unavailable w l : ∀ acc,
  get_available_connections w = [] →
  ∃ acc', fold_left (retry_one vendor_result) l (acc, w) = (acc', w)
          ∧ ∀ j, j ∈ acc' ↔ j ∈ acc ∨ (j ∈ l ∧ put_back w j = true).
Proof.
  induction l as [| k l IH]; intros acc Hav; cbn [fold_left].
  - exists acc. split; [reflexivity |]. intros j. split; [left; assumption |].
    intros [H | [H _]]; [exact H | apply elem_of_nil in H; contradiction].
  - rewrite retry_one_unavailable by exact Hav.
    destruct (IH (if put_back w k then {[k]} ∪ acc else acc) Hav) as (acc' & -> & Hacc).
    exists acc'. split; [reflexivity |]. intros j. rewrite Hacc.
    destruct (put_back w k) eqn:Hk.
    + rewrite elem_of_union, elem_of_singleton, elem_of_cons. split.
      * intros [[-> | H] | [H1 H2]]; auto.
      * intros [H | [[-> | H1] H2]]; auto.
    + rewrite elem_of_cons. split.
      * intros [H | [H1 H2]]; auto.
      * intros [H | [[-> | H1] H2]]; auto. congruence.
Qed.

Lemma drain_unavailable w :
  get_available_connections w = [] →
  ∃ failed_again,
    drain_retry_set vendor_result w = (failed_again, with_retry_set ∅ w)
    ∧ ∀ j, j ∈ failed_again ↔ j ∈ retry_set_ w ∧ put_back w j = true.
Proof.
  intros Hav. unfold drain_retry_set.
  destruct (retry_all_unavailable (with_retry_set ∅ w) (in_order (retry_set_ w)) ∅)
    as (acc' & -> & Hacc); [exact Hav |].
  exists acc'. split; [reflexivity |]. intros j. rewrite Hacc, elem_of_in_order.
  unfold put_back. cbn [global_subscriptions_ max_retry_count_ with_retry_set].
  split; [| intros H; right; exact H].
  intros [H | H]; [apply elem_of_empty in H; contradiction | exact H].
Qed.

Lemma waiting_put_back t0 i w : waiting t0 i w → put_back w i = true.
Proof.
  intros (_ & (info & Hi & Hs & Hr & _) & Hm & _). unfold put_back. rewrite Hi.
  rewrite bool_decide_eq_true_2 by exact Hs. cbn [andb]. lia.
Qed.

Lemma waiting_drain t0 i w :
  waiting t0 i w →
  i ∈ (drain_retry_set vendor_result w).1
  ∧ waiting t0 i (process_pending_subscriptions vendor_result w).
Proof.
  intros Hw. pose proof (waiting_put_back t0 i w Hw) as Hp.
  destruct Hw as (Hav & Hrec & Hm & Hin).
  unfold process_pending_subscriptions.
  destruct (drain_unavailable w Hav) as (fa & -> & Hfa). cbn [fst].
  assert (Hi : i ∈ fa) by (apply Hfa; split; assumption).
  split; [exact Hi |]. unfold waiting. repeat split.
  - exact Hav.
  - exact Hrec.
  - exact Hm.
  - cbn [retry_set_ with_retry_set]. apply elem_of_union. left. exact Hi.
Qed.

(** [cleanup_expired_subscriptions] erases records and touches nothing
    else; a record that is not yet ten minutes old stays. *)
Lemma erase_all_spec l : ∀ w,
  let w' := fold_left (fun w instrument =>
                         with_global (delete instrument (global_subscriptions_ w)) w) l w in
  connections_ w' = connections_ w
  ∧ retry_set_ w' = retry_set_ w
  ∧ max_retry_count_ w' = max_retry_count_ w
  ∧ ∀ i, i ∉ l → global_subscriptions_ w' !! i = global_subscriptions_ w !! i.
Proof.
  induction l as [| k l IH]; intros w; cbn [fold_left].
  - repeat split.
  - destruct (IH (with_global (delete k (global_subscriptions_ w)) w))
      as (Hc & Hr & Hm & Hg).
    cbv zeta. rewrite Hc, Hr, Hm. repeat split.
    intros i Hi. apply not_elem_of_cons in Hi as [Hne Hi].
    rewrite (Hg i Hi). cbn [global_subscriptions_ with_global].
    apply lookup_delete_ne. congruence.
Qed.

Lemma waiting_cleanup t0 t i w :
  waiting t0 i w → t - t0 ≤ ten_minutes →
  waiting t0 i (cleanup_expired_subscriptions t w).
Proof.
  intros (Hav & (info & Hi & Hs & Hr & Ha & Ht) & Hm & Hin) Hle.
  unfold cleanup_expired_subscriptions.
  set (to_remove := map fst _).
  assert (Hnot : i ∉ to_remove).
  { unfold to_remove. intros Hel.
    apply list_elem_of_fmap in Hel as ([k v] & Hk & Hel).
    cbn [fst] in Hk. subst k.
    apply list_elem_of_In, filter_In in Hel as [Hel Hf].
    apply list_elem_of_In, elem_of_in_key_order in Hel.
    rewrite Hi in Hel. injection Hel as <-.
    apply andb_prop in Hf as [_ Hf]. cbn [snd] in Hf. rewrite Ht in Hf. lia. }
  destruct (erase_all_spec to_remove w) as (Hc & Hrs & Hmx & Hg).
  unfold waiting, get_available_connections, get_all_connections in *.
  rewrite Hc, Hrs, Hmx, (Hg i Hnot).
  split; [exact Hav |]. split; [| split; assumption].
  exists info. repeat split; assumption.
Qed.

Lemma waiting_round t0 t i w :
  waiting t0 i w → t - t0 ≤ ten_minutes →
  i ∈ (drain_retry_set vendor_result w).1
  ∧ waiting t0 i (maintenance_round vendor_result t w).
Proof.
  intros Hw Hle. destruct (waiting_drain t0 i w Hw) as [Hd Hw'].
  split; [exact Hd |]. apply waiting_cleanup; assumption.
Qed.

Lemma waiting_rounds t0 i times : ∀ w,
  waiting t0 i w →
  Forall (fun t => t - t0 ≤ ten_minutes) times →
  requeue_count vendor_result i w times = length times
  ∧ waiting t0 i (maintenance_rounds vendor_result w times).
Proof.
  induction times as [| t times IH]; intros w Hw Ht;
    cbn [requeue_count maintenance_rounds fold_left length].
  - split; [reflexivity | exact Hw].
  - apply Forall_cons in Ht as [Ht Hts].
    destruct (waiting_round t0 t i w Hw Ht) as [Hd Hw'].
    destruct (IH _ Hw' Hts) as [Hn Hw''].
    rewrite bool_decide_eq_true_2 by exact Hd. rewrite Hn.
    split; [reflexivity | exact Hw''].
Qed.

Lemma add_subscription_unplaced now w s i :
  get_available_connections w = [] →
  global_subscriptions_ w !! i = None →
  0 < max_retry_count_ w →
  (add_subscription vendor_result now w s i).1 = false
  ∧ waiting now i (add_subscription vendor_result now w s i).2.
Proof.
  intros Hav Hi Hm. unfold add_subscription. rewrite Hi.
  unfold select_connection_round_robin.
  change (get_available_connections (with_session_subs _ (with_global _ w)))
    with (get_available_connections w).
  rewrite Hav. cbn [fst snd]. split; [reflexivity |].
  set (w1 := update_info i (with_sub_status FAILED) _).
  assert (H1 : global_subscriptions_ w1 !! i
               = Some (with_sub_status FAILED
                         (with_sessions {[s]} (new_subscription i now)))).
  { unfold w1. rewrite update_info_lookup_eq. cbn. rewrite lookup_insert_eq. reflexivity. }
  assert (H2 : get_available_connections w1 = []) by exact Hav.
  assert (H3 : max_retry_count_ w1 = max_retry_count_ w) by reflexivity.
  clearbody w1. unfold retry_if_allowed. rewrite H1.
  cbn [retry_count with_sub_status with_sessions new_subscription].
  rewrite H3. replace (0 <? max_retry_count_ w) with true by lia.
  unfold waiting, enqueue_retry. repeat split.
  - exact H2.
  - eexists. split; [exact H1 |]. repeat split.
  - cbn [max_retry_count_ with_retry_set]. rewrite H3. exact Hm.
  - cbn [retry_set_ with_retry_set]. apply elem_of_union. left.
    apply elem_of_singleton. reflexivity.
Qed.

End RetryFacts.

(* ===================================================================== *)
(** * Client frames                                                       *)
(* ===================================================================== *)

Section FrameFacts.
Import Quote Gateway.
Variable vendor_result : list Dispatch.UpstreamCall → Dispatch.UpstreamCall → Z.
Variable Parse : string → option json.

Lemma handle_parse_error now now_ms st w session message :
  Parse (c_str message) = None →
  handle_message vendor_result Parse now now_ms st w session message
  = Handled (send_message session (error_frame "Invalid JSON format" now_ms) st) w.
Proof. intros H. unfold handle_message. rewrite H. reflexivity. Qed.

Lemma handle_missing_ins_list now now_ms st w session message doc :
  Parse (c_str message) = Some (JObject doc) →
  Spec.aid_of doc = Some "subscribe_quote" →
  Spec.ins_list_is_string doc = false →
  handle_message vendor_result Parse now now_ms st w session message
  = Handled (send_message session
               (error_frame "Missing or invalid 'ins_list' field" now_ms) st) w.
Proof.
  intros H Haid Hins. unfold handle_message. rewrite H.
  unfold Spec.aid_of in Haid. unfold Spec.ins_list_is_string in Hins.
  destruct (find_member "aid" doc) as [[| | | | a | |] |]; try discriminate.
  injection Haid as ->. cbn [String.eqb Ascii.eqb Bool.eqb].
  destruct (find_member "ins_list" doc) as [[| | | | l | |] |];
    try discriminate; reflexivity.
Qed.

Lemma handle_other_aid now now_ms st w session message doc :
  Parse (c_str message) = Some (JObject doc) →
  Spec.aid_of doc ≠ Some "subscribe_quote" →
  Spec.aid_of doc ≠ Some "peek_message" →
  handle_message vendor_result Parse now now_ms st w session message = Handled st w.
Proof.
  intros H Hs Hp. unfold handle_message. rewrite H.
  unfold Spec.aid_of in Hs, Hp.
  destruct (find_member "aid" doc) as [[| | | | a | |] |]; try reflexivity.
  destruct (String.eqb (c_str a) "subscribe_quote") eqn:E1.
  { apply String.eqb_eq in E1. rewrite E1 in Hs. contradiction. }
  destruct (String.eqb (c_str a) "peek_message") eqn:E2.
  { apply String.eqb_eq in E2. rewrite E2 in Hp. contradiction. }
  reflexivity.
Qed.

End FrameFacts.

(* ===================================================================== *)
(** * The peek protocol for a session with one instrument                 *)
(* ===================================================================== *)

Section PeekFacts.
Import Double Quote Gateway.

Lemma has_struct_changes_last_price old new :
  ne (last_price old) (last_price new) = true →
  has_struct_changes old new = true.
Proof.
  intros H. unfold has_struct_changes. rewrite H.
  destruct (_ || _ || _); [reflexivity |].
  destruct (_ || _ || _ || _); [reflexivity |]. reflexivity.
Qed.

Lemma collect_single st last_versions i idx e ver :
  instrument_index_map_ st !! i = Some idx →
  0 ≤ idx →
  market_data_cache_ st !! Z.to_nat idx = Some e →
  has_data e = true →
  sequence e mod 2 = 0 →
  last_versions !! i = Some ver →
  ver < version_of e →
  collect_market_data_updates st {[i]} last_versions
  = [(i, {| Snapshot.data := data e;
            Snapshot.display_instrument := display_instruments_cache_ st !! Z.to_nat idx;
            Snapshot.version := version_of e;
            Snapshot.has_data := true; Snapshot.index := -1 |})].
Proof.
  intros Hidx Hpos He Hd Hev Hver Hlt.
  unfold collect_market_data_updates. rewrite in_order_singleton.
  cbn [flat_map]. rewrite app_nil_r. unfold collect_one, get_index.
  rewrite Hidx. cbn [default from_option id].
  replace (idx =? -1) with false by lia.
  rewrite He, Hd. cbn [negb]. rewrite seqlock_read_stable by exact Hev.
  rewrite Z.eqb_refl, Hev. cbn [negb orb Z.eqb]. rewrite Hver.
  unfold version_of in Hlt.
  replace (ver <? sequence e / 2) with true by lia. reflexivity.
Qed.

(** The answer to a peek of a session that holds exactly [i], has been
    sent [old] for it, and finds a newer version in the cache. *)
Lemma peek_single st s sess m vm i idx e ver old :
  sessions_ st !! s = Some sess →
  subscriptions_ sess = {[i]} →
  session_last_sent_structs_ st !! s = Some m →
  m !! i = Some old →
  session_last_versions_ st !! s = Some vm →
  vm !! i = Some ver →
  instrument_index_map_ st !! i = Some idx →
  0 ≤ idx →
  market_data_cache_ st !! Z.to_nat idx = Some e →
  has_data e = true →
  sequence e mod 2 = 0 →
  ver < version_of e →
  has_struct_changes old (data e) = true →
  sent_frames (handle_peek_message st s)
  = sent_frames st
    ++ [(s, rtn_data
              [(frame_key i
                  {| Snapshot.data := data e;
                     Snapshot.display_instrument :=
                       display_instruments_cache_ st !! Z.to_nat idx;
                     Snapshot.version := version_of e;
                     Snapshot.has_data := true; Snapshot.index := -1 |},
                compute_struct_diff old (data e))])].
Proof.
  intros Hs Hsub Hm Hold Hvm Hver Hidx Hpos He Hd Hev Hlt Hch.
  unfold handle_peek_message. rewrite Hs, Hsub.
  rewrite decide_False by (intros H; apply (non_empty_singleton_L i H)).
  rewrite Hm, Hvm. cbn [default from_option id].
  rewrite (collect_single st vm i idx e ver) by assumption.
  rewrite bool_decide_eq_false_2
    by (intros ->; rewrite lookup_empty in Hold; discriminate).
  cbn [negb]. unfold send_diff_snapshot, needs_sending, diff_quote.
  cbn [List.filter fst snd Snapshot.data].
  rewrite Hold, Hch. cbn [map fst snd Snapshot.data length]. rewrite Hold.
  reflexivity.
Qed.

End PeekFacts.

(* ===================================================================== *)
(** * Runs of the dispatcher                                              *)
(* ===================================================================== *)

Section RunFacts.
Import Dispatch.
Variable vendor_result : list UpstreamCall → UpstreamCall → Z.

Lemma new_connection_capacity config :
  0 ≤ max_subscriptions config → int_range (max_subscriptions config) →
  within_capacity (new_connection config).
Proof.
  intros H0 Hr. unfold within_capacity, new_connection.
  cbn [subscribed_instruments_ config_]. rewrite size_empty. split; [lia | exact Hr].
Qed.

Lemma initial_world_capacity n configs :
  Forall (fun c => 0 ≤ max_subscriptions c ∧ int_range (max_subscriptions c)) configs →
  all_within_capacity (initial_world n configs).
Proof.
  intros Hc. unfold all_within_capacity, initial_world. cbn [connections_].
  assert (H0 : map_Forall (fun (_ : string) c => within_capacity c)
                 (∅ : gmap string CTPConnection)) by apply map_Forall_empty.
  revert H0. generalize (∅ : gmap string CTPConnection) as m.
  induction Hc as [| c l [Hc0 Hcr] Hl IH]; intros m Hm; cbn [fold_left]; [exact Hm |].
  apply IH. destruct (enabled c); [| exact Hm].
  destruct (m !! connection_id c); [exact Hm |].
  apply map_Forall_insert_2; [| exact Hm].
  apply new_connection_capacity; assumption.
Qed.

Lemma run_capacity events : ∀ w,
  all_within_capacity w → all_within_capacity (run vendor_result w events).
Proof.
  induction events as [| [t e] l IH]; intros w Hw; cbn [run fold_left]; [exact Hw |].
  apply IH, step_capacity, Hw.
Qed.

End RunFacts.

(* ===================================================================== *)
(** * Frames of the peek protocol                                         *)
(* ===================================================================== *)

Section SnapshotFacts.
Import Quote Gateway.

(** The quote of an instrument in a frame of [send_diff_snapshot] names
    [average] exactly when the instrument had no previous quote. *)
Lemma diff_quote_average last entry :
  find_member "average" (members_of (diff_quote last entry).2)
  = match last !! entry.1 with Some _ => None | None => Some JNull end.
Proof.
  unfold diff_quote. cbn [snd].
  destruct (last !! entry.1); [apply diff_never_names_average | reflexivity].
Qed.

Lemma full_quote_average entry :
  find_member "average" (members_of (full_quote entry).2) = Some JNull.
Proof. reflexivity. Qed.

End SnapshotFacts.

(* ===================================================================== *)
(** * Quotes as the tick path caches them                                 *)
(* ===================================================================== *)

Section ShapeFacts.
Import Double Quote Client.

Lemma build_ask_volume d disp t :
  ask_volume (build_market_data_struct (Some d) disp t)
  = [if valid_price (AskPrice1 d) then AskVolume1 d else 0;
     if valid_price (AskPrice2 d) then AskVolume2 d else 0;
     if valid_price (AskPrice3 d) then AskVolume3 d else 0;
     if valid_price (AskPrice4 d) then AskVolume4 d else 0;
     if valid_price (AskPrice5 d) then AskVolume5 d else 0; 0; 0; 0; 0; 0].
Proof.
  cbn [build_market_data_struct ask_volume]. unfold store_level.
  destruct (valid_price (AskPrice5 d)), (valid_price (AskPrice4 d)),
    (valid_price (AskPrice3 d)), (valid_price (AskPrice2 d)),
    (valid_price (AskPrice1 d)); reflexivity.
Qed.

Lemma build_bid_volume d disp t :
  bid_volume (build_market_data_struct (Some d) disp t)
  = [if valid_price (BidPrice1 d) then BidVolume1 d else 0;
     if valid_price (BidPrice2 d) then BidVolume2 d else 0;
     if valid_price (BidPrice3 d) then BidVolume3 d else 0;
     if valid_price (BidPrice4 d) then BidVolume4 d else 0;
     if valid_price (BidPrice5 d) then BidVolume5 d else 0; 0; 0; 0; 0; 0].
Proof.
  cbn [build_market_data_struct bid_volume]. unfold store_level.
  destruct (valid_price (BidPrice1 d)), (valid_price (BidPrice2 d)),
    (valid_price (BidPrice3 d)), (valid_price (BidPrice4 d)),
    (valid_price (BidPrice5 d)); reflexivity.
Qed.

Lemma stored_price_not_neg_zero p : negb (Spec.is_neg_zero (stored_price p)) = true.
Proof.
  apply negb_true_iff, sign_false_not_neg_zero, stored_price_sign.
Qed.

(** A quote built from a tick is shaped as the cache expects, unless the
    turnover of the tick is the negative zero. *)
Lemma build_cache_shaped d disp t :
  Spec.is_neg_zero (Turnover d) = false →
  Spec.cache_shaped (build_market_data_struct (Some d) disp t) = true.
Proof.
  intros Hz. unfold Spec.cache_shaped, Spec.well_formed, Spec.compared_doubles.
  rewrite build_ask_price, build_bid_price, build_ask_volume, build_bid_volume.
  cbn [build_market_data_struct last_price highest lowest open close settlement
       upper_limit lower_limit pre_settlement pre_close amount average
       length Nat.eqb andb app forallb price_at volume_at nth].
  rewrite !stored_price_not_neg_zero, Hz. reflexivity.
Qed.

Lemma zeroed_cache_shaped : Spec.cache_shaped zeroed = true.
Proof. reflexivity. Qed.

(** The fields of a shaped quote: the arrays spelled out, the unused
    levels and [average] zero. *)
Lemma cache_shaped_fields q :
  Spec.cache_shaped q = true →
  ∃ a0 a1 a2 a3 a4 b0 b1 b2 b3 b4 c0 c1 c2 c3 c4 d0 d1 d2 d3 d4,
    ask_price q = [a0; a1; a2; a3; a4; zero; zero; zero; zero; zero]
    ∧ ask_volume q = [b0; b1; b2; b3; b4; 0; 0; 0; 0; 0]
    ∧ bid_price q = [c0; c1; c2; c3; c4; zero; zero; zero; zero; zero]
    ∧ bid_volume q = [d0; d1; d2; d3; d4; 0; 0; 0; 0; 0]
    ∧ average q = zero.
Proof.
  intros H. unfold Spec.cache_shaped in H.
  apply andb_prop in H as [H Hlv]. apply andb_prop in H as [Hw Havg].
  unfold Spec.well_formed in Hw.
  apply andb_prop in Hw as [Hw _]. apply andb_prop in Hw as [Hw L4].
  apply andb_prop in Hw as [Hw L3]. apply andb_prop in Hw as [L1 L2].
  destruct (length_ten _ L1) as (a0&a1&a2&a3&a4&a5&a6&a7&a8&a9&Ea).
  destruct (length_ten _ L2) as (b0&b1&b2&b3&b4&b5&b6&b7&b8&b9&Eb).
  destruct (length_ten _ L3) as (c0&c1&c2&c3&c4&c5&c6&c7&c8&c9&Ec).
  destruct (length_ten _ L4) as (d0&d1&d2&d3&d4&d5&d6&d7&d8&d9&Ed).
  rewrite Ea, Eb, Ec, Ed in Hlv.
  cbn [forallb price_at volume_at nth] in Hlv.
  repeat match type of Hlv with
         | (_ && _) = true =>
             let H1 := fresh "V" in apply andb_prop in Hlv as [H1 Hlv]
         end.
  repeat match goal with
         | H : (_ && _) = true |- _ =>
             let H1 := fresh "V" in
             let H2 := fresh "V" in apply andb_prop in H as [H1 H2]
         end.
  repeat match goal with
         | H : bits_eqb _ _ = true |- _ => apply bits_eqb_eq in H
         | H : (_ =? _) = true |- _ => apply Z.eqb_eq in H
         end.
  subst. exists a0, a1, a2, a3, a4, b0, b1, b2, b3, b4, c0, c1, c2, c3, c4,
    d0, d1, d2, d3, d4.
  repeat split; assumption.
Qed.

(** The full form applied to a shaped quote gives the quote sent. *)
Lemma full_roundtrip x new :
  Spec.cache_shaped x = true → Spec.cache_shaped new = true →
  apply_patch x (struct_to_json new) = new.
Proof.
  intros Hx Hn.
  destruct (cache_shaped_fields x Hx)
    as (a0&a1&a2&a3&a4&b0&b1&b2&b3&b4&c0&c1&c2&c3&c4&d0&d1&d2&d3&d4&
        Xa&Xb&Xc&Xd&Xavg).
  destruct (cache_shaped_fields new Hn)
    as (a0'&a1'&a2'&a3'&a4'&b0'&b1'&b2'&b3'&b4'&c0'&c1'&c2'&c3'&c4'&
        d0'&d1'&d2'&d3'&d4'&Na&Nb&Nc&Nd&Navg).
  destruct x as [xi xd xt xap xav xbp xbv x1 x2 x3 x4 x5 xavg xvol xam xoi x6 x7 x8 xpoi x9 x10].
  destruct new as [ni nd nt nap nav nbp nbv n1 n2 n3 n4 n5 navg nvol nam noi n6 n7 n8 npoi n9 n10].
  cbn [ask_price ask_volume bid_price bid_volume average] in *. subst.
  reflexivity.
Qed.

(** Two shaped quotes between which the fast check sees no change are
    the same quote. *)
Lemma unchanged_same old new :
  Spec.cache_shaped old = true → Spec.cache_shaped new = true →
  has_struct_changes old new = false → old = new.
Proof.
  intros Ho Hn Hc.
  destruct (cache_shaped_fields old Ho)
    as (a0&a1&a2&a3&a4&b0&b1&b2&b3&b4&c0&c1&c2&c3&c4&d0&d1&d2&d3&d4&
        Oa&Ob&Oc&Od&Oavg).
  destruct (cache_shaped_fields new Hn)
    as (a0'&a1'&a2'&a3'&a4'&b0'&b1'&b2'&b3'&b4'&c0'&c1'&c2'&c3'&c4'&
        d0'&d1'&d2'&d3'&d4'&Na&Nb&Nc&Nd&Navg).
  unfold Spec.cache_shaped in Ho, Hn.
  apply andb_prop in Ho as [Ho _]. apply andb_prop in Ho as [Ho _].
  apply andb_prop in Hn as [Hn _]. apply andb_prop in Hn as [Hn _].
  unfold Spec.well_formed in Ho, Hn.
  apply andb_prop in Ho as [_ Hoz]. apply andb_prop in Hn as [_ Hnz].
  unfold Spec.compared_doubles in Hoz, Hnz.
  destruct old as [oi od ot oap oav obp obv o1 o2 o3 o4 o5 oavg ovol oam ooi o6 o7 o8 opoi o9 o10].
  destruct new as [ni nd nt nap nav nbp nbv n1 n2 n3 n4 n5 navg nvol nam noi n6 n7 n8 npoi n9 n10].
  cbn [ask_price ask_volume bid_price bid_volume average last_price highest lowest
       open close settlement upper_limit lower_limit pre_settlement pre_close
       amount] in *.
  subst. cbn [app forallb] in Hoz, Hnz.
  split_andb Hoz. split_andb Hnz.
  repeat match goal with
         | H : negb _ = true |- _ => apply negb_true_iff in H
         end.
  unfold has_struct_changes in Hc.
  cbn [instrument_id datetime timestamp ask_price ask_volume bid_price bid_volume
       last_price highest lowest open close volume amount open_interest
       settlement upper_limit lower_limit pre_open_interest pre_settlement
       pre_close] in Hc.
  repeat match type of Hc with
         | (if ?c then true else _) = false =>
             let E := fresh "E" in destruct c eqn:E; [discriminate Hc |]
         end.
  clear Hc.
  repeat match goal with
         | H : (_ || _) = false |- _ =>
             let H1 := fresh "F" in
             let H2 := fresh "F" in apply orb_false_elim in H as [H1 H2]
         end.
  unfold prices_differ, volumes_differ in *.
  repeat match goal with
         | H : negb _ = false |- _ => apply negb_false_iff in H
         end.
  cbn [forallb seq price_at volume_at nth] in *.
  repeat match goal with
         | H : (_ && _) = true |- _ =>
             let H1 := fresh "G" in
             let H2 := fresh "G" in apply andb_prop in H as [H1 H2]
         end.
  repeat match goal with
         | H : bits_eqb _ _ = true |- _ => apply bits_eqb_eq in H
         | H : (_ =? _) = true |- _ => apply Z.eqb_eq in H
         | H : str_ne _ _ = false |- _ =>
             unfold str_ne in H; apply negb_false_iff, String.eqb_eq in H
         | H : ne _ _ = false |- _ =>
             unfold ne in H; apply negb_false_iff in H;
             apply eq_true_same in H; [| assumption | assumption]
         end.
  subst. reflexivity.
Qed.

End ShapeFacts.

(* ===================================================================== *)
(** * The client's view of a session                                      *)
(* ===================================================================== *)

Section ViewFacts.
Import Quote Gateway Client.

Lemma frames_of_app s l1 l2 :
  frames_of s (l1 ++ l2) = frames_of s l1 ++ frames_of s l2.
Proof. unfold frames_of. rewrite List.filter_app, map_app. reflexivity. Qed.

Lemma client_view_app frames1 frames2 :
  client_view (frames1 ++ frames2) = fold_left apply_frame frames2 (client_view frames1).
Proof. unfold client_view. apply fold_left_app. Qed.

Lemma view_of_send st s s' frame :
  Spec.view_of (send_message s' frame st) s
  = if String.eqb s' s then apply_frame (Spec.view_of st s) frame else Spec.view_of st s.
Proof.
  unfold Spec.view_of, send_message. cbn [sent_frames].
  rewrite frames_of_app, client_view_app.
  generalize (client_view (frames_of s (sent_frames st))) as view. intros view.
  unfold frames_of. cbn [List.filter fst]. destruct (String.eqb s' s); reflexivity.
Qed.

Lemma quotes_of_rtn_data quotes : quotes_of (rtn_data quotes) = quotes.
Proof. reflexivity. Qed.

Lemma apply_frame_rtn_data view quotes :
  apply_frame view (rtn_data quotes) = fold_left apply_quote quotes view.
Proof. reflexivity. Qed.

Lemma apply_frame_error view msg t : apply_frame view (error_frame msg t) = view.
Proof. reflexivity. Qed.

Lemma apply_frame_ack view : apply_frame view subscribe_ack = view.
Proof. reflexivity. Qed.

Lemma apply_frame_welcome view s b t : apply_frame view (welcome_frame s b t) = view.
Proof. reflexivity. Qed.

Lemma fold_apply_quote_other quotes : ∀ view k,
  k ∉ map fst quotes → fold_left apply_quote quotes view !! k = view !! k.
Proof.
  induction quotes as [| [k' p] quotes IH]; intros view k Hk; cbn [fold_left];
    [reflexivity |].
  cbn [map fst] in Hk. apply not_elem_of_cons in Hk as [Hne Hk].
  rewrite IH by exact Hk. unfold apply_quote. cbn [fst snd].
  apply lookup_insert_ne. congruence.
Qed.

Lemma fold_apply_quote_hit quotes : ∀ view k p,
  NoDup (map fst quotes) → (k, p) ∈ quotes →
  fold_left apply_quote quotes view !! k
  = Some (apply_patch (default zeroed (view !! k)) p).
Proof.
  induction quotes as [| [k' p'] quotes IH]; intros view k p Hnd Hin; cbn [fold_left].
  - apply elem_of_nil in Hin. contradiction.
  - cbn [map fst] in Hnd. apply NoDup_cons in Hnd as [Hk' Hnd].
    apply elem_of_cons in Hin as [[= -> ->] | Hin].
    + rewrite fold_apply_quote_other by exact Hk'.
      unfold apply_quote. cbn [fst snd]. apply lookup_insert_eq.
    + rewrite (IH _ k p Hnd Hin). unfold apply_quote. cbn [fst snd].
      rewrite lookup_insert_ne; [reflexivity |].
      intros ->. apply Hk'. apply list_elem_of_fmap. exists (k, p). split; [reflexivity | exact Hin].
Qed.

(** *** What a peek collects *)

Lemma collect_one_spec st lv i :
  Spec.even_counters st →
  collect_one st lv i = []
  ∨ ∃ idx e,
      instrument_index_map_ st !! i = Some idx
      ∧ market_data_cache_ st !! Z.to_nat idx = Some e
      ∧ has_data e = true
      ∧ collect_one st lv i
        = [(i, {| Snapshot.data := data e;
                  Snapshot.display_instrument :=
                    display_instruments_cache_ st !! Z.to_nat idx;
                  Snapshot.version := sequence e / 2;
                  Snapshot.has_data := true; Snapshot.index := -1 |})].
Proof.
  intros Hev. unfold collect_one, get_index.
  destruct (instrument_index_map_ st !! i) as [idx |] eqn:Hi;
    cbn [default from_option id]; [| left; reflexivity].
  destruct (idx =? -1); [left; reflexivity |].
  destruct (market_data_cache_ st !! Z.to_nat idx) as [e |] eqn:He; [| left; reflexivity].
  destruct (has_data e) eqn:Hd; cbn [negb]; [| left; reflexivity].
  unfold Spec.even_counters in Hev. rewrite Forall_lookup in Hev.
  pose proof (Hev _ _ He) as Heven.
  rewrite seqlock_read_stable by exact Heven.
  rewrite Z.eqb_refl, Heven. cbn [negb orb Z.eqb].
  destruct (lv !! i) as [last |].
  - destruct (last <? sequence e / 2); [| left; reflexivity].
    right. exists idx, e. repeat split; assumption.
  - right. exists idx, e. repeat split; assumption.
Qed.

Lemma collect_spec st subs lv :
  Spec.even_counters st →
  Forall (Spec.collected st) (collect_market_data_updates st subs lv)
  ∧ NoDup (map fst (collect_market_data_updates st subs lv)).
Proof.
  intros Hev. unfold collect_market_data_updates.
  assert (Hnd : NoDup (in_order subs)).
  { unfold in_order. rewrite merge_sort_Permutation. apply NoDup_elements. }
  induction (in_order subs) as [| i l IH]; cbn [flat_map].
  - split; constructor.
  - apply NoDup_cons in Hnd as [Hi Hnd]. destruct (IH Hnd) as [IHf IHn].
    assert (Hkeys : ∀ k, k ∈ map fst (flat_map (collect_one st lv) l) → k ∈ l).
    { clear. intros k. induction l as [| j l IH]; cbn [flat_map]; [intros H; exact H |].
      rewrite map_app, elem_of_app. intros [H | H].
      - unfold collect_one in H.
        repeat match type of H with
               | context [match ?x with _ => _ end] => destruct x
               end;
          cbn [map fst] in H;
          try (apply elem_of_nil in H; contradiction);
          apply elem_of_cons in H as [-> | H];
          try (apply elem_of_nil in H; contradiction);
          apply elem_of_cons; left; reflexivity.
      - apply elem_of_cons. right. apply IH, H. }
    destruct (collect_one_spec st lv i Hev) as [-> | (idx & e & Hidx & He & Hd & ->)].
    + cbn [app]. split; assumption.
    + cbn [app map fst]. split.
      * constructor; [| exact IHf]. exists idx, e. repeat split; assumption.
      * apply NoDup_cons. split; [| exact IHn]. intros Hin. apply Hi, Hkeys, Hin.
Qed.

Lemma collected_key st entry :
  Spec.collected st entry → frame_key entry.1 entry.2 = Spec.key_of st entry.1.
Proof.
  intros (idx & e & Hidx & _ & _ & _ & Hdisp).
  unfold frame_key, Spec.key_of, get_index. rewrite Hidx, Hdisp. reflexivity.
Qed.

Lemma collected_indexed st entry : Spec.collected st entry → Spec.indexed st entry.1.
Proof. intros (idx & e & Hidx & _). exists idx. exact Hidx. Qed.

Lemma collected_shaped st entry :
  Spec.shaped_cache st → Spec.collected st entry →
  Spec.cache_shaped (Snapshot.data entry.2) = true.
Proof.
  intros Hs (idx & e & _ & He & Hd & -> & _).
  unfold Spec.shaped_cache in Hs. rewrite Forall_lookup in Hs. exact (Hs _ _ He Hd).
Qed.

(** *** update_session_state *)

Lemma fold_insert_other {V W : Type} (f : W → V) (l : list (string * W)) : ∀ m i,
  i ∉ map fst l →
  fold_left (fun (m : gmap string V) entry => <[entry.1 := f entry.2]> m) l m !! i
  = m !! i.
Proof.
  induction l as [| [k v] l IH]; intros m i Hi; cbn [fold_left]; [reflexivity |].
  cbn [map fst] in Hi. apply not_elem_of_cons in Hi as [Hne Hi].
  rewrite IH by exact Hi. cbn [fst snd]. apply lookup_insert_ne. congruence.
Qed.

Lemma fold_insert_hit {V W : Type} (f : W → V) (l : list (string * W)) : ∀ m i v,
  NoDup (map fst l) → (i, v) ∈ l →
  fold_left (fun (m : gmap string V) entry => <[entry.1 := f entry.2]> m) l m !! i
  = Some (f v).
Proof.
  induction l as [| [k w] l IH]; intros m i v Hnd Hin; cbn [fold_left].
  - apply elem_of_nil in Hin. contradiction.
  - cbn [map fst] in Hnd. apply NoDup_cons in Hnd as [Hk Hnd].
    apply elem_of_cons in Hin as [[= -> ->] | Hin].
    + rewrite fold_insert_other by exact Hk. cbn [fst snd]. apply lookup_insert_eq.
    + apply IH; assumption.
Qed.

Lemma cursor_update st s updates s' :
  Spec.cursor (update_session_state st s updates) s'
  = if decide (s = s')
    then fold_left (fun m entry => <[entry.1 := Snapshot.data entry.2]> m)
                   updates (Spec.cursor st s)
    else Spec.cursor st s'.
Proof.
  unfold Spec.cursor, update_session_state.
  cbn [session_last_sent_structs_ with_cursors].
  destruct (decide (s = s')) as [<- | Hne].
  - rewrite lookup_insert_eq. reflexivity.
  - rewrite lookup_insert_ne by exact Hne. reflexivity.
Qed.

End ViewFacts.

(* ===================================================================== *)
(** * The session round trip                                              *)
(* ===================================================================== *)

Section RoundTrip.
Import Quote Gateway Client.

Lemma cache_shaped_well_formed q :
  Spec.cache_shaped q = true → Spec.well_formed q = true ∧ average q = Double.zero.
Proof.
  unfold Spec.cache_shaped. intros H.
  apply andb_prop in H as [H _]. apply andb_prop in H as [Hw Ha].
  split; [exact Hw | apply bits_eqb_eq, Ha].
Qed.

Lemma same_core_refl st : Spec.same_core st st.
Proof. repeat split. Qed.

Lemma same_core_trans st1 st2 st3 :
  Spec.same_core st1 st2 → Spec.same_core st2 st3 → Spec.same_core st1 st3.
Proof.
  intros (A1 & A2 & A3 & A4 & A5) (B1 & B2 & B3 & B4 & B5).
  repeat split; congruence.
Qed.

Lemma consistent_same_core st st' :
  Spec.same_core st st' → Spec.consistent st → Spec.consistent st'.
Proof.
  intros (H1 & H2 & H3 & H4 & H5) H.
  destruct st, st'. cbn in H1, H2, H3, H4, H5. subst. exact H.
Qed.

Lemma keys_distinct_same_core st st' :
  Spec.same_core st st' → Spec.keys_distinct st' → Spec.keys_distinct st.
Proof.
  intros (H1 & H2 & H3 & H4 & H5) H.
  destruct st, st'. cbn in H1, H2, H3, H4, H5. subst. exact H.
Qed.

Lemma extends_same_core st st' : Spec.same_core st st' → Spec.extends st st'.
Proof.
  intros (H1 & H2 & _) id i Hi. rewrite H1, H2. split; [exact Hi | reflexivity].
Qed.

Lemma filter_all {A : Type} (f : A → bool) (l : list A) :
  (∀ x, f x = true) → List.filter f l = l.
Proof.
  intros Hf. induction l as [| x l IH]; cbn [List.filter]; [reflexivity |].
  rewrite Hf, IH. reflexivity.
Qed.

(** The first frame of a session is the diff frame against no quote. *)
Lemma send_full_as_diff st s updates :
  updates ≠ [] →
  send_full_snapshot st s updates = (send_diff_snapshot st s updates ∅).2.
Proof.
  intros Hne. unfold send_full_snapshot, send_diff_snapshot.
  rewrite filter_all by (intros x; unfold needs_sending; rewrite lookup_empty; reflexivity).
  destruct updates as [| u l]; [contradiction |]. cbn [snd].
  assert (Hq : map (diff_quote ∅) (u :: l) = map full_quote (u :: l)).
  { apply map_ext. intros x. unfold diff_quote, full_quote.
    rewrite lookup_empty. reflexivity. }
  rewrite Hq. reflexivity.
Qed.

(** What a diff frame does to the server and to the clients. *)
Lemma send_diff_view st s updates last :
  let st1 := (send_diff_snapshot st s updates last).2 in
  instrument_index_map_ st1 = instrument_index_map_ st
  ∧ display_instruments_cache_ st1 = display_instruments_cache_ st
  ∧ market_data_cache_ st1 = market_data_cache_ st
  ∧ session_last_sent_structs_ st1 = session_last_sent_structs_ st
  ∧ Spec.view_of st1 s
    = fold_left apply_quote
        (map (diff_quote last) (List.filter (needs_sending last) updates))
        (Spec.view_of st s)
  ∧ ∀ s', s' ≠ s → Spec.view_of st1 s' = Spec.view_of st s'.
Proof.
  cbv zeta. unfold send_diff_snapshot.
  destruct (List.filter (needs_sending last) updates) as [| e l]; cbn [snd].
  - split; [reflexivity |]. split; [reflexivity |]. split; [reflexivity |].
    split; [reflexivity |]. split; [reflexivity |]. intros s' _. reflexivity.
  - split; [reflexivity |]. split; [reflexivity |]. split; [reflexivity |].
    split; [reflexivity |]. split.
    + rewrite view_of_send, String.eqb_refl. reflexivity.
    + intros s' Hne. rewrite view_of_send.
      destruct (String.eqb s s') eqn:E; [| reflexivity].
      apply String.eqb_eq in E. congruence.
Qed.

(** One quote of a diff frame, applied to what the client holds. *)
Lemma diff_quote_applied st s entry :
  Spec.consistent st → Spec.collected st entry →
  apply_patch (default zeroed (Spec.view_of st s !! Spec.key_of st entry.1))
              (diff_quote (Spec.cursor st s) entry).2
  = Snapshot.data entry.2.
Proof.
  intros (_ & _ & Hsc & Hsv & Hag) Hcol.
  pose proof (collected_shaped st entry Hsc Hcol) as Hnew.
  unfold diff_quote. cbn [snd].
  destruct (Spec.cursor st s !! entry.1) as [old |] eqn:Hold.
  - destruct (Hag s entry.1 old Hold) as [_ Hview]. rewrite Hview. cbn [default from_option id].
    pose proof (Hsv s _ _ Hview) as Hso.
    destruct (cache_shaped_well_formed _ Hso) as [Hwo Hao].
    destruct (cache_shaped_well_formed _ Hnew) as [Hwn Han].
    apply diff_roundtrip; [exact Hwo | exact Hwn | congruence].
  - apply full_roundtrip; [| exact Hnew].
    destruct (Spec.view_of st s !! Spec.key_of st entry.1) as [x |] eqn:Hx;
      cbn [default from_option id]; [exact (Hsv s _ _ Hx) | reflexivity].
Qed.

(** The keys of the entries of a frame are distinct. *)
Lemma collected_keys_distinct st (entries : list (string * SnapshotData)) :
  Spec.keys_distinct st → Forall (Spec.collected st) entries →
  NoDup (map fst entries) →
  NoDup (map (fun entry => Spec.key_of st entry.1) entries).
Proof.
  intros Hk Hc Hnd.
  induction entries as [| e l IH]; cbn [map]; [constructor |].
  cbn [map] in Hnd. apply NoDup_cons in Hnd as [He Hnd].
  apply Forall_cons in Hc as [Hce Hcl].
  apply NoDup_cons. split; [| apply IH; assumption].
  intros Hin. apply He.
  apply list_elem_of_fmap in Hin as (e' & Hkey & Hin').
  apply list_elem_of_fmap. exists e'. split; [| exact Hin'].
  rewrite Forall_forall in Hcl.
  apply Hk; [apply collected_indexed, Hce | apply collected_indexed, Hcl, Hin' | exact Hkey].
Qed.

Lemma diff_quote_keys st last (entries : list (string * SnapshotData)) :
  Forall (Spec.collected st) entries →
  map fst (map (diff_quote last) entries)
  = map (fun entry => Spec.key_of st entry.1) entries.
Proof.
  intros Hc. rewrite map_map. induction Hc as [| e l He Hl IH]; cbn [map]; [reflexivity |].
  rewrite IH. f_equal. unfold diff_quote. cbn [fst]. apply collected_key, He.
Qed.

Lemma Forall_filter_list {A : Type} (P : A → Prop) (f : A → bool) (l : list A) :
  Forall P l → Forall P (List.filter f l).
Proof.
  intros H. induction H as [| x l Hx Hl IH]; cbn [List.filter]; [constructor |].
  destruct (f x); [constructor; assumption | exact IH].
Qed.

Lemma NoDup_filter_fst {A : Type} (f : string * A → bool) (l : list (string * A)) :
  NoDup (map fst l) → NoDup (map fst (List.filter f l)).
Proof.
  induction l as [| x l IH]; cbn [List.filter map]; [intros H; exact H |].
  intros [Hx Hnd]%NoDup_cons.
  destruct (f x); [| apply IH, Hnd].
  cbn [map]. apply NoDup_cons. split; [| apply IH, Hnd].
  intros Hin. apply Hx.
  apply list_elem_of_fmap in Hin as (y & Hy & Hin).
  apply list_elem_of_fmap. exists y. split; [exact Hy |].
  apply list_elem_of_In. apply list_elem_of_In, filter_In in Hin as [Hin _]. exact Hin.
Qed.

(** Two entries for one instrument in a list without repeated
    instruments are one entry. *)
Lemma NoDup_fst_same {A : Type} (l : list (string * A)) i a b :
  NoDup (map fst l) → (i, a) ∈ l → (i, b) ∈ l → a = b.
Proof.
  induction l as [| [k v] l IH]; intros Hnd Ha Hb.
  - apply elem_of_nil in Ha. contradiction.
  - cbn [map fst] in Hnd. apply NoDup_cons in Hnd as [Hk Hnd].
    apply elem_of_cons in Ha as [Ea | Ha]; apply elem_of_cons in Hb as [Eb | Hb].
    + congruence.
    + injection Ea as -> ->. exfalso. apply Hk.
      apply list_elem_of_fmap. exists (k, b). split; [reflexivity | exact Hb].
    + injection Eb as -> ->. exfalso. apply Hk.
      apply list_elem_of_fmap. exists (k, a). split; [reflexivity | exact Ha].
    + apply IH; assumption.
Qed.

(** What the client of [s] holds under the key of [i] once the frame for
    [updates] has been applied. *)
Lemma view_after_frame st s updates i :
  Spec.consistent st → Spec.keys_distinct st →
  Forall (Spec.collected st) updates → NoDup (map fst updates) →
  Spec.indexed st i →
  let view' :=
    fold_left apply_quote
      (map (diff_quote (Spec.cursor st s))
           (List.filter (needs_sending (Spec.cursor st s)) updates))
      (Spec.view_of st s) in
  (∀ snap, (i, snap) ∈ updates → needs_sending (Spec.cursor st s) (i, snap) = true →
           view' !! Spec.key_of st i = Some (Snapshot.data snap))
  ∧ ((∀ snap, (i, snap) ∈ updates → needs_sending (Spec.cursor st s) (i, snap) = false) →
     view' !! Spec.key_of st i = Spec.view_of st s !! Spec.key_of st i).
Proof.
  intros Hcons Hkd Hcol Hnd Hi. cbv zeta.
  set (last := Spec.cursor st s).
  set (sent := List.filter (needs_sending last) updates).
  assert (Hcs : Forall (Spec.collected st) sent) by (apply Forall_filter_list, Hcol).
  assert (Hns : NoDup (map fst sent)) by (apply NoDup_filter_fst, Hnd).
  assert (Hkeys : NoDup (map fst (map (diff_quote last) sent))).
  { rewrite (diff_quote_keys st) by exact Hcs.
    apply collected_keys_distinct; assumption. }
  split.
  - intros snap Hin Hsend.
    assert (Hs : (i, snap) ∈ sent).
    { apply list_elem_of_In, filter_In. split; [apply list_elem_of_In, Hin | exact Hsend]. }
    rewrite Forall_forall in Hcs. pose proof (Hcs _ Hs) as Hc.
    rewrite (fold_apply_quote_hit _ _ _ (diff_quote last (i, snap)).2 Hkeys).
    + f_equal. exact (diff_quote_applied st s (i, snap) Hcons Hc).
    + apply list_elem_of_fmap. exists (i, snap). split; [| exact Hs].
      unfold diff_quote. cbn [fst snd]. f_equal.
      symmetry. exact (collected_key st (i, snap) Hc).
  - intros Hnot. apply fold_apply_quote_other.
    rewrite (diff_quote_keys st) by exact Hcs.
    intros Hin. apply list_elem_of_fmap in Hin as ([j snap] & Hkey & Hin).
    cbn [fst] in Hkey.
    rewrite Forall_forall in Hcs. pose proof (Hcs _ Hin) as Hc.
    assert (i = j) by (apply Hkd; [exact Hi | exact (collected_indexed st _ Hc) | exact Hkey]).
    subst j.
    apply list_elem_of_In, filter_In in Hin as [Hin Hsend].
    rewrite (Hnot snap) in Hsend by (apply list_elem_of_In, Hin). discriminate Hsend.
Qed.

(** Delivering what a peek collected keeps the server consistent. *)
Lemma deliver_consistent st s updates :
  Spec.consistent st → Spec.keys_distinct st →
  Forall (Spec.collected st) updates → NoDup (map fst updates) →
  Spec.consistent
    (update_session_state
       (send_diff_snapshot st s updates (Spec.cursor st s)).2 s updates).
Proof.
  intros Hcons Hkd Hcol Hnd.
  pose proof Hcons as (Hd & He & Hsc & Hsv & Hag).
  destruct (send_diff_view st s updates (Spec.cursor st s))
    as (E1 & E2 & E3 & E4 & Ev & Eo).
  set (st1 := (send_diff_snapshot st s updates (Spec.cursor st s)).2) in *.
  set (st' := update_session_state st1 s updates).
  assert (F1 : instrument_index_map_ st' = instrument_index_map_ st) by exact E1.
  assert (F2 : display_instruments_cache_ st' = display_instruments_cache_ st) by exact E2.
  assert (F3 : market_data_cache_ st' = market_data_cache_ st) by exact E3.
  assert (Fv : ∀ s0, Spec.view_of st' s0 = Spec.view_of st1 s0) by reflexivity.
  assert (Fk : ∀ i, Spec.key_of st' i = Spec.key_of st i).
  { intros i. unfold Spec.key_of, get_index. rewrite F1, F2. reflexivity. }
  assert (Fi : ∀ i, Spec.indexed st' i ↔ Spec.indexed st i).
  { intros i. unfold Spec.indexed. rewrite F1. reflexivity. }
  assert (Fc : ∀ s0, Spec.cursor st' s0
                     = if decide (s = s0)
                       then fold_left (fun m entry => <[entry.1 := Snapshot.data entry.2]> m)
                                      updates (Spec.cursor st s)
                       else Spec.cursor st s0).
  { intros s0. unfold st'. rewrite cursor_update.
    unfold Spec.cursor. rewrite E4. reflexivity. }
  (* what the client of [s] holds under the key of an instrument *)
  assert (Hview : ∀ i, Spec.indexed st i →
            (∀ snap, (i, snap) ∈ updates →
                     Spec.view_of st' s !! Spec.key_of st i = Some (Snapshot.data snap))
            ∧ (i ∉ map fst updates →
               Spec.view_of st' s !! Spec.key_of st i
               = Spec.view_of st s !! Spec.key_of st i)).
  { intros i Hi. rewrite Fv, Ev.
    destruct (view_after_frame st s updates i Hcons Hkd Hcol Hnd Hi) as [Hsent Hkept].
    split.
    - intros snap Hin.
      destruct (needs_sending (Spec.cursor st s) (i, snap)) eqn:Hsend;
        [exact (Hsent snap Hin Hsend) |].
      rewrite Hkept.
      + unfold needs_sending in Hsend. cbn [fst snd] in Hsend.
        destruct (Spec.cursor st s !! i) as [old |] eqn:Hold; [| discriminate Hsend].
        destruct (Hag s i old Hold) as [_ Hv]. rewrite Hv. f_equal.
        apply unchanged_same; [exact (Hsv s _ _ Hv) | | exact Hsend].
        rewrite Forall_forall in Hcol.
        exact (collected_shaped st (i, snap) Hsc (Hcol _ Hin)).
      + intros snap' Hin'.
        rewrite (NoDup_fst_same updates i snap' snap Hnd Hin' Hin). exact Hsend.
    - intros Hnot. apply Hkept. intros snap Hin. exfalso. apply Hnot.
      apply list_elem_of_fmap. exists (i, snap). split; [reflexivity | exact Hin]. }
  unfold Spec.consistent. split; [| split; [| split; [| split]]].
  - unfold Spec.dense_indices. rewrite F1. exact Hd.
  - unfold Spec.even_counters. rewrite F3. exact He.
  - unfold Spec.shaped_cache. rewrite F3. exact Hsc.
  - intros s0 k x Hx. rewrite Fv in Hx.
    destruct (decide (s0 = s)) as [-> | Hne]; [| rewrite Eo in Hx by exact Hne; eauto].
    rewrite Ev in Hx.
    set (last := Spec.cursor st s) in *.
    set (sent := List.filter (needs_sending last) updates) in *.
    assert (Hcs : Forall (Spec.collected st) sent) by (apply Forall_filter_list, Hcol).
    destruct (decide (k ∈ map fst (map (diff_quote last) sent))) as [Hin | Hout].
    + apply list_elem_of_fmap in Hin as ([k' p] & Hk & Hin). cbn [fst] in Hk. subst k'.
      rewrite (fold_apply_quote_hit _ _ _ p) in Hx; [| | exact Hin].
      * injection Hx as <-.
        apply list_elem_of_fmap in Hin as (entry & Hq & Hin).
        rewrite Forall_forall in Hcs. pose proof (Hcs _ Hin) as Hc.
        assert (Hk : k = Spec.key_of st entry.1).
        { rewrite <- (collected_key st entry Hc). unfold diff_quote in Hq.
          injection Hq as -> _. reflexivity. }
        assert (Hp : p = (diff_quote last entry).2) by (rewrite <- Hq; reflexivity).
        rewrite Hk, Hp. unfold last.
        rewrite (diff_quote_applied st s entry Hcons Hc).
        exact (collected_shaped st entry Hsc Hc).
      * rewrite (diff_quote_keys st) by exact Hcs.
        apply collected_keys_distinct; [exact Hkd | exact Hcs |].
        apply NoDup_filter_fst, Hnd.
    + rewrite fold_apply_quote_other in Hx by exact Hout. eauto.
  - intros s0 i q Hq. rewrite Fc in Hq. rewrite Fi, Fk.
    destruct (decide (s = s0)) as [<- | Hne].
    + destruct (decide (i ∈ map fst updates)) as [Hin | Hout].
      * apply list_elem_of_fmap in Hin as ([i' snap] & Hi' & Hin). cbn [fst] in Hi'. subst i'.
        rewrite (fold_insert_hit _ _ _ i snap Hnd Hin) in Hq. injection Hq as <-.
        rewrite Forall_forall in Hcol.
        pose proof (collected_indexed st _ (Hcol _ Hin)) as Hi. cbn [fst] in Hi.
        split; [exact Hi |]. exact (proj1 (Hview i Hi) snap Hin).
      * rewrite fold_insert_other in Hq by exact Hout.
        destruct (Hag s i q Hq) as [Hi Hv]. split; [exact Hi |].
        rewrite (proj2 (Hview i Hi) Hout). exact Hv.
    + destruct (Hag s0 i q Hq) as [Hi Hv]. split; [exact Hi |].
      rewrite Fv, Eo by congruence. exact Hv.
Qed.

End RoundTrip.

Section ServerSteps.
Import Quote Gateway Client.
Variable vendor_result : list Dispatch.UpstreamCall → Dispatch.UpstreamCall → Z.
Variable Parse : string → option json.

(** *** Instruments keep their index and their name *)

Lemma extends_refl st : Spec.extends st st.
Proof. intros id i Hi. split; [exact Hi | reflexivity]. Qed.

Lemma extends_trans st1 st2 st3 :
  Spec.extends st1 st2 → Spec.extends st2 st3 → Spec.extends st1 st3.
Proof.
  intros H12 H23 id i Hi. destruct (H12 id i Hi) as [Hi2 Hd2].
  destruct (H23 id i Hi2) as [Hi3 Hd3]. split; [exact Hi3 | congruence].
Qed.

Lemma extends_fields st st' :
  instrument_index_map_ st' = instrument_index_map_ st →
  display_instruments_cache_ st' = display_instruments_cache_ st →
  Spec.extends st st'.
Proof. intros H1 H2 id i Hi. rewrite H1, H2. split; [exact Hi | reflexivity]. Qed.

Lemma extends_key st st' i :
  Spec.extends st st' → Spec.indexed st i →
  Spec.indexed st' i ∧ Spec.key_of st' i = Spec.key_of st i.
Proof.
  intros He [idx Hi]. destruct (He i idx Hi) as [Hi' Hd].
  split; [exists idx; exact Hi' |].
  unfold Spec.key_of, get_index. rewrite Hi, Hi'. cbn [default from_option id].
  rewrite Hd. reflexivity.
Qed.

Lemma keys_distinct_extends st st' :
  Spec.extends st st' → Spec.keys_distinct st' → Spec.keys_distinct st.
Proof.
  intros He Hk i j Hi Hj Hkey.
  destruct (extends_key st st' i He Hi) as [Hi' Ki].
  destruct (extends_key st st' j He Hj) as [Hj' Kj].
  apply Hk; [exact Hi' | exact Hj' | congruence].
Qed.

(** *** A frame that carries no quotes *)

Lemma send_plain_consistent st s frame :
  quotes_of frame = [] →
  Spec.consistent st → Spec.consistent (send_message s frame st).
Proof.
  intros Hq (Hd & He & Hsc & Hsv & Hag).
  assert (Hv : ∀ s0, Spec.view_of (send_message s frame st) s0 = Spec.view_of st s0).
  { intros s0. rewrite view_of_send. destruct (String.eqb s s0); [| reflexivity].
    unfold apply_frame. rewrite Hq. reflexivity. }
  split; [exact Hd |]. split; [exact He |]. split; [exact Hsc |]. split.
  - intros s0 k x Hx. rewrite Hv in Hx. eauto.
  - intros s0 i q Hq'. destruct (Hag s0 i q Hq') as [Hi Hview].
    split; [exact Hi |]. rewrite Hv. exact Hview.
Qed.

(** *** handle_peek_message *)

Lemma peek_fields st s :
  instrument_index_map_ (handle_peek_message st s) = instrument_index_map_ st
  ∧ display_instruments_cache_ (handle_peek_message st s) = display_instruments_cache_ st.
Proof.
  unfold handle_peek_message.
  destruct (sessions_ st !! s) as [sess |]; [| split; reflexivity].
  destruct (decide (subscriptions_ sess = ∅)); [split; reflexivity |].
  destruct (collect_market_data_updates st _ _) as [| u l].
  - destruct (negb _); split; reflexivity.
  - destruct (negb (negb _)); [split; reflexivity |].
    unfold update_session_state, send_diff_snapshot.
    destruct (List.filter _ _); split; reflexivity.
Qed.

Lemma peek_consistent st s :
  Spec.consistent st → Spec.keys_distinct st →
  Spec.consistent (handle_peek_message st s).
Proof.
  intros Hcons Hkd. unfold handle_peek_message.
  destruct (sessions_ st !! s) as [sess |]; [| exact Hcons].
  destruct (decide (subscriptions_ sess = ∅)); [exact Hcons |].
  fold (Spec.cursor st s).
  pose proof Hcons as (_ & Hev & _).
  destruct (collect_spec st (subscriptions_ sess)
              (default ∅ (session_last_versions_ st !! s)) Hev) as [Hcol Hnd].
  destruct (collect_market_data_updates st (subscriptions_ sess)
              (default ∅ (session_last_versions_ st !! s))) as [| u l] eqn:Hup.
  - destruct (negb (bool_decide (Spec.cursor st s = ∅))); [| exact Hcons].
    eapply consistent_same_core; [| exact Hcons]. repeat split.
  - destruct (bool_decide (Spec.cursor st s = ∅)) eqn:Hc; cbn [negb].
    + apply bool_decide_eq_true in Hc.
      rewrite send_full_as_diff by discriminate. rewrite <- Hc.
      apply deliver_consistent; assumption.
    + apply deliver_consistent; assumption.
Qed.

Lemma peeks_consistent sessions : ∀ st,
  Spec.consistent st → Spec.keys_distinct st →
  Spec.consistent (fold_left handle_peek_message sessions st)
  ∧ instrument_index_map_ (fold_left handle_peek_message sessions st)
    = instrument_index_map_ st
  ∧ display_instruments_cache_ (fold_left handle_peek_message sessions st)
    = display_instruments_cache_ st.
Proof.
  induction sessions as [| s l IH]; intros st Hc Hk; cbn [fold_left].
  - split; [exact Hc |]. split; reflexivity.
  - destruct (peek_fields st s) as [F1 F2].
    destruct (IH (handle_peek_message st s)) as (IHc & G1 & G2).
    + apply peek_consistent; assumption.
    + eapply keys_distinct_extends; [| exact Hk].
      apply extends_fields; congruence.
    + split; [exact IHc |]. split; congruence.
Qed.

(** *** The tick path *)

Lemma publish_entry_stays_even d e :
  sequence e mod 2 = 0 → sequence (publish_entry d e) mod 2 = 0.
Proof.
  intros He. unfold publish_entry, entry_being_written, store_sequence.
  cbn [sequence].
  rewrite Z.mod_mod_divide by (exists (2 ^ 63); reflexivity).
  rewrite <- Z.add_mod_idemp_l, He by lia. reflexivity.
Qed.

(** A new instrument gets the next index; the instruments known before
    keep theirs, and their names. *)
Lemma get_or_create_index_extends st id disp :
  Spec.dense_indices st →
  Spec.dense_indices (get_or_create_index st id disp).2
  ∧ Spec.extends st (get_or_create_index st id disp).2
  ∧ market_data_cache_ (get_or_create_index st id disp).2 = market_data_cache_ st
  ∧ session_last_sent_structs_ (get_or_create_index st id disp).2
    = session_last_sent_structs_ st
  ∧ sent_frames (get_or_create_index st id disp).2 = sent_frames st.
Proof.
  intros Hd. unfold get_or_create_index.
  destruct (instrument_index_map_ st !! id) as [i |] eqn:Hi; cbn [snd].
  { split; [exact Hd |]. split; [apply extends_refl |]. repeat split. }
  destruct (_ >=? _); cbn [snd].
  { split; [exact Hd |]. split; [apply extends_refl |]. repeat split. }
  split; [| split; [| repeat split]].
  - intros id' i'. cbn [instrument_index_map_ with_index].
    rewrite map_size_insert_None by exact Hi.
    intros [[<- <-] | [Hne Hl]]%lookup_insert_Some; [lia |].
    specialize (Hd id' i' Hl). lia.
  - intros id' i' Hl. cbn [instrument_index_map_ display_instruments_cache_ with_index].
    split.
    + rewrite lookup_insert_ne; [exact Hl |]. intros <-. congruence.
    + apply list_lookup_insert_ne. specialize (Hd id' i' Hl). lia.
Qed.

Lemma tick_consistent st d t :
  Spec.sane_event (Tick d t) →
  Spec.consistent st →
  Spec.consistent (OnRtnDepthMarketData st d t).1
  ∧ Spec.extends st (OnRtnDepthMarketData st d t).1.
Proof.
  intros Hsane Hcons. unfold OnRtnDepthMarketData.
  destruct d as [d |]; [| split; [exact Hcons | apply extends_refl]].
  cbn [Spec.sane_event] in Hsane.
  set (disp := default (InstrumentID d) (noheadtohead_instruments_map_ st !! InstrumentID d)).
  set (q := build_market_data_struct (Some d) disp t).
  assert (Hq : Spec.cache_shaped q = true) by (apply build_cache_shaped, (proj1 Hsane)).
  destruct Hcons as (Hd & He & Hsc & Hsv & Hag).
  unfold cache_market_data.
  destruct (get_or_create_index_extends st (InstrumentID d) disp Hd)
    as (Hd1 & Hx1 & Hc1 & Hs1 & Hf1).
  destruct (get_or_create_index st (InstrumentID d) disp) as [index st1].
  cbn [snd] in Hd1, Hx1, Hc1, Hs1, Hf1.
  assert (Hcons1 : Spec.consistent st1).
  { split; [exact Hd1 |]. split; [unfold Spec.even_counters; rewrite Hc1; exact He |].
    split; [unfold Spec.shaped_cache; rewrite Hc1; exact Hsc |]. split.
    - intros s k x. unfold Spec.view_of. rewrite Hf1. apply Hsv.
    - intros s i q0. unfold Spec.cursor, Spec.view_of. rewrite Hs1, Hf1. intros Hq0.
      destruct (Hag s i q0 Hq0) as [Hi Hv].
      destruct (extends_key st st1 i Hx1 Hi) as [Hi1 Hk1].
      split; [exact Hi1 |]. rewrite Hk1. exact Hv. }
  destruct (index <? 0); cbn [fst]; [split; assumption |].
  split; [| intros id i Hi; apply (Hx1 id i Hi)].
  destruct Hcons1 as (Hd' & He' & Hsc' & Hsv' & Hag').
  split; [exact Hd' |]. split; [| split; [| split; [exact Hsv' | exact Hag']]].
  - unfold Spec.even_counters. cbn [market_data_cache_ with_cache].
    apply Forall_alter; [exact He' |]. intros e _. apply publish_entry_stays_even.
  - unfold Spec.shaped_cache. cbn [market_data_cache_ with_cache].
    apply Forall_alter; [exact Hsc' |]. intros e _ _ _. exact Hq.
Qed.

(** *** Frames from the client *)

Lemma subscribe_one_core now session acc instrument :
  Spec.same_core acc.1 (subscribe_one vendor_result now session acc instrument).1.
Proof.
  destruct acc as [st w]. unfold subscribe_one. cbn [fst].
  destruct (String.eqb instrument EmptyString); [apply same_core_refl |].
  unfold subscribe_instrument.
  destruct (Dispatch.add_subscription _ _ _ _ _) as [r w']. repeat split.
Qed.

Lemma subscribe_all_core now session instruments : ∀ acc,
  Spec.same_core acc.1
    (fold_left (subscribe_one vendor_result now session) instruments acc).1.
Proof.
  induction instruments as [| i l IH]; intros acc; cbn [fold_left].
  - apply same_core_refl.
  - eapply same_core_trans; [apply subscribe_one_core | apply IH].
Qed.

Lemma message_consistent now now_ms st w session message st' w' :
  handle_message vendor_result Parse now now_ms st w session message = Handled st' w' →
  Spec.consistent st → Spec.keys_distinct st →
  Spec.consistent st'
  ∧ instrument_index_map_ st' = instrument_index_map_ st
  ∧ display_instruments_cache_ st' = display_instruments_cache_ st.
Proof.
  intros Hm Hcons Hkd. unfold handle_message in Hm.
  destruct (Parse (c_str message)) as [[| | | | | | doc] |]; try discriminate Hm.
  - destruct (find_member "aid" doc) as [[| | | | aid | |] |];
      try (injection Hm as <- <-; split; [exact Hcons | split; reflexivity]).
    destruct (String.eqb (c_str aid) "subscribe_quote").
    + destruct (find_member "ins_list" doc) as [[| | | | ins | |] |];
        try (injection Hm as <- <-;
             split; [apply send_plain_consistent; [reflexivity | exact Hcons]
                    | split; reflexivity]).
      pose proof (subscribe_all_core now session
                    (getline_all ","%char (c_str ins) EmptyString) (st, w)) as Hcore.
      destruct (fold_left _ _ (st, w)) as [st1 w1]. cbn [fst] in Hcore.
      injection Hm as <- <-.
      destruct Hcore as (C1 & C2 & C3 & C4 & C5).
      split; [| split; [exact C1 | exact C2]].
      apply send_plain_consistent; [reflexivity |].
      eapply consistent_same_core; [| exact Hcons]. repeat split; assumption.
    + destruct (String.eqb (c_str aid) "peek_message").
      * injection Hm as <- <-. split; [apply peek_consistent; assumption |].
        apply peek_fields.
      * injection Hm as <- <-. split; [exact Hcons | split; reflexivity].
  - injection Hm as <- <-.
    split; [apply send_plain_consistent; [reflexivity | exact Hcons] | split; reflexivity].
Qed.

(** *** Sessions coming and going *)

Lemma remove_session_consistent st w session :
  Spec.consistent st →
  Spec.consistent (remove_session vendor_result st w session).1
  ∧ instrument_index_map_ (remove_session vendor_result st w session).1
    = instrument_index_map_ st
  ∧ display_instruments_cache_ (remove_session vendor_result st w session).1
    = display_instruments_cache_ st.
Proof.
  intros (Hd & He & Hsc & Hsv & Hag). unfold remove_session. cbn [fst].
  split; [| split; reflexivity].
  split; [exact Hd |]. split; [exact He |]. split; [exact Hsc |]. split; [exact Hsv |].
  intros s i q. unfold Spec.cursor.
  cbn [session_last_sent_structs_ with_pending with_cursors with_sessions].
  destruct (decide (session = s)) as [-> | Hne].
  - rewrite lookup_delete_eq. cbn [default from_option id].
    rewrite lookup_empty. discriminate.
  - rewrite lookup_delete_ne by exact Hne. apply Hag.
Qed.

Lemma opened_consistent st w session now_ms :
  Spec.consistent st →
  Spec.consistent (on_accept (add_session st session) w session now_ms).
Proof.
  intros Hcons. unfold on_accept.
  apply send_plain_consistent; [reflexivity |].
  eapply consistent_same_core; [| exact Hcons]. repeat split.
Qed.

(** *** Every event *)

Lemma notify_consistent st i :
  Spec.consistent st → Spec.keys_distinct st →
  Spec.consistent (notify_pending_sessions st i)
  ∧ instrument_index_map_ (notify_pending_sessions st i) = instrument_index_map_ st
  ∧ display_instruments_cache_ (notify_pending_sessions st i)
    = display_instruments_cache_ st.
Proof.
  intros Hcons Hkd. unfold notify_pending_sessions.
  destruct (instrument_subscribers_ st !! i) as [subs |];
    [| split; [exact Hcons | split; reflexivity]].
  set (st0 := with_pending _ st).
  assert (Hcore : Spec.same_core st st0) by repeat split.
  destruct (peeks_consistent (in_order (subs ∩ pending_peek_sessions_ st)) st0)
    as (Hc & F1 & F2).
  - eapply consistent_same_core; [exact Hcore | exact Hcons].
  - eapply keys_distinct_extends; [| exact Hkd].
    apply extends_fields; reflexivity.
  - split; [exact Hc |]. split; [rewrite F1 | rewrite F2]; reflexivity.
Qed.

Lemma step_consistent acc e acc' :
  step vendor_result Parse acc e = Some acc' →
  Spec.sane_event e →
  Spec.consistent acc.1 → Spec.keys_distinct acc.1 →
  Spec.consistent acc'.1 ∧ Spec.extends acc.1 acc'.1.
Proof.
  destruct acc as [st w]. intros Hstep Hsane Hcons Hkd. cbn [fst].
  destruct e as [s t | s | s m now now_ms | d t | i]; cbn [step] in Hstep.
  - injection Hstep as <-. cbn [fst].
    split; [apply opened_consistent, Hcons | apply extends_fields; reflexivity].
  - injection Hstep as <-.
    destruct (remove_session_consistent st w s Hcons) as (Hc & F1 & F2).
    split; [exact Hc | apply extends_fields; assumption].
  - destruct (handle_message vendor_result Parse now now_ms st w s m) as [st1 w1 |] eqn:Hm;
      [| discriminate Hstep].
    injection Hstep as <-. cbn [fst].
    destruct (message_consistent now now_ms st w s m st1 w1 Hm Hcons Hkd) as (Hc & F1 & F2).
    split; [exact Hc | apply extends_fields; assumption].
  - injection Hstep as <-. cbn [fst]. apply tick_consistent; assumption.
  - injection Hstep as <-. cbn [fst].
    destruct (notify_consistent st i Hcons Hkd) as (Hc & F1 & F2).
    split; [exact Hc | apply extends_fields; assumption].
Qed.

Lemma step_extends acc e acc' :
  step vendor_result Parse acc e = Some acc' →
  Spec.dense_indices acc.1 →
  Spec.dense_indices acc'.1 ∧ Spec.extends acc.1 acc'.1.
Proof.
  destruct acc as [st w]. intros Hstep Hd. cbn [fst] in *.
  assert (Hsame : ∀ st', instrument_index_map_ st' = instrument_index_map_ st →
                         display_instruments_cache_ st' = display_instruments_cache_ st →
                         Spec.dense_indices st' ∧ Spec.extends st st').
  { intros st' F1 F2. split; [| apply extends_fields; assumption].
    unfold Spec.dense_indices. rewrite F1. exact Hd. }
  destruct e as [s t | s | s m now now_ms | d t | i]; cbn [step] in Hstep.
  - injection Hstep as <-. apply Hsame; reflexivity.
  - injection Hstep as <-. apply Hsame; reflexivity.
  - destruct (handle_message vendor_result Parse now now_ms st w s m) as [st1 w1 |] eqn:Hm;
      [| discriminate Hstep].
    injection Hstep as <-. cbn [fst].
    unfold handle_message in Hm.
    destruct (Parse (c_str m)) as [[| | | | | | doc] |]; try discriminate Hm.
    + destruct (find_member "aid" doc) as [[| | | | aid | |] |];
        try (injection Hm as <- <-; apply Hsame; reflexivity).
      destruct (String.eqb (c_str aid) "subscribe_quote").
      * destruct (find_member "ins_list" doc) as [[| | | | ins | |] |];
          try (injection Hm as <- <-; apply Hsame; reflexivity).
        pose proof (subscribe_all_core now s
                      (getline_all ","%char (c_str ins) EmptyString) (st, w)) as Hcore.
        destruct (fold_left _ _ (st, w)) as [st2 w2]. cbn [fst] in Hcore.
        injection Hm as <- <-. destruct Hcore as (C1 & C2 & _).
        apply Hsame; assumption.
      * destruct (String.eqb (c_str aid) "peek_message");
          injection Hm as <- <-; apply Hsame; try reflexivity; apply peek_fields.
    + injection Hm as <- <-. apply Hsame; reflexivity.
  - injection Hstep as <-. cbn [fst]. unfold OnRtnDepthMarketData.
    destruct d as [d |]; [| apply Hsame; reflexivity].
    unfold cache_market_data.
    destruct (get_or_create_index_extends st (InstrumentID d)
                (default (InstrumentID d)
                   (noheadtohead_instruments_map_ st !! InstrumentID d)) Hd)
      as (Hd1 & Hx1 & _).
    destruct (get_or_create_index st _ _) as [index st1]. cbn [snd] in Hd1, Hx1.
    destruct (index <? 0); cbn [fst]; split; assumption.
  - injection Hstep as <-. cbn [fst]. unfold notify_pending_sessions.
    destruct (instrument_subscribers_ st !! i) as [subs |]; [| apply Hsame; reflexivity].
    assert (Hf : ∀ l st0, instrument_index_map_ (fold_left handle_peek_message l st0)
                          = instrument_index_map_ st0
                          ∧ display_instruments_cache_ (fold_left handle_peek_message l st0)
                            = display_instruments_cache_ st0).
    { induction l as [| s l IH]; intros st0; cbn [fold_left]; [split; reflexivity |].
      destruct (IH (handle_peek_message st0 s)) as [G1 G2].
      destruct (peek_fields st0 s) as [P1 P2]. split; congruence. }
    destruct (Hf (in_order (subs ∩ pending_peek_sessions_ st))
                (with_pending (pending_peek_sessions_ st
                               ∖ (subs ∩ pending_peek_sessions_ st)) st)) as [G1 G2].
    apply Hsame; [rewrite G1 | rewrite G2]; reflexivity.
Qed.

Lemma run_extends events : ∀ acc acc',
  run vendor_result Parse acc events = Some acc' →
  Spec.dense_indices acc.1 → Spec.extends acc.1 acc'.1.
Proof.
  induction events as [| e l IH]; intros acc acc' Hrun Hd; cbn [run] in Hrun.
  - injection Hrun as <-. apply extends_refl.
  - destruct (step vendor_result Parse acc e) as [acc1 |] eqn:Hs; [| discriminate Hrun].
    destruct (step_extends acc e acc1 Hs Hd) as [Hd1 Hx1].
    eapply extends_trans; [exact Hx1 | apply (IH acc1 acc' Hrun Hd1)].
Qed.

Lemma run_consistent events : ∀ acc acc',
  run vendor_result Parse acc events = Some acc' →
  Forall Spec.sane_event events →
  Spec.consistent acc.1 → Spec.keys_distinct acc'.1 →
  Spec.consistent acc'.1.
Proof.
  induction events as [| e l IH]; intros acc acc' Hrun Hsane Hcons Hkd; cbn [run] in Hrun.
  - injection Hrun as <-. exact Hcons.
  - destruct (step vendor_result Parse acc e) as [acc1 |] eqn:Hs; [| discriminate Hrun].
    apply Forall_cons in Hsane as [He Hl].
    pose proof Hcons as (Hd & _).
    destruct (step_extends acc e acc1 Hs Hd) as [Hd1 Hx1].
    pose proof (run_extends l acc1 acc' Hrun Hd1) as Hx.
    assert (Hk1 : Spec.keys_distinct acc1.1)
      by (eapply keys_distinct_extends; [exact Hx | exact Hkd]).
    assert (Hk0 : Spec.keys_distinct acc.1)
      by (eapply keys_distinct_extends; [exact Hx1 | exact Hk1]).
    destruct (step_consistent acc e acc1 Hs He Hcons Hk0) as [Hc1 _].
    apply (IH acc1 acc' Hrun Hl Hc1 Hkd).
Qed.

Lemma new_server_consistent n : Spec.consistent (new_server n).
Proof.
  split; [| split; [| split; [| split]]].
  - intros id i H. cbn [new_server instrument_index_map_] in H.
    rewrite lookup_empty in H. discriminate H.
  - unfold Spec.even_counters, new_server. cbn [market_data_cache_].
    apply Forall_replicate. reflexivity.
  - unfold Spec.shaped_cache, new_server. cbn [market_data_cache_].
    apply Forall_replicate. cbn [empty_entry has_data]. discriminate.
  - intros s k x H. unfold Spec.view_of, new_server in H. cbn in H.
    rewrite lookup_empty in H. discriminate H.
  - intros s i q H. unfold Spec.cursor, new_server in H.
    cbn [session_last_sent_structs_] in H. rewrite lookup_empty in H.
    cbn [default from_option id] in H. rewrite lookup_empty in H. discriminate H.
Qed.

End ServerSteps.

(* ===================================================================== *)
(** * The dispatcher: what goes upstream and what is queued              *)
(* ===================================================================== *)

Section RequestFacts.
Import Dispatch.
Variable vendor_result : list UpstreamCall → UpstreamCall → Z.


(** *** The retry set across a failover *)

Lemma failover_fold_other conn l : ∀ w i,
  i ∉ l →
  global_subscriptions_ (fold_left (failover_one vendor_result conn) l w) !! i
  = global_subscriptions_ w !! i.
Proof.
  induction l as [| j l IH]; intros w i Hi; [reflexivity |].
  apply not_elem_of_cons in Hi as [Hij Hil]. cbn [fold_left].
  rewrite (IH _ i Hil).
  destruct (failover_one_books vendor_result conn w j) as (_ & _ & H). apply H. exact Hij.
Qed.

Lemma retry_if_allowed_upper j w x :
  x ∈ retry_set_ (retry_if_allowed j w) → x = j ∨ x ∈ retry_set_ w.
Proof.
  unfold retry_if_allowed. destruct (global_subscriptions_ w !! j) as [info |];
    [| intros H; right; exact H].
  destruct (_ <? _); [| intros H; right; exact H].
  cbn. intros H. apply elem_of_union in H as [H | H]; [left | right; exact H].
  apply elem_of_singleton in H. exact H.
Qed.

Lemma failover_one_queue conn w j x :
  x ∈ retry_set_ (failover_one vendor_result conn w j) → x = j ∨ x ∈ retry_set_ w.
Proof.
  unfold failover_one.
  pose proof (select_books w) as (_ & S2 & _).
  destruct (select_connection_round_robin w) as [[c |] w1]; cbn [snd] in S2.
  - destruct (negb _).
    + unfold migrate_subscription.
      destruct (global_subscriptions_ w1 !! j); [| rewrite S2; intros H; right; exact H].
      match goal with
      | |- context [execute_subscription vendor_result ?w2 j ?id] =>
          pose proof (execute_subscription_books vendor_result w2 j id) as (_ & X2 & _);
          destruct (execute_subscription vendor_result w2 j id) as [ok w3]
      end.
      cbn [snd] in X2. cbn in X2. rewrite S2 in X2.
      destruct ok; [rewrite X2; intros H; right; exact H |].
      intros H. apply retry_if_allowed_upper in H as [H | H]; [left; exact H |].
      right. cbn in H. rewrite X2 in H. exact H.
    + intros H. apply retry_if_allowed_upper in H as [H | H]; [left; exact H |].
      right. rewrite S2 in H. exact H.
  - intros H. apply retry_if_allowed_upper in H as [H | H]; [left; exact H |].
    right. rewrite S2 in H. exact H.
Qed.

Lemma failover_fold_queue conn l : ∀ w x,
  x ∈ retry_set_ (fold_left (failover_one vendor_result conn) l w) →
  x ∈ l ∨ x ∈ retry_set_ w.
Proof.
  induction l as [| j l IH]; intros w x Hx; [right; exact Hx |].
  cbn [fold_left] in Hx. destruct (IH _ x Hx) as [H | H].
  - left. apply list_elem_of_further. exact H.
  - apply failover_one_queue in H as [-> | H]; [left; apply list_elem_of_here | right; exact H].
Qed.

Lemma retry_if_allowed_queued j w x :
  x ∈ retry_set_ (retry_if_allowed j w) →
  x ∈ retry_set_ w
  ∨ (x = j ∧ ∃ info, global_subscriptions_ w !! j = Some info
                     ∧ retry_count info < max_retry_count_ w).
Proof.
  unfold retry_if_allowed. destruct (global_subscriptions_ w !! j) as [info |];
    [| intros H; left; exact H].
  destruct (retry_count info <? max_retry_count_ w) eqn:L; [| intros H; left; exact H].
  apply Z.ltb_lt in L. cbn. intros H.
  apply elem_of_union in H as [H | H]; [| left; exact H].
  apply elem_of_singleton in H. right. split; [exact H |]. exists info. split; [reflexivity | exact L].
Qed.

Lemma failover_one_queued conn w j x :
  x ∈ retry_set_ (failover_one vendor_result conn w j) →
  x ∈ retry_set_ w
  ∨ (x = j ∧ ∃ info,
       global_subscriptions_ (failover_one vendor_result conn w j) !! j = Some info
       ∧ retry_count info < max_retry_count_ w).
Proof.
  unfold failover_one.
  pose proof (select_books w) as (S1 & S2 & S3).
  destruct (select_connection_round_robin w) as [oc w1]; cbn [snd] in S1, S2, S3.
  assert (Hretry : x ∈ retry_set_ (retry_if_allowed j w1) →
                   x ∈ retry_set_ w
                   ∨ (x = j ∧ ∃ info,
                        global_subscriptions_ (retry_if_allowed j w1) !! j = Some info
                        ∧ retry_count info < max_retry_count_ w)).
  { intros H. apply retry_if_allowed_queued in H as [H | (E & info & Hi & Hlt)].
    - left. rewrite <- S2. exact H.
    - right. split; [exact E |]. exists info.
      destruct (retry_if_allowed_spec j w1) as (G & _). rewrite G, <- S3.
      split; [exact Hi | exact Hlt]. }
  destruct oc as [c |]; [| exact Hretry].
  destruct (negb _); [| exact Hretry].
  unfold migrate_subscription.
  destruct (global_subscriptions_ w1 !! j); [| rewrite S2; intros H; left; exact H].
  match goal with
  | |- context [execute_subscription vendor_result ?w2 j ?id] =>
      pose proof (execute_subscription_books vendor_result w2 j id) as (X1 & X2 & X3);
      destruct (execute_subscription vendor_result w2 j id) as [ok w3]
  end.
  cbn [snd] in X1, X2, X3. cbn in X2, X3. rewrite S2 in X2. rewrite S3 in X3.
  destruct ok; [rewrite X2; intros H; left; exact H |].
  intros H. apply retry_if_allowed_queued in H as [H | (E & info & Hi & Hlt)].
  - left. cbn in H. rewrite X2 in H. exact H.
  - right. split; [exact E |]. exists info.
    match goal with
    | |- context [retry_if_allowed j ?w4] =>
        destruct (retry_if_allowed_spec j w4) as (G & _)
    end.
    rewrite G. split; [exact Hi |]. cbn in Hlt. rewrite X3 in Hlt. exact Hlt.
Qed.

Lemma failover_fold_books conn l : ∀ w,
  max_retry_count_ (fold_left (failover_one vendor_result conn) l w) = max_retry_count_ w
  ∧ retry_set_ w ⊆ retry_set_ (fold_left (failover_one vendor_result conn) l w).
Proof.
  induction l as [| j l IH]; intros w; [split; reflexivity |].
  cbn [fold_left].
  destruct (failover_one_books vendor_result conn w j) as (A1 & A2 & _).
  destruct (IH (failover_one vendor_result conn w j)) as (B1 & B2).
  split; [congruence | etransitivity; [exact A2 | exact B2]].
Qed.

Lemma failover_fold_queued conn l : ∀ w x,
  NoDup l →
  x ∈ retry_set_ (fold_left (failover_one vendor_result conn) l w) →
  x ∈ retry_set_ w
  ∨ (x ∈ l ∧ ∃ info,
       global_subscriptions_ (fold_left (failover_one vendor_result conn) l w) !! x
       = Some info
       ∧ retry_count info < max_retry_count_ w).
Proof.
  induction l as [| j l IH]; intros w x Hnd Hx; [left; exact Hx |].
  apply NoDup_cons in Hnd as [Hj Hnd]. cbn [fold_left] in Hx |- *.
  destruct (failover_one_books vendor_result conn w j) as (M & _ & _).
  destruct (IH _ x Hnd Hx) as [H | (Hin & info & Hi & Hlt)].
  - apply failover_one_queued in H as [H | (E & info & Hi & Hlt)]; [left; exact H |].
    right. subst x. split; [apply list_elem_of_here |]. exists info.
    rewrite (failover_fold_other conn l _ j Hj). split; [exact Hi | exact Hlt].
  - right. split; [apply list_elem_of_further; exact Hin |]. exists info.
    split; [exact Hi | rewrite <- M; exact Hlt].
Qed.

(** The retry set after a failover: nothing has left it, and what has
    joined it is a record that was ACTIVE on the failed connection and
    has retries left. *)
Lemma failover_queue w conn :
  retry_set_ w ⊆ retry_set_ (handle_connection_failure vendor_result w conn)
  ∧ ∀ i, i ∈ retry_set_ (handle_connection_failure vendor_result w conn) →
         i ∈ retry_set_ w
         ∨ (i ∈ affected_by w conn
            ∧ ∃ info,
                global_subscriptions_ (handle_connection_failure vendor_result w conn) !! i
                = Some info
                ∧ retry_count info
                  < max_retry_count_ (handle_connection_failure vendor_result w conn)).
Proof.
  unfold handle_connection_failure.
  destruct (mark_failed_books (affected_by w conn) w) as [E1 E2]. cbn zeta in E1, E2.
  set (w1 := fold_left (fun w i => update_info i (with_sub_status FAILED) w)
                       (affected_by w conn) w) in *.
  destruct (failover_fold_books conn (affected_by w conn) w1) as (M & Hsub).
  cbn [retry_set_ global_subscriptions_ max_retry_count_ with_connection_subs].
  split; [rewrite <- E1; exact Hsub |].
  intros i Hi.
  apply (failover_fold_queued conn _ w1 i (NoDup_affected_by w conn)) in Hi
    as [Hi | (Hin & info & Hrec & Hlt)].
  - left. rewrite <- E1. exact Hi.
  - right. split; [exact Hin |]. exists info. split; [exact Hrec |]. rewrite M. exact Hlt.
Qed.

End RequestFacts.

(* ===================================================================== *)
(** * The properties of the specification                                 *)
(* ===================================================================== *)

Section QuoteClaims.
Import Double Quote Client.

(** C1 (diff round trip), as the code has it.  For two well-formed quote
    records (four arrays of ten, no negative zero among the compared
    doubles) whose doubles are finite — the writer has no text for a NaN
    or an infinity, so no other record reaches a client — and that
    carry the same [average], applying the object that
    [compute_struct_diff old new] emits as a patch onto [old]
    reconstructs [new] exactly.  Consequently, after any run of the
    server from its initial state in which the turnover of every tick is
    a finite number and not the negative zero, and at whose end no two
    instruments share a key: for every session and instrument, the
    quote the session was last delivered is what a client holds under
    the key of the instrument after applying, in order, the frames the
    session was sent. *)
Theorem diff_patch_roundtrip :
  (∀ old new : MarketDataStruct,
     Spec.well_formed old = true →
     Spec.well_formed new = true →
     Spec.finite_doubles old = true →
     Spec.finite_doubles new = true →
     average old = average new →
     apply_patch old (compute_struct_diff old new) = new)
  ∧ (∀ vendor_result Parse n w0 events st w,
       Gateway.run vendor_result Parse (Gateway.new_server n, w0) events = Some (st, w) →
       Forall Spec.sane_event events →
       Spec.keys_distinct st →
       ∀ s i q, Spec.cursor st s !! i = Some q →
                Spec.view_of st s !! Spec.key_of st i = Some q).
Proof.
  split; [intros old new Hold Hnew _ _; exact (diff_roundtrip old new Hold Hnew) |].
  intros vendor_result Parse n w0 events st w Hrun Hsane Hkd s i q Hq.
  pose proof (run_consistent vendor_result Parse events (Gateway.new_server n, w0)
                (st, w) Hrun Hsane (new_server_consistent n) Hkd)
    as (_ & _ & _ & _ & Hag).
  exact (proj2 (Hag s i q Hq)).
Qed.

Lemma s2_final_keys : Spec.keys_distinct Scenario.s2_final.1.
Proof.
  assert (Hm : Gateway.instrument_index_map_ Scenario.s2_final.1 = {["rb2501" := 0]})
    by (vm_compute; reflexivity).
  intros i j [x Hi] [y Hj] _. rewrite Hm in Hi, Hj.
  apply lookup_singleton_Some in Hi as [<- _].
  apply lookup_singleton_Some in Hj as [<- _]. reflexivity.
Qed.

Lemma s2_events_sane : Forall Spec.sane_event Scenario.s2_events.
Proof. repeat constructor. Qed.

Lemma diff_patch_roundtrip_witness :
  apply_patch (Scenario.first_quote 1000)
    (compute_struct_diff (Scenario.first_quote 1000) (Scenario.second_quote 1001))
  = Scenario.second_quote 1001
  ∧ Spec.view_of Scenario.s2_final.1 "s1" !! Spec.key_of Scenario.s2_final.1 "rb2501"
    = Some (Scenario.second_quote 1001).
Proof.
  split.
  - apply (proj1 diff_patch_roundtrip).
    + vm_compute. reflexivity.
    + vm_compute. reflexivity.
    + vm_compute. reflexivity.
    + vm_compute. reflexivity.
    + reflexivity.
  - apply (proj2 diff_patch_roundtrip Scenario.accepts Scenario.parser 8%nat
             (Dispatch.initial_world 3 []) Scenario.s2_events
             Scenario.s2_final.1 Scenario.s2_final.2).
    + vm_compute. reflexivity.
    + exact s2_events_sane.
    + exact s2_final_keys.
    + vm_compute. reflexivity.
Defined.

(** Two records that differ in [average] alone: the patch is empty and
    the old [average] stays. *)
Lemma diff_roundtrip_loses_average :
  apply_patch zeroed (compute_struct_diff zeroed (Spec.with_average Spec.one zeroed))
  ≠ Spec.with_average Spec.one zeroed.
Proof.
  intros H. apply (f_equal average) in H. vm_compute in H. discriminate H.
Qed.

(** C4 (price filter), as the code has it.  Every upstream price field
    is cached as 0.0 when it is a NaN or negative, and otherwise as the
    rule of the specification says: 0.0 when its magnitude is at most
    1e-6 or at least 1e300, and else rounded to two decimals.  The
    rounding gives 0.0 as well: 0.004 passes the test of the code and is
    cached as 0.0, so 0.0 is cached for more values than those the test
    rejects. *)
Theorem price_filter :
  (∀ (f : Spec.PriceField) (d : CThostFtdcDepthMarketDataField) (disp : string) (t : Z),
     Spec.cached_price f (build_market_data_struct (Some d) disp t)
     = let v := Spec.upstream_price f d in
       if is_nan v || lt v zero then zero else Spec.price_rule v)
  ∧ valid_price Spec.price_0_004 = true
  ∧ stored_price Spec.price_0_004 = zero.
Proof.
  split; [intros f d disp t; rewrite cached_price_stored; apply stored_price_rule |].
  split; vm_compute; reflexivity.
Qed.

(** A last price of -5.0 is within the magnitudes the rule keeps, and
    is cached as 0.0. *)
Lemma price_filter_negative :
  Spec.upstream_price Spec.Last Scenario.negative_tick = Spec.minus_five
  ∧ Spec.price_rule Spec.minus_five = Spec.minus_five
  ∧ Spec.cached_price Spec.Last
      (build_market_data_struct (Some Scenario.negative_tick) "SHFE.rb2501" 1000)
    = zero
  ∧ Spec.minus_five ≠ zero.
Proof.
  split; [reflexivity |]. split; [vm_compute; reflexivity |].
  split; [vm_compute; reflexivity | discriminate].
Qed.

(** C10 (the unused [average]), as the code has it.  For a record with
    no NaN among its compared doubles, changing [average] alone makes
    [has_struct_changes] answer false and [compute_struct_diff] emit the
    empty object; the diff of any two records has no [average] member,
    and the full form of any record has it as null; in the frames of
    [send_diff_snapshot] the quote of an instrument names [average]
    exactly when the instrument had no previous quote (it is then sent
    in full), and in those of [send_full_snapshot] always. *)
Theorem average_never_inspected :
  (∀ q a, Spec.nan_free q = true →
          has_struct_changes q (Spec.with_average a q) = false
          ∧ compute_struct_diff q (Spec.with_average a q) = JObject [])
  ∧ (∀ old new,
       find_member "average" (members_of (compute_struct_diff old new)) = None)
  ∧ (∀ q, find_member "average" (members_of (struct_to_json q)) = Some JNull)
  ∧ (∀ last entry,
       find_member "average" (members_of (Gateway.diff_quote last entry).2)
       = match last !! entry.1 with Some _ => None | None => Some JNull end)
  ∧ (∀ entry,
       find_member "average" (members_of (Gateway.full_quote entry).2) = Some JNull).
Proof.
  split; [exact average_invisible |].
  split; [exact diff_never_names_average |].
  split; [exact full_form_average_null |].
  split; [exact diff_quote_average | exact full_quote_average].
Qed.

Lemma average_never_inspected_witness :
  Spec.nan_free (Scenario.first_quote 1000) = true
  ∧ has_struct_changes (Scenario.first_quote 1000)
      (Spec.with_average Spec.one (Scenario.first_quote 1000)) = false
  ∧ compute_struct_diff (Scenario.first_quote 1000)
      (Spec.with_average Spec.one (Scenario.first_quote 1000)) = JObject [].
Proof.
  assert (H : Spec.nan_free (Scenario.first_quote 1000) = true)
    by (vm_compute; reflexivity).
  split; [exact H |].
  exact (proj1 average_never_inspected (Scenario.first_quote 1000) Spec.one H).
Defined.

(** A NaN [amount] makes two records that differ in [average] alone
    look changed; and the frame that answers the second peek of a
    session whose second instrument has just ticked for the first time
    carries that instrument in full, [average] included. *)
Lemma average_seen_through_nan :
  has_struct_changes (Spec.with_amount S754_nan zeroed)
    (Spec.with_average Spec.one (Spec.with_amount S754_nan zeroed)) = true
  ∧ Gateway.session_last_sent_structs_ Scenario.before_new_instrument !! "s1" ≠ None
  ∧ match Scenario.last_quotes
            (Gateway.handle_peek_message Scenario.before_new_instrument "s1") with
    | Some (JObject [(key, quote)]) =>
        key = "SHFE.hc2501" ∧ find_member "average" (members_of quote) = Some JNull
    | _ => False
    end.
Proof.
  split; [vm_compute; reflexivity |].
  split; [vm_compute; discriminate |].
  vm_compute. split; reflexivity.
Qed.

End QuoteClaims.

Section PeekClaims.
Import Double Quote Gateway.

(** C2 (scenario S2), as the code has it.  A session holds exactly [i];
    it has been sent the quote built from a tick with last price 3850.0
    and volume 10000, received at [t1]; the cache holds, under a newer
    version, the quote built from the same tick with last price 3850.5
    and volume 10001, received at [t2].  Then the answer to the next
    peek is one frame whose quote for [i] has the members [last_price]
    and [volume], preceded by [timestamp] when [t1] and [t2] differ, and
    no other. *)
Theorem s2_next_peek (st : MarketDataServer) (s i : string) (idx ver t1 t2 : Z)
    (e : AtomicMarketDataEntry) (d : CThostFtdcDepthMarketDataField) (disp : string) :
  subscriptions_ <$> sessions_ st !! s = Some {[i]} →
  session_last_sent_structs_ st !! s ≫= lookup i
  = Some (build_market_data_struct
            (Some (Spec.with_last_and_volume Spec.price_3850 10000 d)) disp t1) →
  session_last_versions_ st !! s ≫= lookup i = Some ver →
  instrument_index_map_ st !! i = Some idx →
  0 ≤ idx →
  market_data_cache_ st !! Z.to_nat idx = Some e →
  has_data e = true →
  sequence e mod 2 = 0 →
  ver < version_of e →
  data e = build_market_data_struct
             (Some (Spec.with_last_and_volume Spec.price_3850_5 10001 d)) disp t2 →
  is_nan (Turnover d) = false →
  sent_frames (handle_peek_message st s)
  = sent_frames st
    ++ [(s, rtn_data
              [(frame_key i
                  {| Snapshot.data := data e;
                     Snapshot.display_instrument :=
                       display_instruments_cache_ st !! Z.to_nat idx;
                     Snapshot.version := version_of e;
                     Snapshot.has_data := true; Snapshot.index := -1 |},
                JObject (emit_if (negb (t1 =? t2)) "timestamp" (JInt t2)
                         ++ [("last_price", JDouble Spec.price_3850_5);
                             ("volume", JInt 10001)]))])].
Proof.
  intros Hs Hold Hver Hidx Hpos He Hd Hev Hlt Hnew Hnan.
  destruct (sessions_ st !! s) as [sess |] eqn:Es; [| discriminate].
  cbn in Hs. injection Hs as Hs.
  destruct (session_last_sent_structs_ st !! s) as [m |] eqn:Em; [| discriminate].
  cbn in Hold.
  destruct (session_last_versions_ st !! s) as [vm |] eqn:Ev; [| discriminate].
  cbn in Hver.
  rewrite <- (s2_diff d disp t1 t2 Hnan), <- Hnew.
  eapply peek_single; try eassumption.
  rewrite Hnew. apply has_struct_changes_last_price.
  rewrite !build_with_last_and_volume. cbn [last_price].
  rewrite stored_price_3850, stored_price_3850_5. vm_compute. reflexivity.
Qed.

Lemma s2_next_peek_witness :
  sent_frames (handle_peek_message (Scenario.before_second_peek 1000 1000) "s1")
  = sent_frames (Scenario.before_second_peek 1000 1000)
    ++ [("s1", rtn_data
                 [("SHFE.rb2501",
                   JObject [("last_price", JDouble Spec.price_3850_5);
                            ("volume", JInt 10001)])])].
Proof.
  exact (s2_next_peek (Scenario.before_second_peek 1000 1000) "s1" "rb2501" 0 1
           1000 1000 (Scenario.second_entry 1000) Scenario.rb2501_tick "SHFE.rb2501"
           ltac:(vm_compute; reflexivity) ltac:(vm_compute; reflexivity)
           ltac:(vm_compute; reflexivity) ltac:(vm_compute; reflexivity)
           ltac:(lia) ltac:(vm_compute; reflexivity)
           ltac:(reflexivity) ltac:(reflexivity) ltac:(vm_compute; reflexivity)
           ltac:(reflexivity) ltac:(reflexivity)).
Defined.

(** The second tick is received one millisecond after the first: the
    quote of the answer has three members. *)
Lemma s2_timestamp_member :
  Scenario.last_quotes
    (handle_peek_message (Scenario.before_second_peek 1000 1001) "s1")
  = Some (JObject
            [("SHFE.rb2501",
              JObject [("timestamp", JInt 1001);
                       ("last_price", JDouble Spec.price_3850_5);
                       ("volume", JInt 10001)])]).
Proof. vm_compute. reflexivity. Qed.

(** C3 (slot versions).  In a server whose indices designate slots of
    the cache and whose counters are even and away from the end of 64
    bits: a publish that obtains a slot stores [seq + 1] and then
    [seq + 2] there, which is even; the version a reader derives grows
    by one, and the reader's loop returns the counter twice with the
    published quote; and over any run of publishes the version of a
    slot never decreases. *)
Theorem slot_version_monotone (st : MarketDataServer) :
  indices_in_range st →
  (∀ id d disp,
     counters_stable 1 st →
     0 ≤ (get_or_create_index st id disp).1 →
     ∃ e,
       market_data_cache_ st !! Z.to_nat (get_or_create_index st id disp).1 = Some e
       ∧ sequence (entry_being_written d e) = sequence e + 1
       ∧ market_data_cache_ (cache_market_data st id d disp).1
           !! Z.to_nat (get_or_create_index st id disp).1
         = Some (publish_entry d e)
       ∧ sequence (publish_entry d e) = sequence e + 2
       ∧ sequence (publish_entry d e) mod 2 = 0
       ∧ version_of (publish_entry d e) = version_of e + 1
       ∧ seqlock_read_loop 102 (publish_entry d e) 0 0 zeroed
         = (sequence e + 2, sequence e + 2, d))
  ∧ (∀ ticks j e,
       counters_stable (Z.of_nat (length ticks)) st →
       market_data_cache_ st !! j = Some e →
       ∃ e', market_data_cache_ (publish_all st ticks) !! j = Some e'
             ∧ version_of e ≤ version_of e').
Proof.
  intros Hr. split.
  - intros id d disp Hs Hpos.
    destruct (cache_market_data_slot st id d disp Hr Hs Hpos) as (e & He & He' & _).
    exists e.
    unfold counters_stable in Hs. rewrite Forall_lookup in Hs.
    destruct (Hs _ _ He) as (H0 & Hev & Hb).
    destruct (publish_entry_counter d e H0 Hev ltac:(lia))
      as (H1 & H2 & H3 & H4 & H5 & _).
    repeat split; try assumption.
    rewrite seqlock_read_stable by exact H3. rewrite H2, H5. reflexivity.
  - intros ticks j e Hs He. apply publish_all_versions; assumption.
Qed.

Lemma new_server_range n : indices_in_range (new_server n).
Proof.
  intros id i H. cbn [new_server instrument_index_map_] in H.
  rewrite lookup_empty in H. discriminate H.
Qed.

Lemma new_server_stable n k : 0 ≤ k < 2 ^ 62 → counters_stable k (new_server n).
Proof.
  intros Hk. unfold counters_stable, new_server. cbn [market_data_cache_].
  apply Forall_replicate. cbn [empty_entry sequence].
  split; [lia |]. split; [reflexivity | lia].
Qed.

Lemma slot_version_monotone_witness :
  ∃ e', market_data_cache_
          (publish_all (new_server 8)
             [("rb2501", Scenario.first_quote 1000, "SHFE.rb2501");
              ("rb2501", Scenario.second_quote 1001, "SHFE.rb2501")]) !! 0%nat
        = Some e'
        ∧ version_of empty_entry ≤ version_of e'.
Proof.
  apply (proj2 (slot_version_monotone (new_server 8) (new_server_range 8))).
  - apply new_server_stable. cbn. lia.
  - reflexivity.
Defined.

End PeekClaims.

Section DispatchClaims.
Import Dispatch.







(** C6 (capacity bound), as the code has it.  [subscribe_instrument]
    checks, in this order: the status (not LOGGED_IN: false, no request),
    whether the instrument is already subscribed (true, no request), and
    whether the set is full (false, no request).  A connection within
    its capacity stays within it, and so does every connection of the
    dispatcher after every event, from an initial configuration whose
    bounds are non-negative [int]s. *)
Theorem capacity_bound (vendor_result : list UpstreamCall → UpstreamCall → Z) :
  (∀ c calls i, status_ c ≠ LOGGED_IN →
                subscribe_instrument vendor_result c calls i = (false, c, calls))
  ∧ (∀ c calls i, status_ c = LOGGED_IN → i ∈ subscribed_instruments_ c →
                  subscribe_instrument vendor_result c calls i = (true, c, calls))
  ∧ (∀ c calls i, status_ c = LOGGED_IN → i ∉ subscribed_instruments_ c →
                  to_size_t (max_subscriptions (config_ c))
                  ≤ Z.of_nat (size (subscribed_instruments_ c)) →
                  subscribe_instrument vendor_result c calls i = (false, c, calls))
  ∧ (∀ c calls i, within_capacity c →
                  within_capacity (subscribe_instrument vendor_result c calls i).1.2)
  ∧ (∀ now w e, all_within_capacity w →
                all_within_capacity (step vendor_result now w e))
  ∧ (∀ n configs events,
       Forall (fun c => 0 ≤ max_subscriptions c ∧ int_range (max_subscriptions c))
              configs →
       all_within_capacity (run vendor_result (initial_world n configs) events)).
Proof.
  split; [exact (subscribe_not_logged_in vendor_result) |].
  split; [exact (subscribe_again vendor_result) |].
  split; [exact (subscribe_full vendor_result) |].
  split; [exact (subscribe_capacity vendor_result) |].
  split; [exact (step_capacity vendor_result) |].
  intros n configs events Hc. apply run_capacity, initial_world_capacity, Hc.
Qed.

Lemma capacity_bound_witness :
  all_within_capacity
    (run Scenario.accepts (initial_world 3 [Scenario.front "c1" 500])
       (Scenario.bring_up ++ Scenario.exhausted_then_active)).
Proof.
  apply (proj2 (proj2 (proj2 (proj2 (proj2 (capacity_bound Scenario.accepts)))))).
  repeat constructor; cbn; unfold int_range; lia.
Defined.

(** A logged-in connection that is full answers true to a request for
    an instrument it holds; a disconnected one that still holds an
    instrument answers false to a request for it. *)
Lemma full_connection_accepts_repeat :
  Z.of_nat (size (subscribed_instruments_ (Scenario.logged_in "c1" 1 {["rb2501"]})))
  = max_subscriptions (config_ (Scenario.logged_in "c1" 1 {["rb2501"]}))
  ∧ subscribe_instrument Scenario.accepts (Scenario.logged_in "c1" 1 {["rb2501"]}) []
      "rb2501"
    = (true, Scenario.logged_in "c1" 1 {["rb2501"]}, [])
  ∧ subscribe_instrument Scenario.accepts
      (with_status DISCONNECTED (Scenario.logged_in "c1" 1 {["rb2501"]})) [] "rb2501"
    = (false, with_status DISCONNECTED (Scenario.logged_in "c1" 1 {["rb2501"]}), []).
Proof.
  split; [vm_compute; reflexivity |]. split; vm_compute; reflexivity.
Qed.

(** C7 (failover), as the code has it.  After
    [handle_connection_failure c] no ACTIVE record is assigned to [c],
    and every record that was ACTIVE on [c] is SUBSCRIBING on another
    connection, or FAILED; a FAILED one is in the retry set when its
    retry count is below the maximum.  The failover takes nothing out
    of the retry set, and what it puts in has a retry count below the
    maximum: a record whose retry count has reached the maximum is
    queued after the failover only if it was queued before. *)
Theorem failover_outcome (vendor_result : list UpstreamCall → UpstreamCall → Z)
    (w : World) (conn : string) :
  let w' := handle_connection_failure vendor_result w conn in
  (∀ i info, global_subscriptions_ w' !! i = Some info →
             status info = ACTIVE → assigned_connection_id info ≠ conn)
  ∧ (∀ i info, global_subscriptions_ w !! i = Some info →
               status info = ACTIVE → assigned_connection_id info = conn →
               resettled conn w' i)
  ∧ retry_set_ w ⊆ retry_set_ w'
  ∧ (∀ i, i ∈ retry_set_ w' →
          i ∈ retry_set_ w
          ∨ ∃ info, global_subscriptions_ w' !! i = Some info
                    ∧ retry_count info < max_retry_count_ w').
Proof.
  cbv zeta. destruct (failover_complete vendor_result w conn) as [H1 H2].
  destruct (failover_queue vendor_result w conn) as [H3 H4].
  split; [exact H1 |]. split; [exact H2 |]. split; [exact H3 |].
  intros i Hi. destruct (H4 i Hi) as [H | (_ & info & Hrec & Hlt)]; [left; exact H |].
  right. exists info. split; [exact Hrec | exact Hlt].
Qed.

Lemma failover_outcome_witness :
  resettled "c1"
    (handle_connection_failure Scenario.accepts (Scenario.c1_down Scenario.two_fronts) "c1")
    "rb2501".
Proof.
  destruct (global_subscriptions_ (Scenario.c1_down Scenario.two_fronts) !! "rb2501")
    as [info |] eqn:E; [| vm_compute in E; discriminate E].
  apply (proj1 (proj2 (failover_outcome Scenario.accepts
                         (Scenario.c1_down Scenario.two_fronts) "c1")) "rb2501" info E).
  - vm_compute in E. injection E as <-. reflexivity.
  - vm_compute in E. injection E as <-. reflexivity.
Defined.

(** A record that became ACTIVE with its retry count at the maximum:
    after the failover it is FAILED on the failed connection and the
    retry set is empty. *)
Lemma failover_drops_exhausted_record :
  record_summary (Scenario.c1_down Scenario.before_drop) "rb2501" = Some (ACTIVE, "c1", 3)
  ∧ record_summary Scenario.after_drop "rb2501" = Some (FAILED, "c1", 3)
  ∧ in_order (retry_set_ Scenario.after_drop) = []
  ∧ ¬ Spec.reassigned_or_queued "c1" Scenario.after_drop "rb2501".
Proof.
  split; [vm_compute; reflexivity |]. split; [vm_compute; reflexivity |].
  assert (Hr : in_order (retry_set_ Scenario.after_drop) = [])
    by (vm_compute; reflexivity).
  split; [exact Hr |].
  intros (info & Hi & [[Hs _] | Hq]).
  - vm_compute in Hi. injection Hi as <-. discriminate Hs.
  - apply elem_of_in_order in Hq. rewrite Hr in Hq. inversion Hq.
Qed.

(** C8 (retry bound): where the code departs from it.  A subscription
    that finds no connection available is FAILED and queued with retry
    count 0; every maintenance round within ten minutes of the request
    puts it back into the retry set, however many there are, and leaves
    its retry count at 0. *)
Theorem retry_never_exhausted (vendor_result : list UpstreamCall → UpstreamCall → Z)
    (now : Z) (w : World) (s i : string) (times : list Z) :
  get_available_connections w = [] →
  global_subscriptions_ w !! i = None →
  0 < max_retry_count_ w →
  Forall (fun t => t - now ≤ ten_minutes) times →
  let w1 := (add_subscription vendor_result now w s i).2 in
  let wn := maintenance_rounds vendor_result w1 times in
  requeue_count vendor_result i w1 times = length times
  ∧ i ∈ retry_set_ wn
  ∧ record_summary wn i = Some (FAILED, EmptyString, 0).
Proof.
  intros Hav Hi Hm Ht w1 wn.
  destruct (add_subscription_unplaced vendor_result now w s i Hav Hi Hm) as [_ Hw1].
  fold w1 in Hw1.
  destruct (waiting_rounds vendor_result now i times w1 Hw1 Ht) as [Hn Hwn].
  fold wn in Hwn. split; [exact Hn |].
  destruct Hwn as (_ & (info & Hinfo & Hs & Hr & Ha & _) & _ & Hin).
  split; [exact Hin |].
  unfold record_summary. rewrite Hinfo, Hs, Hr, Ha. reflexivity.
Qed.

Lemma retry_never_exhausted_witness :
  requeue_count Scenario.accepts "rb2501"
    (add_subscription Scenario.accepts 0 Scenario.no_front "s1" "rb2501").2
    Scenario.ten_rounds
  = 10%nat.
Proof.
  apply (retry_never_exhausted Scenario.accepts 0 Scenario.no_front "s1" "rb2501"
           Scenario.ten_rounds).
  - vm_compute. reflexivity.
  - vm_compute. reflexivity.
  - vm_compute. reflexivity.
  - unfold Scenario.ten_rounds, Scenario.minute, ten_minutes.
    repeat constructor; lia.
Defined.

End DispatchClaims.

Section FrameClaims.
Import Quote Gateway.

(** C9 (invalid frames): where the code departs from it.  A frame that
    does not parse is answered with the error frame "Invalid JSON
    format", and a subscribe_quote whose ins_list is absent or not a
    string with the error frame "Missing or invalid 'ins_list' field";
    but an object whose aid is absent, not a string, or neither request
    name is answered with nothing at all: no frame is sent and nothing
    changes.  In all three cases [handle_message] returns and [on_read]
    starts the next read. *)
Theorem invalid_frame_reply
    (vendor_result : list Dispatch.UpstreamCall → Dispatch.UpstreamCall → Z)
    (Parse : string → option json) (now now_ms : Z)
    (st : MarketDataServer) (w : Dispatch.World) (session message : string) :
  (Parse (c_str message) = None →
   on_read vendor_result Parse now now_ms st w session message
   = (Handled (send_message session (error_frame "Invalid JSON format" now_ms) st) w,
      true))
  ∧ (∀ doc, Parse (c_str message) = Some (JObject doc) →
            Spec.aid_of doc = Some "subscribe_quote" →
            Spec.ins_list_is_string doc = false →
            on_read vendor_result Parse now now_ms st w session message
            = (Handled (send_message session
                          (error_frame "Missing or invalid 'ins_list' field" now_ms) st) w,
               true))
  ∧ (∀ doc, Parse (c_str message) = Some (JObject doc) →
            Spec.aid_of doc ≠ Some "subscribe_quote" →
            Spec.aid_of doc ≠ Some "peek_message" →
            on_read vendor_result Parse now now_ms st w session message
            = (Handled st w, true)).
Proof.
  unfold on_read. split; [| split].
  - intros H. rewrite (handle_parse_error vendor_result Parse now now_ms st w session
                         message H). reflexivity.
  - intros doc H1 H2 H3.
    rewrite (handle_missing_ins_list vendor_result Parse now now_ms st w session message
               doc H1 H2 H3). reflexivity.
  - intros doc H1 H2 H3.
    rewrite (handle_other_aid vendor_result Parse now now_ms st w session message
               doc H1 H2 H3). reflexivity.
Qed.

(** The frame [{"aid":"hello"}] on a session that has just been
    accepted: no reply, nothing changed, the next read started. *)
Lemma invalid_frame_reply_witness :
  on_read Scenario.accepts (Spec.parse_table [(Spec.hello_frame, Spec.hello_doc)])
    0 1000 Scenario.idle_session Scenario.no_front "s1" Spec.hello_frame
  = (Handled Scenario.idle_session Scenario.no_front, true).
Proof.
  apply (proj2 (proj2 (invalid_frame_reply Scenario.accepts
                         (Spec.parse_table [(Spec.hello_frame, Spec.hello_doc)])
                         0 1000 Scenario.idle_session Scenario.no_front "s1"
                         Spec.hello_frame)) [("aid", JString "hello")]).
  - vm_compute. reflexivity.
  - vm_compute. discriminate.
  - vm_compute. discriminate.
Defined.

End FrameClaims.

(* ===================================================================== *)
(** * Further properties of the code                                      *)
(* ===================================================================== *)

(** ** Quotes *)

Section QuoteExtras.
Import Double Quote.

Lemma digit_char_not_nul d : 0 ≤ d ≤ 9 → Ascii.eqb (digit_char d) NUL = false.
Proof.
  intros Hd. replace d with (Z.of_nat (Z.to_nat d)) by lia.
  assert (Hn : (Z.to_nat d ≤ 9)%nat) by lia.
  generalize dependent (Z.to_nat d). intros n Hn.
  do 10 (destruct n as [| n]; [reflexivity |]). lia.
Qed.

Lemma eight_chars_cases l :
  Spec.eight_chars l = true →
  ∃ c0 c1 c2 c3 c4 c5 c6 c7 rest,
    l = c0 :: c1 :: c2 :: c3 :: c4 :: c5 :: c6 :: c7 :: rest
    ∧ Forall (fun c => Ascii.eqb c NUL = false) [c0; c1; c2; c3; c4; c5; c6; c7].
Proof.
  unfold Spec.eight_chars. intros H. apply andb_true_iff in H as [Hlen Hnul].
  apply Nat.leb_le in Hlen.
  do 8 (destruct l as [| ? l]; [simpl in Hlen; lia |]).
  do 9 eexists. split; [reflexivity |].
  cbn [take forallb] in Hnul.
  repeat (apply andb_true_iff in Hnul as [? Hnul]).
  repeat constructor; apply negb_true_iff; assumption.
Qed.

Lemma ms_digits ms :
  0 ≤ ms < 1000 →
  Z.rem (Z.quot ms 100) 10 = ms / 100
  ∧ Z.rem (Z.quot ms 10) 10 = ms / 10 mod 10
  ∧ Z.rem ms 10 = ms mod 10.
Proof.
  intros H.
  rewrite !Z.quot_div_nonneg by lia.
  rewrite !Z.rem_mod_nonneg by (try apply Z.div_pos; lia).
  split; [| split; reflexivity].
  apply Z.mod_small. split; [apply Z.div_pos; lia |].
  apply Z.div_lt_upper_bound; lia.
Qed.

(** X1 (the [datetime] of a quote).  For a tick whose milliseconds are
    within 0..999, [build_market_data_struct] writes the date as
    [YYYY-MM-DD ] from the trading day when that starts with a digit,
    followed by the time as [HH:MM:SS.mmm] from the update time when
    that is not empty; a half whose source is missing is left out (the
    date alone keeps its trailing blank, and with both missing the
    string is empty).  A trading day that starts with a digit, and an
    update time that is not empty, are taken to hold eight characters. *)
Theorem datetime_layout (d : CThostFtdcDepthMarketDataField) (disp : string) (t : Z) :
  0 ≤ UpdateMillisec d < 1000 →
  (is_digit (byte_at (TradingDay d) 0) = true → Spec.eight_chars (TradingDay d) = true) →
  (byte_at (UpdateTime d) 0 ≠ NUL → Spec.eight_chars (UpdateTime d) = true) →
  datetime (build_market_data_struct (Some d) disp t)
  = string_of_list_ascii
      ((if is_digit (byte_at (TradingDay d) 0) then Spec.date_text (TradingDay d) else [])
       ++ (if Ascii.eqb (byte_at (UpdateTime d) 0) NUL then []
           else Spec.time_text (UpdateTime d) (UpdateMillisec d))).
Proof.
  change (datetime (build_market_data_struct (Some d) disp t))
    with (build_datetime (TradingDay d) (UpdateTime d) (UpdateMillisec d)).
  generalize (TradingDay d) (UpdateTime d) (UpdateMillisec d). clear d disp t.
  intros td ut ms Hms Htd Hut.
  destruct (ms_digits ms Hms) as (E1 & E2 & E3).
  assert (D1 : Ascii.eqb (digit_char (ms / 100)) NUL = false).
  { apply digit_char_not_nul. split; [apply Z.div_pos; lia |].
    assert (ms / 100 < 10) by (apply Z.div_lt_upper_bound; lia). lia. }
  assert (D2 : Ascii.eqb (digit_char (ms / 10 mod 10)) NUL = false).
  { apply digit_char_not_nul. pose proof (Z.mod_pos_bound (ms / 10) 10). lia. }
  assert (D3 : Ascii.eqb (digit_char (ms mod 10)) NUL = false).
  { apply digit_char_not_nul. pose proof (Z.mod_pos_bound ms 10). lia. }
  unfold build_datetime. rewrite E1, E2, E3.
  destruct (is_digit (byte_at td 0)) eqn:Hd;
    destruct (Ascii.eqb (byte_at ut 0) NUL) eqn:Hu.
  - destruct (eight_chars_cases td (Htd eq_refl))
      as (c0 & c1 & c2 & c3 & c4 & c5 & c6 & c7 & rest & -> & Hc).
    repeat (apply Forall_cons in Hc as [? Hc]).
    cbn. repeat match goal with H : Ascii.eqb _ NUL = false |- _ => rewrite H; clear H end.
    reflexivity.
  - destruct (eight_chars_cases td (Htd eq_refl))
      as (c0 & c1 & c2 & c3 & c4 & c5 & c6 & c7 & rest & -> & Hc).
    assert (Hu' : byte_at ut 0 ≠ NUL) by (apply Ascii.eqb_neq; exact Hu).
    destruct (eight_chars_cases ut (Hut Hu'))
      as (u0 & u1 & u2 & u3 & u4 & u5 & u6 & u7 & urest & -> & Hv).
    repeat (apply Forall_cons in Hc as [? Hc]).
    repeat (apply Forall_cons in Hv as [? Hv]).
    cbn. repeat match goal with H : Ascii.eqb _ NUL = false |- _ => rewrite H; clear H end.
    reflexivity.
  - cbn. reflexivity.
  - assert (Hu' : byte_at ut 0 ≠ NUL) by (apply Ascii.eqb_neq; exact Hu).
    destruct (eight_chars_cases ut (Hut Hu'))
      as (u0 & u1 & u2 & u3 & u4 & u5 & u6 & u7 & urest & -> & Hv).
    repeat (apply Forall_cons in Hv as [? Hv]).
    cbn. repeat match goal with H : Ascii.eqb _ NUL = false |- _ => rewrite H; clear H end.
    reflexivity.
Qed.

Lemma datetime_layout_witness :
  datetime (build_market_data_struct (Some Scenario.first_tick) "SHFE.rb2501" 1000)
  = "2025-01-02 09:30:01.500".
Proof.
  rewrite (datetime_layout Scenario.first_tick "SHFE.rb2501" 1000).
  - reflexivity.
  - simpl. lia.
  - intros _. reflexivity.
  - intros _. reflexivity.
Defined.

(** X2 (depth volumes follow their prices).  In the quote built from a
    tick, the volume of each of the five ask and bid levels is the
    upstream volume when the price of the level passes the validity
    test, and 0 when it does not, whatever volume the tick carries;
    levels 6 to 10 are always 0. *)
Theorem depth_volume_follows_price (d : CThostFtdcDepthMarketDataField)
    (disp : string) (t : Z) :
  ask_volume (build_market_data_struct (Some d) disp t)
  = [if valid_price (AskPrice1 d) then AskVolume1 d else 0;
     if valid_price (AskPrice2 d) then AskVolume2 d else 0;
     if valid_price (AskPrice3 d) then AskVolume3 d else 0;
     if valid_price (AskPrice4 d) then AskVolume4 d else 0;
     if valid_price (AskPrice5 d) then AskVolume5 d else 0; 0; 0; 0; 0; 0]
  ∧ bid_volume (build_market_data_struct (Some d) disp t)
    = [if valid_price (BidPrice1 d) then BidVolume1 d else 0;
       if valid_price (BidPrice2 d) then BidVolume2 d else 0;
       if valid_price (BidPrice3 d) then BidVolume3 d else 0;
       if valid_price (BidPrice4 d) then BidVolume4 d else 0;
       if valid_price (BidPrice5 d) then BidVolume5 d else 0; 0; 0; 0; 0; 0].
Proof. split; [apply build_ask_volume | apply build_bid_volume]. Qed.

Lemma stored_price_clean p :
  negb (is_nan (stored_price p)) && negb (Spec.is_neg_zero (stored_price p)) = true.
Proof.
  rewrite stored_price_not_nan, stored_price_not_neg_zero. reflexivity.
Qed.

Lemma build_clean_depth d disp t :
  Spec.clean_depth (build_market_data_struct (Some d) disp t) = true.
Proof.
  unfold Spec.clean_depth. rewrite build_ask_price, build_bid_price.
  cbn [seq map price_at nth app forallb].
  rewrite !stored_price_clean. reflexivity.
Qed.

(** X3 (what a cached quote can hold).  Whatever the tick carries, in
    the quote [build_market_data_struct] makes of it every price field
    has a clear sign bit and is not a NaN, no depth price is a negative
    zero, the unused [average] is 0, and all four depth arrays have ten
    entries. *)
Theorem built_quote_is_clean (d : CThostFtdcDepthMarketDataField)
    (disp : string) (t : Z) :
  (∀ f, sign_is false (Spec.cached_price f (build_market_data_struct (Some d) disp t)))
  ∧ Spec.clean_depth (build_market_data_struct (Some d) disp t) = true
  ∧ average (build_market_data_struct (Some d) disp t) = zero
  ∧ length (ask_price (build_market_data_struct (Some d) disp t)) = 10%nat
  ∧ length (ask_volume (build_market_data_struct (Some d) disp t)) = 10%nat
  ∧ length (bid_price (build_market_data_struct (Some d) disp t)) = 10%nat
  ∧ length (bid_volume (build_market_data_struct (Some d) disp t)) = 10%nat.
Proof.
  split; [intros f; rewrite cached_price_stored; apply stored_price_sign |].
  split; [apply build_clean_depth |].
  split; [reflexivity |].
  rewrite build_ask_price, build_bid_price, build_ask_volume, build_bid_volume.
  repeat split; reflexivity.
Qed.

(** *** The instrument name of a quote *)

Lemma strncpy_prefix s : ∀ n, String.prefix (strncpy_c_str s n) s = true.
Proof.
  unfold strncpy_c_str, c_str.
  induction s as [| c s IH]; intros n.
  - destruct n; reflexivity.
  - destruct n as [| n]; [reflexivity |].
    cbn [substring list_ascii_of_string cstring].
    destruct (Ascii.eqb c NUL); [reflexivity |].
    cbn [String.prefix]. destruct (ascii_dec c c) as [_ | Hne]; [apply IH | congruence].
Qed.

Lemma strncpy_length s : ∀ n, (String.length (strncpy_c_str s n) ≤ n)%nat.
Proof.
  unfold strncpy_c_str, c_str.
  induction s as [| c s IH]; intros n.
  - destruct n; simpl; lia.
  - destruct n as [| n]; [simpl; lia |].
    cbn [substring list_ascii_of_string cstring].
    destruct (Ascii.eqb c NUL); [simpl; lia |].
    cbn [String.length]. specialize (IH n). lia.
Qed.

Lemma strncpy_whole s : ∀ n,
  (String.length s ≤ n)%nat → Spec.has_char NUL s = false → strncpy_c_str s n = s.
Proof.
  unfold strncpy_c_str, c_str.
  induction s as [| c s IH]; intros n Hlen Hnul.
  - destruct n; reflexivity.
  - destruct n as [| n]; [simpl in Hlen; lia |].
    cbn [Spec.has_char] in Hnul. apply orb_false_iff in Hnul as [Hc Hnul].
    cbn [substring list_ascii_of_string cstring]. rewrite Hc.
    f_equal. apply IH; [simpl in Hlen; lia | exact Hnul].
Qed.

(** X4 (the instrument name of a quote).  The [instrument_id] of a
    built quote is the display name cut at the buffer: a prefix of the
    display name of at most 31 characters, and the display name itself
    when that has at most 31 characters and no NUL among them. *)
Theorem instrument_id_cut (d : CThostFtdcDepthMarketDataField) (disp : string) (t : Z) :
  String.prefix (instrument_id (build_market_data_struct (Some d) disp t)) disp = true
  ∧ (String.length (instrument_id (build_market_data_struct (Some d) disp t)) ≤ 31)%nat
  ∧ ((String.length disp ≤ 31)%nat → Spec.has_char NUL disp = false →
     instrument_id (build_market_data_struct (Some d) disp t) = disp).
Proof.
  change (instrument_id (build_market_data_struct (Some d) disp t))
    with (strncpy_c_str disp 31).
  split; [apply strncpy_prefix |]. split; [apply strncpy_length |].
  apply strncpy_whole.
Qed.

Lemma instrument_id_cut_witness :
  instrument_id (build_market_data_struct (Some Scenario.first_tick) "SHFE.rb2501" 1000)
  = "SHFE.rb2501".
Proof.
  apply (proj2 (proj2 (instrument_id_cut Scenario.first_tick "SHFE.rb2501" 1000))).
  - simpl. lia.
  - reflexivity.
Defined.

(** *** The change test and the diff *)

Lemma clean_ne_bits x y :
  negb (is_nan x) && negb (Spec.is_neg_zero x) = true →
  negb (is_nan y) && negb (Spec.is_neg_zero y) = true →
  ne x y = negb (bits_eqb x y).
Proof.
  intros Hx Hy.
  apply andb_true_iff in Hx as [Hxn Hxz]. apply andb_true_iff in Hy as [Hyn Hyz].
  apply negb_true_iff in Hxn, Hxz, Hyn, Hyz.
  destruct (bits_eqb x y) eqn:Hb.
  - apply bits_eqb_eq in Hb. subst y. apply eq_refl_not_nan. exact Hxn.
  - unfold ne. destruct (eq x y) eqn:He; [| reflexivity].
    apply eq_true_same in He; [| assumption ..]. subst y.
    rewrite bits_eqb_refl in Hb. discriminate Hb.
Qed.

Lemma write_guarded_nil gs :
  write_guarded gs = [] ↔ Forall (fun g : guarded => g.1.1 = false) gs.
Proof.
  split; [| apply write_guarded_quiet].
  induction gs as [| [[b k] v] gs IH]; intros H; [constructor |].
  unfold write_guarded in H. cbn [flat_map] in H.
  apply app_eq_nil in H as [H1 H2].
  constructor; [| apply IH; exact H2].
  cbn. destruct b; [discriminate H1 | reflexivity].
Qed.

Lemma clean_depth_at q i :
  Spec.clean_depth q = true → (i < 10)%nat →
  (negb (is_nan (price_at (ask_price q) i))
   && negb (Spec.is_neg_zero (price_at (ask_price q) i)) = true)
  ∧ (negb (is_nan (price_at (bid_price q) i))
     && negb (Spec.is_neg_zero (price_at (bid_price q) i)) = true).
Proof.
  unfold Spec.clean_depth. intros H Hi.
  rewrite forallb_app in H. apply andb_true_iff in H as [Ha Hb].
  rewrite forallb_forall in Ha, Hb.
  split; [apply Ha | apply Hb]; apply in_map; apply in_seq; lia.
Qed.

Lemma prices_differ_guards op np :
  (∀ i, (i < 10)%nat → ne (price_at op i) (price_at np i)
                       = negb (bits_eqb (price_at op i) (price_at np i))) →
  prices_differ op np = false
  ↔ ∀ i, (i < 10)%nat → ne (price_at op i) (price_at np i) = false.
Proof.
  intros Hc. unfold prices_differ. rewrite negb_false_iff, forallb_forall.
  split.
  - intros H i Hi. rewrite Hc by exact Hi. rewrite H; [reflexivity |].
    apply in_seq. lia.
  - intros H i Hi. apply in_seq in Hi.
    specialize (H i ltac:(lia)). rewrite Hc in H by lia.
    apply negb_false_iff in H. exact H.
Qed.

Lemma volumes_differ_guards ov nv :
  volumes_differ ov nv = false
  ↔ ∀ i, (i < 10)%nat → negb (volume_at ov i =? volume_at nv i) = false.
Proof.
  unfold volumes_differ. rewrite negb_false_iff, forallb_forall.
  split.
  - intros H i Hi. rewrite H; [reflexivity |]. apply in_seq. lia.
  - intros H i Hi. apply in_seq in Hi.
    specialize (H i ltac:(lia)). apply negb_false_iff in H. exact H.
Qed.

Lemma level_guards pk vk op np ov nv :
  Forall (fun g : guarded => g.1.1 = false)
         (flat_map (level_diff pk vk op np ov nv) (seq 0 10))
  ↔ (∀ i, (i < 10)%nat → ne (price_at op i) (price_at np i) = false)
    ∧ (∀ i, (i < 10)%nat → negb (volume_at ov i =? volume_at nv i) = false).
Proof.
  rewrite Forall_flat_map, Forall_forall.
  split.
  - intros H. split; intros i Hi.
    + assert (Hs : i ∈ seq 0 10) by (apply list_elem_of_In, in_seq; lia).
      specialize (H i Hs). unfold level_diff in H.
      apply Forall_cons in H as [H _]. exact H.
    + assert (Hs : i ∈ seq 0 10) by (apply list_elem_of_In, in_seq; lia).
      specialize (H i Hs). unfold level_diff in H.
      apply Forall_cons in H as [_ H]. apply Forall_cons in H as [H _]. exact H.
  - intros [Hp Hv] i Hi. apply list_elem_of_In, in_seq in Hi.
    unfold level_diff. repeat constructor; cbn; [apply Hp | apply Hv]; lia.
Qed.

Lemma four_tests (a b c d : bool) :
  (if a then true else if b then true else if c then true else if d then true else false)
  = false
  ↔ a = false ∧ b = false ∧ c = false ∧ d = false.
Proof. destruct a, b, c, d; intuition congruence. Qed.

(** X5 (the change test agrees with the diff).  For two quote records
    whose depth prices hold no NaN and no negative zero (as those of
    every quote built from a tick do), [has_struct_changes] answers
    false exactly when [compute_struct_diff] writes the empty object:
    the test that decides whether an instrument goes into a DIFF frame
    never lets through a quote whose diff is empty, and never holds back
    one whose diff is not. *)
Theorem change_test_matches_diff (old new : MarketDataStruct) :
  Spec.clean_depth old = true → Spec.clean_depth new = true →
  has_struct_changes old new = false ↔ compute_struct_diff old new = JObject [].
Proof.
  intros Hco Hcn.
  assert (Hask : ∀ i, (i < 10)%nat →
            ne (price_at (ask_price old) i) (price_at (ask_price new) i)
            = negb (bits_eqb (price_at (ask_price old) i) (price_at (ask_price new) i))).
  { intros i Hi. apply clean_ne_bits.
    - apply (clean_depth_at old i Hco Hi).
    - apply (clean_depth_at new i Hcn Hi). }
  assert (Hbid : ∀ i, (i < 10)%nat →
            ne (price_at (bid_price old) i) (price_at (bid_price new) i)
            = negb (bits_eqb (price_at (bid_price old) i) (price_at (bid_price new) i))).
  { intros i Hi. apply clean_ne_bits.
    - apply (clean_depth_at old i Hco Hi).
    - apply (clean_depth_at new i Hcn Hi). }
  pose proof (prices_differ_guards _ _ Hask) as Pa.
  pose proof (prices_differ_guards _ _ Hbid) as Pb.
  pose proof (volumes_differ_guards (ask_volume old) (ask_volume new)) as Va.
  pose proof (volumes_differ_guards (bid_volume old) (bid_volume new)) as Vb.
  unfold compute_struct_diff.
  assert (Hobj : ∀ ms, JObject ms = JObject [] ↔ ms = [])
    by (intros ms; split; [intros [= ->]; reflexivity | intros ->; reflexivity]).
  rewrite Hobj, write_guarded_nil. unfold diff_fields.
  rewrite !Forall_app, !level_guards, <- Pa, <- Pb, <- Va, <- Vb.
  unfold has_struct_changes, add_price_diff.
  rewrite !Forall_cons, Forall_nil. cbn [fst snd].
  rewrite four_tests, !orb_false_iff. tauto.
Qed.

Lemma change_test_matches_diff_witness :
  has_struct_changes (Scenario.first_quote 1000) (Scenario.first_quote 1000) = false
  ↔ compute_struct_diff (Scenario.first_quote 1000) (Scenario.first_quote 1000)
    = JObject [].
Proof.
  apply (change_test_matches_diff (Scenario.first_quote 1000) (Scenario.first_quote 1000)).
  - vm_compute. reflexivity.
  - vm_compute. reflexivity.
Defined.

End QuoteExtras.

(** ** The quote cache and what a peek reads from it *)

Section CollectExtras.
Import Quote Gateway.

Lemma seqlock_read_start fuel e : ∀ retries seq_end snapshot,
  (seqlock_read_loop fuel e retries seq_end snapshot).1.1 = sequence e.
Proof.
  induction fuel as [| fuel IH]; intros retries seq_end snapshot; [reflexivity |].
  cbn [seqlock_read_loop].
  destruct (negb (sequence e mod 2 =? 0)).
  - destruct (100 <? retries + 1); [reflexivity |].
    destruct (negb (sequence e =? seq_end)); [apply IH | reflexivity].
  - destruct (100 <? retries + 1); [reflexivity |].
    destruct (negb (sequence e =? sequence e)); [apply IH | reflexivity].
Qed.

(** What [collect_one] answers, case by case. *)
Lemma collect_one_cases st lv i :
  collect_one st lv i = []
  ∨ ∃ idx e,
      instrument_index_map_ st !! i = Some idx
      ∧ idx ≠ -1
      ∧ market_data_cache_ st !! Z.to_nat idx = Some e
      ∧ has_data e = true
      ∧ sequence e mod 2 = 0
      ∧ (∀ v, lv !! i = Some v → v < sequence e / 2)
      ∧ collect_one st lv i
        = [(i, {| Snapshot.data := data e;
                  Snapshot.display_instrument :=
                    display_instruments_cache_ st !! Z.to_nat idx;
                  Snapshot.version := sequence e / 2;
                  Snapshot.has_data := true; Snapshot.index := -1 |})].
Proof.
  unfold collect_one, get_index.
  destruct (instrument_index_map_ st !! i) as [idx |] eqn:Hi; cbn [default from_option id];
    [| left; reflexivity].
  destruct (idx =? -1) eqn:Hm; [left; reflexivity |].
  destruct (market_data_cache_ st !! Z.to_nat idx) as [e |] eqn:He; [| left; reflexivity].
  destruct (has_data e) eqn:Hd; cbn [negb]; [| left; reflexivity].
  destruct (sequence e mod 2 =? 0) eqn:Hev.
  - apply Z.eqb_eq in Hev. rewrite (seqlock_read_stable e Hev).
    rewrite Z.eqb_refl, Hev. cbn [negb orb Z.eqb].
    destruct (lv !! i) as [v |] eqn:Hv.
    + destruct (v <? sequence e / 2) eqn:Hlt; [| left; reflexivity].
      right. exists idx, e. apply Z.ltb_lt in Hlt. apply Z.eqb_neq in Hm.
      repeat split; try assumption; try reflexivity.
      intros v' [= <-]. exact Hlt.
    + right. exists idx, e. apply Z.eqb_neq in Hm.
      repeat split; try assumption; try reflexivity. intros v' [=].
  - left.
    pose proof (seqlock_read_start 102 e 0 0 zeroed) as Hs.
    destruct (seqlock_read_loop 102 e 0 0 zeroed) as [[seq_start seq_end] snapshot].
    cbn [fst] in Hs. subst seq_start. rewrite Hev.
    rewrite orb_true_r. reflexivity.
Qed.

Lemma collect_one_keys st lv i :
  map fst (collect_one st lv i) = [] ∨ map fst (collect_one st lv i) = [i].
Proof.
  destruct (collect_one_cases st lv i) as [-> | (idx & e & _ & _ & _ & _ & _ & _ & ->)];
    [left | right]; reflexivity.
Qed.

Lemma collect_keys_sublist st lv l :
  sublist (map fst (flat_map (collect_one st lv) l)) l.
Proof.
  induction l as [| i l IH]; [constructor |].
  cbn [flat_map]. rewrite map_app.
  destruct (collect_one_keys st lv i) as [-> | ->]; cbn [app].
  - apply sublist_cons. exact IH.
  - apply sublist_skip. exact IH.
Qed.

Lemma NoDup_in_order (s : gset string) : NoDup (in_order s).
Proof.
  unfold in_order. rewrite merge_sort_Permutation. apply NoDup_elements.
Qed.

(** X6 (what a peek collects).  [collect_market_data_updates] answers
    with the subscribed instruments in increasing order, each at most
    once; every entry is the quote of a slot that holds data and whose
    counter is even, under the version that is half the counter, and
    that version is newer than the one the session was last sent; a
    slot whose counter is odd (a write is under way) contributes
    nothing. *)
Theorem peek_collects_stable_new_quotes (st : MarketDataServer)
    (subscriptions : gset string) (last_versions : gmap string Z) :
  sublist (map fst (collect_market_data_updates st subscriptions last_versions))
          (in_order subscriptions)
  ∧ NoDup (map fst (collect_market_data_updates st subscriptions last_versions))
  ∧ (∀ i snap,
       (i, snap) ∈ collect_market_data_updates st subscriptions last_versions →
       i ∈ subscriptions
       ∧ ∃ idx e,
           instrument_index_map_ st !! i = Some idx
           ∧ market_data_cache_ st !! Z.to_nat idx = Some e
           ∧ has_data e = true
           ∧ sequence e mod 2 = 0
           ∧ Snapshot.data snap = data e
           ∧ Snapshot.version snap = sequence e / 2
           ∧ ∀ v, last_versions !! i = Some v → v < Snapshot.version snap)
  ∧ (∀ i idx e,
       instrument_index_map_ st !! i = Some idx →
       market_data_cache_ st !! Z.to_nat idx = Some e →
       sequence e mod 2 ≠ 0 →
       i ∉ map fst (collect_market_data_updates st subscriptions last_versions)).
Proof.
  unfold collect_market_data_updates.
  pose proof (collect_keys_sublist st last_versions (in_order subscriptions)) as Hsub.
  split; [exact Hsub |].
  split; [eapply sublist_NoDup; [apply NoDup_in_order | exact Hsub] |].
  split.
  - intros i snap Hin.
    apply list_elem_of_In, in_flat_map in Hin as (j & Hj & Hin).
    apply list_elem_of_In, elem_of_in_order in Hj.
    destruct (collect_one_cases st last_versions j)
      as [E | (idx & e & Hi & _ & He & Hd & Hev & Hv & E)];
      rewrite E in Hin; [destruct Hin |].
    destruct Hin as [[= <- <-] | []].
    split; [exact Hj |]. exists idx, e. cbn.
    repeat split; assumption.
  - intros i idx e Hi He Hodd Hin.
    apply list_elem_of_fmap in Hin as ([j snap] & Hk & Hin). cbn [fst] in Hk. subst j.
    apply list_elem_of_In, in_flat_map in Hin as (j & _ & Hin).
    destruct (collect_one_cases st last_versions j)
      as [E | (idx' & e' & Hi' & _ & He' & _ & Hev & _ & E)];
      rewrite E in Hin; [destruct Hin |].
    destruct Hin as [[= <- <-] | []].
    rewrite Hi in Hi'. injection Hi' as <-. rewrite He in He'. injection He' as <-.
    contradiction.
Qed.

Lemma peek_collects_stable_new_quotes_witness :
  "rb2501" ∈ ({["rb2501"]} : gset string)
  ∧ ∃ idx e,
      instrument_index_map_ (Scenario.before_second_peek 1000 1001) !! "rb2501" = Some idx
      ∧ market_data_cache_ (Scenario.before_second_peek 1000 1001) !! Z.to_nat idx = Some e
      ∧ has_data e = true
      ∧ sequence e mod 2 = 0
      ∧ Snapshot.data
          {| Snapshot.data := Scenario.second_quote 1001;
             Snapshot.display_instrument := Some "SHFE.rb2501";
             Snapshot.version := 2; Snapshot.has_data := true;
             Snapshot.index := -1 |} = data e
      ∧ Snapshot.version
          {| Snapshot.data := Scenario.second_quote 1001;
             Snapshot.display_instrument := Some "SHFE.rb2501";
             Snapshot.version := 2; Snapshot.has_data := true;
             Snapshot.index := -1 |} = sequence e / 2
      ∧ ∀ v, ({["rb2501" := 1]} : gmap string Z) !! "rb2501" = Some v →
             v < Snapshot.version
                   {| Snapshot.data := Scenario.second_quote 1001;
                      Snapshot.display_instrument := Some "SHFE.rb2501";
                      Snapshot.version := 2; Snapshot.has_data := true;
                      Snapshot.index := -1 |}.
Proof.
  apply (proj1 (proj2 (proj2 (peek_collects_stable_new_quotes
                  (Scenario.before_second_peek 1000 1001)
                  {["rb2501"]} {["rb2501" := 1]})))).
  vm_compute. left.
Defined.

End CollectExtras.

(** ** Sessions, frames and the long poll *)

Section SessionExtras.
Import Quote Gateway Client.
Variable vendor_result : list Dispatch.UpstreamCall → Dispatch.UpstreamCall → Z.
Variable Parse : string → option json.

Lemma serves_refl to st : Spec.serves to st st.
Proof.
  repeat split; try reflexivity.
  - exists []. rewrite app_nil_r. split; [reflexivity | constructor].
  - intros s Hs. left. exact Hs.
Qed.

Lemma serves_trans to st1 st2 st3 :
  Spec.serves to st1 st2 → Spec.serves to st2 st3 → Spec.serves to st1 st3.
Proof.
  intros (A1 & A2 & A3 & A4 & A5 & A6 & (l1 & E1 & F1) & P1)
         (B1 & B2 & B3 & B4 & B5 & B6 & (l2 & E2 & F2) & P2).
  repeat split; try congruence.
  - exists (l1 ++ l2). split; [rewrite E2, E1, app_assoc; reflexivity |].
    apply Forall_app. split; [exact F1 |].
    eapply Forall_impl; [exact F2 |]. intros sf [H1 H2]. rewrite A1 in H2. tauto.
  - intros s Hs. destruct (P2 s Hs) as [H | H]; [apply P1; exact H | right; exact H].
Qed.

Lemma serves_mono to to' st st' :
  (∀ s, s ∈ to → s ∈ to') → Spec.serves to st st' → Spec.serves to' st st'.
Proof.
  intros Hsub (A1 & A2 & A3 & A4 & A5 & A6 & (l & E & F) & P).
  repeat split; try assumption.
  - exists l. split; [exact E |].
    eapply Forall_impl; [exact F |]. intros sf [H1 H2]. split; [apply Hsub; exact H1 | exact H2].
  - intros s Hs. destruct (P s Hs) as [H | H]; [left; exact H | right; apply Hsub; exact H].
Qed.

Lemma send_message_serves s frame st :
  is_Some (sessions_ st !! s) → Spec.serves [s] st (send_message s frame st).
Proof.
  intros Hs. repeat split; try reflexivity.
  - exists [(s, frame)]. split; [reflexivity |].
    constructor; [| constructor]. split; [apply list_elem_of_here | exact Hs].
  - intros s' Hs'. left. exact Hs'.
Qed.

Lemma send_diff_serves st s updates last :
  is_Some (sessions_ st !! s) →
  Spec.serves [s] st (send_diff_snapshot st s updates last).2.
Proof.
  intros Hs. unfold send_diff_snapshot.
  destruct (List.filter (needs_sending last) updates); cbn [snd];
    [apply serves_refl | apply send_message_serves; exact Hs].
Qed.

Lemma update_session_state_serves to st s updates :
  Spec.serves to st (update_session_state st s updates).
Proof.
  repeat split; try reflexivity.
  - exists []. rewrite app_nil_r. split; [reflexivity | constructor].
  - intros s' Hs'. left. exact Hs'.
Qed.

Lemma with_pending_serves st s :
  Spec.serves [s] st (with_pending ({[s]} ∪ pending_peek_sessions_ st) st).
Proof.
  repeat split; try reflexivity.
  - exists []. rewrite app_nil_r. split; [reflexivity | constructor].
  - intros s' Hs'. cbn in Hs'. apply elem_of_union in Hs' as [Hs' | Hs'].
    + right. apply elem_of_singleton in Hs'. subst s'. apply list_elem_of_here.
    + left. exact Hs'.
Qed.

Lemma peek_serves st s : Spec.serves [s] st (handle_peek_message st s).
Proof.
  unfold handle_peek_message.
  destruct (sessions_ st !! s) as [sess |] eqn:Hs; [| apply serves_refl].
  assert (Hsome : is_Some (sessions_ st !! s)) by (rewrite Hs; eexists; reflexivity).
  destruct (decide (subscriptions_ sess = ∅)); [apply serves_refl |].
  destruct (collect_market_data_updates st (subscriptions_ sess)
              (default ∅ (session_last_versions_ st !! s))) as [| u us] eqn:Hc.
  - destruct (negb (bool_decide (default ∅ (session_last_sent_structs_ st !! s) = ∅)));
      [apply with_pending_serves | apply serves_refl].
  - eapply serves_trans; [| apply update_session_state_serves].
    destruct (negb (negb (bool_decide (default ∅ (session_last_sent_structs_ st !! s) = ∅)))).
    + apply send_message_serves. exact Hsome.
    + apply send_diff_serves. exact Hsome.
Qed.

Lemma peeks_serves l : ∀ st, Spec.serves l st (fold_left handle_peek_message l st).
Proof.
  induction l as [| s l IH]; intros st; [apply serves_refl |].
  cbn [fold_left]. eapply serves_trans.
  - eapply serves_mono; [| apply peek_serves].
    intros s' Hs'. apply list_elem_of_singleton in Hs'. subst s'. apply list_elem_of_here.
  - eapply serves_mono; [| apply IH].
    intros s' Hs'. apply list_elem_of_further. exact Hs'.
Qed.

Lemma notify_serves st i :
  Spec.serves
    (in_order (Spec.subscribers_of st i ∩ pending_peek_sessions_ st))
    st (notify_pending_sessions st i).
Proof.
  unfold notify_pending_sessions, Spec.subscribers_of.
  destruct (instrument_subscribers_ st !! i) as [subscribers |]; cbn [default from_option id];
    [| apply serves_refl].
  eapply serves_trans; [| apply peeks_serves].
  repeat split; try reflexivity.
  - exists []. rewrite app_nil_r. split; [reflexivity | constructor].
  - intros s Hs. cbn in Hs. left. apply elem_of_difference in Hs as [Hs _]. exact Hs.
Qed.

(** *** The tick path leaves sessions and frames alone *)

Lemma get_or_create_index_rest st id disp :
  let st' := (get_or_create_index st id disp).2 in
  sessions_ st' = sessions_ st
  ∧ instrument_subscribers_ st' = instrument_subscribers_ st
  ∧ pending_peek_sessions_ st' = pending_peek_sessions_ st
  ∧ sent_frames st' = sent_frames st
  ∧ noheadtohead_instruments_map_ st' = noheadtohead_instruments_map_ st
  ∧ session_last_sent_structs_ st' = session_last_sent_structs_ st
  ∧ session_last_versions_ st' = session_last_versions_ st.
Proof.
  unfold get_or_create_index.
  destruct (instrument_index_map_ st !! id); [repeat split |].
  destruct (_ >=? _); repeat split.
Qed.

Lemma cache_market_data_rest st id d disp :
  let st' := (cache_market_data st id d disp).1 in
  sessions_ st' = sessions_ st
  ∧ instrument_subscribers_ st' = instrument_subscribers_ st
  ∧ pending_peek_sessions_ st' = pending_peek_sessions_ st
  ∧ sent_frames st' = sent_frames st
  ∧ noheadtohead_instruments_map_ st' = noheadtohead_instruments_map_ st
  ∧ session_last_sent_structs_ st' = session_last_sent_structs_ st
  ∧ session_last_versions_ st' = session_last_versions_ st.
Proof.
  pose proof (get_or_create_index_rest st id disp) as H.
  unfold cache_market_data.
  destruct (get_or_create_index st id disp) as [index st1]. cbn [snd] in H.
  destruct (index <? 0); cbn [fst]; exact H.
Qed.

Lemma tick_rest st d t :
  let st' := (OnRtnDepthMarketData st d t).1 in
  sessions_ st' = sessions_ st
  ∧ instrument_subscribers_ st' = instrument_subscribers_ st
  ∧ pending_peek_sessions_ st' = pending_peek_sessions_ st
  ∧ sent_frames st' = sent_frames st
  ∧ noheadtohead_instruments_map_ st' = noheadtohead_instruments_map_ st
  ∧ session_last_sent_structs_ st' = session_last_sent_structs_ st
  ∧ session_last_versions_ st' = session_last_versions_ st.
Proof.
  unfold OnRtnDepthMarketData. destruct d as [d |]; [| repeat split].
  apply cache_market_data_rest.
Qed.

(** *** Subscribing *)

Lemma insert_into_lookup k x (m : gmap string (gset string)) k' :
  default ∅ (insert_into k x m !! k')
  = if decide (k = k') then {[x]} ∪ default ∅ (m !! k) else default ∅ (m !! k').
Proof.
  unfold insert_into. destruct (decide (k = k')) as [<- | Hne].
  - rewrite lookup_insert_eq. reflexivity.
  - rewrite lookup_insert_ne by exact Hne. reflexivity.
Qed.

Lemma subscribe_one_facts now session st w token :
  let acc' := subscribe_one vendor_result now session (st, w) token in
  (∀ s, s ≠ session → sessions_ acc'.1 !! s = sessions_ st !! s)
  ∧ (∀ i, Spec.subscribers_of st i ⊆ Spec.subscribers_of acc'.1 i)
  ∧ (∀ i, is_Some (noheadtohead_instruments_map_ st !! i) →
          is_Some (noheadtohead_instruments_map_ acc'.1 !! i))
  ∧ (∀ sess i, sessions_ st !! session = Some sess → i ∈ subscriptions_ sess →
               ∃ sess', sessions_ acc'.1 !! session = Some sess' ∧ i ∈ subscriptions_ sess')
  ∧ pending_peek_sessions_ acc'.1 = pending_peek_sessions_ st
  ∧ (token ≠ EmptyString →
     session ∈ Spec.subscribers_of acc'.1 (nohead_of token)
     ∧ is_Some (noheadtohead_instruments_map_ acc'.1 !! nohead_of token)
     ∧ ∀ sess, sessions_ st !! session = Some sess →
               ∃ sess', sessions_ acc'.1 !! session = Some sess'
                        ∧ nohead_of token ∈ subscriptions_ sess').
Proof.
  unfold subscribe_one.
  destruct (String.eqb token EmptyString) eqn:He.
  - apply String.eqb_eq in He. cbn [fst].
    repeat split; try reflexivity; try (intros; assumption).
    + intros sess i Hs Hi. exists sess. split; assumption.
    + congruence.
    + congruence.
    + congruence.
  - unfold subscribe_instrument.
    destruct (Dispatch.add_subscription _ _ _ _ _) as [r w']. cbn [fst].
    unfold Spec.subscribers_of. cbn.
    split; [intros s Hs; apply lookup_alter_ne; congruence |].
    split.
    { intros i. rewrite insert_into_lookup.
      destruct (decide (nohead_of token = i)) as [<- | _]; [| reflexivity].
      apply union_subseteq_r. }
    split.
    { intros i Hi. destruct (decide (nohead_of token = i)) as [<- | Hne].
      - rewrite lookup_insert_eq. eexists; reflexivity.
      - rewrite lookup_insert_ne by exact Hne. exact Hi. }
    split.
    { intros sess i Hs Hi. rewrite lookup_alter_eq, Hs. cbn.
      eexists. split; [reflexivity |]. cbn. apply elem_of_union_r. exact Hi. }
    split; [reflexivity |].
    intros _. split; [| split].
    + rewrite insert_into_lookup. rewrite decide_True by reflexivity.
      apply elem_of_union_l, elem_of_singleton. reflexivity.
    + rewrite lookup_insert_eq. eexists; reflexivity.
    + intros sess Hs. rewrite lookup_alter_eq, Hs. cbn.
      eexists. split; [reflexivity |]. cbn.
      apply elem_of_union_l, elem_of_singleton. reflexivity.
Qed.

Lemma subscribe_all_facts now session tokens : ∀ st w,
  let acc' := fold_left (subscribe_one vendor_result now session) tokens (st, w) in
  (∀ s, s ≠ session → sessions_ acc'.1 !! s = sessions_ st !! s)
  ∧ (∀ i, Spec.subscribers_of st i ⊆ Spec.subscribers_of acc'.1 i)
  ∧ (∀ i, is_Some (noheadtohead_instruments_map_ st !! i) →
          is_Some (noheadtohead_instruments_map_ acc'.1 !! i))
  ∧ (∀ sess i, sessions_ st !! session = Some sess → i ∈ subscriptions_ sess →
               ∃ sess', sessions_ acc'.1 !! session = Some sess' ∧ i ∈ subscriptions_ sess')
  ∧ pending_peek_sessions_ acc'.1 = pending_peek_sessions_ st
  ∧ (∀ token, token ∈ tokens → token ≠ EmptyString →
     session ∈ Spec.subscribers_of acc'.1 (nohead_of token)
     ∧ is_Some (noheadtohead_instruments_map_ acc'.1 !! nohead_of token)
     ∧ ∀ sess, sessions_ st !! session = Some sess →
               ∃ sess', sessions_ acc'.1 !! session = Some sess'
                        ∧ nohead_of token ∈ subscriptions_ sess').
Proof.
  induction tokens as [| tok tokens IH]; intros st w.
  - cbn [fold_left fst].
    repeat split; try reflexivity; try (intros; assumption).
    + intros sess i Hs Hi. exists sess. split; assumption.
    + apply elem_of_nil in H. destruct H.
    + apply elem_of_nil in H. destruct H.
    + apply elem_of_nil in H. destruct H.
  - cbn [fold_left].
    pose proof (subscribe_one_facts now session st w tok) as (A1 & A2 & A3 & A4 & A5 & A6).
    destruct (subscribe_one vendor_result now session (st, w) tok) as [st1 w1] eqn:E1.
    cbn [fst] in A1, A2, A3, A4, A5, A6.
    specialize (IH st1 w1). cbn zeta in IH.
    destruct IH as (B1 & B2 & B3 & B4 & B5 & B6).
    split; [intros s Hs; rewrite B1, A1 by exact Hs; reflexivity |].
    split; [intros i; etrans; [apply A2 | apply B2] |].
    split; [intros i Hi; apply B3, A3; exact Hi |].
    split.
    { intros sess i Hs Hi. destruct (A4 sess i Hs Hi) as (sess1 & Hs1 & Hi1).
      apply (B4 sess1 i Hs1 Hi1). }
    split; [congruence |].
    intros token Hin Hne. apply elem_of_cons in Hin as [-> | Hin].
    + destruct (A6 Hne) as (C1 & C2 & C3).
      split; [apply B2; exact C1 |]. split; [apply B3; exact C2 |].
      intros sess Hs. destruct (C3 sess Hs) as (sess1 & Hs1 & Hi1).
      apply (B4 sess1 _ Hs1 Hi1).
    + destruct (B6 token Hin Hne) as (C1 & C2 & C3).
      split; [exact C1 |]. split; [exact C2 |].
      intros sess Hs.
      destruct (decide (tok = EmptyString)) as [Ht | Ht].
      * subst tok. unfold subscribe_one in E1. cbn in E1. injection E1 as <- <-.
        exact (C3 sess Hs).
      * destruct (A6 Ht) as (_ & _ & D3). destruct (D3 sess Hs) as (sess1 & Hs1 & _).
        apply (C3 sess1 Hs1).
Qed.

(** *** What a client frame can change *)

Lemma message_facts now now_ms st w session message st' w' :
  handle_message vendor_result Parse now now_ms st w session message = Handled st' w' →
  (∃ l, sent_frames st' = sent_frames st ++ l
        ∧ Forall (fun sf : string * json => sf.1 = session) l)
  ∧ (∀ s, s ≠ session → sessions_ st' !! s = sessions_ st !! s)
  ∧ (∀ i, Spec.subscribers_of st i ⊆ Spec.subscribers_of st' i)
  ∧ market_data_cache_ st' = market_data_cache_ st
  ∧ instrument_index_map_ st' = instrument_index_map_ st
  ∧ display_instruments_cache_ st' = display_instruments_cache_ st.
Proof.
  assert (Hsend : ∀ st0 frame,
            (∃ l, sent_frames (send_message session frame st0) = sent_frames st0 ++ l
                  ∧ Forall (fun sf : string * json => sf.1 = session) l)).
  { intros st0 frame. exists [(session, frame)]. split; [reflexivity |].
    repeat constructor. }
  unfold handle_message.
  destruct (Parse (c_str message)) as [[| | | | | | doc] |];
    try discriminate.
  2: { intros [= <- <-]. split; [apply Hsend |]. repeat split; reflexivity. }
  destruct (find_member "aid" doc) as [[| | | | aid | |] |];
    try (intros [= <- <-]; split;
         [exists []; rewrite app_nil_r; split; [reflexivity | constructor]
         | repeat split; reflexivity]).
  destruct (String.eqb (c_str aid) "subscribe_quote").
  - destruct (find_member "ins_list" doc) as [[| | | | ins_list | |] |];
      try (intros [= <- <-]; split; [apply Hsend |]; repeat split; reflexivity).
    pose proof (subscribe_all_facts now session
                  (getline_all ","%char (c_str ins_list) EmptyString) st w)
      as (A1 & A2 & _).
    pose proof (subscribe_all_core vendor_result now session
                  (getline_all ","%char (c_str ins_list) EmptyString) (st, w))
      as (C1 & C2 & C3 & _ & C5).
    destruct (fold_left _ _ _) as [st1 w1]. cbn [fst] in *.
    intros [= <- <-].
    split.
    { exists [(session, subscribe_ack)]. cbn. rewrite C5.
      split; [reflexivity | repeat constructor]. }
    split; [exact A1 |]. split; [exact A2 |].
    cbn. repeat split; assumption.
  - destruct (String.eqb (c_str aid) "peek_message"); intros [= <- <-].
    + destruct (peek_serves st session) as (B1 & B2 & B3 & B4 & B5 & _ & (l & E & F) & _).
      split.
      { exists l. split; [exact E |].
        eapply Forall_impl; [exact F |]. intros sf [H _].
        apply list_elem_of_singleton in H. exact H. }
      split; [intros s _; rewrite B1; reflexivity |].
      split; [intros i; unfold Spec.subscribers_of; rewrite B2; reflexivity |].
      repeat split; assumption.
    + split; [exists []; rewrite app_nil_r; split; [reflexivity | constructor] |].
      repeat split; reflexivity.
Qed.

Lemma frames_of_others s l l' :
  Forall (fun sf : string * json => sf.1 ≠ s) l' →
  frames_of s (l ++ l') = frames_of s l.
Proof.
  intros H. rewrite frames_of_app.
  assert (E : frames_of s l' = []).
  { unfold frames_of. induction H as [| sf l' Hsf _ IH]; [reflexivity |].
    cbn [List.filter]. destruct (String.eqb sf.1 s) eqn:He; [| exact IH].
    apply String.eqb_eq in He. contradiction. }
  rewrite E. apply app_nil_r.
Qed.

(** A session that is not connected is sent nothing by an event that
    does not come from it, and stays unconnected. *)
Lemma absent_session_step acc e acc' s :
  step vendor_result Parse acc e = Some acc' →
  Spec.from_session s e = false →
  sessions_ acc.1 !! s = None →
  sessions_ acc'.1 !! s = None
  ∧ frames_of s (sent_frames acc'.1) = frames_of s (sent_frames acc.1).
Proof.
  destruct acc as [st w]. cbn [fst].
  destruct e as [s' now_ms | s' | s' message now now_ms | d t | i];
    cbn [step Spec.from_session]; intros Hstep Hfrom Habs.
  - injection Hstep as <-. apply String.eqb_neq in Hfrom. cbn [fst].
    split.
    + cbn. rewrite lookup_insert_ne by exact Hfrom. exact Habs.
    + unfold on_accept. cbn [sent_frames send_message add_session with_sessions].
      apply frames_of_others. repeat constructor. exact Hfrom.
  - injection Hstep as <-. unfold remove_session. cbn.
    split; [| reflexivity].
    destruct (decide (s' = s)) as [-> | Hne];
      [apply lookup_delete_eq | rewrite lookup_delete_ne by exact Hne; exact Habs].
  - destruct (handle_message vendor_result Parse now now_ms st w s' message)
      as [st1 w1 |] eqn:Hm; [| discriminate].
    injection Hstep as <-. cbn [fst]. apply String.eqb_neq in Hfrom.
    destruct (message_facts _ _ _ _ _ _ _ _ Hm) as ((l & E & F) & Hs & _).
    split; [rewrite Hs by congruence; exact Habs |].
    rewrite E. apply frames_of_others.
    eapply Forall_impl; [exact F |]. intros sf ->. exact Hfrom.
  - injection Hstep as <-. cbn [fst].
    destruct (tick_rest st d t) as (A1 & _ & _ & A4 & _).
    rewrite A1, A4. split; [exact Habs | reflexivity].
  - injection Hstep as <-. cbn [fst].
    destruct (notify_serves st i) as (A1 & _ & _ & _ & _ & _ & (l & E & F) & _).
    rewrite A1, E. split; [exact Habs |].
    apply frames_of_others.
    eapply Forall_impl; [exact F |]. intros sf [_ [x Hx]] Heq. rewrite Heq in Hx. congruence.
Qed.

Lemma absent_session_run events : ∀ acc acc' s,
  run vendor_result Parse acc events = Some acc' →
  Forall (fun e => Spec.from_session s e = false) events →
  sessions_ acc.1 !! s = None →
  sessions_ acc'.1 !! s = None
  ∧ frames_of s (sent_frames acc'.1) = frames_of s (sent_frames acc.1).
Proof.
  induction events as [| e events IH]; intros acc acc' s Hrun Hev Habs.
  - injection Hrun as <-. split; [exact Habs | reflexivity].
  - cbn [run] in Hrun.
    destruct (step vendor_result Parse acc e) as [acc1 |] eqn:Hstep; [| discriminate].
    apply Forall_cons in Hev as [He Hev].
    destruct (absent_session_step acc e acc1 s Hstep He Habs) as [H1 H2].
    destruct (IH acc1 acc' s Hrun Hev H1) as [H3 H4].
    split; [exact H3 | congruence].
Qed.

(** X8 (a closed session is sent nothing).  Once a session has closed,
    whatever happens next — ticks, notifications, other clients
    connecting, asking and leaving — no frame is sent to it, for as
    long as it does not connect again or send a frame itself. *)
Theorem closed_session_gets_nothing (events : list Event)
    (acc acc' : MarketDataServer * Dispatch.World) (s : string) :
  run vendor_result Parse acc (Closed s :: events) = Some acc' →
  Forall (fun e => Spec.from_session s e = false) events →
  frames_of s (sent_frames acc'.1) = frames_of s (sent_frames acc.1).
Proof.
  intros Hrun Hev. cbn [run step] in Hrun. destruct acc as [st w].
  destruct (absent_session_run events _ acc' s Hrun Hev) as [_ H].
  - unfold remove_session. cbn. apply lookup_delete_eq.
  - rewrite H. reflexivity.
Qed.

(** *** Subscribers *)

Lemma subscribers_step acc e acc' i :
  step vendor_result Parse acc e = Some acc' →
  Spec.subscribers_of acc.1 i ⊆ Spec.subscribers_of acc'.1 i.
Proof.
  destruct acc as [st w]. cbn [fst].
  destruct e as [s' now_ms | s' | s' message now now_ms | d t | j];
    cbn [step]; intros Hstep.
  - injection Hstep as <-. reflexivity.
  - injection Hstep as <-. reflexivity.
  - destruct (handle_message vendor_result Parse now now_ms st w s' message)
      as [st1 w1 |] eqn:Hm; [| discriminate].
    injection Hstep as <-. cbn [fst].
    destruct (message_facts _ _ _ _ _ _ _ _ Hm) as (_ & _ & H & _). apply H.
  - injection Hstep as <-. cbn [fst].
    destruct (tick_rest st d t) as (_ & A2 & _).
    unfold Spec.subscribers_of. rewrite A2. reflexivity.
  - injection Hstep as <-. cbn [fst].
    destruct (notify_serves st j) as (_ & A2 & _).
    unfold Spec.subscribers_of. rewrite A2. reflexivity.
Qed.

(** X9 (in multi-connection mode subscribers are never taken off the
    list).  Along every run of the server in multi-connection mode, the
    set of sessions listed in [instrument_subscribers_] for an
    instrument only grows: no client frame takes a session off it, and
    closing a session does not either, since the multi-connection
    branch of [remove_session] hands the session to the dispatcher and
    leaves [instrument_subscribers_] alone (the single-connection
    branch, which erases the session there, is not this one). *)
Theorem subscribers_never_shrink (events : list Event) :
  ∀ (acc acc' : MarketDataServer * Dispatch.World) (i : string),
    run vendor_result Parse acc events = Some acc' →
    Spec.subscribers_of acc.1 i ⊆ Spec.subscribers_of acc'.1 i.
Proof.
  induction events as [| e events IH]; intros acc acc' i Hrun.
  - injection Hrun as <-. reflexivity.
  - cbn [run] in Hrun.
    destruct (step vendor_result Parse acc e) as [acc1 |] eqn:Hstep; [| discriminate].
    etrans; [apply (subscribers_step acc e acc1 i Hstep) | apply (IH acc1 acc' i Hrun)].
Qed.

(** X7 (a subscription request is always acknowledged).  A frame whose
    [aid] is [subscribe_quote] and whose [ins_list] is a string is
    answered with exactly one frame, [{"aid":"subscribe_quote",
    "status":"ok"}], whether or not the dispatcher could place any of
    the instruments; for every token of the list that is not empty, the
    session is listed as a subscriber of the instrument without its
    exchange prefix, the instrument has a display name on record, and a
    connected session has it among its subscriptions. *)
Theorem subscribe_always_acknowledged (now now_ms : Z) (st : MarketDataServer)
    (w : Dispatch.World) (session message : string) (doc : list (string * json))
    (aid ins_list : string) :
  Parse (c_str message) = Some (JObject doc) →
  find_member "aid" doc = Some (JString aid) →
  c_str aid = "subscribe_quote" →
  find_member "ins_list" doc = Some (JString ins_list) →
  ∃ st' w',
    handle_message vendor_result Parse now now_ms st w session message = Handled st' w'
    ∧ sent_frames st' = sent_frames st ++ [(session, subscribe_ack)]
    ∧ ∀ token,
        token ∈ getline_all ","%char (c_str ins_list) EmptyString →
        token ≠ EmptyString →
        session ∈ Spec.subscribers_of st' (nohead_of token)
        ∧ is_Some (noheadtohead_instruments_map_ st' !! nohead_of token)
        ∧ ∀ sess, sessions_ st !! session = Some sess →
                  ∃ sess', sessions_ st' !! session = Some sess'
                           ∧ nohead_of token ∈ subscriptions_ sess'.
Proof.
  intros Hp Haid Hsub Hl. unfold handle_message. rewrite Hp, Haid, Hsub, Hl.
  cbn [String.eqb Ascii.eqb Bool.eqb andb].
  pose proof (subscribe_all_facts now session
                (getline_all ","%char (c_str ins_list) EmptyString) st w)
    as (_ & _ & _ & _ & _ & A6).
  pose proof (subscribe_all_core vendor_result now session
                (getline_all ","%char (c_str ins_list) EmptyString) (st, w))
    as (_ & _ & _ & _ & C5).
  destruct (fold_left _ _ _) as [st1 w1]. cbn [fst] in *.
  exists (send_message session subscribe_ack st1), w1.
  split; [reflexivity |]. split; [cbn; rewrite C5; reflexivity |].
  exact A6.
Qed.

(** *** The cache along a run *)

Lemma step_cache_fields acc e acc' :
  step vendor_result Parse acc e = Some acc' →
  (∀ d t, e ≠ Tick d t) →
  market_data_cache_ acc'.1 = market_data_cache_ acc.1
  ∧ instrument_index_map_ acc'.1 = instrument_index_map_ acc.1
  ∧ display_instruments_cache_ acc'.1 = display_instruments_cache_ acc.1.
Proof.
  destruct acc as [st w]. cbn [fst].
  destruct e as [s' now_ms | s' | s' message now now_ms | d t | j];
    cbn [step]; intros Hstep Hnt.
  - injection Hstep as <-. repeat split.
  - injection Hstep as <-. repeat split.
  - destruct (handle_message vendor_result Parse now now_ms st w s' message)
      as [st1 w1 |] eqn:Hm; [| discriminate].
    injection Hstep as <-. cbn [fst].
    destruct (message_facts _ _ _ _ _ _ _ _ Hm) as (_ & _ & _ & H1 & H2 & H3).
    repeat split; assumption.
  - exfalso. apply (Hnt d t). reflexivity.
  - injection Hstep as <-. cbn [fst].
    destruct (notify_serves st j) as (_ & _ & A3 & A4 & A5 & _).
    repeat split; assumption.
Qed.

Lemma step_counters n k acc e acc' :
  step vendor_result Parse acc e = Some acc' →
  2 * k + 2 < 2 ^ 64 →
  indices_in_range acc.1 →
  length (market_data_cache_ acc.1) = n →
  Forall (fun e => 0 ≤ sequence e ≤ 2 * k ∧ sequence e mod 2 = 0)
         (market_data_cache_ acc.1) →
  indices_in_range acc'.1
  ∧ length (market_data_cache_ acc'.1) = n
  ∧ Forall (fun e => 0 ≤ sequence e ≤ 2 * (k + 1) ∧ sequence e mod 2 = 0)
           (market_data_cache_ acc'.1).
Proof.
  intros Hstep Hk Hr Hlen Hc.
  assert (Hweak : Forall (fun e => 0 ≤ sequence e ≤ 2 * (k + 1) ∧ sequence e mod 2 = 0)
                         (market_data_cache_ acc.1)).
  { eapply Forall_impl; [exact Hc |]. intros e0 [H1 H2]. split; [lia | exact H2]. }
  assert (Hcase : (∃ d t, e = Tick d t) ∨ (∀ d t, e ≠ Tick d t)).
  { destruct e; try (right; intros; discriminate). left. eexists _, _. reflexivity. }
  destruct Hcase as [(d & t & ->) | Hnt].
  - destruct acc as [st w]. cbn [step] in Hstep. injection Hstep as <-. cbn [fst] in *.
    unfold OnRtnDepthMarketData. destruct d as [d |]; cbn [fst];
      [| split; [exact Hr | split; [exact Hlen | exact Hweak]]].
    split; [apply cache_market_data_range; exact Hr |].
    rewrite cache_market_data_cache. cbn zeta.
    destruct (_ <? 0); [split; [exact Hlen | exact Hweak] |].
    split; [rewrite length_alter; exact Hlen |].
    apply Forall_alter; [exact Hweak |].
    intros e0 He0. rewrite Forall_lookup in Hc. destruct (Hc _ _ He0) as [H1 H2].
    destruct (publish_entry_counter
                (build_market_data_struct (Some d)
                   (default (InstrumentID d)
                      (noheadtohead_instruments_map_ st !! InstrumentID d)) t)
                e0 ltac:(lia) H2 ltac:(lia)) as (_ & E & Hev & _).
    rewrite E. split; [lia | rewrite <- E; exact Hev].
  - destruct (step_cache_fields acc e acc' Hstep Hnt) as (A1 & A2 & A3).
    split; [| rewrite A1; split; [exact Hlen | exact Hweak]].
    intros id i Hi. rewrite A2 in Hi. rewrite A1. apply (Hr id i Hi).
Qed.

Lemma run_counters n events : ∀ k acc acc',
  run vendor_result Parse acc events = Some acc' →
  2 * (k + Z.of_nat (length events)) < 2 ^ 64 →
  0 ≤ k →
  indices_in_range acc.1 →
  length (market_data_cache_ acc.1) = n →
  Forall (fun e => 0 ≤ sequence e ≤ 2 * k ∧ sequence e mod 2 = 0)
         (market_data_cache_ acc.1) →
  indices_in_range acc'.1
  ∧ length (market_data_cache_ acc'.1) = n
  ∧ Forall (fun e => 0 ≤ sequence e ≤ 2 * (k + Z.of_nat (length events))
                     ∧ sequence e mod 2 = 0)
           (market_data_cache_ acc'.1).
Proof.
  induction events as [| e events IH]; intros k acc acc' Hrun Hk Hk0 Hr Hlen Hc.
  - injection Hrun as <-. cbn [length]. rewrite Z.add_0_r.
    split; [exact Hr | split; [exact Hlen | exact Hc]].
  - cbn [run] in Hrun.
    destruct (step vendor_result Parse acc e) as [acc1 |] eqn:Hstep; [| discriminate].
    cbn [length] in Hk |- *. rewrite Nat2Z.inj_succ in Hk |- *.
    destruct (step_counters n k acc e acc1 Hstep ltac:(lia) Hr Hlen Hc) as (B1 & B2 & B3).
    destruct (IH (k + 1) acc1 acc' Hrun ltac:(lia) ltac:(lia) B1 B2 B3) as (C1 & C2 & C3).
    split; [exact C1 |]. split; [exact C2 |].
    eapply Forall_impl; [exact C3 |]. intros e0 [H1 H2]. split; [lia | exact H2].
Qed.

(** X10 (the cache of a running server).  After any run of fewer than
    2^63 events from a new server with a cache of [n] slots, every
    index handed out designates a slot of the cache, the cache still
    has [n] slots, and every seqlock counter is even, not negative and
    far enough from the end of its 64 bits for as many publishes as
    there are events left before 2^63. *)
Theorem fresh_cache_invariants (n : nat) (w0 : Dispatch.World) (events : list Event)
    (st : MarketDataServer) (w : Dispatch.World) :
  run vendor_result Parse (new_server n, w0) events = Some (st, w) →
  Z.of_nat (length events) < 2 ^ 63 →
  indices_in_range st
  ∧ length (market_data_cache_ st) = n
  ∧ counters_stable (2 ^ 63 - 1 - Z.of_nat (length events)) st.
Proof.
  intros Hrun Hlen.
  destruct (run_counters n events 0 (new_server n, w0) (st, w) Hrun) as (A1 & A2 & A3).
  - lia.
  - lia.
  - intros id i Hi. cbn in Hi. rewrite lookup_empty in Hi. discriminate Hi.
  - cbn. apply length_replicate.
  - cbn. apply Forall_replicate. cbn. split; [lia | reflexivity].
  - cbn [fst] in *. split; [exact A1 |]. split; [exact A2 |].
    unfold counters_stable. eapply Forall_impl; [exact A3 |].
    intros e [H1 H2]. split; [lia |]. split; [exact H2 | lia].
Qed.

Lemma run_dense events : ∀ acc acc',
  run vendor_result Parse acc events = Some acc' →
  Spec.dense_indices acc.1 → Spec.dense_indices acc'.1.
Proof.
  induction events as [| e events IH]; intros acc acc' Hrun Hd.
  - injection Hrun as <-. exact Hd.
  - cbn [run] in Hrun.
    destruct (step vendor_result Parse acc e) as [acc1 |] eqn:Hstep; [| discriminate].
    apply (IH acc1 acc' Hrun).
    apply (step_extends vendor_result Parse acc e acc1 Hstep Hd).
Qed.

(** X11 (an instrument keeps its slot and its name).  In a run from a
    new server, once an instrument has an index, no later event changes
    that index or the key under which the instrument appears in frames:
    the display name is recorded when the slot is handed out and never
    written again. *)
Theorem index_write_once (n : nat) (w0 : Dispatch.World) (before after : list Event)
    (acc1 acc2 : MarketDataServer * Dispatch.World) (i : string) (idx : Z) :
  run vendor_result Parse (new_server n, w0) before = Some acc1 →
  run vendor_result Parse acc1 after = Some acc2 →
  instrument_index_map_ acc1.1 !! i = Some idx →
  instrument_index_map_ acc2.1 !! i = Some idx
  ∧ Spec.key_of acc2.1 i = Spec.key_of acc1.1 i.
Proof.
  intros Hrun1 Hrun2 Hi.
  assert (Hd : Spec.dense_indices acc1.1).
  { apply (run_dense before (new_server n, w0) acc1 Hrun1).
    apply (new_server_consistent n). }
  pose proof (run_extends vendor_result Parse after acc1 acc2 Hrun2 Hd) as He.
  split; [apply (He i idx Hi) |].
  apply (extends_key acc1.1 acc2.1 i He). exists idx. exact Hi.
Qed.

(** *** A peek before the first quote *)

Lemma collect_nothing st subs lv :
  (∀ i idx e, i ∈ subs → instrument_index_map_ st !! i = Some idx →
              market_data_cache_ st !! Z.to_nat idx = Some e → has_data e = false) →
  collect_market_data_updates st subs lv = [].
Proof.
  intros H. unfold collect_market_data_updates.
  assert (Hall : Forall (fun i => i ∈ subs) (in_order subs)).
  { apply Forall_forall. intros i Hi. apply elem_of_in_order. exact Hi. }
  induction Hall as [| i l Hi _ IH]; [reflexivity |].
  cbn [flat_map]. rewrite IH, app_nil_r.
  destruct (collect_one_cases st lv i) as [E | (idx & e & Hx & _ & He & Hd & _)];
    [exact E |].
  rewrite (H i idx e Hi Hx He) in Hd. discriminate Hd.
Qed.

(** X12 (a peek before the first quote is lost).  When a session that
    has been sent no quote yet peeks while none of its instruments has
    one, the peek changes nothing: it is not answered and the session is
    not parked.  So when the first tick arrives afterwards and its
    notification runs, the session is still sent nothing. *)
Theorem peek_before_first_quote_is_lost (st : MarketDataServer) (s : string)
    (sess : WebSocketSession) (d : option CThostFtdcDepthMarketDataField)
    (t : Z) (i : string) :
  sessions_ st !! s = Some sess →
  Spec.cursor st s = ∅ →
  (∀ j idx e, j ∈ subscriptions_ sess → instrument_index_map_ st !! j = Some idx →
              market_data_cache_ st !! Z.to_nat idx = Some e → has_data e = false) →
  s ∉ pending_peek_sessions_ st →
  handle_peek_message st s = st
  ∧ frames_of s
      (sent_frames
         (notify_pending_sessions
            (OnRtnDepthMarketData (handle_peek_message st s) d t).1 i))
    = frames_of s (sent_frames st).
Proof.
  intros Hs Hcur Hnone Hpend.
  assert (E : handle_peek_message st s = st).
  { unfold handle_peek_message. rewrite Hs.
    destruct (decide (subscriptions_ sess = ∅)); [reflexivity |].
    rewrite (collect_nothing st (subscriptions_ sess) _ Hnone).
    unfold Spec.cursor in Hcur. rewrite Hcur.
    rewrite bool_decide_eq_true_2 by reflexivity. reflexivity. }
  split; [exact E |]. rewrite E.
  destruct (tick_rest st d t) as (_ & A2 & A3 & A4 & _).
  destruct (notify_serves (OnRtnDepthMarketData st d t).1 i)
    as (_ & _ & _ & _ & _ & _ & (l & El & F) & _).
  rewrite El, A4. apply frames_of_others.
  eapply Forall_impl; [exact F |]. intros sf [Hin _] Heq.
  apply list_elem_of_In in Hin. apply list_elem_of_In, elem_of_in_order in Hin.
  apply elem_of_intersection in Hin as [_ Hin]. rewrite A3, Heq in Hin. contradiction.
Qed.

End SessionExtras.

Section SessionWitnesses.
Import Quote Gateway Client.

Lemma subscribe_always_acknowledged_witness :
  ∃ st' w',
    handle_message Scenario.accepts Scenario.parser 1 1 Scenario.idle_session
      Scenario.no_front "s1" Scenario.subscribe_text = Handled st' w'
    ∧ sent_frames st' = sent_frames Scenario.idle_session ++ [("s1", subscribe_ack)]
    ∧ ∀ token,
        token ∈ getline_all ","%char (c_str "SHFE.rb2501") EmptyString →
        token ≠ EmptyString →
        "s1" ∈ Spec.subscribers_of st' (nohead_of token)
        ∧ is_Some (noheadtohead_instruments_map_ st' !! nohead_of token)
        ∧ ∀ sess, sessions_ Scenario.idle_session !! "s1" = Some sess →
                  ∃ sess', sessions_ st' !! "s1" = Some sess'
                           ∧ nohead_of token ∈ subscriptions_ sess'.
Proof.
  apply (subscribe_always_acknowledged Scenario.accepts Scenario.parser 1 1
           Scenario.idle_session Scenario.no_front "s1" Scenario.subscribe_text
           [("aid", JString "subscribe_quote"); ("ins_list", JString "SHFE.rb2501")]
           "subscribe_quote" "SHFE.rb2501").
  - vm_compute. reflexivity.
  - reflexivity.
  - reflexivity.
  - reflexivity.
Defined.

Lemma closed_session_gets_nothing_witness :
  frames_of "s1"
    (sent_frames
       (default Scenario.fresh
          (run Scenario.accepts Scenario.parser Scenario.s2_final
             [Closed "s1"; Tick (Some Scenario.second_tick) 2000; Notified "rb2501"])).1)
  = frames_of "s1" (sent_frames Scenario.s2_final.1).
Proof.
  apply (closed_session_gets_nothing Scenario.accepts Scenario.parser
           [Tick (Some Scenario.second_tick) 2000; Notified "rb2501"]
           Scenario.s2_final).
  - vm_compute. reflexivity.
  - repeat constructor.
Defined.

(** Session s1, a subscriber of rb2501, closes, and a tick follows: it
    is still listed. *)
Lemma subscribers_never_shrink_witness :
  Spec.subscribers_of Scenario.s2_final.1 "rb2501" = {["s1"]}
  ∧ Spec.subscribers_of Scenario.s2_final.1 "rb2501"
    ⊆ Spec.subscribers_of
        (default Scenario.fresh
           (run Scenario.accepts Scenario.parser Scenario.s2_final
              [Closed "s1"; Tick (Some Scenario.first_tick) 1003])).1 "rb2501".
Proof.
  split; [vm_compute; reflexivity |].
  apply (subscribers_never_shrink Scenario.accepts Scenario.parser
           [Closed "s1"; Tick (Some Scenario.first_tick) 1003]
           Scenario.s2_final _ "rb2501").
  vm_compute. reflexivity.
Defined.

Lemma fresh_cache_invariants_witness :
  indices_in_range Scenario.s2_final.1
  ∧ length (market_data_cache_ Scenario.s2_final.1) = 8%nat
  ∧ counters_stable (2 ^ 63 - 1 - Z.of_nat (length Scenario.s2_events)) Scenario.s2_final.1.
Proof.
  apply (fresh_cache_invariants Scenario.accepts Scenario.parser 8%nat
           (Dispatch.initial_world 3 []) Scenario.s2_events
           Scenario.s2_final.1 Scenario.s2_final.2).
  - vm_compute. reflexivity.
  - vm_compute. reflexivity.
Defined.

Lemma index_write_once_witness :
  instrument_index_map_ Scenario.s2_final.1 !! "rb2501" = Some 0
  ∧ Spec.key_of Scenario.s2_final.1 "rb2501"
    = Spec.key_of
        (default Scenario.fresh
           (run Scenario.accepts Scenario.parser Scenario.fresh
              (take 3 Scenario.s2_events))).1 "rb2501".
Proof.
  apply (index_write_once Scenario.accepts Scenario.parser 8%nat
           (Dispatch.initial_world 3 []) (take 3 Scenario.s2_events)
           (drop 3 Scenario.s2_events)).
  - vm_compute. reflexivity.
  - vm_compute. reflexivity.
  - vm_compute. reflexivity.
Defined.

Lemma peek_before_first_quote_is_lost_witness :
  handle_peek_message Scenario.after_subscribe.1 "s1" = Scenario.after_subscribe.1
  ∧ frames_of "s1"
      (sent_frames
         (notify_pending_sessions
            (OnRtnDepthMarketData
               (handle_peek_message Scenario.after_subscribe.1 "s1")
               (Some Scenario.first_tick) 1000).1 "rb2501"))
    = frames_of "s1" (sent_frames Scenario.after_subscribe.1).
Proof.
  apply (peek_before_first_quote_is_lost Scenario.after_subscribe.1 "s1"
           {| session_id_ := "s1"; subscriptions_ := {["rb2501"]} |}).
  - vm_compute. reflexivity.
  - vm_compute. reflexivity.
  - intros j idx e _ Hi. vm_compute in Hi. discriminate Hi.
  - assert (E : pending_peek_sessions_ Scenario.after_subscribe.1 = ∅)
      by (vm_compute; reflexivity).
    rewrite E. apply not_elem_of_empty.
Defined.

End SessionWitnesses.

(** ** The instrument list of a subscription request *)

Section ParsingExtras.
Import Gateway.

Lemma string_app_cons x (a b : string) : (String x a ++ b = String x (a ++ b))%string.
Proof. reflexivity. Qed.

Lemma string_app_nil_l (b : string) : (EmptyString ++ b = b)%string.
Proof. reflexivity. Qed.

Lemma string_app_assoc (a b c : string) : ((a ++ b) ++ c = a ++ (b ++ c))%string.
Proof.
  induction a as [| x a IH]; [reflexivity |].
  rewrite !string_app_cons. f_equal. exact IH.
Qed.

Lemma string_app_nil_r (a : string) : (a ++ EmptyString = a)%string.
Proof.
  induction a as [| x a IH]; [reflexivity |].
  rewrite string_app_cons. f_equal. exact IH.
Qed.

Lemma getline_token sep t : ∀ rest acc,
  Spec.has_char sep t = false →
  getline_all sep (t ++ rest) acc = getline_all sep rest (acc ++ t).
Proof.
  induction t as [| c t IH]; intros rest acc Hc.
  - rewrite string_app_nil_r, string_app_nil_l. reflexivity.
  - cbn [Spec.has_char] in Hc. apply orb_false_iff in Hc as [Hc Ht].
    rewrite string_app_cons. cbn [getline_all]. rewrite Hc.
    rewrite (IH rest _ Ht), string_app_assoc, string_app_cons, string_app_nil_l.
    reflexivity.
Qed.

Lemma getline_joined tokens :
  Forall (fun t => Spec.has_char ","%char t = false) tokens →
  last tokens ≠ Some EmptyString →
  getline_all ","%char (Spec.comma_joined tokens) EmptyString = tokens.
Proof.
  induction tokens as [| t tokens IH]; intros Hc Hl; [reflexivity |].
  apply Forall_cons in Hc as [Ht Hc].
  destruct tokens as [| t' tokens].
  - cbn [Spec.comma_joined].
    rewrite <- (string_app_nil_r t) at 1. rewrite (getline_token _ _ _ _ Ht).
    rewrite string_app_nil_l. cbn [getline_all].
    destruct (String.eqb t EmptyString) eqn:He; [| reflexivity].
    apply String.eqb_eq in He. subst t. contradiction Hl. reflexivity.
  - change (Spec.comma_joined (t :: t' :: tokens))
      with (t ++ String ","%char (Spec.comma_joined (t' :: tokens)))%string.
    rewrite (getline_token _ _ _ _ Ht).
    rewrite string_app_nil_l. cbn [getline_all]. rewrite Ascii.eqb_refl.
    f_equal. apply IH; [exact Hc |]. exact Hl.
Qed.

Lemma after_first_dot_prefix ex rest :
  Spec.has_char "."%char ex = false →
  after_first_dot (ex ++ String "."%char rest) = Some rest.
Proof.
  induction ex as [| c ex IH]; intros Hc; [reflexivity |].
  cbn [Spec.has_char] in Hc. apply orb_false_iff in Hc as [Hc He].
  rewrite string_app_cons. cbn [after_first_dot]. rewrite Hc. apply IH. exact He.
Qed.

Lemma after_first_dot_none s :
  Spec.has_char "."%char s = false → after_first_dot s = None.
Proof.
  induction s as [| c s IH]; intros Hc; [reflexivity |].
  cbn [Spec.has_char] in Hc. apply orb_false_iff in Hc as [Hc He].
  cbn [after_first_dot]. rewrite Hc. apply IH. exact He.
Qed.

(** X13 (how an instrument list is read).  Splitting the text made of
    tokens joined by commas gives the tokens back, provided no token
    holds a comma and the last one is not empty (a trailing empty token
    is not read at all); and of each token the code keeps what follows
    its first dot, or the whole token when it has no dot, so an exchange
    prefix is stripped whatever it is, and only the first one. *)
Theorem ins_list_tokens :
  (∀ tokens,
     Forall (fun t => Spec.has_char ","%char t = false) tokens →
     last tokens ≠ Some EmptyString →
     getline_all ","%char (Spec.comma_joined tokens) EmptyString = tokens)
  ∧ (∀ exchange symbol,
       Spec.has_char "."%char exchange = false →
       nohead_of (exchange ++ String "."%char symbol) = symbol)
  ∧ (∀ symbol, Spec.has_char "."%char symbol = false → nohead_of symbol = symbol).
Proof.
  split; [exact getline_joined |]. split.
  - intros ex symbol Hc. unfold nohead_of. rewrite after_first_dot_prefix by exact Hc.
    reflexivity.
  - intros symbol Hc. unfold nohead_of. rewrite after_first_dot_none by exact Hc.
    reflexivity.
Qed.

Lemma ins_list_tokens_witness :
  getline_all ","%char (Spec.comma_joined ["SHFE.rb2501"; ""; "cu2501"]) EmptyString
  = ["SHFE.rb2501"; ""; "cu2501"]
  ∧ nohead_of ("SHFE" ++ String "."%char "rb2501.x") = "rb2501.x"
  ∧ nohead_of "cu2501" = "cu2501".
Proof.
  split; [| split].
  - apply (proj1 ins_list_tokens).
    + repeat constructor.
    + discriminate.
  - apply (proj1 (proj2 ins_list_tokens)). reflexivity.
  - apply (proj2 (proj2 ins_list_tokens)). reflexivity.
Defined.

End ParsingExtras.

(** ** The dispatcher's books *)

Section SetMapFacts.

Lemma erase_from_lookup k x (m : gmap string (gset string)) k' :
  default ∅ (erase_from k x m !! k')
  = if decide (k = k') then default ∅ (m !! k) ∖ {[x]} else default ∅ (m !! k').
Proof.
  unfold erase_from. destruct (m !! k) as [s |] eqn:Hk.
  - destruct (decide (s ∖ {[x]} = ∅)) as [He | Hne].
    + destruct (decide (k = k')) as [<- | Hkk].
      * rewrite lookup_delete_eq. cbn. rewrite He. reflexivity.
      * rewrite lookup_delete_ne by exact Hkk. reflexivity.
    + destruct (decide (k = k')) as [<- | Hkk].
      * rewrite lookup_insert_eq. reflexivity.
      * rewrite lookup_insert_ne by exact Hkk. reflexivity.
  - destruct (decide (k = k')) as [<- | Hkk]; [| reflexivity].
    rewrite Hk. cbn. apply set_eq. intros y. rewrite elem_of_difference.
    split; [intros H; exfalso; revert H; apply not_elem_of_empty | intros [H _]; exact H].
Qed.

End SetMapFacts.

Section DispatchExtras.
Import Dispatch.
Variable vendor_result : list UpstreamCall → UpstreamCall → Z.

(** *** Who asks for what *)

Lemma same_requests_refl w : Spec.same_requests w w.
Proof. split; [reflexivity | intros i; reflexivity]. Qed.

Lemma same_requests_trans w1 w2 w3 :
  Spec.same_requests w1 w2 → Spec.same_requests w2 w3 → Spec.same_requests w1 w3.
Proof.
  intros [A1 A2] [B1 B2]. split; [congruence |]. intros i. rewrite B2, A2. reflexivity.
Qed.

Lemma same_requests_fields w w' :
  session_subscriptions_ w' = session_subscriptions_ w →
  global_subscriptions_ w' = global_subscriptions_ w →
  Spec.same_requests w w'.
Proof. intros H1 H2. split; [exact H1 | intros i; rewrite H2; reflexivity]. Qed.

Lemma same_requests_books w w' :
  session_subscriptions_ w' = session_subscriptions_ w →
  same_books w w' → Spec.same_requests w w'.
Proof. intros H1 (H2 & _). apply same_requests_fields; assumption. Qed.

Lemma fold_same {A : Type} (f : World → A → World) l :
  (∀ w x, Spec.same_requests w (f w x)) →
  ∀ w, Spec.same_requests w (fold_left f l w).
Proof.
  intros Hf. induction l as [| x l IH]; intros w; [apply same_requests_refl |].
  cbn [fold_left]. eapply same_requests_trans; [apply Hf | apply IH].
Qed.

Lemma update_info_same i f w :
  (∀ x, requesting_sessions (f x) = requesting_sessions x) →
  Spec.same_requests w (update_info i f w).
Proof.
  intros Hf. split; [reflexivity |]. intros k. rewrite update_info_lookup.
  destruct (decide (i = k)) as [<- | _]; [| reflexivity].
  destruct (global_subscriptions_ w !! i); cbn; [rewrite Hf |]; reflexivity.
Qed.

Lemma select_same w : Spec.same_requests w (select_connection_round_robin w).2.
Proof.
  unfold select_connection_round_robin.
  destruct (get_available_connections w); apply same_requests_fields; reflexivity.
Qed.

Lemma on_connection_same id f w r w' :
  on_connection id f w = Some (r, w') → Spec.same_requests w w'.
Proof.
  unfold on_connection. destruct (connections_ w !! id) as [c |]; [| discriminate].
  destruct (f c (upstream_calls w)) as [[r' c'] calls']. intros [= <- <-].
  apply same_requests_fields; reflexivity.
Qed.

Lemma execute_subscription_same w i id :
  Spec.same_requests w (execute_subscription vendor_result w i id).2.
Proof.
  unfold execute_subscription.
  destruct (on_connection id _ w) as [[r w'] |] eqn:E; cbn [snd];
    [eapply on_connection_same; exact E | apply same_requests_refl].
Qed.

Lemma execute_unsubscription_same w i id :
  Spec.same_requests w (execute_unsubscription vendor_result w i id).2.
Proof.
  unfold execute_unsubscription.
  destruct (on_connection id _ w) as [[r w'] |] eqn:E; cbn [snd];
    [eapply on_connection_same; exact E | apply same_requests_refl].
Qed.

Lemma retry_if_allowed_same i w : Spec.same_requests w (retry_if_allowed i w).
Proof.
  unfold retry_if_allowed. destruct (global_subscriptions_ w !! i) as [info |];
    [| apply same_requests_refl].
  destruct (_ <? _); [apply same_requests_fields; reflexivity | apply same_requests_refl].
Qed.

Ltac chain_same :=
  repeat first
    [ apply same_requests_refl
    | apply update_info_same; intros; reflexivity
    | apply retry_if_allowed_same
    | apply same_requests_fields; reflexivity
    | eapply same_requests_trans; [| apply update_info_same; intros; reflexivity]
    | eapply same_requests_trans; [| apply retry_if_allowed_same] ].

Lemma migrate_same w i from to :
  Spec.same_requests w (migrate_subscription vendor_result w i from to).
Proof.
  unfold migrate_subscription.
  destruct (global_subscriptions_ w !! i); [| apply same_requests_refl].
  pose proof (execute_subscription_same
                (update_info i (with_retry_count 0)
                   (update_info i (with_sub_status SUBSCRIBING)
                      (update_info i (with_assigned to) w))) i to) as H.
  destruct (execute_subscription _ _ _ _) as [ok w1]. cbn [snd] in H.
  assert (H0 : Spec.same_requests w w1).
  { eapply same_requests_trans; [| exact H]. chain_same. }
  destruct ok; [exact H0 |].
  eapply same_requests_trans; [exact H0 |]. chain_same.
Qed.

Lemma failover_one_same conn w i :
  Spec.same_requests w (failover_one vendor_result conn w i).
Proof.
  unfold failover_one.
  pose proof (select_same w) as H.
  destruct (select_connection_round_robin w) as [[c |] w1]; cbn [snd] in H.
  - destruct (negb _).
    + eapply same_requests_trans; [exact H | apply migrate_same].
    + eapply same_requests_trans; [exact H | apply retry_if_allowed_same].
  - eapply same_requests_trans; [exact H | apply retry_if_allowed_same].
Qed.

Lemma handle_connection_failure_same w conn :
  Spec.same_requests w (handle_connection_failure vendor_result w conn).
Proof.
  unfold handle_connection_failure.
  eapply same_requests_trans; [| apply same_requests_fields; reflexivity].
  eapply same_requests_trans.
  - apply (fold_same (fun w i => update_info i (with_sub_status FAILED) w)).
    intros w0 x. apply update_info_same. intros; reflexivity.
  - apply fold_same. intros w0 x. apply failover_one_same.
Qed.

Lemma on_subscription_success_same now w conn i :
  Spec.same_requests w (on_subscription_success now w conn i).
Proof.
  unfold on_subscription_success.
  destruct (global_subscriptions_ w !! i); [| apply same_requests_refl].
  eapply same_requests_trans; [| apply same_requests_fields; reflexivity].
  chain_same.
Qed.

Lemma on_subscription_failed_same now w conn i :
  Spec.same_requests w (on_subscription_failed now w conn i).
Proof.
  unfold on_subscription_failed.
  destruct (global_subscriptions_ w !! i); [| apply same_requests_refl].
  chain_same.
Qed.

Lemma retry_one_same acc i :
  Spec.same_requests acc.2 (retry_one vendor_result acc i).2.
Proof.
  destruct acc as [failed_again w]. unfold retry_one. cbn [snd].
  destruct (global_subscriptions_ w !! i) as [info |]; [| apply same_requests_refl].
  destruct (bool_decide (status info = FAILED)); [| apply same_requests_refl].
  pose proof (select_same w) as H.
  destruct (select_connection_round_robin w) as [[c |] w1]; cbn [snd] in H.
  - pose proof (execute_subscription_same
                  (update_info i (with_sub_status SUBSCRIBING)
                     (update_info i (with_assigned (get_connection_id c)) w1))
                  i (get_connection_id c)) as H2.
    destruct (execute_subscription _ _ _ _) as [ok w2]. cbn [snd] in H2.
    assert (H0 : Spec.same_requests w w2).
    { eapply same_requests_trans; [exact H |].
      eapply same_requests_trans; [| exact H2]. chain_same. }
    destruct ok; cbn [snd].
    + eapply same_requests_trans; [exact H0 |]. chain_same.
    + assert (H3 : Spec.same_requests w (update_info i (with_sub_status FAILED) w2))
        by (eapply same_requests_trans; [exact H0 |]; chain_same).
      cbn. destruct (_ <? _); exact H3.
  - destruct (_ <? _); exact H.
Qed.

Lemma retry_fold_same l : ∀ acc,
  Spec.same_requests acc.2 (fold_left (retry_one vendor_result) l acc).2.
Proof.
  induction l as [| i l IH]; intros acc; [apply same_requests_refl |].
  cbn [fold_left]. eapply same_requests_trans; [apply retry_one_same | apply IH].
Qed.

Lemma process_pending_same w :
  Spec.same_requests w (process_pending_subscriptions vendor_result w).
Proof.
  unfold process_pending_subscriptions, drain_retry_set.
  pose proof (retry_fold_same (in_order (retry_set_ w)) (∅, with_retry_set ∅ w)) as H.
  destruct (fold_left _ _ _) as [failed_again w1]. cbn [snd] in H.
  eapply same_requests_trans; [| apply same_requests_fields; reflexivity].
  eapply same_requests_trans; [| exact H]. apply same_requests_fields; reflexivity.
Qed.

Lemma update_connection_same id f w : Spec.same_requests w (update_connection id f w).
Proof. apply same_requests_fields; reflexivity. Qed.

(** *** Records that go *)

Lemma same_requests_kept w w' : Spec.same_requests w w' → Spec.requesters_kept w w'.
Proof.
  intros [H1 H2]. split; [exact H1 |]. intros i info' Hi.
  specialize (H2 i). rewrite Hi in H2. cbn in H2.
  destruct (global_subscriptions_ w !! i) as [info |]; [| discriminate H2].
  exists info. split; [reflexivity |]. cbn in H2. congruence.
Qed.

Lemma requesters_kept_trans w1 w2 w3 :
  Spec.requesters_kept w1 w2 → Spec.requesters_kept w2 w3 → Spec.requesters_kept w1 w3.
Proof.
  intros [A1 A2] [B1 B2]. split; [congruence |]. intros i info3 Hi.
  destruct (B2 i info3 Hi) as (info2 & H2 & E2).
  destruct (A2 i info2 H2) as (info1 & H1 & E1).
  exists info1. split; [exact H1 | congruence].
Qed.

Lemma requesters_kept_known w w' :
  Spec.requesters_kept w w' → Spec.requesters_known w → Spec.requesters_known w'.
Proof.
  intros [H1 H2] Hk i info' Hi.
  destruct (H2 i info' Hi) as (info & Hi0 & E).
  destruct (Hk i info Hi0) as [Hne Hs]. rewrite E, H1. split; assumption.
Qed.

Lemma erase_all_lookup l : ∀ w i,
  global_subscriptions_
    (fold_left (fun w instrument =>
                  with_global (delete instrument (global_subscriptions_ w)) w) l w) !! i
  = if decide (i ∈ l) then None else global_subscriptions_ w !! i.
Proof.
  induction l as [| j l IH]; intros w i.
  - cbn. rewrite decide_False by apply not_elem_of_nil. reflexivity.
  - cbn [fold_left]. rewrite IH. cbn.
    destruct (decide (i ∈ l)) as [Hin | Hnin].
    + rewrite decide_True by (apply elem_of_cons; right; exact Hin). reflexivity.
    + destruct (decide (i = j)) as [-> | Hne].
      * rewrite decide_True by apply list_elem_of_here. apply lookup_delete_eq.
      * rewrite decide_False by (rewrite elem_of_cons; tauto).
        apply lookup_delete_ne. congruence.
Qed.

Lemma erase_all_sessions l : ∀ w,
  session_subscriptions_
    (fold_left (fun w instrument =>
                  with_global (delete instrument (global_subscriptions_ w)) w) l w)
  = session_subscriptions_ w.
Proof.
  induction l as [| j l IH]; intros w; [reflexivity |].
  cbn [fold_left]. rewrite IH. reflexivity.
Qed.

Lemma cleanup_kept now w :
  Spec.requesters_kept w (cleanup_expired_subscriptions now w).
Proof.
  unfold cleanup_expired_subscriptions. split; [apply erase_all_sessions |].
  intros i info' Hi. rewrite erase_all_lookup in Hi.
  destruct (decide (i ∈ _)); [discriminate Hi |].
  exists info'. split; [exact Hi | reflexivity].
Qed.

(** *** Asking and giving up *)

Lemma known_intro w w' i s :
  Spec.requesters_known w →
  (∀ k, default ∅ (session_subscriptions_ w !! k)
        ⊆ default ∅ (session_subscriptions_ w' !! k)) →
  i ∈ default ∅ (session_subscriptions_ w' !! s) →
  (∀ k, k ≠ i → global_subscriptions_ w' !! k = global_subscriptions_ w !! k) →
  (∀ info', global_subscriptions_ w' !! i = Some info' →
            requesting_sessions info' ≠ ∅
            ∧ ∀ s', s' ∈ requesting_sessions info' →
                    s' = s
                    ∨ ∃ info, global_subscriptions_ w !! i = Some info
                              ∧ s' ∈ requesting_sessions info) →
  Spec.requesters_known w'.
Proof.
  intros Hk Hmono Hi Hother Hrec k info' Hlk.
  destruct (decide (k = i)) as [-> | Hne].
  - destruct (Hrec info' Hlk) as [H1 H2]. split; [exact H1 |].
    intros s' Hs'. destruct (H2 s' Hs') as [-> | (info & Hinfo & Hin)]; [exact Hi |].
    apply Hmono. apply (Hk i info Hinfo). exact Hin.
  - rewrite Hother in Hlk by exact Hne. destruct (Hk k info' Hlk) as [H1 H2].
    split; [exact H1 |]. intros s' Hs'. apply Hmono. apply H2. exact Hs'.
Qed.

Lemma add_subscription_known now w s i :
  Spec.requesters_known w →
  Spec.requesters_known (add_subscription vendor_result now w s i).2.
Proof.
  intros Hk. unfold add_subscription.
  assert (Hmono : ∀ k, default ∅ (session_subscriptions_ w !! k)
                       ⊆ default ∅ (insert_into s i (session_subscriptions_ w) !! k)).
  { intros k. rewrite insert_into_lookup.
    destruct (decide (s = k)) as [<- | _]; [apply union_subseteq_r | reflexivity]. }
  assert (Hi : i ∈ default ∅ (insert_into s i (session_subscriptions_ w) !! s)).
  { rewrite insert_into_lookup, decide_True by reflexivity.
    apply elem_of_union_l, elem_of_singleton. reflexivity. }
  destruct (global_subscriptions_ w !! i) as [info |] eqn:Hrec.
  - cbn [snd]. eapply (known_intro w _ i s Hk).
    + exact Hmono.
    + exact Hi.
    + intros k Hne. cbn. apply lookup_alter_ne. congruence.
    + intros info'. cbn. rewrite lookup_alter_eq, Hrec. cbn. intros [= <-]. cbn.
      split.
      * intros He. assert (Hs : s ∈ ({[s]} ∪ requesting_sessions info : gset string))
          by (apply elem_of_union_l, elem_of_singleton; reflexivity).
        rewrite He in Hs. revert Hs. apply not_elem_of_empty.
      * intros s' Hs'. apply elem_of_union in Hs' as [Hs' | Hs'].
        -- left. apply elem_of_singleton in Hs'. exact Hs'.
        -- right. exists info. split; [reflexivity | exact Hs'].
  - set (w1 := with_session_subs _ (with_global _ w)).
    assert (Hk1 : Spec.requesters_known w1).
    { eapply (known_intro w w1 i s Hk).
      - exact Hmono.
      - exact Hi.
      - intros k Hne. cbn. apply lookup_insert_ne. congruence.
      - intros info'. cbn. rewrite lookup_insert_eq. intros [= <-]. cbn.
        split.
        + intros He. assert (Hs : s ∈ ({[s]} : gset string))
            by (apply elem_of_singleton; reflexivity).
          rewrite He in Hs. revert Hs. apply not_elem_of_empty.
        + intros s' Hs'. left. apply elem_of_singleton in Hs'. exact Hs'. }
    pose proof (select_same w1) as Hsel.
    destruct (select_connection_round_robin w1) as [[c |] w2]; cbn [snd] in Hsel.
    + pose proof (execute_subscription_same
                    (update_info i (with_sub_status SUBSCRIBING)
                       (update_info i (with_assigned (get_connection_id c)) w2))
                    i (get_connection_id c)) as Hex.
      destruct (execute_subscription _ _ _ _) as [result w3]. cbn [snd] in Hex.
      assert (H3 : Spec.same_requests w1 w3).
      { eapply same_requests_trans; [exact Hsel |].
        eapply same_requests_trans; [| exact Hex]. chain_same. }
      destruct result; cbn [snd].
      * eapply requesters_kept_known; [apply same_requests_kept; exact H3 | exact Hk1].
      * eapply requesters_kept_known; [| exact Hk1]. apply same_requests_kept.
        eapply same_requests_trans; [exact H3 |]. chain_same.
    + cbn [snd]. eapply requesters_kept_known; [| exact Hk1]. apply same_requests_kept.
      eapply same_requests_trans; [exact Hsel |]. chain_same.
Qed.

Lemma remove_subscription_known w s i :
  Spec.requesters_known w →
  Spec.requesters_known (remove_subscription vendor_result w s i).2.
Proof.
  intros Hk. unfold remove_subscription.
  set (w1 := with_session_subs (erase_from s i (session_subscriptions_ w)) w).
  assert (Hs1 : ∀ k j, j ≠ i → j ∈ default ∅ (session_subscriptions_ w !! k) →
                       j ∈ default ∅ (session_subscriptions_ w1 !! k)).
  { intros k j Hne Hj. unfold w1. cbn. rewrite erase_from_lookup.
    destruct (decide (s = k)) as [<- | _]; [| exact Hj].
    apply elem_of_difference. split; [exact Hj |].
    intros Hx. apply elem_of_singleton in Hx. contradiction. }
  assert (Hs2 : ∀ k, k ≠ s → default ∅ (session_subscriptions_ w1 !! k)
                             = default ∅ (session_subscriptions_ w !! k)).
  { intros k Hne. unfold w1. cbn. rewrite erase_from_lookup.
    rewrite decide_False by congruence. reflexivity. }
  change (global_subscriptions_ w1) with (global_subscriptions_ w).
  destruct (global_subscriptions_ w !! i) as [info |] eqn:Hrec.
  - set (w2 := update_info i (with_sessions (requesting_sessions info ∖ {[s]})) w1).
    assert (Hk2 : ∀ k info', k ≠ i → global_subscriptions_ w2 !! k = Some info' →
                    requesting_sessions info' ≠ ∅
                    ∧ ∀ s', s' ∈ requesting_sessions info' →
                            k ∈ default ∅ (session_subscriptions_ w2 !! s')).
    { intros k info' Hne Hlk. unfold w2 in Hlk.
      rewrite update_info_lookup_ne in Hlk by exact Hne.
      destruct (Hk k info' Hlk) as [H1 H2]. split; [exact H1 |].
      intros s' Hs'. apply (Hs1 s' k Hne). apply H2. exact Hs'. }
    destruct (decide (requesting_sessions info ∖ {[s]} = ∅)) as [He | Hne].
    + pose proof (execute_unsubscription_same w2 i (assigned_connection_id info)) as Hex.
      destruct (execute_unsubscription _ _ _ _) as [r w3]. cbn [snd] in Hex |- *.
      destruct Hex as [E1 E2].
      intros k info' Hlk. cbn in Hlk.
      destruct (decide (k = i)) as [-> | Hki];
        [rewrite lookup_delete_eq in Hlk; discriminate Hlk |].
      rewrite lookup_delete_ne in Hlk by congruence.
      specialize (E2 k). rewrite Hlk in E2.
      destruct (global_subscriptions_ w2 !! k) as [info2 |] eqn:Hlk2;
        cbn [fmap option_fmap option_map] in E2; [| discriminate E2].
      injection E2 as E2.
      destruct (Hk2 k info2 Hki Hlk2) as [H1 H2].
      cbn. rewrite E1, E2. split; [exact H1 | exact H2].
    + cbn [snd]. intros k info' Hlk.
      destruct (decide (k = i)) as [-> | Hki].
      * unfold w2 in Hlk. rewrite update_info_lookup_eq in Hlk.
        change (global_subscriptions_ w1) with (global_subscriptions_ w) in Hlk.
        rewrite Hrec in Hlk. cbn in Hlk. injection Hlk as <-. cbn.
        split; [exact Hne |].
        intros s' Hs'. apply elem_of_difference in Hs' as [Hs' Hns].
        assert (s' ≠ s) by (intros ->; apply Hns, elem_of_singleton; reflexivity).
        change (i ∈ default ∅ (session_subscriptions_ w1 !! s')).
        rewrite (Hs2 s') by assumption. apply (Hk i info Hrec). exact Hs'.
      * apply (Hk2 k info' Hki Hlk).
  - cbn [snd]. intros k info' Hlk.
    change (global_subscriptions_ w1 !! k = Some info') in Hlk.
    change (global_subscriptions_ w1) with (global_subscriptions_ w) in Hlk.
    destruct (Hk k info' Hlk) as [H1 H2]. split; [exact H1 |].
    intros s' Hs'. apply (Hs1 s' k); [| apply H2; exact Hs'].
    intros ->. rewrite Hrec in Hlk. discriminate Hlk.
Qed.

Lemma remove_all_known w s :
  Spec.requesters_known w →
  Spec.requesters_known (remove_all_subscriptions_for_session vendor_result w s).
Proof.
  unfold remove_all_subscriptions_for_session.
  generalize (match session_subscriptions_ w !! s with
              | Some s0 => in_order s0
              | None => []
              end) as l.
  intros l. revert w. induction l as [| i l IH]; intros w Hk; [exact Hk |].
  cbn [fold_left]. apply IH. apply remove_subscription_known. exact Hk.
Qed.

Lemma step_kept now w e :
  (∀ s i, e ≠ AddSubscription s i) → (∀ s i, e ≠ RemoveSubscription s i) →
  (∀ s, e ≠ RemoveAllForSession s) →
  Spec.requesters_kept w (step vendor_result now w e).
Proof.
  intros H1 H2 H3.
  destruct e as [s i | s i | s | | id b | id | id | id | id err | id i err | id i err
                 | id err]; cbn [step].
  - exfalso. apply (H1 s i). reflexivity.
  - exfalso. apply (H2 s i). reflexivity.
  - exfalso. apply (H3 s). reflexivity.
  - unfold maintenance_round. eapply requesters_kept_trans; [| apply cleanup_kept].
    apply same_requests_kept, process_pending_same.
  - apply same_requests_kept, update_connection_same.
  - apply same_requests_kept, update_connection_same.
  - apply same_requests_kept. unfold OnFrontConnected.
    destruct (connections_ w !! id); [| apply same_requests_refl].
    destruct (login _ _ _). apply same_requests_fields; reflexivity.
  - apply same_requests_kept. unfold OnFrontDisconnected.
    destruct (connections_ w !! id); [| apply same_requests_refl].
    eapply same_requests_trans; [apply update_connection_same |].
    apply handle_connection_failure_same.
  - apply same_requests_kept. unfold OnRspUserLogin.
    destruct (connections_ w !! id); [| apply same_requests_refl].
    destruct (negb _); [apply update_connection_same |].
    unfold handle_connection_recovery.
    eapply same_requests_trans; [apply update_connection_same | apply process_pending_same].
  - apply same_requests_kept. unfold OnRspSubMarketData.
    destruct (connections_ w !! id); [| apply same_requests_refl].
    destruct (negb _).
    + eapply same_requests_trans; [| apply update_connection_same].
      destruct i; [apply on_subscription_failed_same | apply same_requests_refl].
    + destruct i; [apply on_subscription_success_same | apply same_requests_refl].
  - apply same_requests_kept. unfold OnRspUnSubMarketData.
    destruct (connections_ w !! id); [| apply same_requests_refl].
    destruct (negb _); [apply update_connection_same |].
    destruct i; [| apply same_requests_refl].
    apply same_requests_fields; reflexivity.
  - apply same_requests_kept. unfold OnRspError.
    destruct (negb _); [apply update_connection_same | apply same_requests_refl].
Qed.

Lemma step_known now w e :
  Spec.requesters_known w → Spec.requesters_known (step vendor_result now w e).
Proof.
  intros Hk.
  destruct e as [s i | s i | s | | id b | id | id | id | id err | id i err | id i err
                 | id err] eqn:He;
    try (rewrite <- He; eapply requesters_kept_known; [| exact Hk];
         apply step_kept; rewrite He; intros; discriminate).
  - apply add_subscription_known. exact Hk.
  - apply remove_subscription_known. exact Hk.
  - apply remove_all_known. exact Hk.
Qed.

(** X15 (no record without a requester).  After any run of the
    dispatcher from its initial state — subscriptions coming and going,
    connections failing and recovering, vendor callbacks, maintenance
    rounds — every subscription record is asked for by at least one
    session, and every session that asks for an instrument has it in its
    own set of subscriptions. *)
Theorem records_have_requesters (max_retry_count : Z)
    (configs : list CTPConnectionConfig) (events : list (Z * Event)) :
  Spec.requesters_known
    (run vendor_result (initial_world max_retry_count configs) events).
Proof.
  unfold run.
  assert (H0 : Spec.requesters_known (initial_world max_retry_count configs)).
  { intros i info Hi. cbn in Hi. rewrite lookup_empty in Hi. discriminate Hi. }
  revert H0. generalize (initial_world max_retry_count configs) as w.
  induction events as [| [t e] events IH]; intros w Hk; [exact Hk |].
  cbn [fold_left]. apply IH. apply step_known. exact Hk.
Qed.

End DispatchExtras.

(** ** Selection, retries, cleaning and failover *)

Section DispatchMore.
Import Dispatch.
Variable vendor_result : list UpstreamCall → UpstreamCall → Z.

(** *** Round robin *)

Lemma select_spec w :
  get_available_connections w ≠ [] →
  select_connection_round_robin w
  = (get_available_connections w
       !! Z.to_nat (round_robin_counter_ w
                    mod Z.of_nat (length (get_available_connections w))),
     with_counter ((round_robin_counter_ w + 1) mod 2 ^ 64) w).
Proof.
  intros Hne. unfold select_connection_round_robin.
  destruct (get_available_connections w) as [| c l]; [contradiction | reflexivity].
Qed.

Lemma select_repeatedly_spec n : ∀ w,
  get_available_connections w ≠ [] →
  0 ≤ round_robin_counter_ w →
  round_robin_counter_ w + Z.of_nat n < 2 ^ 64 →
  (select_repeatedly n w).1
  = map (fun j => get_available_connections w
                    !! Z.to_nat ((round_robin_counter_ w + Z.of_nat j)
                                 mod Z.of_nat (length (get_available_connections w))))
        (seq 0 n)
  ∧ round_robin_counter_ (select_repeatedly n w).2 = round_robin_counter_ w + Z.of_nat n
  ∧ connections_ (select_repeatedly n w).2 = connections_ w.
Proof.
  induction n as [| n IH]; intros w Hne H0 Hlt.
  - cbn. rewrite Z.add_0_r. repeat split.
  - cbn [select_repeatedly]. rewrite (select_spec w Hne).
    set (w1 := with_counter ((round_robin_counter_ w + 1) mod 2 ^ 64) w).
    assert (Hc1 : round_robin_counter_ w1 = round_robin_counter_ w + 1).
    { unfold w1. cbn. apply Z.mod_small. lia. }
    assert (Ha1 : get_available_connections w1 = get_available_connections w)
      by reflexivity.
    destruct (IH w1) as (E1 & E2 & E3).
    { rewrite Ha1. exact Hne. }
    { lia. }
    { lia. }
    destruct (select_repeatedly n w1) as [cs w2]. cbn [fst snd] in *.
    split; [| split; [lia | rewrite E3; reflexivity]].
    cbn [seq map]. rewrite Z.add_0_r. f_equal.
    rewrite E1, <- seq_shift, map_map. apply map_ext. intros j.
    rewrite Ha1, Hc1. do 3 f_equal. lia.
Qed.

(** X14 (round robin).  While the set of available connections stays
    the same and the 64-bit counter does not wrap, as many consecutive
    selections as there are available connections pick each of them
    exactly once: the picks are the available connections, in the order
    of their ids, rotated by the counter. *)
Theorem round_robin_cycle (w : World) :
  get_available_connections w ≠ [] →
  0 ≤ round_robin_counter_ w →
  round_robin_counter_ w + Z.of_nat (length (get_available_connections w)) < 2 ^ 64 →
  (select_repeatedly (length (get_available_connections w)) w).1
  = map Some (rotate (Z.to_nat (round_robin_counter_ w)) (get_available_connections w)).
Proof.
  intros Hne H0 Hlt.
  destruct (select_repeatedly_spec _ w Hne H0 Hlt) as (E & _). rewrite E.
  set (l := get_available_connections w) in *.
  apply list_eq. intros i.
  rewrite !list_lookup_fmap.
  destruct (decide (i < length l)%nat) as [Hi | Hi].
  - rewrite lookup_seq_lt by exact Hi. rewrite lookup_rotate_r by exact Hi.
    cbn. unfold rotate_nat_add. rewrite Z2Nat.id by exact H0.
    assert (Hlen : (0 < length l)%nat) by (destruct l; [contradiction | simpl; lia]).
    destruct (lookup_lt_is_Some_2 l
                (Z.to_nat ((round_robin_counter_ w + Z.of_nat i) mod Z.of_nat (length l))))
      as [c Hc].
    { pose proof (Z.mod_pos_bound (round_robin_counter_ w + Z.of_nat i)
                    (Z.of_nat (length l)) ltac:(lia)). lia. }
    rewrite Hc. reflexivity.
  - rewrite lookup_seq_ge by lia.
    rewrite (lookup_ge_None_2 (rotate _ l)) by (rewrite length_rotate; lia).
    reflexivity.
Qed.

(** *** What a drain leaves in the retry set *)

Lemma retry_one_shrinks failed_again w i :
  let acc' := retry_one vendor_result (failed_again, w) i in
  retry_set_ acc'.2 = retry_set_ w
  ∧ max_retry_count_ acc'.2 = max_retry_count_ w
  ∧ (∀ k, k ≠ i → global_subscriptions_ acc'.2 !! k = global_subscriptions_ w !! k)
  ∧ (∀ x, x ∈ acc'.1 →
          x ∈ failed_again
          ∨ (x = i ∧ ∃ info, global_subscriptions_ acc'.2 !! i = Some info
                             ∧ status info = FAILED
                             ∧ retry_count info < max_retry_count_ w)).
Proof.
  unfold retry_one.
  destruct (global_subscriptions_ w !! i) as [info |] eqn:Hrec;
    [| cbn; repeat split; try reflexivity; intros x Hx; left; exact Hx].
  destruct (bool_decide (status info = FAILED)) eqn:Hst;
    [| cbn; repeat split; try reflexivity; intros x Hx; left; exact Hx].
  apply bool_decide_eq_true in Hst.
  pose proof (select_books w) as (S1 & S2 & S3).
  destruct (select_connection_round_robin w) as [[c |] w1]; cbn [snd] in S1, S2, S3.
  - set (w2 := update_info i (with_sub_status SUBSCRIBING)
                 (update_info i (with_assigned (get_connection_id c)) w1)).
    pose proof (execute_subscription_books vendor_result w2 i (get_connection_id c))
      as (X1 & X2 & X3).
    destruct (execute_subscription vendor_result w2 i (get_connection_id c)) as [ok w3].
    cbn [snd] in X1, X2, X3.
    assert (Hother : ∀ k, k ≠ i → global_subscriptions_ w3 !! k = global_subscriptions_ w !! k).
    { intros k Hk. rewrite X1. unfold w2.
      rewrite !update_info_lookup_ne by exact Hk. rewrite S1. reflexivity. }
    assert (Hi3 : global_subscriptions_ w3 !! i
                  = Some (with_sub_status SUBSCRIBING
                            (with_assigned (get_connection_id c) info))).
    { rewrite X1. unfold w2. rewrite !update_info_lookup_eq, S1, Hrec. reflexivity. }
    destruct ok; cbn [fst snd].
    + split; [exact (eq_trans X2 S2) |]. split; [exact (eq_trans X3 S3) |].
      split; [intros k Hk; rewrite update_info_lookup_ne by exact Hk; apply Hother; exact Hk |].
      intros x Hx. left. exact Hx.
    + assert (Hmax : max_retry_count_ (update_info i (with_sub_status FAILED) w3)
                     = max_retry_count_ w) by (exact (eq_trans X3 S3)).
      rewrite Hmax.
      destruct (retry_count info <? max_retry_count_ w) eqn:Hlt; cbn [fst snd].
      * split; [exact (eq_trans X2 S2) |]. split; [exact Hmax |].
        split; [intros k Hk; rewrite update_info_lookup_ne by exact Hk; apply Hother; exact Hk |].
        intros x Hx. apply elem_of_union in Hx as [Hx | Hx]; [| left; exact Hx].
        apply elem_of_singleton in Hx. right. split; [exact Hx |].
        rewrite update_info_lookup_eq, Hi3. eexists. split; [reflexivity |].
        split; [reflexivity |]. apply Z.ltb_lt in Hlt. exact Hlt.
      * split; [exact (eq_trans X2 S2) |]. split; [exact Hmax |].
        split; [intros k Hk; rewrite update_info_lookup_ne by exact Hk; apply Hother; exact Hk |].
        intros x Hx. left. exact Hx.
  - rewrite S3.
    destruct (retry_count info <? max_retry_count_ w) eqn:Hlt; cbn [fst snd].
    + split; [exact S2 |]. split; [exact S3 |].
      split; [intros k _; rewrite S1; reflexivity |].
      intros x Hx. apply elem_of_union in Hx as [Hx | Hx]; [| left; exact Hx].
      apply elem_of_singleton in Hx. right. split; [exact Hx |].
      rewrite S1. exists info. split; [exact Hrec |]. split; [exact Hst |].
      apply Z.ltb_lt in Hlt. exact Hlt.
    + split; [exact S2 |]. split; [exact S3 |].
      split; [intros k _; rewrite S1; reflexivity |].
      intros x Hx. left. exact Hx.
Qed.

Lemma retry_fold_shrinks l : ∀ failed_again w,
  NoDup l →
  let acc' := fold_left (retry_one vendor_result) l (failed_again, w) in
  retry_set_ acc'.2 = retry_set_ w
  ∧ max_retry_count_ acc'.2 = max_retry_count_ w
  ∧ (∀ k, k ∉ l → global_subscriptions_ acc'.2 !! k = global_subscriptions_ w !! k)
  ∧ (∀ x, x ∈ acc'.1 →
          x ∈ failed_again
          ∨ (x ∈ l ∧ ∃ info, global_subscriptions_ acc'.2 !! x = Some info
                             ∧ status info = FAILED
                             ∧ retry_count info < max_retry_count_ w)).
Proof.
  induction l as [| i l IH]; intros failed_again w Hnd.
  - cbn. repeat split; try reflexivity. intros x Hx. left. exact Hx.
  - apply NoDup_cons in Hnd as [Hi Hnd]. cbn [fold_left].
    pose proof (retry_one_shrinks failed_again w i) as (A1 & A2 & A3 & A4).
    destruct (retry_one vendor_result (failed_again, w) i) as [fa1 w1].
    cbn [fst snd] in A1, A2, A3, A4.
    destruct (IH fa1 w1 Hnd) as (B1 & B2 & B3 & B4).
    split; [congruence |]. split; [congruence |].
    split.
    { intros k Hk. apply not_elem_of_cons in Hk as [Hki Hkl].
      rewrite B3 by exact Hkl. apply A3. exact Hki. }
    intros x Hx. destruct (B4 x Hx) as [Hx1 | (Hxl & info & Hinfo & Hst & Hlt)].
    + destruct (A4 x Hx1) as [Hx0 | (-> & info & Hinfo & Hst & Hlt)]; [left; exact Hx0 |].
      right. split; [apply list_elem_of_here |].
      exists info. rewrite B3 by exact Hi. repeat split; assumption.
    + right. split; [apply list_elem_of_further; exact Hxl |].
      exists info. rewrite <- A2. repeat split; assumption.
Qed.

(** X17 (a drain only shrinks the retry set).  After
    [process_pending_subscriptions] the retry set holds only instruments
    that were in it before, and each of them has a record that is FAILED
    with a retry count below the maximum; whatever else was queued — an
    instrument whose record is gone, or is no longer FAILED — has left
    the set. *)
Theorem drain_only_shrinks (w : World) (i : string) :
  i ∈ retry_set_ (process_pending_subscriptions vendor_result w) →
  i ∈ retry_set_ w
  ∧ ∃ info, global_subscriptions_ (process_pending_subscriptions vendor_result w) !! i
            = Some info
            ∧ status info = FAILED
            ∧ retry_count info < max_retry_count_ w.
Proof.
  unfold process_pending_subscriptions, drain_retry_set.
  pose proof (retry_fold_shrinks (in_order (retry_set_ w)) ∅ (with_retry_set ∅ w)
                (NoDup_in_order _)) as (A1 & A2 & A3 & A4).
  destruct (fold_left _ _ _) as [failed_again w1]. cbn [fst snd] in *.
  intros Hi. rewrite A1 in Hi. apply elem_of_union in Hi as [Hi | Hi];
    [| exfalso; revert Hi; apply not_elem_of_empty].
  destruct (A4 i Hi) as [H | (Hin & info & Hinfo & Hst & Hlt)];
    [exfalso; revert H; apply not_elem_of_empty |].
  split; [apply elem_of_in_order; exact Hin |].
  exists info. repeat split; assumption.
Qed.

(** *** What the cleaning removes *)

Lemma erase_all_rest l : ∀ w,
  let w' := fold_left (fun w instrument =>
                         with_global (delete instrument (global_subscriptions_ w)) w) l w in
  connections_ w' = connections_ w
  ∧ retry_set_ w' = retry_set_ w
  ∧ session_subscriptions_ w' = session_subscriptions_ w
  ∧ connection_subscriptions_ w' = connection_subscriptions_ w
  ∧ upstream_calls w' = upstream_calls w
  ∧ round_robin_counter_ w' = round_robin_counter_ w.
Proof.
  induction l as [| j l IH]; intros w; [repeat split |].
  cbn [fold_left]. cbn zeta in IH.
  destruct (IH (with_global (delete j (global_subscriptions_ w)) w))
    as (A1 & A2 & A3 & A4 & A5 & A6).
  repeat split; assumption.
Qed.

(** X16 (what the cleaning removes).  [cleanup_expired_subscriptions]
    deletes exactly the records that are FAILED and whose last update
    is more than ten minutes old — a record that failed exactly ten
    minutes ago stays — and touches nothing else: the retry set and the
    sets of the sessions still name an instrument whose record it has
    deleted. *)
Theorem cleanup_exact (now : Z) (w : World) :
  (∀ i, global_subscriptions_ (cleanup_expired_subscriptions now w) !! i
        = match global_subscriptions_ w !! i with
          | Some info =>
              if bool_decide (status info = FAILED)
                 && (ten_minutes <? now - last_update_time info)
              then None else Some info
          | None => None
          end)
  ∧ retry_set_ (cleanup_expired_subscriptions now w) = retry_set_ w
  ∧ session_subscriptions_ (cleanup_expired_subscriptions now w) = session_subscriptions_ w
  ∧ connection_subscriptions_ (cleanup_expired_subscriptions now w)
    = connection_subscriptions_ w
  ∧ connections_ (cleanup_expired_subscriptions now w) = connections_ w
  ∧ upstream_calls (cleanup_expired_subscriptions now w) = upstream_calls w.
Proof.
  unfold cleanup_expired_subscriptions.
  match goal with
  | |- context [fold_left _ ?l w] =>
      pose proof (erase_all_rest l w) as (A1 & A2 & A3 & A4 & A5 & _);
      pose proof (erase_all_lookup l w) as Hl; set (todo := l) in *
  end.
  split; [| repeat split; assumption].
  intros i. rewrite Hl.
  destruct (global_subscriptions_ w !! i) as [info |] eqn:Hrec.
  - destruct (bool_decide (status info = FAILED)
              && (ten_minutes <? now - last_update_time info)) eqn:Hf.
    + rewrite decide_True; [reflexivity |].
      unfold todo. apply list_elem_of_fmap. exists (i, info). split; [reflexivity |].
      apply list_elem_of_In, filter_In. split; [| exact Hf].
      apply list_elem_of_In, elem_of_in_key_order. exact Hrec.
    + rewrite decide_False; [reflexivity |].
      unfold todo. intros Hin. apply list_elem_of_fmap in Hin as ([k info'] & Hk & Hin).
      cbn [fst] in Hk. subst k.
      apply list_elem_of_In, filter_In in Hin as [Hin Hf'].
      apply list_elem_of_In, elem_of_in_key_order in Hin.
      rewrite Hrec in Hin. injection Hin as <-. cbn [snd] in Hf'. congruence.
  - destruct (decide (i ∈ todo)); reflexivity.
Qed.

(** *** What a failover leaves alone *)

(** X18 (what a failover leaves alone).  [handle_connection_failure]
    changes only the records that are ACTIVE on the failed connection:
    every other record is after it exactly what it was before, and is
    not put into the retry set — also a record that is SUBSCRIBING or
    FAILED on the failed connection, which is neither moved to another
    connection nor queued for a retry. *)
Theorem failover_spares_others (w : World) (conn i : string) (info : SubscriptionInfo) :
  global_subscriptions_ w !! i = Some info →
  ¬ (assigned_connection_id info = conn ∧ status info = ACTIVE) →
  global_subscriptions_ (handle_connection_failure vendor_result w conn) !! i = Some info
  ∧ (i ∈ retry_set_ (handle_connection_failure vendor_result w conn) → i ∈ retry_set_ w).
Proof.
  intros Hrec Hnot. unfold handle_connection_failure.
  assert (Hi : i ∉ affected_by w conn).
  { intros Hin. apply elem_of_affected_by in Hin as (info' & Hrec' & H1 & H2).
    rewrite Hrec in Hrec'. injection Hrec' as <-. apply Hnot. split; assumption. }
  split.
  - cbn. rewrite (failover_fold_other vendor_result conn _ _ i Hi).
    rewrite mark_failed_lookup, decide_False by exact Hi. exact Hrec.
  - cbn. intros Hq. apply failover_fold_queue in Hq as [Hq | Hq]; [contradiction |].
    destruct (mark_failed_books (affected_by w conn) w) as [E _]. cbn zeta in E.
    rewrite E in Hq. exact Hq.
Qed.

End DispatchMore.

Section DispatchWitnesses.
Import Dispatch.

Lemma round_robin_cycle_witness :
  (select_repeatedly (length (get_available_connections Scenario.two_fronts))
     Scenario.two_fronts).1
  = map Some (rotate (Z.to_nat (round_robin_counter_ Scenario.two_fronts))
                (get_available_connections Scenario.two_fronts)).
Proof.
  apply (round_robin_cycle Scenario.two_fronts).
  - vm_compute. discriminate.
  - vm_compute. discriminate.
  - vm_compute. reflexivity.
Defined.

Lemma drain_only_shrinks_witness :
  "rb2501" ∈ retry_set_ (add_subscription Scenario.accepts 0 Scenario.no_front "s1" "rb2501").2
  ∧ ∃ info,
      global_subscriptions_
        (process_pending_subscriptions Scenario.accepts
           (add_subscription Scenario.accepts 0 Scenario.no_front "s1" "rb2501").2)
        !! "rb2501" = Some info
      ∧ status info = FAILED
      ∧ retry_count info
        < max_retry_count_
            (add_subscription Scenario.accepts 0 Scenario.no_front "s1" "rb2501").2.
Proof.
  apply (drain_only_shrinks Scenario.accepts
           (add_subscription Scenario.accepts 0 Scenario.no_front "s1" "rb2501").2 "rb2501").
  vm_compute. reflexivity.
Defined.

Lemma failover_spares_others_witness :
  global_subscriptions_
    (handle_connection_failure Scenario.accepts Scenario.two_fronts "c2") !! "rb2501"
  = global_subscriptions_ Scenario.two_fronts !! "rb2501"
  ∧ ("rb2501" ∈ retry_set_ (handle_connection_failure Scenario.accepts
                              Scenario.two_fronts "c2") →
     "rb2501" ∈ retry_set_ Scenario.two_fronts).
Proof.
  assert (E : global_subscriptions_ Scenario.two_fronts !! "rb2501"
              = Some {| instrument_id := "rb2501"; assigned_connection_id := "c1";
                        status := ACTIVE; requesting_sessions := {["s1"]};
                        created_time := 3; last_update_time := 4; retry_count := 0 |})
    by (vm_compute; reflexivity).
  rewrite E.
  apply (failover_spares_others Scenario.accepts Scenario.two_fronts "c2" "rb2501").
  - exact E.
  - cbn. intros [H _]. discriminate H.
Defined.

End DispatchWitnesses.

(** ** The states of a record, and the health monitor *)

Section StatusExtras.
Import Dispatch.
Variable vendor_result : list UpstreamCall → UpstreamCall → Z.

Lemma status_kept_refl w : Spec.status_kept w w.
Proof. intros i info Hi. right. exists info. split; [exact Hi | reflexivity]. Qed.

Lemma status_kept_trans w1 w2 w3 :
  Spec.status_kept w1 w2 → Spec.status_kept w2 w3 → Spec.status_kept w1 w3.
Proof.
  intros H12 H23 i info3 Hi.
  destruct (H23 i info3 Hi) as [H | (info2 & H2 & E2)]; [left; exact H |].
  destruct (H12 i info2 H2) as [H | (info1 & H1 & E1)].
  - left. rewrite E2. exact H.
  - right. exists info1. split; [exact H1 | congruence].
Qed.

Lemma status_kept_settled w w' :
  Spec.status_kept w w' → Spec.settled w → Spec.settled w'.
Proof.
  intros Hk Hs i info' Hi.
  destruct (Hk i info' Hi) as [H | (info & Hinfo & E)]; [exact H |].
  rewrite E. apply (Hs i info Hinfo).
Qed.

Lemma status_kept_fields w w' :
  global_subscriptions_ w' = global_subscriptions_ w → Spec.status_kept w w'.
Proof. intros E i info Hi. right. exists info. rewrite <- E. split; [exact Hi | reflexivity]. Qed.

Lemma status_kept_books w w' : same_books w w' → Spec.status_kept w w'.
Proof. intros (E & _). apply status_kept_fields. exact E. Qed.

Lemma update_info_status i f w :
  (∀ x, Spec.settled_status (status (f x)) ∨ status (f x) = status x) →
  Spec.status_kept w (update_info i f w).
Proof.
  intros Hf k info' Hk. rewrite update_info_lookup in Hk.
  destruct (decide (i = k)) as [<- | _].
  - destruct (global_subscriptions_ w !! i) as [info |] eqn:Hi; [| discriminate Hk].
    cbn in Hk. injection Hk as <-.
    destruct (Hf info) as [H | H]; [left; exact H |].
    right. exists info. split; [reflexivity | exact H].
  - right. exists info'. split; [exact Hk | reflexivity].
Qed.

Lemma fold_status {A : Type} (f : World → A → World) l :
  (∀ w x, Spec.status_kept w (f w x)) →
  ∀ w, Spec.status_kept w (fold_left f l w).
Proof.
  intros Hf. induction l as [| x l IH]; intros w; [apply status_kept_refl |].
  cbn [fold_left]. eapply status_kept_trans; [apply Hf | apply IH].
Qed.

Ltac set_good :=
  apply update_info_status; intros x; first
    [ left; unfold Spec.settled_status; cbn; tauto | right; reflexivity ].

Ltac chain_status :=
  repeat first
    [ apply status_kept_refl
    | set_good
    | apply status_kept_fields; reflexivity
    | eapply status_kept_trans; [| set_good ] ].

Lemma retry_if_allowed_status i w : Spec.status_kept w (retry_if_allowed i w).
Proof.
  apply status_kept_fields. apply (retry_if_allowed_spec i w).
Qed.

Lemma migrate_status w i from to :
  Spec.status_kept w (migrate_subscription vendor_result w i from to).
Proof.
  unfold migrate_subscription.
  destruct (global_subscriptions_ w !! i); [| apply status_kept_refl].
  match goal with
  | |- context [execute_subscription vendor_result ?w2 i to] =>
      pose proof (execute_subscription_books vendor_result w2 i to) as H;
      destruct (execute_subscription vendor_result w2 i to) as [ok w3];
      assert (H0 : Spec.status_kept w w3)
        by (eapply status_kept_trans; [| apply status_kept_books; exact H]; chain_status)
  end.
  destruct ok; [exact H0 |].
  eapply status_kept_trans; [| apply retry_if_allowed_status].
  eapply status_kept_trans; [exact H0 |]. chain_status.
Qed.

Lemma failover_one_status conn w i :
  Spec.status_kept w (failover_one vendor_result conn w i).
Proof.
  unfold failover_one.
  pose proof (select_books w) as H.
  destruct (select_connection_round_robin w) as [[c |] w1]; cbn [snd] in H;
    apply status_kept_books in H.
  - destruct (negb _).
    + eapply status_kept_trans; [exact H | apply migrate_status].
    + eapply status_kept_trans; [exact H | apply retry_if_allowed_status].
  - eapply status_kept_trans; [exact H | apply retry_if_allowed_status].
Qed.

Lemma handle_connection_failure_status w conn :
  Spec.status_kept w (handle_connection_failure vendor_result w conn).
Proof.
  unfold handle_connection_failure.
  eapply status_kept_trans; [| apply status_kept_fields; reflexivity].
  eapply status_kept_trans.
  - apply (fold_status (fun w i => update_info i (with_sub_status FAILED) w)).
    intros w0 j. set_good.
  - apply fold_status. intros w0 j. apply failover_one_status.
Qed.

Lemma on_subscription_success_status now w conn i :
  Spec.status_kept w (on_subscription_success now w conn i).
Proof.
  unfold on_subscription_success.
  destruct (global_subscriptions_ w !! i); [| apply status_kept_refl].
  eapply status_kept_trans; [| apply status_kept_fields; reflexivity].
  chain_status.
Qed.

Lemma on_subscription_failed_status now w conn i :
  Spec.status_kept w (on_subscription_failed now w conn i).
Proof.
  unfold on_subscription_failed.
  destruct (global_subscriptions_ w !! i); [| apply status_kept_refl].
  eapply status_kept_trans; [| apply retry_if_allowed_status]. chain_status.
Qed.

Lemma retry_one_status acc i :
  Spec.status_kept acc.2 (retry_one vendor_result acc i).2.
Proof.
  destruct acc as [failed_again w]. unfold retry_one. cbn [snd].
  destruct (global_subscriptions_ w !! i) as [info |]; [| apply status_kept_refl].
  destruct (bool_decide (status info = FAILED)); [| apply status_kept_refl].
  pose proof (select_books w) as H.
  destruct (select_connection_round_robin w) as [[c |] w1]; cbn [snd] in H;
    apply status_kept_books in H.
  - match goal with
    | |- context [execute_subscription vendor_result ?w2 i ?id] =>
        pose proof (execute_subscription_books vendor_result w2 i id) as H2;
        destruct (execute_subscription vendor_result w2 i id) as [ok w3];
        assert (H0 : Spec.status_kept w w3)
          by (eapply status_kept_trans; [exact H |];
              eapply status_kept_trans; [| apply status_kept_books; exact H2];
              chain_status)
    end.
    destruct ok; cbn [snd].
    + eapply status_kept_trans; [exact H0 |]. chain_status.
    + assert (H3 : Spec.status_kept w (update_info i (with_sub_status FAILED) w3))
        by (eapply status_kept_trans; [exact H0 |]; chain_status).
      cbn. destruct (_ <? _); exact H3.
  - destruct (_ <? _); exact H.
Qed.

Lemma retry_fold_status l : ∀ acc,
  Spec.status_kept acc.2 (fold_left (retry_one vendor_result) l acc).2.
Proof.
  induction l as [| i l IH]; intros acc; [apply status_kept_refl |].
  cbn [fold_left]. eapply status_kept_trans; [apply retry_one_status | apply IH].
Qed.

Lemma process_pending_status w :
  Spec.status_kept w (process_pending_subscriptions vendor_result w).
Proof.
  unfold process_pending_subscriptions, drain_retry_set.
  pose proof (retry_fold_status (in_order (retry_set_ w)) (∅, with_retry_set ∅ w)) as H.
  destruct (fold_left _ _ _) as [failed_again w1]. cbn [snd] in H.
  eapply status_kept_trans; [| apply status_kept_fields; reflexivity].
  eapply status_kept_trans; [| exact H]. apply status_kept_fields; reflexivity.
Qed.

Lemma cleanup_status now w :
  Spec.status_kept w (cleanup_expired_subscriptions now w).
Proof.
  intros i info' Hi. unfold cleanup_expired_subscriptions in Hi.
  rewrite erase_all_lookup in Hi.
  destruct (decide (i ∈ _)); [discriminate Hi |].
  right. exists info'. split; [exact Hi | reflexivity].
Qed.

Lemma add_subscription_settled now w s i :
  Spec.settled w → Spec.settled (add_subscription vendor_result now w s i).2.
Proof.
  intros Hs. unfold add_subscription.
  destruct (global_subscriptions_ w !! i) as [info |] eqn:Hrec.
  - cbn [snd]. eapply status_kept_settled; [| exact Hs].
    eapply status_kept_trans; [| apply status_kept_fields; reflexivity].
    apply update_info_status. intros x. right. reflexivity.
  - set (w1 := with_session_subs _ (with_global _ w)).
    assert (H1 : ∀ k, k ≠ i → global_subscriptions_ w1 !! k = global_subscriptions_ w !! k).
    { intros k Hk. unfold w1. cbn. apply lookup_insert_ne. congruence. }
    assert (Hi1 : is_Some (global_subscriptions_ w1 !! i)).
    { unfold w1. cbn. rewrite lookup_insert_eq. eexists; reflexivity. }
    assert (Hgoal : ∀ wf,
              (∀ k, k ≠ i → global_subscriptions_ wf !! k = global_subscriptions_ w1 !! k) →
              (∀ info', global_subscriptions_ wf !! i = Some info' →
                        Spec.settled_status (status info')) →
              Spec.settled wf).
    { intros wf Ho Hi k info' Hk. destruct (decide (k = i)) as [-> | Hne].
      - apply Hi. exact Hk.
      - rewrite Ho, H1 in Hk by exact Hne. apply (Hs k info' Hk). }
    pose proof (select_books w1) as (S1 & _).
    destruct (select_connection_round_robin w1) as [[c |] w2]; cbn [snd] in S1.
    + match goal with
      | |- context [execute_subscription vendor_result ?w3 i ?id] =>
          pose proof (execute_subscription_books vendor_result w3 i id) as (X1 & _);
          destruct (execute_subscription vendor_result w3 i id) as [result w4]
      end.
      cbn [snd] in X1.
      destruct result; cbn [snd]; apply Hgoal.
      * intros k Hk. rewrite X1, !update_info_lookup_ne, S1 by exact Hk. reflexivity.
      * intros info'. rewrite X1, !update_info_lookup_eq, S1.
        destruct Hi1 as [x ->]. cbn. intros [= <-].
        unfold Spec.settled_status. cbn. tauto.
      * intros k Hk. rewrite update_info_lookup_ne, X1, !update_info_lookup_ne, S1
          by exact Hk. reflexivity.
      * intros info'. rewrite update_info_lookup_eq, X1, !update_info_lookup_eq, S1.
        destruct Hi1 as [x ->]. cbn. intros [= <-].
        unfold Spec.settled_status. cbn. tauto.
    + cbn [snd]. apply Hgoal.
      * intros k Hk. destruct (retry_if_allowed_spec i (update_info i (with_sub_status FAILED) w2))
          as (E & _).
        rewrite E, update_info_lookup_ne, S1 by exact Hk. reflexivity.
      * intros info'.
        destruct (retry_if_allowed_spec i (update_info i (with_sub_status FAILED) w2))
          as (E & _).
        rewrite E, update_info_lookup_eq, S1. destruct Hi1 as [x ->]. cbn. intros [= <-].
        unfold Spec.settled_status. cbn. tauto.
Qed.

Lemma remove_subscription_status w s i :
  Spec.status_kept w (remove_subscription vendor_result w s i).2.
Proof.
  unfold remove_subscription.
  set (w1 := with_session_subs _ w).
  change (global_subscriptions_ w1) with (global_subscriptions_ w).
  destruct (global_subscriptions_ w !! i) as [info |];
    [| cbn [snd]; apply status_kept_fields; reflexivity].
  assert (H2 : Spec.status_kept w
                 (update_info i (with_sessions (requesting_sessions info ∖ {[s]})) w1)).
  { eapply status_kept_trans; [apply (status_kept_fields w w1); reflexivity |].
    apply update_info_status. intros x. right. reflexivity. }
  destruct (decide (_ = ∅)); [| exact H2].
  match goal with
  | |- context [execute_unsubscription vendor_result ?w2 i ?id] =>
      pose proof (execute_unsubscription_books vendor_result w2 i id) as X;
      destruct (execute_unsubscription vendor_result w2 i id) as [r w3]
  end.
  cbn [snd] in X |- *.
  eapply status_kept_trans; [exact H2 |].
  eapply status_kept_trans; [apply status_kept_books; exact X |].
  intros k info' Hk. cbn in Hk.
  destruct (decide (k = i)) as [-> | Hne];
    [rewrite lookup_delete_eq in Hk; discriminate Hk |].
  rewrite lookup_delete_ne in Hk by congruence.
  right. exists info'. split; [exact Hk | reflexivity].
Qed.

Lemma remove_all_status w s :
  Spec.status_kept w (remove_all_subscriptions_for_session vendor_result w s).
Proof.
  unfold remove_all_subscriptions_for_session.
  apply (fold_status (fun w i => (remove_subscription vendor_result w s i).2)).
  intros w0 j. apply remove_subscription_status.
Qed.

Lemma update_connection_status id f w :
  Spec.status_kept w (update_connection id f w).
Proof.
  apply status_kept_fields. unfold update_connection.
  destruct (connections_ w !! id); reflexivity.
Qed.

Lemma step_settled now w e :
  Spec.settled w → Spec.settled (step vendor_result now w e).
Proof.
  intros Hs.
  destruct e as [s i | s i | s | | id b | id | id | id | id err | id i err | id i err
                 | id err]; cbn [step];
    [ apply add_subscription_settled; exact Hs | eapply status_kept_settled; [| exact Hs] .. ].
  - apply remove_subscription_status.
  - apply remove_all_status.
  - unfold maintenance_round.
    eapply status_kept_trans; [apply process_pending_status | apply cleanup_status].
  - apply update_connection_status.
  - apply update_connection_status.
  - unfold OnFrontConnected.
    destruct (connections_ w !! id); [| apply status_kept_refl].
    destruct (login _ _ _). apply status_kept_fields; reflexivity.
  - unfold OnFrontDisconnected.
    destruct (connections_ w !! id); [| apply status_kept_refl].
    eapply status_kept_trans; [apply update_connection_status |].
    apply handle_connection_failure_status.
  - unfold OnRspUserLogin.
    destruct (connections_ w !! id); [| apply status_kept_refl].
    destruct (negb _); [apply update_connection_status |].
    unfold handle_connection_recovery.
    eapply status_kept_trans; [apply update_connection_status | apply process_pending_status].
  - unfold OnRspSubMarketData.
    destruct (connections_ w !! id); [| apply status_kept_refl].
    destruct (negb _).
    + eapply status_kept_trans; [| apply update_connection_status].
      destruct i; [apply on_subscription_failed_status | apply status_kept_refl].
    + destruct i; [apply on_subscription_success_status | apply status_kept_refl].
  - unfold OnRspUnSubMarketData.
    destruct (connections_ w !! id); [| apply status_kept_refl].
    destruct (negb _); [apply update_connection_status |].
    destruct i; [| apply status_kept_refl].
    apply status_kept_fields; reflexivity.
  - unfold OnRspError.
    destruct (negb _); [apply update_connection_status | apply status_kept_refl].
Qed.

(** X19 (the states of a record).  After any run of the dispatcher from
    its initial state every subscription record is SUBSCRIBING, ACTIVE
    or FAILED: no operation leaves a record PENDING or CANCELLED.  So
    [get_subscription_status] answers CANCELLED exactly for the
    instruments that have no record. *)
Theorem cancelled_means_unknown (max_retry_count : Z)
    (configs : list CTPConnectionConfig) (events : list (Z * Event)) (i : string) :
  Spec.settled (run vendor_result (initial_world max_retry_count configs) events)
  ∧ (get_subscription_status
       (run vendor_result (initial_world max_retry_count configs) events) i = CANCELLED
     ↔ global_subscriptions_
         (run vendor_result (initial_world max_retry_count configs) events) !! i = None).
Proof.
  assert (Hs : Spec.settled (run vendor_result (initial_world max_retry_count configs) events)).
  { unfold run.
    assert (H0 : Spec.settled (initial_world max_retry_count configs)).
    { intros k info Hk. cbn in Hk. rewrite lookup_empty in Hk. discriminate Hk. }
    revert H0. generalize (initial_world max_retry_count configs) as w.
    induction events as [| [t e] events IH]; intros w Hk; [exact Hk |].
    cbn [fold_left]. apply IH. apply step_settled. exact Hk. }
  split; [exact Hs |].
  unfold get_subscription_status.
  destruct (global_subscriptions_ _ !! i) as [info |] eqn:Hi.
  - split; [| discriminate]. intros Hc.
    destruct (Hs i info Hi) as [H | [H | H]]; congruence.
  - split; reflexivity.
Qed.

End StatusExtras.

Section HealthExtras.
Import Dispatch.

Lemma health_check_one_backed_off running api_created acc check :
  Spec.backed_off acc.1 →
  Spec.backed_off (health_check_one running api_created acc check).1.
Proof.
  destruct acc as [h w]. destruct check as [now k]. cbn [fst]. intros [Ha Hb].
  unfold health_check_one.
  destruct (connections_ w !! k) as [c |]; [| split; assumption].
  destruct (unhealthy c); [| split; assumption].
  destruct (next_restart_allowed_ h !! get_connection_id c) as [ta |] eqn:Hnext.
  - destruct (ta <=? now) eqn:Hle; [| split; assumption].
    apply Z.leb_le in Hle. cbn [fst]. split.
    + intros t id Hin. cbn in Hin |- *. apply elem_of_app in Hin as [Hin | Hin].
      * destruct (Ha t id Hin) as (ta' & Hta & Hlt).
        destruct (decide (id = get_connection_id c)) as [-> | Hne].
        -- rewrite lookup_insert_eq. eexists. split; [reflexivity |].
           rewrite Hnext in Hta. injection Hta as <-. unfold ten_seconds in *. lia.
        -- rewrite lookup_insert_ne by congruence. exists ta'. split; assumption.
      * apply list_elem_of_singleton in Hin. injection Hin as -> ->.
        rewrite lookup_insert_eq. eexists. split; [reflexivity | lia].
    + intros p q t1 t2 id Hpq Hp Hq. cbn in Hp, Hq.
      destruct (decide (q < length (restarts h))%nat) as [Hq' | Hq'].
      * rewrite lookup_app_l in Hp, Hq by lia. apply (Hb p q t1 t2 id Hpq Hp Hq).
      * rewrite lookup_app_r in Hq by lia.
        destruct (q - length (restarts h))%nat eqn:Hd; [| destruct n; discriminate Hq].
        cbn in Hq. injection Hq as <- <-.
        rewrite lookup_app_l in Hp by lia.
        apply list_elem_of_lookup_2 in Hp.
        destruct (Ha t1 _ Hp) as (ta' & Hta & Hlt).
        rewrite Hnext in Hta. injection Hta as <-. lia.
  - cbn [fst]. split.
    + intros t id Hin. cbn in Hin |- *. apply elem_of_app in Hin as [Hin | Hin].
      * destruct (Ha t id Hin) as (ta' & Hta & Hlt).
        destruct (decide (id = get_connection_id c)) as [-> | Hne].
        -- rewrite Hnext in Hta. discriminate Hta.
        -- rewrite lookup_insert_ne by congruence. exists ta'. split; assumption.
      * apply list_elem_of_singleton in Hin. injection Hin as -> ->.
        rewrite lookup_insert_eq. eexists. split; [reflexivity | lia].
    + intros p q t1 t2 id Hpq Hp Hq. cbn in Hp, Hq.
      destruct (decide (q < length (restarts h))%nat) as [Hq' | Hq'].
      * rewrite lookup_app_l in Hp, Hq by lia. apply (Hb p q t1 t2 id Hpq Hp Hq).
      * rewrite lookup_app_r in Hq by lia.
        destruct (q - length (restarts h))%nat eqn:Hd; [| destruct n; discriminate Hq].
        cbn in Hq. injection Hq as <- <-.
        rewrite lookup_app_l in Hp by lia.
        apply list_elem_of_lookup_2 in Hp.
        destruct (Ha t1 _ Hp) as (ta' & Hta & Hlt).
        rewrite Hnext in Hta. discriminate Hta.
Qed.

Lemma health_check_one_healthy running api_created h w now k :
  (∀ c, connections_ w !! k = Some c → unhealthy c = false) →
  health_check_one running api_created (h, w) (now, k) = (h, w).
Proof.
  intros H. unfold health_check_one.
  destruct (connections_ w !! k) as [c |]; [| reflexivity].
  rewrite (H c eq_refl). reflexivity.
Qed.

(** X20 (the health monitor backs off).  However the checks of the
    health monitor fall — whatever the clock readings, the state of
    the connections and the outcome of each restart — two restarts of
    the same connection are at least ten seconds apart; and a check of
    a connection that is neither in ERROR nor DISCONNECTED with more
    than five errors changes nothing. *)
Theorem restart_backoff (running : bool) (api_created : string → bool) (w : World)
    (checks : list (Z * string)) :
  (∀ p q t1 t2 id,
     (p < q)%nat →
     restarts (health_checks running api_created
                 ({| next_restart_allowed_ := ∅; restarts := [] |}, w) checks).1 !! p
     = Some (t1, id) →
     restarts (health_checks running api_created
                 ({| next_restart_allowed_ := ∅; restarts := [] |}, w) checks).1 !! q
     = Some (t2, id) →
     t1 + ten_seconds ≤ t2)
  ∧ (∀ h now k,
       (∀ c, connections_ w !! k = Some c → unhealthy c = false) →
       health_check_one running api_created (h, w) (now, k) = (h, w)).
Proof.
  split; [| intros h now k; apply health_check_one_healthy].
  assert (H : Spec.backed_off
                (health_checks running api_created
                   ({| next_restart_allowed_ := ∅; restarts := [] |}, w) checks).1).
  { unfold health_checks.
    assert (H0 : Spec.backed_off
                   ({| next_restart_allowed_ := ∅; restarts := [] |}, w).1).
    { split.
      - intros t id Hin. cbn in Hin. apply elem_of_nil in Hin. destruct Hin.
      - intros p q t1 t2 id _ Hp. cbn in Hp. rewrite lookup_nil in Hp. discriminate Hp. }
    revert H0. generalize ({| next_restart_allowed_ := ∅; restarts := [] |}, w) as acc.
    induction checks as [| check checks IH]; intros acc H0; [exact H0 |].
    cbn [fold_left]. apply IH. apply health_check_one_backed_off. exact H0. }
  exact (proj2 H).
Qed.

End HealthExtras.

(** ** The writer of a session *)

Section WriterExtras.
Import Writer.

Lemma sent_cons e events : sent (e :: events) = sent [e] ++ sent events.
Proof. unfold sent. cbn. rewrite app_nil_r. reflexivity. Qed.

Lemma step_orderly l s e s' :
  Spec.orderly l s → step s e = Some s' → Spec.orderly (l ++ sent [e]) s'.
Proof.
  destruct s as [queue current writing writes flying]. unfold Spec.orderly.
  cbn [async_writes message_queue_ is_writing_ in_flight current_write_message_].
  intros [Hl Hw] Hstep. destruct e as [message | ec]; cbn in Hstep.
  - change (sent [Send message]) with [message].
    unfold send_message in Hstep. cbn in Hstep.
    destruct writing; cbn in Hstep.
    + injection Hstep as <-. cbn. rewrite app_assoc, Hl. split; [reflexivity | exact Hw].
    + unfold start_write in Hstep. cbn in Hstep. subst flying.
      destruct queue as [| front rest]; cbn in Hstep; injection Hstep as <-; cbn.
      * rewrite app_nil_r in Hl |- *. rewrite Hl.
        split; [reflexivity | split; [reflexivity | apply last_snoc]].
      * rewrite <- Hl, <- !app_assoc. cbn.
        split; [reflexivity | split; [reflexivity | apply last_snoc]].
  - change (sent [Completed ec]) with (@nil string). rewrite app_nil_r.
    destruct flying as [| n]; [discriminate Hstep |].
    injection Hstep as <-.
    destruct writing; [| discriminate Hw]. destruct Hw as [Hn Hlast].
    injection Hn as ->.
    destruct ec; cbn.
    + split; [exact Hl | reflexivity].
    + unfold start_write. cbn. destruct queue as [| front rest]; cbn.
      * split; [exact Hl | reflexivity].
      * rewrite <- Hl, <- app_assoc. cbn.
        split; [reflexivity | split; [reflexivity | apply last_snoc]].
Qed.

Lemma run_orderly events : ∀ l s s',
  Spec.orderly l s → run s events = Some s' → Spec.orderly (l ++ sent events) s'.
Proof.
  induction events as [| e events IH]; intros l s s' Ho Hrun.
  - cbn in Hrun. injection Hrun as <-. cbn. rewrite app_nil_r. exact Ho.
  - cbn [run] in Hrun. destruct (step s e) as [s1 |] eqn:Hstep; [| discriminate Hrun].
    rewrite sent_cons, app_assoc. eapply IH; [| exact Hrun].
    eapply step_orderly; [exact Ho | exact Hstep].
Qed.

Lemma new_session_orderly : Spec.orderly [] new_session.
Proof. split; reflexivity. Qed.

(** X21 (one write at a time, in order).  However calls of
    [send_message] and completions of writes interleave, the messages
    handed to the socket followed by the ones still queued are exactly
    the messages sent, in the order sent — none lost, repeated or
    overtaken; and at most one [async_write] is outstanding, exactly
    when [is_writing_] is set. *)
Theorem writes_in_order_one_at_a_time (events : list Event) (s : WebSocketSession) :
  run new_session events = Some s →
  async_writes s ++ message_queue_ s = sent events
  ∧ (in_flight s ≤ 1)%nat
  ∧ (is_writing_ s = true ↔ in_flight s = 1%nat).
Proof.
  intros Hrun.
  destruct (run_orderly events [] new_session s new_session_orderly Hrun) as [Hl Hw].
  split; [exact Hl |]. destruct (is_writing_ s).
  - destruct Hw as [-> _]. split; [lia | tauto].
  - rewrite Hw. split; [lia |]. split; discriminate.
Qed.

Lemma drain_queue : ∀ queue current writes,
  last writes = Some current →
  ∃ current',
    run {| message_queue_ := queue; current_write_message_ := current;
           is_writing_ := true; async_writes := writes; in_flight := 1 |}
        (repeat (Completed false) (S (length queue)))
    = Some {| message_queue_ := []; current_write_message_ := current';
              is_writing_ := false; async_writes := writes ++ queue; in_flight := 0 |}.
Proof.
  induction queue as [| front rest IH]; intros current writes Hlast.
  - exists current. cbn. rewrite app_nil_r. reflexivity.
  - destruct (IH front (writes ++ [front]) (last_snoc _ _)) as (current' & Hrun).
    exists current'. cbn [length].
    change (repeat (Completed false) (S (S (length rest))))
      with (Completed false :: repeat (Completed false) (S (length rest))).
    cbn [run step on_write start_write message_queue_ is_writing_ async_writes
         in_flight current_write_message_].
    rewrite Hrun, <- app_assoc. reflexivity.
Qed.

(** X22 (the queue drains).  While a write is in flight, if that write
    and the following ones succeed, then as many completions as there
    are queued messages plus one empty the queue: every queued message
    has gone to the socket, in order, and the writer is idle. *)
Theorem successful_writes_drain_queue (events : list Event) (s : WebSocketSession) :
  run new_session events = Some s →
  is_writing_ s = true →
  ∃ s', run s (repeat (Completed false) (S (length (message_queue_ s)))) = Some s'
        ∧ message_queue_ s' = []
        ∧ async_writes s' = sent events
        ∧ is_writing_ s' = false
        ∧ in_flight s' = 0%nat.
Proof.
  intros Hrun Hw.
  destruct (run_orderly events [] new_session s new_session_orderly Hrun) as [Hl Ho].
  rewrite Hw in Ho. destruct Ho as [Hn Hlast].
  destruct s as [queue current writing writes flying]. cbn in *. subst writing flying.
  destruct (drain_queue queue current writes Hlast) as (current' & Hd).
  eexists. split; [exact Hd |]. cbn. rewrite Hl. repeat split.
Qed.

(** X23 (a failed write stalls the queue).  When a write fails the
    writer goes idle with the queue as it was: the messages behind the
    failed one stay queued and no completion is outstanding, so nothing
    is written until [send_message] is called again; that call then
    writes the oldest queued message, not the one it was given (unless
    the queue was empty), and the failed message is not written again. *)
Theorem failed_write_stalls_queue (events : list Event) (s s' : WebSocketSession) :
  run new_session events = Some s →
  step s (Completed true) = Some s' →
  message_queue_ s' = message_queue_ s
  ∧ async_writes s' = async_writes s
  ∧ is_writing_ s' = false
  ∧ (∀ ec, step s' (Completed ec) = None)
  ∧ ∀ message,
      async_writes (send_message message s')
      = async_writes s ++ [hd message (message_queue_ s)]
      ∧ message_queue_ (send_message message s')
        = tl (message_queue_ s ++ [message]).
Proof.
  intros Hrun Hstep.
  destruct (run_orderly events [] new_session s new_session_orderly Hrun) as [Hl Ho].
  destruct s as [queue current writing writes flying]. cbn in *.
  destruct flying as [| n]; [discriminate Hstep |]. injection Hstep as <-.
  destruct writing; [| discriminate Ho]. destruct Ho as [Hn _]. injection Hn as ->.
  cbn. repeat split; destruct queue; reflexivity.
Qed.

End WriterExtras.

Section WriterWitnesses.
Import Writer.

Lemma writes_in_order_one_at_a_time_witness :
  async_writes
    {| message_queue_ := ["c"]; current_write_message_ := "b"; is_writing_ := true;
       async_writes := ["a"; "b"]; in_flight := 1 |}
  ++ message_queue_
       {| message_queue_ := ["c"]; current_write_message_ := "b"; is_writing_ := true;
          async_writes := ["a"; "b"]; in_flight := 1 |}
  = sent [Send "a"; Send "b"; Completed false; Send "c"]
  ∧ (in_flight
       {| message_queue_ := ["c"]; current_write_message_ := "b"; is_writing_ := true;
          async_writes := ["a"; "b"]; in_flight := 1 |} ≤ 1)%nat
  ∧ (is_writing_
       {| message_queue_ := ["c"]; current_write_message_ := "b"; is_writing_ := true;
          async_writes := ["a"; "b"]; in_flight := 1 |} = true
     ↔ in_flight
         {| message_queue_ := ["c"]; current_write_message_ := "b"; is_writing_ := true;
            async_writes := ["a"; "b"]; in_flight := 1 |} = 1%nat).
Proof.
  apply (writes_in_order_one_at_a_time [Send "a"; Send "b"; Completed false; Send "c"]).
  vm_compute. reflexivity.
Defined.

Lemma successful_writes_drain_queue_witness :
  ∃ s',
    run {| message_queue_ := ["b"; "c"]; current_write_message_ := "a";
           is_writing_ := true; async_writes := ["a"]; in_flight := 1 |}
        (repeat (Completed false)
           (S (length (message_queue_
                         {| message_queue_ := ["b"; "c"]; current_write_message_ := "a";
                            is_writing_ := true; async_writes := ["a"];
                            in_flight := 1 |})))) = Some s'
    ∧ message_queue_ s' = []
    ∧ async_writes s' = sent [Send "a"; Send "b"; Send "c"]
    ∧ is_writing_ s' = false
    ∧ in_flight s' = 0%nat.
Proof.
  apply (successful_writes_drain_queue [Send "a"; Send "b"; Send "c"]).
  - vm_compute. reflexivity.
  - reflexivity.
Defined.

Lemma failed_write_stalls_queue_witness :
  message_queue_
    {| message_queue_ := ["b"]; current_write_message_ := "a"; is_writing_ := false;
       async_writes := ["a"]; in_flight := 0 |}
  = message_queue_
      {| message_queue_ := ["b"]; current_write_message_ := "a"; is_writing_ := true;
         async_writes := ["a"]; in_flight := 1 |}
  ∧ async_writes
      {| message_queue_ := ["b"]; current_write_message_ := "a"; is_writing_ := false;
         async_writes := ["a"]; in_flight := 0 |}
    = async_writes
        {| message_queue_ := ["b"]; current_write_message_ := "a"; is_writing_ := true;
           async_writes := ["a"]; in_flight := 1 |}
  ∧ is_writing_
      {| message_queue_ := ["b"]; current_write_message_ := "a"; is_writing_ := false;
         async_writes := ["a"]; in_flight := 0 |} = false
  ∧ (∀ ec,
       step {| message_queue_ := ["b"]; current_write_message_ := "a";
               is_writing_ := false; async_writes := ["a"]; in_flight := 0 |}
            (Completed ec) = None)
  ∧ ∀ message,
      async_writes
        (send_message message
           {| message_queue_ := ["b"]; current_write_message_ := "a";
              is_writing_ := false; async_writes := ["a"]; in_flight := 0 |})
      = async_writes
          {| message_queue_ := ["b"]; current_write_message_ := "a"; is_writing_ := true;
             async_writes := ["a"]; in_flight := 1 |}
        ++ [hd message
              (message_queue_
                 {| message_queue_ := ["b"]; current_write_message_ := "a";
                    is_writing_ := true; async_writes := ["a"]; in_flight := 1 |})]
      ∧ message_queue_
          (send_message message
             {| message_queue_ := ["b"]; current_write_message_ := "a";
                is_writing_ := false; async_writes := ["a"]; in_flight := 0 |})
        = tl (message_queue_
                {| message_queue_ := ["b"]; current_write_message_ := "a";
                   is_writing_ := true; async_writes := ["a"]; in_flight := 1 |}
              ++ [message]).
Proof.
  apply (failed_write_stalls_queue [Send "a"; Send "b"]).
  - vm_compute. reflexivity.
  - vm_compute. reflexivity.
Defined.

End WriterWitnesses.

(** ** The server in single-connection mode *)

Section SingleExtras.
Import Gateway Single.
Variable vendor_result : list ApiCall → ApiCall → Z.

Lemma leave_subscribers session st u j :
  instrument_subscribers_ (leave session (st, u) j).1
  = erase_from j session (instrument_subscribers_ st).
Proof.
  unfold leave, erase_from.
  destruct (instrument_subscribers_ st !! j) as [subscribers |]; [| reflexivity].
  cbn zeta. destruct (decide (subscribers ∖ {[session]} = ∅)); reflexivity.
Qed.

Lemma leave_rest session st u j :
  sessions_ (leave session (st, u) j).1 = sessions_ st
  ∧ session_last_sent_structs_ (leave session (st, u) j).1 = session_last_sent_structs_ st
  ∧ session_last_versions_ (leave session (st, u) j).1 = session_last_versions_ st
  ∧ pending_peek_sessions_ (leave session (st, u) j).1 = pending_peek_sessions_ st.
Proof.
  unfold leave.
  destruct (instrument_subscribers_ st !! j) as [subscribers |]; [| repeat split].
  cbn zeta. destruct (decide (subscribers ∖ {[session]} = ∅)); repeat split.
Qed.

Lemma leave_all_subscribers session l : ∀ st u i,
  Spec.subscribers_of (fold_left (leave session) l (st, u)).1 i
  = if decide (i ∈ l) then Spec.subscribers_of st i ∖ {[session]}
    else Spec.subscribers_of st i.
Proof.
  induction l as [| j l IH]; intros st u i.
  - cbn. rewrite decide_False by apply not_elem_of_nil. reflexivity.
  - cbn [fold_left].
    destruct (leave session (st, u) j) as [st1 u1] eqn:E.
    assert (H1 : ∀ k, Spec.subscribers_of st1 k
                      = if decide (j = k) then Spec.subscribers_of st k ∖ {[session]}
                        else Spec.subscribers_of st k).
    { intros k. unfold Spec.subscribers_of.
      replace (instrument_subscribers_ st1)
        with (instrument_subscribers_ (leave session (st, u) j).1) by (rewrite E; reflexivity).
      rewrite leave_subscribers, erase_from_lookup.
      destruct (decide (j = k)) as [-> | _]; reflexivity. }
    rewrite IH.
    destruct (decide (i ∈ l)) as [Hin | Hnin];
      destruct (decide (i ∈ j :: l)) as [Hin' | Hnin']; rewrite H1.
    + destruct (decide (j = i)); [| reflexivity].
      apply set_eq. intros x. rewrite !elem_of_difference. tauto.
    + exfalso. apply Hnin', elem_of_cons. right. exact Hin.
    + apply elem_of_cons in Hin' as [-> | Hin']; [| contradiction].
      destruct (decide (j = j)); [reflexivity | contradiction].
    + destruct (decide (j = i)) as [-> | _]; [| reflexivity].
      exfalso. apply Hnin', list_elem_of_here.
Qed.

Lemma leave_all_rest session l : ∀ st u,
  sessions_ (fold_left (leave session) l (st, u)).1 = sessions_ st
  ∧ session_last_sent_structs_ (fold_left (leave session) l (st, u)).1
    = session_last_sent_structs_ st
  ∧ session_last_versions_ (fold_left (leave session) l (st, u)).1
    = session_last_versions_ st
  ∧ pending_peek_sessions_ (fold_left (leave session) l (st, u)).1
    = pending_peek_sessions_ st.
Proof.
  induction l as [| j l IH]; intros st u; [repeat split |].
  cbn [fold_left]. pose proof (leave_rest session st u j) as (A1 & A2 & A3 & A4).
  destruct (leave session (st, u) j) as [st1 u1]. cbn [fst] in *.
  destruct (IH st1 u1) as (B1 & B2 & B3 & B4).
  repeat split; congruence.
Qed.

(** X24 (a closed session is forgotten).  [remove_session] in
    single-connection mode, for a registered session whose own
    subscription set covers the instruments it subscribes to, takes the
    session out of the subscribers of every instrument and changes no
    other subscriber; the session is no longer registered, has no
    cursors left and is not parked. *)
Theorem remove_session_forgets (st : MarketDataServer) (u : Upstream)
    (session : string) (s : WebSocketSession) :
  sessions_ st !! session = Some s →
  (∀ i, session ∈ Spec.subscribers_of st i → i ∈ subscriptions_ s) →
  (∀ i, Spec.subscribers_of (remove_session st u session).1 i
        = Spec.subscribers_of st i ∖ {[session]})
  ∧ sessions_ (remove_session st u session).1 !! session = None
  ∧ session_last_sent_structs_ (remove_session st u session).1 !! session = None
  ∧ session_last_versions_ (remove_session st u session).1 !! session = None
  ∧ session ∉ pending_peek_sessions_ (remove_session st u session).1.
Proof.
  intros Hs Hcover. unfold remove_session. rewrite Hs.
  pose proof (leave_all_subscribers session (in_order (subscriptions_ s)) st u) as Hsub.
  pose proof (leave_all_rest session (in_order (subscriptions_ s)) st u)
    as (A1 & A2 & A3 & A4).
  destruct (fold_left (leave session) (in_order (subscriptions_ s)) (st, u)) as [st1 u1].
  cbn [fst] in *. cbn.
  split; [| split; [apply lookup_delete_eq | split; [apply lookup_delete_eq |
            split; [apply lookup_delete_eq |
                    rewrite elem_of_difference, elem_of_singleton; tauto]]]].
  intros i. change (Spec.subscribers_of st1 i = Spec.subscribers_of st i ∖ {[session]}).
  rewrite Hsub. destruct (decide (i ∈ in_order (subscriptions_ s))) as [Hin | Hnin];
    [reflexivity |].
  apply set_eq. intros x. rewrite elem_of_difference, elem_of_singleton.
  split; [| tauto]. intros Hx. split; [exact Hx |]. intros ->.
  apply Hnin, elem_of_in_order, Hcover, Hx.
Qed.

(** *** An instrument that is held *)

Lemma leave_quiet holder i session st u j :
  holder ∈ Spec.subscribers_of st i →
  session ≠ holder ∨ j ≠ i →
  holder ∈ Spec.subscribers_of (leave session (st, u) j).1 i
  ∧ List.filter (names i) (api_calls (leave session (st, u) j).2)
    = List.filter (names i) (api_calls u).
Proof.
  intros Hh Hne. split.
  - unfold Spec.subscribers_of. rewrite leave_subscribers, erase_from_lookup.
    destruct (decide (j = i)) as [-> | _]; [| exact Hh].
    apply elem_of_difference. split; [exact Hh |].
    rewrite elem_of_singleton. intros <-. destruct Hne as [H | H]; apply H; reflexivity.
  - unfold leave.
    destruct (instrument_subscribers_ st !! j) as [subscribers |] eqn:Hj; [| reflexivity].
    cbn zeta. destruct (decide (subscribers ∖ {[session]} = ∅)) as [He | _]; [| reflexivity].
    cbn [snd]. destruct (ctp_api_ u && ctp_logged_in_ u); [| reflexivity].
    cbn [api_calls with_api_calls]. rewrite List.filter_app. cbn [List.filter names].
    destruct (bool_decide (j = i)) eqn:Hji; [| apply app_nil_r].
    apply bool_decide_eq_true in Hji. subst j. exfalso.
    unfold Spec.subscribers_of in Hh. rewrite Hj in Hh. cbn in Hh.
    assert (Hin : holder ∈ subscribers ∖ {[session]}).
    { apply elem_of_difference. split; [exact Hh |]. rewrite elem_of_singleton.
      intros <-. destruct Hne as [H | H]; apply H; reflexivity. }
    rewrite He in Hin. apply (not_elem_of_empty holder Hin).
Qed.

Lemma leave_all_quiet holder i session l : ∀ st u,
  holder ∈ Spec.subscribers_of st i →
  session ≠ holder →
  holder ∈ Spec.subscribers_of (fold_left (leave session) l (st, u)).1 i
  ∧ List.filter (names i) (api_calls (fold_left (leave session) l (st, u)).2)
    = List.filter (names i) (api_calls u).
Proof.
  induction l as [| j l IH]; intros st u Hh Hne; [split; [exact Hh | reflexivity] |].
  cbn [fold_left].
  destruct (leave_quiet holder i session st u j Hh (or_introl Hne)) as [H1 H2].
  destruct (leave session (st, u) j) as [st1 u1]. cbn [fst snd] in H1, H2.
  destruct (IH st1 u1 H1 Hne) as [H3 H4]. split; [exact H3 | congruence].
Qed.

Lemma subscribe_quiet holder i session st u j :
  holder ∈ Spec.subscribers_of st i →
  session ≠ holder ∨ j ≠ i →
  holder ∈ Spec.subscribers_of (subscribe_instrument st u session j).1 i
  ∧ List.filter (names i) (api_calls (subscribe_instrument st u session j).2)
    = List.filter (names i) (api_calls u).
Proof.
  intros Hh Hne. unfold subscribe_instrument. cbn zeta.
  assert (Hkeep : holder ∈ Spec.subscribers_of
                    (with_subscribers
                       (insert_into j session (instrument_subscribers_ st)) st) i).
  { unfold Spec.subscribers_of. cbn. rewrite insert_into_lookup.
    destruct (decide (j = i)) as [-> | _]; [| exact Hh].
    apply elem_of_union. right. exact Hh. }
  destruct (_ && _ && _) eqn:Hc; cbn [fst snd]; (split; [exact Hkeep |]); [| reflexivity].
  cbn [api_calls with_api_calls]. rewrite List.filter_app. cbn [List.filter names].
  destruct (bool_decide (j = i)) eqn:Hji; [| apply app_nil_r].
  apply bool_decide_eq_true in Hji. subst j. exfalso.
  apply andb_prop in Hc as [Hc _]. apply andb_prop in Hc as [Hc _].
  apply Nat.eqb_eq in Hc. cbn in Hc.
  change (size (default ∅ (insert_into i session (instrument_subscribers_ st) !! i)) = 1%nat)
    in Hc.
  rewrite insert_into_lookup, decide_True in Hc by reflexivity.
  apply size_1_elem_of in Hc as (x & Hx).
  assert (H1 : session ∈ ({[session]} ∪ default ∅ (instrument_subscribers_ st !! i)
                          : gset string))
    by (apply elem_of_union; left; apply elem_of_singleton; reflexivity).
  assert (H2 : holder ∈ ({[session]} ∪ default ∅ (instrument_subscribers_ st !! i)
                         : gset string))
    by (apply elem_of_union; right; exact Hh).
  rewrite Hx in H1, H2. apply elem_of_singleton in H1, H2.
  destruct Hne as [H | H]; apply H; congruence.
Qed.

Lemma step_quiet holder i acc e acc' :
  holder ∈ Spec.subscribers_of acc.1 i →
  e ≠ Subscribe holder i → e ≠ Unsubscribe holder i → e ≠ RemoveSession holder →
  step vendor_result acc e = Some acc' →
  holder ∈ Spec.subscribers_of acc'.1 i
  ∧ List.filter (names i) (api_calls acc'.2) = List.filter (names i) (api_calls acc.2).
Proof.
  destruct acc as [st u]. cbn [fst snd]. intros Hh H1 H2 H3 Hstep.
  destruct e as [s j | s j | s |]; cbn [step] in Hstep.
  - injection Hstep as <-. apply subscribe_quiet; [exact Hh |].
    destruct (decide (s = holder)) as [-> | Hs]; [| left; exact Hs].
    right. intros ->. apply H1. reflexivity.
  - injection Hstep as <-. unfold unsubscribe_instrument. apply leave_quiet; [exact Hh |].
    destruct (decide (s = holder)) as [-> | Hs]; [| left; exact Hs].
    right. intros ->. apply H2. reflexivity.
  - injection Hstep as <-.
    assert (Hs : s ≠ holder) by (intros ->; apply H3; reflexivity).
    unfold remove_session.
    destruct (sessions_ st !! s) as [sess |].
    + destruct (leave_all_quiet holder i s (in_order (subscriptions_ sess)) st u Hh Hs)
        as [A B].
      destruct (fold_left (leave s) (in_order (subscriptions_ sess)) (st, u)) as [st1 u1].
      cbn [fst snd] in *. split; [exact A | exact B].
    + cbn [fst snd]. split; [exact Hh | reflexivity].
  - unfold ctp_login in Hstep. destruct (negb (ctp_api_ u)); [discriminate Hstep |].
    injection Hstep as <-. cbn [fst snd api_calls]. split; [exact Hh |].
    rewrite List.filter_app. cbn. apply app_nil_r.
Qed.

(** X25 (a held instrument is quiet).  In single-connection mode, while
    one session stays among the subscribers of an instrument — it sends
    no request for it and is not removed — whatever the other sessions
    do (subscribe, unsubscribe, disconnect) and whenever the front
    connects, the server sends the vendor no request for that
    instrument.  In particular an instrument first subscribed before the
    login is not subscribed upstream by the sessions that join later. *)
Theorem held_instrument_is_quiet (holder i : string) (events : list Event)
    (st st' : MarketDataServer) (u u' : Upstream) :
  holder ∈ Spec.subscribers_of st i →
  Forall (fun e => e ≠ Subscribe holder i ∧ e ≠ Unsubscribe holder i
                   ∧ e ≠ RemoveSession holder) events →
  run vendor_result (st, u) events = Some (st', u') →
  holder ∈ Spec.subscribers_of st' i
  ∧ List.filter (names i) (api_calls u') = List.filter (names i) (api_calls u).
Proof.
  revert st u. induction events as [| e events IH]; intros st u Hh Hev Hrun.
  - cbn in Hrun. injection Hrun as <- <-. split; [exact Hh | reflexivity].
  - cbn [run] in Hrun. apply Forall_cons in Hev as [(H1 & H2 & H3) Hev].
    destruct (step vendor_result (st, u) e) as [[st1 u1] |] eqn:Hstep; [| discriminate Hrun].
    destruct (step_quiet holder i (st, u) e (st1, u1) Hh H1 H2 H3 Hstep) as [A B].
    cbn [fst snd] in A, B.
    destruct (IH st1 u1 A Hev Hrun) as [C D]. split; [exact C | congruence].
Qed.

End SingleExtras.

Section SingleWitnesses.
Import Gateway Single.

Lemma remove_session_forgets_witness :
  (∀ i, Spec.subscribers_of
          (remove_session
             (with_sessions
                {[ "s1" := {| session_id_ := "s1"; subscriptions_ := {[ "cu2501" ]} |} ]}
                (with_subscribers {[ "cu2501" := {[ "s1"; "s2" ]} ]} (new_server 0)))
             {| ctp_api_ := true; ctp_connected_ := true; ctp_logged_in_ := true;
                request_id_ := 1; api_calls := [] |} "s1").1 i
        = Spec.subscribers_of
            (with_sessions
               {[ "s1" := {| session_id_ := "s1"; subscriptions_ := {[ "cu2501" ]} |} ]}
               (with_subscribers {[ "cu2501" := {[ "s1"; "s2" ]} ]} (new_server 0))) i
          ∖ {[ "s1" ]})
  ∧ sessions_
      (remove_session
         (with_sessions
            {[ "s1" := {| session_id_ := "s1"; subscriptions_ := {[ "cu2501" ]} |} ]}
            (with_subscribers {[ "cu2501" := {[ "s1"; "s2" ]} ]} (new_server 0)))
         {| ctp_api_ := true; ctp_connected_ := true; ctp_logged_in_ := true;
            request_id_ := 1; api_calls := [] |} "s1").1 !! "s1" = None
  ∧ session_last_sent_structs_
      (remove_session
         (with_sessions
            {[ "s1" := {| session_id_ := "s1"; subscriptions_ := {[ "cu2501" ]} |} ]}
            (with_subscribers {[ "cu2501" := {[ "s1"; "s2" ]} ]} (new_server 0)))
         {| ctp_api_ := true; ctp_connected_ := true; ctp_logged_in_ := true;
            request_id_ := 1; api_calls := [] |} "s1").1 !! "s1" = None
  ∧ session_last_versions_
      (remove_session
         (with_sessions
            {[ "s1" := {| session_id_ := "s1"; subscriptions_ := {[ "cu2501" ]} |} ]}
            (with_subscribers {[ "cu2501" := {[ "s1"; "s2" ]} ]} (new_server 0)))
         {| ctp_api_ := true; ctp_connected_ := true; ctp_logged_in_ := true;
            request_id_ := 1; api_calls := [] |} "s1").1 !! "s1" = None
  ∧ "s1" ∉ pending_peek_sessions_
             (remove_session
                (with_sessions
                   {[ "s1" := {| session_id_ := "s1"; subscriptions_ := {[ "cu2501" ]} |} ]}
                   (with_subscribers {[ "cu2501" := {[ "s1"; "s2" ]} ]} (new_server 0)))
                {| ctp_api_ := true; ctp_connected_ := true; ctp_logged_in_ := true;
                   request_id_ := 1; api_calls := [] |} "s1").1.
Proof.
  apply (remove_session_forgets _ _ "s1"
           {| session_id_ := "s1"; subscriptions_ := {[ "cu2501" ]} |}).
  - vm_compute. reflexivity.
  - intros i Hi. unfold Spec.subscribers_of, with_sessions, with_subscribers in Hi.
    cbn [instrument_subscribers_] in Hi.
    destruct (decide (i = "cu2501")) as [-> | Hne]; [vm_compute; reflexivity |].
    rewrite lookup_singleton_ne in Hi by congruence.
    exfalso. apply (not_elem_of_empty _ Hi).
Defined.

Lemma held_instrument_is_quiet_witness :
  "s1" ∈ Spec.subscribers_of
           (default
              (with_subscribers {[ "cu2501" := {[ "s1" ]} ]} (new_server 0),
               {| ctp_api_ := true; ctp_connected_ := false; ctp_logged_in_ := false;
                  request_id_ := 0; api_calls := [] |})
              (run (fun _ _ => 0)
                 (with_subscribers {[ "cu2501" := {[ "s1" ]} ]} (new_server 0),
                  {| ctp_api_ := true; ctp_connected_ := false; ctp_logged_in_ := false;
                     request_id_ := 0; api_calls := [] |})
                 [FrontConnected; Subscribe "s2" "cu2501"; Subscribe "s2" "ag2502";
                  Unsubscribe "s2" "cu2501"; RemoveSession "s3"])).1 "cu2501"
  ∧ List.filter (names "cu2501")
      (api_calls
         (default
            (with_subscribers {[ "cu2501" := {[ "s1" ]} ]} (new_server 0),
             {| ctp_api_ := true; ctp_connected_ := false; ctp_logged_in_ := false;
                request_id_ := 0; api_calls := [] |})
            (run (fun _ _ => 0)
               (with_subscribers {[ "cu2501" := {[ "s1" ]} ]} (new_server 0),
                {| ctp_api_ := true; ctp_connected_ := false; ctp_logged_in_ := false;
                   request_id_ := 0; api_calls := [] |})
               [FrontConnected; Subscribe "s2" "cu2501"; Subscribe "s2" "ag2502";
                Unsubscribe "s2" "cu2501"; RemoveSession "s3"])).2)
    = List.filter (names "cu2501")
        (api_calls
           {| ctp_api_ := true; ctp_connected_ := false; ctp_logged_in_ := false;
              request_id_ := 0; api_calls := [] |}).
Proof.
  apply (held_instrument_is_quiet (fun _ _ => 0) "s1" "cu2501"
           [FrontConnected; Subscribe "s2" "cu2501"; Subscribe "s2" "ag2502";
            Unsubscribe "s2" "cu2501"; RemoveSession "s3"]
           (with_subscribers {[ "cu2501" := {[ "s1" ]} ]} (new_server 0))).
  - vm_compute. reflexivity.
  - repeat (constructor; [repeat split; discriminate |]). constructor.
  - vm_compute. reflexivity.
Defined.

End SingleWitnesses.

(** ** A peek that finds a repeated quote *)

Section PeekExtras.
Import Quote Gateway.

Lemma fold_insert_notin {A B : Type} (f : A → B) (l : list (string * A)) :
  ∀ (m : gmap string B) i,
  i ∉ map fst l →
  fold_left (fun m entry => <[entry.1 := f entry.2]> m) l m !! i = m !! i.
Proof.
  induction l as [| a l IH]; intros m i Hi; [reflexivity |].
  cbn [fold_left]. cbn [map] in Hi. rewrite IH.
  - apply lookup_insert_ne. intros E. apply Hi. rewrite E. apply list_elem_of_here.
  - intros Hin. apply Hi. apply list_elem_of_further. exact Hin.
Qed.

Lemma fold_insert_in {A B : Type} (f : A → B) (l : list (string * A)) x i :
  ∀ m : gmap string B,
  (∀ entry, entry ∈ l → entry.1 = i → f entry.2 = x) →
  i ∈ map fst l →
  fold_left (fun m entry => <[entry.1 := f entry.2]> m) l m !! i = Some x.
Proof.
  induction l as [| a l IH]; intros m Hval Hin.
  - cbn in Hin. apply elem_of_nil in Hin. destruct Hin.
  - cbn [fold_left].
    destruct (decide (i ∈ map fst l)) as [Hl | Hl].
    + apply IH; [| exact Hl]. intros entry He. apply Hval. apply list_elem_of_further, He.
    + rewrite fold_insert_notin by exact Hl.
      cbn [map] in Hin. apply elem_of_cons in Hin as [E | Hin]; [| contradiction].
      rewrite <- E, lookup_insert_eq. f_equal. apply Hval; [apply list_elem_of_here |].
      symmetry. exact E.
Qed.

Lemma fold_insert_some {A B : Type} (f : A → B) (l : list (string * A)) i :
  ∀ m : gmap string B,
  i ∈ map fst l →
  is_Some (fold_left (fun m entry => <[entry.1 := f entry.2]> m) l m !! i).
Proof.
  induction l as [| a l IH]; intros m Hin.
  - cbn in Hin. apply elem_of_nil in Hin. destruct Hin.
  - cbn [fold_left].
    destruct (decide (i ∈ map fst l)) as [Hl | Hl]; [apply IH; exact Hl |].
    rewrite fold_insert_notin by exact Hl.
    cbn [map] in Hin. apply elem_of_cons in Hin as [E | Hin]; [| contradiction].
    rewrite <- E, lookup_insert_eq. eexists. reflexivity.
Qed.

Lemma collect_one_cache st st' lv lv' i :
  instrument_index_map_ st' = instrument_index_map_ st →
  market_data_cache_ st' = market_data_cache_ st →
  display_instruments_cache_ st' = display_instruments_cache_ st →
  lv' !! i = lv !! i →
  collect_one st' lv' i = collect_one st lv i.
Proof.
  intros E1 E2 E3 E4. unfold collect_one, get_index. rewrite E1, E2, E3, E4. reflexivity.
Qed.

Lemma collected_keys st lv l i :
  i ∈ l →
  i ∉ map fst (flat_map (collect_one st lv) l) →
  collect_one st lv i = [].
Proof.
  intros Hi Hn.
  destruct (collect_one_cases st lv i) as [E | (idx & e & _ & _ & _ & _ & _ & _ & E)];
    [exact E |].
  exfalso. apply Hn. apply list_elem_of_fmap. eexists (i, _). split; [reflexivity |].
  apply list_elem_of_In, in_flat_map. exists i. split; [apply list_elem_of_In, Hi |].
  rewrite E. left. reflexivity.
Qed.

Lemma collected_version st lv l entry :
  entry ∈ flat_map (collect_one st lv) l →
  ∃ idx e,
    instrument_index_map_ st !! entry.1 = Some idx
    ∧ market_data_cache_ st !! Z.to_nat idx = Some e
    ∧ Snapshot.version entry.2 = sequence e / 2.
Proof.
  intros Hin. apply list_elem_of_In, in_flat_map in Hin as (j & _ & Hin).
  destruct (collect_one_cases st lv j) as [E | (idx & e & Hi & _ & He & _ & _ & _ & E)];
    rewrite E in Hin; [destruct Hin |].
  destruct Hin as [<- | []]. exists idx, e. repeat split; assumption.
Qed.

(** X26 (a repeated quote uses up the peek).  When a session that has
    been sent quotes before peeks — or is woken from the pending set,
    which runs the same function — and every instrument whose version
    has moved holds a quote with no visible change against the one last
    sent, the session is sent nothing and is not parked: the peek is
    used up without an answer, and it is the session's next peek, with
    the cache as it is, that parks it. *)
Theorem unchanged_quote_consumes_peek (st : MarketDataServer) (s : string)
    (sess : WebSocketSession) :
  sessions_ st !! s = Some sess →
  Spec.cursor st s ≠ ∅ →
  collect_market_data_updates st (subscriptions_ sess)
    (default ∅ (session_last_versions_ st !! s)) ≠ [] →
  Forall (fun entry => needs_sending (Spec.cursor st s) entry = false)
    (collect_market_data_updates st (subscriptions_ sess)
       (default ∅ (session_last_versions_ st !! s))) →
  sent_frames (handle_peek_message st s) = sent_frames st
  ∧ pending_peek_sessions_ (handle_peek_message st s) = pending_peek_sessions_ st
  ∧ handle_peek_message (handle_peek_message st s) s
    = with_pending ({[s]} ∪ pending_peek_sessions_ st) (handle_peek_message st s).
Proof.
  intros Hs Hcur Hne Hall.
  set (lv := default ∅ (session_last_versions_ st !! s)) in *.
  set (updates := collect_market_data_updates st (subscriptions_ sess) lv) in *.
  assert (Hsubs : subscriptions_ sess ≠ ∅).
  { intros E. apply Hne. unfold updates, collect_market_data_updates.
    rewrite E, in_order_empty. reflexivity. }
  assert (Hfilter : List.filter (needs_sending (Spec.cursor st s)) updates = []).
  { clear -Hall. induction Hall as [| entry l H _ IH]; [reflexivity |].
    cbn [List.filter]. rewrite H. exact IH. }
  assert (E : handle_peek_message st s = update_session_state st s updates).
  { unfold handle_peek_message. rewrite Hs.
    destruct (decide (subscriptions_ sess = ∅)) as [H | _]; [contradiction |].
    cbn zeta. fold lv. fold updates.
    destruct updates as [| entry rest] eqn:Hu; [contradiction |].
    rewrite bool_decide_eq_false_2 by exact Hcur. cbn [negb].
    unfold send_diff_snapshot. unfold Spec.cursor in Hfilter. rewrite Hfilter.
    reflexivity. }
  rewrite E. split; [reflexivity |]. split; [reflexivity |].
  set (st1 := update_session_state st s updates).
  set (lv1 := fold_left (fun m entry => <[entry.1 := Snapshot.version entry.2]> m)
                        updates lv).
  set (structs1 := fold_left (fun m entry => <[entry.1 := Snapshot.data entry.2]> m)
                             updates (Spec.cursor st s)).
  assert (Hlv1 : default ∅ (session_last_versions_ st1 !! s) = lv1).
  { unfold st1, update_session_state. cbn. rewrite lookup_insert_eq. reflexivity. }
  assert (Hst1 : default ∅ (session_last_sent_structs_ st1 !! s) = structs1).
  { unfold st1, update_session_state. cbn. rewrite lookup_insert_eq. reflexivity. }
  assert (Hstructs : structs1 ≠ ∅).
  { destruct updates as [| entry rest] eqn:Hu; [contradiction |].
    assert (H : is_Some (structs1 !! entry.1)).
    { unfold structs1. apply (fold_insert_some Snapshot.data). cbn [map].
      apply list_elem_of_here. }
    intros E1. rewrite E1, lookup_empty in H. destruct H as [x H]. discriminate H. }
  assert (Hnone : collect_market_data_updates st1 (subscriptions_ sess) lv1 = []).
  { unfold collect_market_data_updates.
    assert (Hin : Forall (fun i => i ∈ in_order (subscriptions_ sess))
                         (in_order (subscriptions_ sess)))
      by (apply Forall_forall; intros i Hi; exact Hi).
    revert Hin. generalize (in_order (subscriptions_ sess)) at 2 3 as l.
    induction l as [| i l IH]; intros Hin; [reflexivity |].
    apply Forall_cons in Hin as [Hi Hin]. cbn [flat_map]. rewrite (IH Hin), app_nil_r.
    destruct (decide (i ∈ map fst updates)) as [Hk | Hk].
    - destruct (collect_one_cases st1 lv1 i)
        as [E1 | (idx & e & Hx & _ & He & _ & _ & Hv & _)]; [exact E1 |].
      exfalso.
      assert (Hval : lv1 !! i = Some (sequence e / 2)).
      { unfold lv1. apply (fold_insert_in Snapshot.version); [| exact Hk].
        intros entry Hentry Hkey.
        destruct (collected_version st lv _ entry Hentry) as (idx' & e' & Hx' & He' & ->).
        rewrite Hkey in Hx'. change (instrument_index_map_ st !! i = Some idx) in Hx.
        rewrite Hx in Hx'. injection Hx' as <-.
        change (market_data_cache_ st !! Z.to_nat idx = Some e) in He.
        rewrite He in He'. injection He' as <-. reflexivity. }
      specialize (Hv _ Hval). lia.
    - rewrite (collect_one_cache st st1 lv lv1 i); try reflexivity.
      + apply (collected_keys st lv (in_order (subscriptions_ sess))); [exact Hi | exact Hk].
      + unfold lv1. apply fold_insert_notin. exact Hk. }
  unfold handle_peek_message at 1.
  change (sessions_ st1 !! s) with (sessions_ st !! s). rewrite Hs.
  destruct (decide (subscriptions_ sess = ∅)) as [H | _]; [contradiction |].
  cbn zeta. rewrite Hlv1, Hst1, Hnone.
  rewrite bool_decide_eq_false_2 by exact Hstructs. reflexivity.
Qed.

End PeekExtras.

Section PeekWitnesses.
Import Quote Gateway.

Lemma unchanged_quote_consumes_peek_witness :
  sent_frames (handle_peek_message Scenario.before_repeated_peek "s1")
  = sent_frames Scenario.before_repeated_peek
  ∧ pending_peek_sessions_ (handle_peek_message Scenario.before_repeated_peek "s1")
    = pending_peek_sessions_ Scenario.before_repeated_peek
  ∧ handle_peek_message (handle_peek_message Scenario.before_repeated_peek "s1") "s1"
    = with_pending ({["s1"]} ∪ pending_peek_sessions_ Scenario.before_repeated_peek)
        (handle_peek_message Scenario.before_repeated_peek "s1").
Proof.
  apply (unchanged_quote_consumes_peek Scenario.before_repeated_peek "s1"
           {| session_id_ := "s1"; subscriptions_ := {["rb2501"]} |}).
  - vm_compute. reflexivity.
  - intros E.
    assert (H : Spec.cursor Scenario.before_repeated_peek "s1" !! "rb2501" = None)
      by (rewrite E; apply lookup_empty).
    vm_compute in H. discriminate H.
  - intros E. vm_compute in E. discriminate E.
  - match goal with
    | |- Forall _ ?l =>
        let l' := eval vm_compute in l in change l with l'
    end.
    constructor; [vm_compute; reflexivity | constructor].
Defined.

End PeekWitnesses.

(** ** A session that leaves the dispatcher *)

Section CleanupExtras.
Import Dispatch.
Variable vendor_result : list UpstreamCall → UpstreamCall → Z.

Lemma remove_subscription_shrinks w s j :
  (∀ k, default ∅ (session_subscriptions_ (remove_subscription vendor_result w s j).2 !! k)
        ⊆ default ∅ (session_subscriptions_ w !! k))
  ∧ (j ∉ default ∅ (session_subscriptions_ (remove_subscription vendor_result w s j).2 !! s))
  ∧ (∀ i info',
       global_subscriptions_ (remove_subscription vendor_result w s j).2 !! i = Some info' →
       ∃ info, global_subscriptions_ w !! i = Some info
               ∧ requesting_sessions info' ⊆ requesting_sessions info
               ∧ (i = j → s ∉ requesting_sessions info')).
Proof.
  unfold remove_subscription.
  set (w1 := with_session_subs (erase_from s j (session_subscriptions_ w)) w).
  assert (S1 : ∀ k, default ∅ (session_subscriptions_ w1 !! k)
                    ⊆ default ∅ (session_subscriptions_ w !! k)).
  { intros k. unfold w1. cbn. rewrite erase_from_lookup.
    destruct (decide (s = k)) as [<- | _]; [| reflexivity].
    intros x Hx. apply elem_of_difference in Hx as [Hx _]. exact Hx. }
  assert (S2 : j ∉ default ∅ (session_subscriptions_ w1 !! s)).
  { unfold w1. cbn. rewrite erase_from_lookup, decide_True by reflexivity.
    rewrite elem_of_difference, elem_of_singleton. tauto. }
  change (global_subscriptions_ w1) with (global_subscriptions_ w).
  destruct (global_subscriptions_ w !! j) as [info |] eqn:Hrec.
  - set (w2 := update_info j (with_sessions (requesting_sessions info ∖ {[s]})) w1).
    assert (G2 : ∀ i info', global_subscriptions_ w2 !! i = Some info' →
                   ∃ info0, global_subscriptions_ w !! i = Some info0
                            ∧ requesting_sessions info' ⊆ requesting_sessions info0
                            ∧ (i = j → s ∉ requesting_sessions info')).
    { intros i info' Hi. unfold w2 in Hi. rewrite update_info_lookup in Hi.
      change (global_subscriptions_ w1) with (global_subscriptions_ w) in Hi.
      destruct (decide (j = i)) as [<- | Hne].
      - rewrite Hrec in Hi. cbn in Hi. injection Hi as <-. exists info.
        split; [exact Hrec |]. cbn. split.
        + intros x Hx. apply elem_of_difference in Hx as [Hx _]. exact Hx.
        + intros _. rewrite elem_of_difference, elem_of_singleton. tauto.
      - exists info'. split; [exact Hi |]. split; [reflexivity | congruence]. }
    destruct (decide (requesting_sessions info ∖ {[s]} = ∅)) as [He | Hne].
    + pose proof (execute_unsubscription_same vendor_result w2 j (assigned_connection_id info))
        as Hex.
      destruct (execute_unsubscription _ _ _ _) as [r w3]. cbn [snd] in Hex |- *.
      destruct Hex as [E1 E2]. cbn [session_subscriptions_ with_global global_subscriptions_].
      rewrite E1. split; [exact S1 |]. split; [exact S2 |].
      intros i info' Hi.
      destruct (decide (i = j)) as [-> | Hij];
        [rewrite lookup_delete_eq in Hi; discriminate Hi |].
      rewrite lookup_delete_ne in Hi by congruence.
      specialize (E2 i). rewrite Hi in E2.
      destruct (global_subscriptions_ w2 !! i) as [info2 |] eqn:Hi2;
        cbn [fmap option_fmap option_map] in E2; [| discriminate E2].
      injection E2 as E2.
      destruct (G2 i info2 Hi2) as (info0 & A & B & _).
      exists info0. split; [exact A |]. rewrite E2. split; [exact B | contradiction].
    + cbn [snd]. split; [exact S1 |]. split; [exact S2 | exact G2].
  - cbn [snd]. split; [exact S1 |]. split; [exact S2 |].
    intros i info' Hi. change (global_subscriptions_ w !! i = Some info') in Hi.
    exists info'. split; [exact Hi |]. split; [reflexivity |].
    intros ->. rewrite Hrec in Hi. discriminate Hi.
Qed.

Lemma remove_fold_shrinks s l : ∀ w,
  (∀ k, default ∅ (session_subscriptions_
                      (fold_left (fun w j => (remove_subscription vendor_result w s j).2) l w)
                    !! k)
        ⊆ default ∅ (session_subscriptions_ w !! k))
  ∧ (∀ j, j ∈ l →
          j ∉ default ∅ (session_subscriptions_
                           (fold_left (fun w j => (remove_subscription vendor_result w s j).2)
                                      l w) !! s))
  ∧ (∀ i info',
       global_subscriptions_
         (fold_left (fun w j => (remove_subscription vendor_result w s j).2) l w) !! i
       = Some info' →
       ∃ info, global_subscriptions_ w !! i = Some info
               ∧ requesting_sessions info' ⊆ requesting_sessions info
               ∧ (i ∈ l → s ∉ requesting_sessions info')).
Proof.
  induction l as [| j l IH]; intros w.
  - cbn [fold_left]. split; [reflexivity |]. split.
    + intros j Hj. apply elem_of_nil in Hj. destruct Hj.
    + intros i info' Hi. exists info'. split; [exact Hi |]. split; [reflexivity |].
      intros Hin. apply elem_of_nil in Hin. destruct Hin.
  - cbn [fold_left].
    destruct (remove_subscription_shrinks w s j) as (A1 & A2 & A3).
    destruct (IH (remove_subscription vendor_result w s j).2) as (B1 & B2 & B3).
    split; [| split].
    + intros k. etransitivity; [apply B1 | apply A1].
    + intros i Hi. apply elem_of_cons in Hi as [-> | Hi]; [| apply B2, Hi].
      intros Hx. apply A2. apply (B1 s). exact Hx.
    + intros i info' Hi.
      destruct (B3 i info' Hi) as (info1 & C1 & C2 & C3).
      destruct (A3 i info1 C1) as (info0 & D1 & D2 & D3).
      exists info0. split; [exact D1 |]. split; [etransitivity; [exact C2 | exact D2] |].
      intros Hin. apply elem_of_cons in Hin as [-> | Hin]; [| apply C3, Hin].
      intros Hx. apply (D3 eq_refl). apply C2. exact Hx.
Qed.

Lemma run_known max_retry_count configs events :
  Spec.requesters_known (run vendor_result (initial_world max_retry_count configs) events).
Proof.
  unfold run.
  assert (H0 : Spec.requesters_known (initial_world max_retry_count configs)).
  { intros i info Hi. cbn in Hi. rewrite lookup_empty in Hi. discriminate Hi. }
  revert H0. generalize (initial_world max_retry_count configs) as w.
  induction events as [| [t e] events IH]; intros w Hk; [exact Hk |].
  cbn [fold_left]. apply IH. apply step_known. exact Hk.
Qed.

Lemma cleanup_complete w s :
  Spec.requesters_known w →
  get_subscriptions_for_session (remove_all_subscriptions_for_session vendor_result w s) s
  = []
  ∧ ∀ i, s ∉ get_sessions_for_instrument
               (remove_all_subscriptions_for_session vendor_result w s) i.
Proof.
  intros Hk. unfold remove_all_subscriptions_for_session.
  set (l := match session_subscriptions_ w !! s with
            | Some x => in_order x
            | None => []
            end).
  assert (Hl : ∀ j, j ∈ default ∅ (session_subscriptions_ w !! s) → j ∈ l).
  { intros j Hj. unfold l. destruct (session_subscriptions_ w !! s) as [x |].
    - apply elem_of_in_order. exact Hj.
    - cbn in Hj. exfalso. apply (not_elem_of_empty j Hj). }
  pose proof (remove_fold_shrinks s l w) as H.
  remember (fold_left (fun w j => (remove_subscription vendor_result w s j).2) l w)
    as w' eqn:Ew.
  destruct H as (A1 & A2 & A3). clear Ew.
  split.
  - unfold get_subscriptions_for_session.
    destruct (session_subscriptions_ w' !! s) as [x |] eqn:Hx; [| reflexivity].
    assert (E : x = ∅).
    { apply set_eq. intros j. split; [| intros Hj; exfalso; apply (not_elem_of_empty j Hj)].
      intros Hj. exfalso. apply (A2 j).
      - apply Hl. apply (A1 s). rewrite Hx. exact Hj.
      - exact Hj. }
    rewrite E. apply in_order_empty.
  - intros i Hin. unfold get_sessions_for_instrument in Hin.
    destruct (global_subscriptions_ w' !! i) as [info' |] eqn:Hi;
      [| apply elem_of_nil in Hin; exact Hin].
    apply elem_of_in_order in Hin.
    destruct (A3 i info' Hi) as (info & B1 & B2 & B3).
    apply B3; [| exact Hin].
    apply Hl. apply (Hk i info B1). apply B2. exact Hin.
Qed.

(** X27 (a session that leaves is forgotten by the dispatcher).  After
    any run of the dispatcher, [remove_all_subscriptions_for_session]
    leaves the session with no subscription —
    [get_subscriptions_for_session] answers the empty list — and no
    instrument still lists it: [get_sessions_for_instrument] never
    names it. *)
Theorem session_cleanup_is_complete (max_retry_count : Z)
    (configs : list CTPConnectionConfig) (events : list (Z * Event)) (s : string) :
  get_subscriptions_for_session
    (remove_all_subscriptions_for_session vendor_result
       (run vendor_result (initial_world max_retry_count configs) events) s) s
  = []
  ∧ ∀ i, s ∉ get_sessions_for_instrument
               (remove_all_subscriptions_for_session vendor_result
                  (run vendor_result (initial_world max_retry_count configs) events) s) i.
Proof. apply cleanup_complete, run_known. Qed.

End CleanupExtras.

(** ** Stopping the connections *)

Section StopExtras.
Import Dispatch.
Variable vendor_result : list UpstreamCall → UpstreamCall → Z.

Lemma stopped_not_available c : is_available (stop c) = false.
Proof. reflexivity. Qed.

Lemma stop_all_available w : get_available_connections (stop_all_connections w) = [].
Proof.
  unfold get_available_connections, get_all_connections, stop_all_connections.
  cbn [connections_ with_connections].
  assert (H : Forall (fun kv : string * CTPConnection => is_available kv.2 = false)
                     (in_key_order (stop <$> connections_ w))).
  { apply Forall_forall. intros [k c] Hin. apply elem_of_in_key_order in Hin.
    rewrite lookup_fmap in Hin.
    destruct (connections_ w !! k) as [c0 |]; [| discriminate Hin].
    cbn in Hin. injection Hin as <-. apply stopped_not_available. }
  induction H as [| kv l Hkv _ IH]; [reflexivity |].
  cbn [map List.filter]. rewrite Hkv. exact IH.
Qed.

(** X28 (stopping strands the subscriptions).
    [stop_all_connections] disconnects every connection and empties
    its set of instruments, but tells the dispatcher nothing: every
    record stays as it was, an ACTIVE one still ACTIVE on a connection
    that no longer carries it.  No connection is available afterwards,
    so a first request for an instrument is refused, sends nothing
    upstream and leaves a FAILED record. *)
Theorem stop_all_strands_subscriptions (now : Z) (w : World) (s i : string) :
  global_subscriptions_ w !! i = None →
  (∀ id c, connections_ (stop_all_connections w) !! id = Some c →
           status_ c = DISCONNECTED ∧ subscribed_instruments_ c = ∅)
  ∧ global_subscriptions_ (stop_all_connections w) = global_subscriptions_ w
  ∧ connection_subscriptions_ (stop_all_connections w) = connection_subscriptions_ w
  ∧ (select_connection_round_robin (stop_all_connections w)).1 = None
  ∧ (add_subscription vendor_result now (stop_all_connections w) s i).1 = false
  ∧ upstream_calls (add_subscription vendor_result now (stop_all_connections w) s i).2
    = upstream_calls w
  ∧ status <$> global_subscriptions_
                 (add_subscription vendor_result now (stop_all_connections w) s i).2 !! i
    = Some FAILED.
Proof.
  intros Hnone.
  split.
  { intros id c Hc. unfold stop_all_connections in Hc. cbn in Hc.
    rewrite lookup_fmap in Hc. destruct (connections_ w !! id); [| discriminate Hc].
    cbn in Hc. injection Hc as <-. split; reflexivity. }
  split; [reflexivity |]. split; [reflexivity |].
  split.
  { unfold select_connection_round_robin. rewrite stop_all_available. reflexivity. }
  unfold add_subscription.
  change (global_subscriptions_ (stop_all_connections w)) with (global_subscriptions_ w).
  rewrite Hnone.
  set (w1 := with_session_subs _ (with_global _ (stop_all_connections w))).
  assert (Hav : get_available_connections w1 = get_available_connections (stop_all_connections w))
    by reflexivity.
  unfold select_connection_round_robin. rewrite Hav, stop_all_available.
  cbn [fst snd].
  destruct (retry_if_allowed_spec i (update_info i (with_sub_status FAILED) w1)) as (E & _).
  split; [reflexivity |]. split.
  - unfold retry_if_allowed.
    destruct (global_subscriptions_ (update_info i (with_sub_status FAILED) w1) !! i)
      as [info |]; [destruct (retry_count info <? _) |]; reflexivity.
  - rewrite E, update_info_lookup_eq. unfold w1. cbn. rewrite lookup_insert_eq. reflexivity.
Qed.

End StopExtras.

Section StopWitnesses.
Import Dispatch.

Lemma stop_all_strands_subscriptions_witness :
  (∀ id c, connections_ (stop_all_connections Scenario.two_fronts) !! id = Some c →
           status_ c = DISCONNECTED ∧ subscribed_instruments_ c = ∅)
  ∧ global_subscriptions_ (stop_all_connections Scenario.two_fronts)
    = global_subscriptions_ Scenario.two_fronts
  ∧ connection_subscriptions_ (stop_all_connections Scenario.two_fronts)
    = connection_subscriptions_ Scenario.two_fronts
  ∧ (select_connection_round_robin (stop_all_connections Scenario.two_fronts)).1 = None
  ∧ (add_subscription Scenario.accepts 9
       (stop_all_connections Scenario.two_fronts) "s2" "hc2501").1 = false
  ∧ upstream_calls
      (add_subscription Scenario.accepts 9
         (stop_all_connections Scenario.two_fronts) "s2" "hc2501").2
    = upstream_calls Scenario.two_fronts
  ∧ status <$> global_subscriptions_
                 (add_subscription Scenario.accepts 9
                    (stop_all_connections Scenario.two_fronts) "s2" "hc2501").2 !! "hc2501"
    = Some FAILED.
Proof.
  apply (stop_all_strands_subscriptions Scenario.accepts 9 Scenario.two_fronts "s2" "hc2501").
  vm_compute. reflexivity.
Defined.

End StopWitnesses.
